(* ===== verification/_CoqProject ===== *)
-Q . S2P
Prelude.v
GoStd.v
Json.v
JsonText.v
Http.v
GoTime.v
RateLimit.v
Config.v
Proxy.v
Codec.v
GrpcCtx.v
Interceptors.v
GatewayAuth.v
Aead.v
Aes.v
Keyring.v
KeyringStore.v
Lock.v
LockHandler.v
KeyService.v
Lru.v
Cache.v
CryptoSvc.v
CryptoHandler.v
CircuitBreaker.v
Policy.v
Fpe.v
Tokenize.v
TokenizeHandler.v
Sha256.v
Jwt.v
TokenRepo.v
ApiKeyRepo.v
PolicyRepo.v
Auth.v
AuthHandler.v
AuditStorage.v
AuditJson.v
AuditSvc.v
AuditHandler.v
Gateway.v
System.v
Router.v
