(* ===== verification/Prelude.v ===== *)
(** * A verification library for the microservice vault (grpc-vault-ha)

    The program is a set of Go services that together make a vault.
    - The lock service keeps the vault itself: it is initialised with key shares, sealed
      and unsealed, stores versioned secrets, and owns the keyring of encryption keys.
    - The crypto service encrypts and decrypts for clients; it fetches key material from
      the lock service over gRPC and caches it.
    - The tokenize service does format-preserving encryption and masking, with keys it
      fetches and caches the same way.
    - The auth service issues and validates signed tokens and API keys and evaluates
      access policies.
    - The audit service buffers audit entries and writes them to a storage.
    - The gateway is the HTTP entrance: it limits the rate of its clients and forwards
      JSON requests to the services over pooled connections with circuit breakers.

    ** Files and what they model (paths under src/)

    - [Prelude]: errors ([error], [errors_Is]), results ([result], and [outcome] for code
      that may panic) with their notations, machine integers ([wraps], [wrapu]), bytes,
      random bytes and time, shared tactics and list lemmas.
    - [GoStd]: what the code uses of Go's standard library: strings, strconv, base64,
      hex, utf8, path, float64, slices. [Json]: encoding/json, the encoder and the
      decoder of texts and of structs, [JsonText] its maps and lines. [Http]: requests, responses, headers and query
      strings of net/http. [GoTime]: how durations and instants print and instants parse. [Sha256]:
      crypto/sha256. [Aead]: crypto/cipher's AEAD as an interface with laws, and an
      executable AES-GCM that satisfies it. [GrpcCtx]: contexts and metadata of gRPC.
    - [Config]: services/*/internal/config, the six [Load] functions and their helpers.
    - [Aes]: pkg/crypto/aes, the ciphers and the text format of ciphertexts.
    - [Keyring]: pkg/crypto/keyring. Keys are slices: the state has a heap of byte
      arrays, so that erasing a key through one pointer is seen through the others.
      [KeyringStore]: its [Marshal] and [Unmarshal].
    - [Lock], [LockHandler]: services/lock/internal/service and handler.
    - [KeyService]: the interface through which crypto and tokenize see the lock service
      (class [KeyService] with [KeyServiceLaws]) and its implementation by [LockHandler].
    - [Lru]: the third-party LRU cache as an interface with laws, and a list that
      implements it. [Cache]: pkg/storage/cache on top of it.
    - [CryptoSvc], [CryptoHandler]: services/crypto/internal. Concurrent requests are
      interleaved by a step relation over the parts of [getKey] between two accesses to
      shared state.
    - [CircuitBreaker]: services/gateway/internal/middleware/circuitbreaker.go, with the
      interleavings of concurrent calls.
    - [Policy]: pkg/auth/policy, the policy engine.
    - [Fpe]: pkg/crypto/fpe over the interface of the third-party FF1 cipher.
      [Tokenize], [TokenizeHandler]: services/tokenize/internal.
    - [Jwt]: pkg/auth/jwt over the interface of the third-party JWT library.
      [TokenRepo], [ApiKeyRepo], [PolicyRepo]: services/auth/internal/repository.
      [Auth], [AuthHandler]: services/auth/internal/service and handler; the goroutines
      that update the time of last use are tasks that run at any later time.
    - [AuditStorage]: services/audit/internal/storage, the Go interface [Storage] as a
      class with its two implementations. [AuditJson]: the text of an entry. [AuditSvc]: services/audit/internal/service, the
      buffer and the flush worker as a step relation. [AuditHandler]: the handler.
    - [RateLimit], [Proxy], [GatewayAuth]: services/gateway/internal/middleware/ratelimit.go,
      proxy/grpc_proxy.go and middleware/auth.go. The rate limiter keeps its clients, with
      the limiters of the third-party package, in a store, as callers hold pointers to them,
      and its runs interleave the atomic steps of requests and of the cleanup loop; the pool
      records which connections are open.
    - [Interceptors]: pkg/grpcutil/interceptors and the loggers of pkg/telemetry/logging.
      [Codec]: pkg/grpcutil/codec.
    - [Gateway]: services/gateway/internal/handler/gateway_handler.go over the interface
      [Backends] of the services behind it. [System]: the lock, crypto and tokenize models
      as the implementation of that interface. [Router]: handler/health_handler.go,
      router/router.go and what cmd/server/main.go builds: the whole chain for a request.

    A struct is a record with the fields the code uses, an operation a function from the
    state to the new state and the answer; definitions keep the Go names, with an
    underscore where the name is taken. Locks make an operation atomic; where an
    operation is not one critical section, its parts are separate steps. Clock readings,
    random bytes and the outcomes of remote calls are arguments. Where Go iterates over a
    map, the order is an argument or does not matter. Errors are values; a panic is
    [Panic].

    ** What the theorems show

    - Vault: every reachable vault is well formed, sealed vaults refuse every operation on
      secrets and keys, a vault can be sealed and unsealed again with its secrets, secrets
      behave as the history of their versions, keys have all their versions, sealing
      overwrites key material, a stored keyring comes back with all its keys; and, against
      the intent, all keys are lost by sealing.
    - Encryption: ciphertexts decrypt to the plaintext with the version they carry, and
      only an authentic ciphertext decrypts; the services' round trips hold for any
      interleaving of requests and any later state of the vault, batches are the single
      operations item by item, and the key cache answers what was last written, except
      where two cache keys collide or a rotation is missed.
    - Tokenisation: tokens keep length and alphabet and come back, masking keeps the ends.
    - Access: policy evaluation is "the first rule that decides"; the evaluator always
      agrees with the stored policies; issued tokens are accepted until they expire or
      are revoked, accepted tokens were signed by the service and authorised by a stored
      rule; API keys live from creation to expiry or revocation; and, against the intent,
      revocation waits for the token cache, and the validation RPC panics on valid tokens.
    - Audit: no entry is lost, duplicated or reordered on its way to the storage, no
      wake-up of the flush worker is missed, the log file grows by one line per entry and
      its lines can be read back, queries are pages.
    - Gateway: the circuit breaker makes only the documented transitions, stays open until
      its timeout, recovers, and is never stuck in half-open while calls return. Requests
      get live connections, in turn; a client is served by the token buckets made for it
      alone, by one of them as long as its first requests do not interleave and it is not
      found idle, and its rate is bounded by their number. Handlers behind the
      authentication act only for callers that may; the gRPC interceptor decides before
      the handler.
    - System: every HTTP request is answered by the chain [main] builds, with JSON or a
      refusal, and no handler panics; what the encrypt endpoint answers, the decrypt
      endpoint turns back into the plaintext, through JSON, pool, breaker, handlers and
      vault; and, against the intent, credentials make no difference, malformed requests
      open the breaker for everyone, and one initialization can end the lock service.
    - Configuration: the gateway's configuration is what the environment says, with
      durations as sums of units and the default for those that do not fit; lists are split
      at commas, the defaults of the services fit together.

    ** Fuel and bounds

    Loops over strings use the length of the string as fuel, which every round decreases
    ([GoStd.Utf8], [GoStd.Path], [Sha256.blocks], [Config.Duration.elements], the strings
    of [Json]). The JSON parser takes twice the length of the text and one;
    [Json.parse_with_enough] shows that it never runs out, whatever the text is. The number of digits of an integer
    bounds [Strconv.Itoa]; all other recursion is structural. [int32] conversions and
    [uint64]/[int64] counters wrap as in Go; lengths and durations that cannot leave the
    range of an [int] are unbounded integers.

    ** What is not modelled

    Generated protocol buffers and gRPC transport: a call is delivered, not sent, or its
    answer is lost. The processes' sockets, signals and shutdown. The output of the log;
    loggers are modelled as far as the context decides what they print. File I/O beyond
    the interface of [AuditStorage]. Requests to the gateway are run one at a time; the components with shared
    state below it ([Proxy], [RateLimit], [CircuitBreaker]) have their interleavings in
    their own files. *)

From Stdlib Require Export ZArith Lia Bool.
From Stdlib Require Export Ascii String.
From stdpp Require Export base numbers decidable option list gmap strings fin_maps.

#[global] Set Default Goal Selector "!".

Declare Scope go_scope.
Delimit Scope go_scope with go.

(** ** Errors

    A Go sentinel error ([var ErrX = errors.New("...")]) is a distinct pointer:
    it is modelled by the package and the variable that hold it, with its text.
    [errors.New] at a use site makes a fresh value that is equal to no
    sentinel; [fmt.Errorf("...: %w", err)] wraps; [status.Error] carries a gRPC
    code. *)
Inductive code :=
  | OK | Canceled | Unknown | InvalidArgument | DeadlineExceeded | NotFound
  | AlreadyExists | PermissionDenied | ResourceExhausted | FailedPrecondition
  | Aborted | OutOfRange | Unimplemented | Internal | Unavailable | DataLoss
  | Unauthenticated.

Inductive error :=
  | sentinel (pkg var text : string)
  | errorString (text : string)
  | wrapError (prefix : string) (inner : error)
  | statusError (c : code) (text : string).

#[export] Instance code_eq_dec : EqDecision code.
Proof. solve_decision. Defined.

#[export] Instance error_eq_dec : EqDecision error.
Proof. solve_decision. Defined.

(** [codes.Code.String] *)
Definition code_String (c : code) : string :=
  match c with
  | OK => "OK" | Canceled => "Canceled" | Unknown => "Unknown" | InvalidArgument => "InvalidArgument"
  | DeadlineExceeded => "DeadlineExceeded" | NotFound => "NotFound" | AlreadyExists => "AlreadyExists"
  | PermissionDenied => "PermissionDenied" | ResourceExhausted => "ResourceExhausted"
  | FailedPrecondition => "FailedPrecondition" | Aborted => "Aborted" | OutOfRange => "OutOfRange"
  | Unimplemented => "Unimplemented" | Internal => "Internal" | Unavailable => "Unavailable"
  | DataLoss => "DataLoss" | Unauthenticated => "Unauthenticated"
  end.

(** [err.Error()] of the errors the services build; a status error prints as gRPC does. *)
Fixpoint Error (e : error) : string :=
  match e with
  | sentinel _ _ t => t
  | errorString t => t
  | wrapError p i => p +:+ ": " +:+ Error i
  | statusError c t => "rpc error: code = " +:+ code_String c +:+ " desc = " +:+ t
  end.

(** [errors.Is(e, target)]: the chain of wrapped errors is searched. *)
Fixpoint errors_Is (e target : error) : bool :=
  bool_decide (e = target) ||
  match e with wrapError _ i => errors_Is i target | _ => false end.

(** ** Results

    [result A] is the Go pair [(A, error)] of a call whose value is not used
    when the error is not nil. [outcome A] adds the third way out of a Go
    call: a run-time panic. *)
Inductive result (A : Type) :=
  | Ok (a : A)
  | Err (e : error).
Arguments Ok {A} a.
Arguments Err {A} e.

Inductive outcome (A : Type) :=
  | Ret (a : A)
  | Panic (reason : string).
Arguments Ret {A} a.
Arguments Panic {A} reason.

Definition rbind {A B} (r : result A) (f : A → result B) : result B :=
  match r with Ok a => f a | Err e => Err e end.

Definition obind {A B} (o : outcome A) (f : A → outcome B) : outcome B :=
  match o with Ret a => f a | Panic s => Panic s end.

Notation "'let?' x := c 'in' k" := (rbind c (fun x => k))
  (at level 10, x pattern, c at level 100, k at level 200) : go_scope.
Notation "'let!' x := c 'in' k" := (obind c (fun x => k))
  (at level 10, x pattern, c at level 100, k at level 200) : go_scope.
Open Scope go_scope.

Definition is_Ok {A} (r : result A) : bool :=
  match r with Ok _ => true | Err _ => false end.

#[export] Instance result_eq_dec {A} `{EqDecision A} : EqDecision (result A).
Proof. solve_decision. Defined.

(** ** Machine integers

    Go's fixed-width integers are values of [Z] in the range of their type;
    arithmetic that may leave the range is wrapped explicitly. *)
Definition wrapu (w x : Z) : Z := x mod 2 ^ w.
Definition wraps (w x : Z) : Z := (x + 2 ^ (w - 1)) mod 2 ^ w - 2 ^ (w - 1).
Abbreviation int32 := (wraps 32).
Abbreviation int64 := (wraps 64).
Abbreviation uint32 := (wrapu 32).
Abbreviation uint64 := (wrapu 64).

Definition in_int32 (x : Z) : Prop := (- 2 ^ 31 ≤ x < 2 ^ 31)%Z.
Definition in_int64 (x : Z) : Prop := (- 2 ^ 63 ≤ x < 2 ^ 63)%Z.

Lemma wraps_small w x : (0 < w → - 2 ^ (w - 1) ≤ x < 2 ^ (w - 1) → wraps w x = x)%Z.
Proof.
  intros Hw Hx. unfold wraps.
  assert (2 ^ w = 2 * 2 ^ (w - 1))%Z as E.
  { rewrite <- Z.pow_succ_r by lia. f_equal. lia. }
  rewrite Z.mod_small; lia.
Qed.

Lemma int32_small x : in_int32 x → int32 x = x.
Proof. intros H. apply wraps_small; unfold in_int32 in H; lia. Qed.

Lemma wrapu_small w x : (0 ≤ x < 2 ^ w → wrapu w x = x)%Z.
Proof. intros H. unfold wrapu. by apply Z.mod_small. Qed.

Lemma wrapu_range w x : (0 ≤ w → 0 ≤ wrapu w x < 2 ^ w)%Z.
Proof. intros H. unfold wrapu. apply Z.mod_pos_bound. by apply Z.pow_pos_nonneg. Qed.

(** ** Bytes

    The elements of a Go string and of a [[]byte] are 8-bit values: [ascii]. *)
Abbreviation byte := ascii (only parsing).
Abbreviation bytes := (list ascii) (only parsing).

Definition bval (b : byte) : Z := Z.of_N (N_of_ascii b).
Definition zbyte (z : Z) : byte := ascii_of_N (Z.to_N (wrapu 8 z)).

Lemma bval_range b : (0 ≤ bval b < 256)%Z.
Proof. unfold bval. pose proof (N_ascii_bounded b). lia. Qed.

Lemma zbyte_bval b : zbyte (bval b) = b.
Proof.
  unfold zbyte. rewrite wrapu_small by apply bval_range.
  unfold bval. rewrite N2Z.id. apply ascii_N_embedding.
Qed.

Lemma bval_zbyte z : (0 ≤ z < 256)%Z → bval (zbyte z) = z.
Proof.
  intros H. unfold bval, zbyte. rewrite wrapu_small by done.
  rewrite N_ascii_embedding; lia.
Qed.

Lemma bval_inj b c : bval b = bval c → b = c.
Proof. intros H. by rewrite <- (zbyte_bval b), H, zbyte_bval. Qed.

(** [[]byte(s)] and [string(b)]. *)
Abbreviation to_bytes := list_ascii_of_string (only parsing).
Abbreviation of_bytes := string_of_list_ascii (only parsing).

Lemma of_to_bytes s : of_bytes (to_bytes s) = s.
Proof. apply string_of_list_ascii_of_string. Qed.

Lemma to_of_bytes l : to_bytes (of_bytes l) = l.
Proof. apply list_ascii_of_string_of_list_ascii. Qed.

Lemma of_bytes_inj l k : of_bytes l = of_bytes k → l = k.
Proof. intros H. by rewrite <- (to_of_bytes l), H, to_of_bytes. Qed.

Lemma of_bytes_app l k : of_bytes (l ++ k) = of_bytes l +:+ of_bytes k.
Proof. induction l as [|a l IH]; [done|]. cbn. by rewrite IH. Qed.

Lemma to_bytes_app s t : to_bytes (s +:+ t) = to_bytes s ++ to_bytes t.
Proof.
  induction s as [|a s IH]; [done|].
  change (String a s +:+ t) with (String a (s +:+ t)). cbn. by rewrite IH.
Qed.

Lemma length_of_bytes l : String.length (of_bytes l) = length l.
Proof. induction l; cbn; congruence. Qed.

Lemma length_to_bytes s : length (to_bytes s) = String.length s.
Proof. induction s; cbn; congruence. Qed.

Definition zlen {A} (l : list A) : Z := Z.of_nat (length l).
Definition slen (s : string) : Z := Z.of_nat (String.length s).

Lemma zlen_app {A} (l k : list A) : zlen (l ++ k) = (zlen l + zlen k)%Z.
Proof. unfold zlen. rewrite length_app. lia. Qed.

Lemma zlen_nonneg {A} (l : list A) : (0 ≤ zlen l)%Z.
Proof. unfold zlen. lia. Qed.

(** ** Random numbers and time

    One call of [crypto/rand.Read] is an argument of the operation that makes
    it: [None] when the call reports an error, otherwise the source of the bytes
    the buffer is filled with. [time.Now()] is an argument too; an operation
    that reads the clock several times takes the successive readings. A
    [time.Time] is the number of nanoseconds since Go's zero time. *)
Definition entropy := option (nat → byte).

Definition rand_Read (n : nat) (r : entropy) : option bytes :=
  (λ f, f <$> seq 0 n) <$> r.

Lemma rand_Read_length n r b : rand_Read n r = Some b → length b = n.
Proof. destruct r; cbn; intros [= <-]. by rewrite length_fmap, length_seq. Qed.

Abbreviation time := Z (only parsing).
Definition zeroTime : time := 0%Z.
Definition IsZero (t : time) : bool := (t =? zeroTime)%Z.
Definition Second : Z := 1000000000%Z.
(** [t.Unix()]: seconds since 1 January 1970. *)
Definition Unix (t : time) : Z := (t / Second - 62135596800)%Z.

(** ** Automation *)

Create HintDb vault discriminated.

(** Splits every [match] and [if] of the goal, simplifying with the branch. *)
Ltac go_cases :=
  repeat (case_match; simplify_eq/=; try done).

(** Splits a pair of the context or of the goal. *)
Ltac go_pairs :=
  repeat match goal with
  | p : (_ * _)%type |- _ => destruct p
  end.

#[export] Hint Resolve bval_range zlen_nonneg : vault.

(** ** Lists *)
Section lists.
Context {A : Type}.
Implicit Types l k : list A.

(** A fold that stops at the first element satisfying [p]. *)
Lemma find_not_in (p : A → bool) l x : List.find p l = None → x ∈ l → p x = false.
Proof.
  intros Hf Hx. apply (List.find_none p l Hf). by apply list_elem_of_In.
Qed.

(** The first hit stays the first when elements are added behind it. *)
Lemma find_app_Some (p : A → bool) l k x : List.find p l = Some x → List.find p (l ++ k) = Some x.
Proof. induction l as [|a l IH]; cbn; [done|]. by destruct (p a). Qed.

Lemma map_seq_lookup (f : nat → A) n i : i < n → (f <$> seq 0 n) !! i = Some (f i).
Proof. intros H. rewrite list_lookup_fmap, lookup_seq_lt by done. done. Qed.

End lists.
