(* ===== verification/GoStd.v ===== *)
(** * The parts of the Go standard library the services use

    [Strings]: [strings.Split], [HasPrefix], [HasSuffix], [TrimPrefix],
    [TrimSuffix], [Trim], [Contains], [ToLower]; [Strconv]: [%d] and
    [strconv.Atoi]; [Base64] and [Hex]: [encoding/base64] and [encoding/hex];
    [Float64]: the arithmetic of [float64]; [Utf8]: the runes of a string; [Path]:
    [path.Match] for the patterns the policy engine hands to it.
    All are executable, and the encoders come with their round trips. *)

From Stdlib Require Import SpecFloat.
From S2P Require Import Prelude.
Local Open Scope Z_scope.

(** ** float64: IEEE 754 binary64, by the specification of the Standard Library *)
Module Float64.

Abbreviation float64 := spec_float (only parsing).

(** The conversion of an integer, correctly rounded, the quotient, and [x >= y]. *)
Definition of_int (n : Z) : float64 := binary_normalize 53 1024 n 0 false.
Definition div (x y : float64) : float64 := SFdiv 53 1024 x y.
Definition geb (x y : float64) : bool := SFleb y x.
Definition zero : float64 := S754_zero false.
End Float64.

(** ** strings *)
Module Strings.

(** [strings.Split(s, sep)] for a separator of one byte. *)
Fixpoint Split (c : ascii) (s : string) : list string :=
  match s with
  | EmptyString => [EmptyString]
  | String a s' =>
      if bool_decide (a = c) then EmptyString :: Split c s'
      else match Split c s' with
           | [] => [String a EmptyString]
           | h :: t => String a h :: t
           end
  end.

Fixpoint HasPrefix (s pre : string) : bool :=
  match pre, s with
  | EmptyString, _ => true
  | String _ _, EmptyString => false
  | String b pre', String a s' => bool_decide (a = b) && HasPrefix s' pre'
  end.

(** The suffix of [s] from byte [n] on. *)
Fixpoint drop (n : nat) (s : string) : string :=
  match n, s with
  | O, _ => s
  | S _, EmptyString => EmptyString
  | S n', String _ s' => drop n' s'
  end.

Fixpoint take (n : nat) (s : string) : string :=
  match n, s with
  | O, _ => EmptyString
  | S _, EmptyString => EmptyString
  | S n', String a s' => String a (take n' s')
  end.

Definition HasSuffix (s suf : string) : bool :=
  (String.length suf <=? String.length s)%nat &&
  bool_decide (drop (String.length s - String.length suf) s = suf).

Definition TrimPrefix (s pre : string) : string :=
  if HasPrefix s pre then drop (String.length pre) s else s.

Definition TrimSuffix (s suf : string) : string :=
  if HasSuffix s suf then take (String.length s - String.length suf) s else s.

(** [strings.Contains(s, sub)] for a substring of one byte. *)
Fixpoint ContainsByte (c : ascii) (s : string) : bool :=
  match s with
  | EmptyString => false
  | String a s' => bool_decide (a = c) || ContainsByte c s'
  end.

Fixpoint TrimLeft (c : ascii) (s : string) : string :=
  match s with
  | String a s' => if bool_decide (a = c) then TrimLeft c s' else s
  | EmptyString => EmptyString
  end.

Fixpoint TrimRight (c : ascii) (s : string) : string :=
  match s with
  | EmptyString => EmptyString
  | String a s' =>
      match TrimRight c s' with
      | EmptyString => if bool_decide (a = c) then EmptyString else String a EmptyString
      | t => String a t
      end
  end.

(** [strings.Trim(s, cutset)] for a cutset of one byte. *)
Definition Trim (s : string) (c : ascii) : string := TrimRight c (TrimLeft c s).

Definition lower_byte (a : ascii) : ascii :=
  if (65 <=? bval a) && (bval a <=? 90) then zbyte (bval a + 32) else a.

(** [strings.ToLower(s)], for comparison with ASCII words. Of the non-ASCII
    code points only U+0130 (bytes C4 B0) and U+212A (bytes E2 84 AA) have an
    ASCII lower case, [i] and [k]; every other one maps to a non-ASCII code
    point and is left as it is here. *)
Fixpoint ToLower (s : string) : string :=
  match s with
  | EmptyString => EmptyString
  | String a s' =>
      match s' with
      | String b s'' =>
          if (bval a =? 196) && (bval b =? 176) then String "i"%char (ToLower s'')
          else match s'' with
          | String c s3 =>
              if (bval a =? 226) && (bval b =? 132) && (bval c =? 170)
              then String "k"%char (ToLower s3) else String (lower_byte a) (ToLower s')
          | EmptyString => String (lower_byte a) (ToLower s')
          end
      | EmptyString => String (lower_byte a) EmptyString
      end
  end.

(** [strings.Join(l, sep)], the inverse of [Split]. *)
Fixpoint Join (c : ascii) (l : list string) : string :=
  match l with
  | [] => EmptyString
  | [s] => s
  | s :: t => s +:+ String c (Join c t)
  end.

Lemma Split_not_nil c s : Split c s ≠ [].
Proof. destruct s as [|a s]; cbn; [done|]. repeat case_match; done. Qed.

Lemma Split_single c s : ContainsByte c s = false → Split c s = [s].
Proof.
  induction s as [|a s IH]; cbn; [done|].
  intros [Ha Hs]%orb_false_iff. rewrite Ha, (IH Hs). done.
Qed.

Lemma Split_cons c s t :
  ContainsByte c s = false → Split c (s +:+ String c t) = s :: Split c t.
Proof.
  induction s as [|a s IH]; intros Hc.
  - change ("" +:+ String c t) with (String c t). cbn [Split].
    by rewrite bool_decide_true.
  - change (String a s +:+ String c t) with (String a (s +:+ String c t)).
    cbn in Hc. apply orb_false_iff in Hc as [Ha Hs].
    cbn [Split]. by rewrite Ha, (IH Hs).
Qed.

Lemma Join_Split c s : Join c (Split c s) = s.
Proof.
  induction s as [|a s IH]; [done|]. cbn [Split].
  pose proof (Split_not_nil c s) as Hn.
  case_bool_decide as E.
  - subst a. destruct (Split c s) as [|h t] eqn:Es; [done|].
    change (Join c ("" :: h :: t)) with (String c (Join c (h :: t))). by rewrite IH.
  - destruct (Split c s) as [|h t] eqn:Es; [done|].
    destruct t as [|h' t]; cbn in IH |- *; by rewrite <- IH.
Qed.

Lemma HasPrefix_app s t : HasPrefix (s +:+ t) s = true.
Proof.
  induction s as [|a s IH]; [by destruct t|].
  change (String a s +:+ t) with (String a (s +:+ t)). cbn.
  by rewrite bool_decide_true, IH.
Qed.

Lemma drop_app s t : drop (String.length s) (s +:+ t) = t.
Proof.
  induction s as [|a s IH]; [done|].
  change (String a s +:+ t) with (String a (s +:+ t)). done.
Qed.

Lemma HasPrefix_spec s pre : HasPrefix s pre = true ↔ ∃ t, s = pre +:+ t.
Proof.
  split.
  - revert s. induction pre as [|b pre IH]; intros s H; [by exists s|].
    destruct s as [|a s]; [done|]. cbn in H.
    apply andb_true_iff in H as [->%bool_decide_eq_true [t ->]%IH]. by exists t.
  - intros [t ->]. apply HasPrefix_app.
Qed.

Lemma TrimPrefix_app s t : TrimPrefix (s +:+ t) s = t.
Proof. unfold TrimPrefix. by rewrite HasPrefix_app, drop_app. Qed.

Lemma length_app_string s t : String.length (s +:+ t) = (String.length s + String.length t)%nat.
Proof.
  induction s as [|a s IH]; [done|].
  change (String a s +:+ t) with (String a (s +:+ t)). cbn. by rewrite IH.
Qed.

Lemma app_assoc_string s t u : s +:+ (t +:+ u) = (s +:+ t) +:+ u.
Proof.
  induction s as [|a s IH]; [done|].
  change (String a s +:+ (t +:+ u)) with (String a (s +:+ (t +:+ u))). by rewrite IH.
Qed.

Lemma take_app s t : take (String.length s) (s +:+ t) = s.
Proof.
  induction s as [|a s IH]; [by destruct t|].
  change (String a s +:+ t) with (String a (s +:+ t)). cbn. by rewrite IH.
Qed.

(** The substrings as lists of bytes. *)
Lemma to_bytes_take n s : to_bytes (take n s) = list.take n (to_bytes s).
Proof. revert n. induction s as [|a s IH]; intros [|n]; cbn; [done..|]. by rewrite IH. Qed.

Lemma to_bytes_drop n s : to_bytes (drop n s) = list.drop n (to_bytes s).
Proof. revert n. induction s as [|a s IH]; intros [|n]; cbn; [done..|]. apply IH. Qed.

Lemma HasSuffix_app s t : HasSuffix (s +:+ t) t = true.
Proof.
  unfold HasSuffix. rewrite length_app_string.
  replace (String.length s + String.length t - String.length t)%nat with (String.length s) by lia.
  rewrite drop_app. apply andb_true_iff. split; [apply Nat.leb_le; lia|by apply bool_decide_eq_true].
Qed.

Lemma TrimSuffix_app s t : TrimSuffix (s +:+ t) t = s.
Proof.
  unfold TrimSuffix. rewrite HasSuffix_app, length_app_string.
  replace (String.length s + String.length t - String.length t)%nat with (String.length s) by lia.
  apply take_app.
Qed.
End Strings.

(** ** strconv and fmt's %d *)
Module Strconv.

Definition digit (d : Z) : ascii := zbyte (48 + d).

Fixpoint utoa (fuel : nat) (n : Z) (acc : string) : string :=
  match fuel with
  | O => acc
  | S f =>
      let acc' := String (digit (n mod 10)) acc in
      if n <? 10 then acc' else utoa f (n / 10) acc'
  end.

(** [fmt.Sprintf("%d", n)]. The fuel is the number of binary digits of [n],
    which is at least the number of its decimal digits. *)
Definition Itoa (n : Z) : string :=
  if n <? 0 then String "-"%char (utoa (S (Z.to_nat (Z.log2 (- n)))) (- n) EmptyString)
  else utoa (S (Z.to_nat (Z.log2 n))) n EmptyString.

Definition digit_val (a : ascii) : option Z :=
  let d := bval a - 48 in if (0 <=? d) && (d <=? 9) then Some d else None.

(** The digits of [s] read after the value [acc]. *)
Fixpoint atou (acc : Z) (s : string) : option Z :=
  match s with
  | EmptyString => Some acc
  | String a s' => d ← digit_val a; atou (10 * acc + d) s'
  end.

Definition atou1 (s : string) : option Z :=
  match s with EmptyString => None | _ => atou 0 s end.

Definition int64_range (z : Z) : option Z :=
  if (- 2 ^ 63 <=? z) && (z <? 2 ^ 63) then Some z else None.

(** [strconv.Atoi(s)]: an optional sign, at least one digit, and a value in the
    range of [int] (64 bits); [None] is every error. *)
Definition Atoi (s : string) : option Z :=
  match s with
  | String a s' =>
      if bool_decide (a = "-"%char) then n ← atou1 s'; int64_range (- n)
      else if bool_decide (a = "+"%char) then n ← atou1 s'; int64_range n
      else n ← atou1 s; int64_range n
  | EmptyString => None
  end.

Lemma bval_digit d : 0 ≤ d ≤ 9 → bval (digit d) = 48 + d.
Proof. intros H. apply bval_zbyte. lia. Qed.

Lemma digit_val_digit d : 0 ≤ d ≤ 9 → digit_val (digit d) = Some d.
Proof.
  intros H. unfold digit_val. rewrite bval_digit by done.
  replace (48 + d - 48) with d by lia.
  by rewrite (proj2 (Z.leb_le 0 d)), (proj2 (Z.leb_le d 9)) by lia.
Qed.

Lemma atou_utoa fuel n acc v :
  0 ≤ n < 2 ^ Z.of_nat fuel → (0 < fuel)%nat →
  ∃ k, 0 ≤ k ∧ atou v (utoa fuel n acc) = atou (v * 10 ^ k + n) acc.
Proof.
  revert n acc. induction fuel as [|fuel IH]; intros n acc Hn Hf; [lia|].
  assert (0 ≤ n mod 10 ≤ 9) as Hd by (pose proof (Z.mod_pos_bound n 10); lia).
  cbn [utoa]. destruct (Z.ltb_spec n 10) as [Hlt|Hge].
  - exists 1. split; [lia|]. cbn. rewrite digit_val_digit by done. cbn.
    f_equal. rewrite Z.mod_small by lia. lia.
  - rewrite Nat2Z.inj_succ, Z.pow_succ_r in Hn by lia.
    assert (0 ≤ n / 10 < 2 ^ Z.of_nat fuel) as Hq.
    { split; [apply Z.div_pos; lia|]. apply Z.div_lt_upper_bound; lia. }
    assert (0 < fuel)%nat as Hf'.
    { destruct fuel; [|lia]. cbn in Hq. assert (1 ≤ n / 10) by (apply Z.div_le_lower_bound; lia). lia. }
    destruct (IH (n / 10) (String (digit (n mod 10)) acc) Hq Hf') as (k & Hk & ->).
    exists (k + 1). split; [lia|]. cbn. rewrite digit_val_digit by done. cbn.
    f_equal. rewrite Z.pow_add_r by lia. pose proof (Z.div_mod n 10). lia.
Qed.

Lemma log2_fuel n : 0 ≤ n → 0 ≤ n < 2 ^ Z.of_nat (S (Z.to_nat (Z.log2 n))).
Proof.
  intros H. split; [done|]. rewrite Nat2Z.inj_succ, Z2Nat.id by apply Z.log2_nonneg.
  destruct (Z.eq_dec n 0) as [->|Hn]; [done|]. apply Z.log2_spec. lia.
Qed.

Lemma utoa_cons fuel n acc : ∃ a s, utoa (S fuel) n acc = String a s ∧
  (∃ d, 0 ≤ d ≤ 9 ∧ a = digit d).
Proof.
  revert n acc. induction fuel as [|fuel IH]; intros n acc;
    assert (0 ≤ n mod 10 ≤ 9) as Hd by (pose proof (Z.mod_pos_bound n 10); lia).
  - cbn. destruct (n <? 10); eauto 10.
  - cbn [utoa]. destruct (n <? 10); [eauto 10|]. apply IH.
Qed.

Lemma digit_not_sign d : 0 ≤ d ≤ 9 → digit d ≠ "-"%char ∧ digit d ≠ "+"%char ∧ digit d ≠ ":"%char.
Proof.
  intros H. pose proof (bval_digit d H) as E.
  split_and!; intros Hc; rewrite Hc in E; cbn in E; unfold bval in E; cbn in E; lia.
Qed.

Lemma atou1_utoa n : 0 ≤ n → atou1 (utoa (S (Z.to_nat (Z.log2 n))) n EmptyString) = Some n.
Proof.
  intros Hn. destruct (atou_utoa _ n EmptyString 0 (log2_fuel n Hn)) as (k & _ & E); [lia|].
  destruct (utoa_cons (Z.to_nat (Z.log2 n)) n EmptyString) as (a & s & Es & _).
  unfold atou1. rewrite Es in E |- *. rewrite E. done.
Qed.

(** Reading back a printed machine integer. *)
Lemma Atoi_Itoa n : in_int64 n → Atoi (Itoa n) = Some n.
Proof.
  intros Hn. unfold in_int64 in Hn. unfold Itoa.
  assert (int64_range n = Some n) as Hr.
  { unfold int64_range.
    by rewrite (proj2 (Z.leb_le _ _)), (proj2 (Z.ltb_lt _ _)) by apply Hn. }
  destruct (Z.ltb_spec n 0) as [Hneg|Hpos].
  - unfold Atoi. rewrite bool_decide_true by done. rewrite atou1_utoa by lia.
    cbn. by replace (- - n) with n by lia.
  - pose proof (atou1_utoa n Hpos) as E.
    destruct (utoa_cons (Z.to_nat (Z.log2 n)) n EmptyString) as (a & s & Es & d & Hd & ->).
    rewrite Es in E |- *. unfold Atoi.
    destruct (digit_not_sign d Hd) as (H1 & H2 & _).
    rewrite !bool_decide_false by done. rewrite E. done.
Qed.

Lemma utoa_no_colon fuel n acc :
  Strings.ContainsByte ":"%char acc = false →
  Strings.ContainsByte ":"%char (utoa fuel n acc) = false.
Proof.
  revert n acc. induction fuel as [|fuel IH]; intros n acc Ha; [done|]. cbn [utoa].
  assert (0 ≤ n mod 10 ≤ 9) as Hd by (pose proof (Z.mod_pos_bound n 10); lia).
  assert (Strings.ContainsByte ":"%char (String (digit (n mod 10)) acc) = false).
  { cbn. rewrite bool_decide_false by apply (digit_not_sign _ Hd). done. }
  destruct (n <? 10); [done|]. by apply IH.
Qed.

Lemma Itoa_no_colon n : Strings.ContainsByte ":"%char (Itoa n) = false.
Proof.
  unfold Itoa. destruct (n <? 0); [|by apply utoa_no_colon].
  cbn [Strings.ContainsByte]. rewrite bool_decide_false by done. by apply utoa_no_colon.
Qed.

Lemma Itoa_not_empty n : ∃ a s, Itoa n = String a s.
Proof.
  unfold Itoa. destruct (n <? 0); [eauto|].
  destruct (utoa_cons (Z.to_nat (Z.log2 n)) n EmptyString) as (a & s & -> & _). eauto.
Qed.

Lemma Itoa_inj n m : 0 ≤ n → 0 ≤ m → Itoa n = Itoa m → n = m.
Proof.
  intros Hn Hm H. unfold Itoa in H.
  rewrite (proj2 (Z.ltb_ge n 0)), (proj2 (Z.ltb_ge m 0)) in H by done.
  apply (f_equal atou1) in H. rewrite !atou1_utoa in H by done. congruence.
Qed.
End Strconv.

(** ** encoding/base64 *)
Module Base64.

(** [StdEncoding] and [URLEncoding] differ in the last two digits. *)
Inductive encoding := StdEncoding | URLEncoding.

Definition enc_char (e : encoding) (i : Z) : ascii :=
  if i <? 26 then zbyte (65 + i)
  else if i <? 52 then zbyte (71 + i)
  else if i <? 62 then zbyte (i - 4)
  else match e with
       | StdEncoding => if i =? 62 then "+"%char else "/"%char
       | URLEncoding => if i =? 62 then "-"%char else "_"%char
       end.

Definition dec_char (e : encoding) (a : ascii) : option Z :=
  let v := bval a in
  if (65 <=? v) && (v <=? 90) then Some (v - 65)
  else if (97 <=? v) && (v <=? 122) then Some (v - 71)
  else if (48 <=? v) && (v <=? 57) then Some (v + 4)
  else match e with
       | StdEncoding => if v =? 43 then Some 62 else if v =? 47 then Some 63 else None
       | URLEncoding => if v =? 45 then Some 62 else if v =? 95 then Some 63 else None
       end.

Definition pad : ascii := "="%char.

(** [EncodeToString]: three bytes become four digits, the last group is padded. *)
Fixpoint encode (e : encoding) (l : bytes) : bytes :=
  match l with
  | [] => []
  | [a] =>
      let v := bval a * 65536 in
      [enc_char e (v / 262144); enc_char e (v / 4096 mod 64); pad; pad]
  | [a; b] =>
      let v := bval a * 65536 + bval b * 256 in
      [enc_char e (v / 262144); enc_char e (v / 4096 mod 64); enc_char e (v / 64 mod 64); pad]
  | a :: b :: c :: r =>
      let v := bval a * 65536 + bval b * 256 + bval c in
      enc_char e (v / 262144) :: enc_char e (v / 4096 mod 64) ::
      enc_char e (v / 64 mod 64) :: enc_char e (v mod 64) :: encode e r
  end.

Definition EncodeToString (e : encoding) (l : bytes) : string := of_bytes (encode e l).

(** The decoder skips carriage returns and newlines wherever they are. *)
Definition is_newline (a : ascii) : bool := (bval a =? 10) || (bval a =? 13).

Fixpoint decode_quads (e : encoding) (l : bytes) : option bytes :=
  match l with
  | [] => Some []
  | a :: b :: c :: d :: r =>
      x ← dec_char e a; y ← dec_char e b;
      if bool_decide (c = pad) then
        if bool_decide (d = pad) && bool_decide (r = []) then
          Some [zbyte ((x * 262144 + y * 4096) / 65536)]
        else None
      else
        z ← dec_char e c;
        if bool_decide (d = pad) then
          if bool_decide (r = []) then
            let v := x * 262144 + y * 4096 + z * 64 in
            Some [zbyte (v / 65536); zbyte (v / 256)]
          else None
        else
          w ← dec_char e d;
          let v := x * 262144 + y * 4096 + z * 64 + w in
          rest ← decode_quads e r;
          Some (zbyte (v / 65536) :: zbyte (v / 256) :: zbyte v :: rest)
  | _ => None
  end.

(** [DecodeString]: [None] is a [CorruptInputError]. *)
Definition DecodeString (e : encoding) (s : string) : option bytes :=
  decode_quads e (List.filter (λ a, negb (is_newline a)) (to_bytes s)).

(** Properties of the 64 digits, checked by enumeration. *)
Definition good_digit (e : encoding) (i : Z) : bool :=
  bool_decide (dec_char e (enc_char e i) = Some i) &&
  negb (bool_decide (enc_char e i = pad)) &&
  negb (is_newline (enc_char e i)) && negb (bool_decide (enc_char e i = ":"%char)).

Lemma good_digits e i : 0 ≤ i < 64 → good_digit e i = true.
Proof.
  intros H.
  assert (Forall (λ n, good_digit e (Z.of_nat n) = true) (seq 0 64)) as F.
  { apply Forall_forall. intros n Hn%list_elem_of_In.
    assert (List.forallb (λ n, good_digit e (Z.of_nat n)) (seq 0 64) = true) as E
      by (destruct e; vm_compute; reflexivity).
    rewrite List.forallb_forall in E. by apply E. }
  rewrite Forall_forall in F. rewrite <- (Z2Nat.id i) by lia. apply F.
  apply elem_of_seq. lia.
Qed.

Lemma dec_enc e i : 0 ≤ i < 64 → dec_char e (enc_char e i) = Some i.
Proof.
  intros H. pose proof (good_digits e i H) as G. unfold good_digit in G.
  rewrite !andb_true_iff in G. destruct G as [[[G _] _] _]. by apply bool_decide_eq_true in G.
Qed.

Lemma enc_not e i : 0 ≤ i < 64 →
  enc_char e i ≠ pad ∧ is_newline (enc_char e i) = false ∧ enc_char e i ≠ ":"%char.
Proof.
  intros H. pose proof (good_digits e i H) as G. unfold good_digit in G.
  rewrite !andb_true_iff, !negb_true_iff, !bool_decide_eq_false in G.
  destruct G as [[[_ G1] G2] G3]. done.
Qed.

(** Induction by groups of three bytes. *)
Lemma bytes_ind3 (P : bytes → Prop) :
  P [] → (∀ a, P [a]) → (∀ a b, P [a; b]) →
  (∀ a b c r, P r → P (a :: b :: c :: r)) → ∀ l, P l.
Proof.
  intros H0 H1 H2 H3.
  fix IH 1. intros [|a [|b [|c r]]]; [done|apply H1|apply H2|apply H3, IH].
Qed.

Ltac digit_bounds :=
  repeat match goal with
  | |- context [bval ?a] =>
      lazymatch goal with
      | _ : 0 ≤ bval a < 256 |- _ => fail
      | _ => pose proof (bval_range a)
      end
  end; Z.to_euclidean_division_equations; lia.

Lemma zbyte_id a v : v mod 256 = bval a → zbyte v = a.
Proof.
  intros H. rewrite <- (zbyte_bval a). unfold zbyte, wrapu. change (2 ^ 8) with 256.
  rewrite H, (Z.mod_small (bval a)) by apply bval_range. done.
Qed.

Lemma decode_encode e l : decode_quads e (encode e l) = Some l.
Proof.
  induction l as [|a|a b|a b c r IH] using bytes_ind3; cbn [encode decode_quads]; [done|..].
  all: repeat rewrite dec_enc by digit_bounds; cbn [mbind option_bind].
  all: repeat rewrite (bool_decide_false (enc_char _ _ = pad)) by
         (apply (enc_not e); digit_bounds).
  all: repeat rewrite dec_enc by digit_bounds; cbn [mbind option_bind].
  all: repeat rewrite (bool_decide_false (enc_char _ _ = pad)) by
         (apply (enc_not e); digit_bounds).
  all: repeat rewrite dec_enc by digit_bounds; cbn [mbind option_bind].
  - rewrite !bool_decide_true by done. cbn. do 2 f_equal. apply zbyte_id. digit_bounds.
  - rewrite !bool_decide_true by done. cbn. do 2 f_equal; [|f_equal]; apply zbyte_id; digit_bounds.
  - rewrite IH. cbn. do 2 f_equal; [|f_equal; [|f_equal]]; apply zbyte_id; digit_bounds.
Qed.

(** Every digit of the output is a digit of the alphabet or the padding. *)
Lemma encode_digits e (P : ascii → Prop) l :
  (∀ i, 0 ≤ i < 64 → P (enc_char e i)) → P pad → Forall P (encode e l).
Proof.
  intros Hd Hp. induction l as [|a|a b|a b c r IH] using bytes_ind3; cbn [encode];
    repeat constructor; try done; apply Hd; digit_bounds.
Qed.

Lemma filter_all (f : ascii → bool) l : Forall (λ a, f a = true) l → List.filter f l = l.
Proof. induction 1 as [|a l Ha _ IH]; cbn; [done|]. by rewrite Ha, IH. Qed.

Lemma Decode_Encode e l : DecodeString e (EncodeToString e l) = Some l.
Proof.
  unfold DecodeString, EncodeToString. rewrite to_of_bytes, filter_all.
  - apply decode_encode.
  - apply encode_digits; [|done]. intros i Hi. by rewrite (proj1 (proj2 (enc_not e i Hi))).
Qed.

Lemma ContainsByte_of_bytes c l :
  Forall (λ a, a ≠ c) l → Strings.ContainsByte c (of_bytes l) = false.
Proof.
  induction 1 as [|a l Ha _ IH]; cbn; [done|]. by rewrite bool_decide_false, IH.
Qed.

Lemma Encode_no_colon e l : Strings.ContainsByte ":"%char (EncodeToString e l) = false.
Proof.
  apply ContainsByte_of_bytes, encode_digits; [|done]. intros i Hi. by apply (enc_not e i Hi).
Qed.
End Base64.

(** ** encoding/hex *)
Module Hex.

Definition hexdigit (d : Z) : ascii := if d <? 10 then zbyte (48 + d) else zbyte (87 + d).

Fixpoint encode (l : bytes) : bytes :=
  match l with
  | [] => []
  | a :: r => hexdigit (bval a / 16) :: hexdigit (bval a mod 16) :: encode r
  end.

Definition EncodeToString (l : bytes) : string := of_bytes (encode l).

Lemma length_encode l : length (encode l) = (2 * length l)%nat.
Proof. induction l; cbn; lia. Qed.

Lemma hexdigit_inj d d' :
  0 ≤ d < 16 → 0 ≤ d' < 16 → hexdigit d = hexdigit d' → d = d'.
Proof.
  intros H H'. unfold hexdigit.
  destruct (Z.ltb_spec d 10), (Z.ltb_spec d' 10); intros E%(f_equal bval);
    rewrite !bval_zbyte in E by lia; lia.
Qed.

Lemma encode_inj l k : encode l = encode k → l = k.
Proof.
  revert k. induction l as [|a l IH]; intros [|b k] H; try done.
  cbn in H. injection H as H1 H2 H3.
  pose proof (bval_range a). pose proof (bval_range b).
  apply hexdigit_inj in H1; [|Z.to_euclidean_division_equations; lia..].
  apply hexdigit_inj in H2; [|Z.to_euclidean_division_equations; lia..].
  f_equal; [|by apply IH]. apply bval_inj.
  rewrite (Z.div_mod (bval a) 16), (Z.div_mod (bval b) 16) by lia. lia.
Qed.
End Hex.

(** ** unicode/utf8: the runes of a string *)
Module Utf8.

Definition RuneError : Z := 65533.

Definition cont (b : ascii) : bool := (128 <=? bval b) && (bval b <=? 191).
Definition within (lo hi : Z) (b : ascii) : bool := (lo <=? bval b) && (bval b <=? hi).
Definition low6 (b : ascii) : Z := Z.land (bval b) 63.

(** [utf8.DecodeRuneInString(s)]: the first rune of a non-empty string and its width;
    an invalid or incomplete encoding gives [RuneError] and width 1. *)
Definition decode_rune (s : string) : Z * nat :=
  match s with
  | EmptyString => (RuneError, 0%nat)
  | String a s1 =>
      let x := bval a in
      if x <? 128 then (x, 1%nat)
      else match s1 with
      | EmptyString => (RuneError, 1%nat)
      | String b s2 =>
          if within 194 223 a && cont b then (Z.land x 31 * 64 + low6 b, 2%nat)
          else match s2 with
          | EmptyString => (RuneError, 1%nat)
          | String c s3 =>
              let second :=
                if x =? 224 then within 160 191 b
                else if x =? 237 then within 128 159 b else cont b in
              if within 224 239 a && second && cont c
              then (Z.land x 15 * 4096 + low6 b * 64 + low6 c, 3%nat)
              else match s3 with
              | EmptyString => (RuneError, 1%nat)
              | String d _ =>
                  let second :=
                    if x =? 240 then within 144 191 b
                    else if x =? 244 then within 128 143 b else cont b in
                  if within 240 244 a && second && cont c && cont d
                  then (Z.land x 7 * 262144 + low6 b * 4096 + low6 c * 64 + low6 d, 4%nat)
                  else (RuneError, 1%nat)
              end
          end
      end
  end.

(** [for _, r := range s]; the length of [s] is enough fuel. *)
Fixpoint runes_loop (fuel : nat) (s : string) : list Z :=
  match fuel, s with
  | _, EmptyString => []
  | O, _ => []
  | S f, _ => let (r, n) := decode_rune s in r :: runes_loop f (Strings.drop n s)
  end.

Definition runes (s : string) : list Z := runes_loop (String.length s) s.

(** [utf8.ValidString(s)]; the length of [s] is enough fuel. *)
Fixpoint valid_loop (fuel : nat) (s : string) : bool :=
  match fuel, s with
  | _, EmptyString => true
  | O, _ => false
  | S f, _ =>
      let (r, n) := decode_rune s in
      negb ((r =? RuneError) && (n =? 1)%nat) && valid_loop f (Strings.drop n s)
  end.

Definition ValidString (s : string) : bool := valid_loop (String.length s) s.

(** [strings.ContainsRune(s, r)] for a rune that comes from decoding a string: the
    encoding of a rune cannot start inside another one, and [RuneError] is looked for
    among the decoded runes. *)
Definition ContainsRune (s : string) (r : Z) : bool := bool_decide (r ∈ runes s).

(** A string of ASCII characters is its bytes. *)
Definition is_ascii (s : string) : bool := forallb (λ b, bval b <? 128) (to_bytes s).

Lemma runes_loop_ascii s n :
  (String.length s ≤ n)%nat → is_ascii s = true → runes_loop n s = bval <$> to_bytes s.
Proof.
  unfold is_ascii. revert n. induction s as [|a s IH]; intros n Hn H; [by destruct n|].
  destruct n as [|n]; cbn in Hn; [lia|]. cbn in H. apply andb_true_iff in H as [Ha H].
  cbn. rewrite Ha. cbn. f_equal. apply IH; [lia|done].
Qed.

Lemma runes_ascii s : is_ascii s = true → runes s = bval <$> to_bytes s.
Proof. by apply runes_loop_ascii. Qed.

(** Decides a statement about one byte by going through all of them. *)
Ltac every_byte a :=
  revert a; intros [[] [] [] [] [] [] [] []]; vm_compute; try discriminate; tauto.

Lemma low6_nonneg a : 0 ≤ low6 a.
Proof. apply Z.land_nonneg. right. lia. Qed.

Lemma lead2 a : within 194 223 a = true → (2 <=? Z.land (bval a) 31) = true.
Proof. every_byte a. Qed.

Lemma lead3 a : within 224 239 a = true → (bval a =? 224) || (1 <=? Z.land (bval a) 15) = true.
Proof. every_byte a. Qed.

Lemma second3 b : within 160 191 b = true → (32 <=? low6 b) = true.
Proof. every_byte b. Qed.

Lemma lead4 a : within 240 244 a = true → (bval a =? 240) || (1 <=? Z.land (bval a) 7) = true.
Proof. every_byte a. Qed.

Lemma second4 b : within 144 191 b = true → (16 <=? low6 b) = true.
Proof. every_byte b. Qed.

(** Only an ASCII byte decodes to an ASCII rune. *)
Lemma decode_rune_ascii a s : (decode_rune (String a s)).1 < 128 → bval a < 128.
Proof.
  cbn [decode_rune]. destruct (Z.ltb_spec (bval a) 128) as [|Ha]; [done|].
  unfold RuneError. destruct s as [|b s]; cbn [fst]; [lia|].
  pose proof (low6_nonneg b). destruct (within 194 223 a && cont b) eqn:H2; cbn [fst].
  { apply andb_true_iff in H2 as [H2 _]. apply lead2 in H2. lia. }
  destruct s as [|c s]; cbn [fst]; [lia|]. pose proof (low6_nonneg c).
  destruct (within 224 239 a && _ && cont c) eqn:H3; cbn [fst].
  { apply andb_true_iff in H3 as [[H3 Hs]%andb_true_iff _]. apply lead3 in H3.
    destruct (bval a =? 224); cbn in H3; [apply second3 in Hs|]; pose proof (Z.land_nonneg (bval a) 15); lia. }
  destruct s as [|d s]; cbn [fst]; [lia|]. pose proof (low6_nonneg d).
  destruct (within 240 244 a && _ && cont c && cont d) eqn:H4; cbn [fst]; [|lia].
  apply andb_true_iff in H4 as [[[H4 Hs]%andb_true_iff _]%andb_true_iff _]. apply lead4 in H4.
  destruct (bval a =? 240); cbn in H4; [apply second4 in Hs|]; pose proof (Z.land_nonneg (bval a) 7); lia.
Qed.

Lemma runes_all_ascii n s :
  (String.length s ≤ n)%nat → Forall (λ r, r < 128) (runes_loop n s) → is_ascii s = true.
Proof.
  revert s. induction n as [|n IH]; intros s Hn H; [by destruct s; [|cbn in Hn; lia]|].
  destruct s as [|a s]; [done|]. cbn [runes_loop] in H.
  destruct (decode_rune (String a s)) as [r w] eqn:E. inversion H as [|? ? Hr Hrest]; subst.
  assert (bval a < 128) as Ha by (apply (decode_rune_ascii a s); by rewrite E).
  assert (w = 1%nat) as ->.
  { cbn in E. rewrite (proj2 (Z.ltb_lt _ _) Ha) in E. by injection E as _ <-. }
  unfold is_ascii. cbn. rewrite (proj2 (Z.ltb_lt _ _) Ha). cbn. apply IH; [cbn in Hn; lia|done].
Qed.
End Utf8.

(** ** path.Match, for patterns without a star

    A pattern without [*] is one chunk, which has to match the whole name. The error for
    a malformed pattern and a failed match are both [None]: the caller looks at the
    boolean only. The fuel is the length of the pattern, of which every step consumes. *)
Module Path.

Definition first (s : string) : option (ascii * string) :=
  match s with String a s' => Some (a, s') | EmptyString => None end.

(** [getEsc]: a possibly escaped rune of a character class; something must follow. *)
Definition getEsc (chunk : string) : option (Z * string) :=
  match chunk with
  | EmptyString => None
  | String a rest =>
      if bool_decide (a = "-"%char) || bool_decide (a = "]"%char) then None
      else
        let chunk := if bool_decide (a = "\"%char) then rest else chunk in
        match chunk with
        | EmptyString => None
        | _ =>
            let (r, n) := Utf8.decode_rune chunk in
            if (r =? Utf8.RuneError) && (n =? 1)%nat then None
            else match Strings.drop n chunk with
                 | EmptyString => None
                 | nchunk => Some (r, nchunk)
                 end
        end
  end.

(** The inside of [[...]]: whether [r] is in one of the ranges, and what follows. *)
Fixpoint class_ranges (fuel : nat) (chunk : string) (r : Z) (nrange : nat) (matched : bool)
    : option (bool * string) :=
  match fuel with
  | O => None
  | S f =>
      match chunk with
      | String a rest =>
          if bool_decide (a = "]"%char) && (0 <? nrange)%nat then Some (matched, rest)
          else
            '(lo, chunk) ← getEsc chunk;
            '(hi, chunk) ← match chunk with
                           | String b rest' =>
                               if bool_decide (b = "-"%char) then getEsc rest' else Some (lo, chunk)
                           | EmptyString => Some (lo, chunk)
                           end;
            class_ranges f chunk r (S nrange) (matched || (lo <=? r) && (r <=? hi))
      | EmptyString => None
      end
  end.

Fixpoint matchChunk (fuel : nat) (chunk s : string) : option string :=
  match fuel, chunk with
  | _, EmptyString => Some s
  | O, _ => None
  | S f, String c chunk' =>
      match s with
      | EmptyString => None
      | String x s' =>
          if bool_decide (c = "["%char) then
            let (r, n) := Utf8.decode_rune s in
            let '(negated, chunk') :=
              match chunk' with
              | String b rest => if bool_decide (b = "^"%char) then (true, rest) else (false, chunk')
              | EmptyString => (false, chunk')
              end in
            '(matched, rest) ← class_ranges (S (String.length chunk')) chunk' r 0 false;
            if bool_decide (matched = negated) then None else matchChunk f rest (Strings.drop n s)
          else if bool_decide (c = "?"%char) then
            if bool_decide (x = "/"%char) then None
            else matchChunk f chunk' (Strings.drop (Utf8.decode_rune s).2 s)
          else if bool_decide (c = "\"%char) then
            match chunk' with
            | EmptyString => None
            | String c' rest => if bool_decide (c' = x) then matchChunk f rest s' else None
            end
          else if bool_decide (c = x) then matchChunk f chunk' s' else None
      end
  end.

Definition Match_starless (pattern name : string) : bool :=
  match matchChunk (String.length pattern) pattern name with
  | Some EmptyString => true
  | _ => false
  end.
End Path.

(** ** Slices *)
Module Slices.

(** [l[i:j]] of a slice whose capacity is its length: out of range is a panic. *)
Definition slice {A} (l : list A) (i j : Z) : outcome (list A) :=
  if (i <? 0) || (j <? i) || (zlen l <? j) then Panic "slice bounds out of range"
  else Ret (take (Z.to_nat (j - i)) (drop (Z.to_nat i) l)).

Lemma slice_ok {A} (l : list A) i j :
  0 ≤ i ≤ j → j ≤ zlen l → slice l i j = Ret (take (Z.to_nat (j - i)) (drop (Z.to_nat i) l)).
Proof.
  intros [Hi Hij] Hj. unfold slice.
  by rewrite (proj2 (Z.ltb_ge i 0)), (proj2 (Z.ltb_ge j i)), (proj2 (Z.ltb_ge (zlen l) j)).
Qed.
End Slices.
