(* ===== verification/Json.v ===== *)
(** * encoding/json

    The gateway reads and writes JSON bodies and the keyring is stored as JSON. This file
    holds what they use of the standard library's [encoding/json]: the value type with its
    own induction principle, the encoder ([json.Marshal] and [Encoder.Encode], compact,
    with HTML escaping and invalid UTF-8 replaced), the decoder with its limit of 10000
    nested values, and the decoding of an object into a struct (case-insensitive field
    names, unknown fields skipped, [null] leaving a field alone).

    The decoder runs with fuel and tells running out of it apart from a syntax error; the
    fuel [decode] gives is shown to be enough, so the decoder is total. *)

From S2P Require Import Prelude GoStd.
Local Open Scope Z_scope.

(** Concatenation of strings, one byte at a time. *)
Lemma sapp_cons a s t : String a s +:+ t = String a (s +:+ t).
Proof. done. Qed.

Lemma sapp_nil t : "" +:+ t = t.
Proof. done. Qed.

Lemma sapp_nil_r s : s +:+ "" = s.
Proof. induction s as [|a s IH]; [done|]. by rewrite sapp_cons, IH. Qed.

Lemma sapp_assoc s t u : (s +:+ t) +:+ u = s +:+ (t +:+ u).
Proof. symmetry. apply Strings.app_assoc_string. Qed.

(** ** unicode/utf8: writing runes *)
Module Unicode.
Import Utf8.

(** [utf8.AppendRune]: surrogates and values that are no code point become U+FFFD. *)
Definition encode_rune (r : Z) : string :=
  let r := if (r <? 0) || (1114111 <? r) || (55296 <=? r) && (r <=? 57343) then RuneError else r in
  if r <? 128 then of_bytes [zbyte r]
  else if r <? 2048 then of_bytes [zbyte (192 + r / 64); zbyte (128 + r mod 64)]
  else if r <? 65536 then
    of_bytes [zbyte (224 + r / 4096); zbyte (128 + r / 64 mod 64); zbyte (128 + r mod 64)]
  else of_bytes [zbyte (240 + r / 262144); zbyte (128 + r / 4096 mod 64);
                 zbyte (128 + r / 64 mod 64); zbyte (128 + r mod 64)].

(** An invalid or incomplete encoding: [r == RuneError && size == 1]. *)
Definition is_invalid (p : Z * nat) : bool := (p.1 =? RuneError) && (p.2 =? 1)%nat.

(** The bytes that stand for the first rune of a non-empty [s] once it is made valid. *)
Definition valid_head (s : string) : string :=
  let p := decode_rune s in if is_invalid p then encode_rune RuneError else Strings.take p.2 s.

(** Every invalid byte replaced by U+FFFD; the length of [s] is enough fuel. *)
Fixpoint valid_utf8_loop (fuel : nat) (s : string) : string :=
  match fuel, s with
  | _, EmptyString => EmptyString
  | O, _ => EmptyString
  | S f, _ => valid_head s +:+ valid_utf8_loop f (Strings.drop (decode_rune s).2 s)
  end.

Definition to_valid (s : string) : string := valid_utf8_loop (String.length s) s.

(** ** What [decode_rune] consumes *)

(** Decides a bound on one byte by going through all of them. *)
Ltac each_byte a :=
  revert a; intros [[] [] [] [] [] [] [] []]; vm_compute; intros H; try discriminate H;
  repeat split; discriminate.

Lemma cont_low6 b : cont b = true → bval b = 128 + low6 b ∧ 0 ≤ low6 b < 64.
Proof. each_byte b. Qed.

Lemma lead2_val a : within 194 223 a = true → bval a = 192 + Z.land (bval a) 31.
Proof. each_byte a. Qed.

Lemma lead3_val a : within 224 239 a = true → bval a = 224 + Z.land (bval a) 15.
Proof. each_byte a. Qed.

Lemma lead4_val a : within 240 244 a = true → bval a = 240 + Z.land (bval a) 7.
Proof. each_byte a. Qed.

Lemma within_cont lo hi b : 128 ≤ lo → hi ≤ 191 → within lo hi b = true → cont b = true.
Proof. unfold within, cont. lia. Qed.

Lemma within_range lo hi b : within lo hi b = true → lo ≤ bval b ≤ hi.
Proof. unfold within. lia. Qed.

(** The shapes of a rune at the head of a string. *)
Inductive rune_at : string → Z → nat → Prop :=
  | rune_ascii a s : bval a < 128 → rune_at (String a s) (bval a) 1
  | rune_bad a s : 128 ≤ bval a → rune_at (String a s) RuneError 1
  | rune_two a b s u v :
      bval a = 192 + u → bval b = 128 + v → 2 ≤ u < 32 → 0 ≤ v < 64 →
      rune_at (String a (String b s)) (u * 64 + v) 2
  | rune_three a b c s u v w :
      bval a = 224 + u → bval b = 128 + v → bval c = 128 + w → 0 ≤ u < 16 → 0 ≤ v < 64 →
      0 ≤ w < 64 → (u = 0 → 32 ≤ v) → (u = 13 → v < 32) →
      rune_at (String a (String b (String c s))) (u * 4096 + v * 64 + w) 3
  | rune_four a b c d s u v w x :
      bval a = 240 + u → bval b = 128 + v → bval c = 128 + w → bval d = 128 + x → 0 ≤ u < 5 →
      0 ≤ v < 64 → 0 ≤ w < 64 → 0 ≤ x < 64 → (u = 0 → 16 ≤ v) → (u = 4 → v < 16) →
      rune_at (String a (String b (String c (String d s)))) (u * 262144 + v * 4096 + w * 64 + x) 4.

Ltac byte_vals :=
  repeat match goal with
  | H : cont ?b = true |- _ => apply cont_low6 in H as [? ?]
  | H : within 194 223 ?a = true |- _ => pose proof (lead2_val a H); apply within_range in H
  | H : within 224 239 ?a = true |- _ => pose proof (lead3_val a H); apply within_range in H
  | H : within 240 244 ?a = true |- _ => pose proof (lead4_val a H); apply within_range in H
  end.

Lemma decode_rune_at a s : rune_at (String a s) (decode_rune (String a s)).1 (decode_rune (String a s)).2.
Proof.
  cbn [decode_rune]. destruct (Z.ltb_spec (bval a) 128); [by constructor|].
  destruct s as [|b s]; [by constructor|].
  destruct (within 194 223 a && cont b) eqn:E2.
  { apply andb_true_iff in E2 as [Ha Hb]. byte_vals. apply rune_two; lia. }
  destruct s as [|c s]; [by constructor|].
  destruct (within 224 239 a && _ && cont c) eqn:E3.
  { apply andb_true_iff in E3 as [[Ha Hb]%andb_true_iff Hc].
    assert (cont b = true ∧ (bval a = 224 → 160 ≤ bval b) ∧ (bval a = 237 → bval b ≤ 159)) as (Hb' & ? & ?).
    { destruct (Z.eqb_spec (bval a) 224); [|destruct (Z.eqb_spec (bval a) 237)];
        (split; [first [done|by apply (within_cont _ _ b) in Hb]|]); unfold within, cont in Hb; lia. }
    byte_vals. apply rune_three; lia. }
  destruct s as [|d s]; [by constructor|].
  destruct (within 240 244 a && _ && cont c && cont d) eqn:E4; [|by constructor].
  apply andb_true_iff in E4 as [[[Ha Hb]%andb_true_iff Hc]%andb_true_iff Hd].
  assert (cont b = true ∧ (bval a = 240 → 144 ≤ bval b) ∧ (bval a = 244 → bval b ≤ 143)) as (Hb' & ? & ?).
  { destruct (Z.eqb_spec (bval a) 240); [|destruct (Z.eqb_spec (bval a) 244)];
      (split; [first [done|by apply (within_cont _ _ b) in Hb]|]); unfold within, cont in Hb; lia. }
  byte_vals. apply rune_four; lia.
Qed.

(** The head of a string decodes the same whatever follows it. *)
Lemma decode_rune_app s t :
  is_invalid (decode_rune s) = false → s ≠ "" →
  decode_rune (Strings.take (decode_rune s).2 s +:+ t) = decode_rune s.
Proof.
  intros Hv Hs. destruct s as [|a s]; [done|]. clear Hs. revert Hv. unfold is_invalid.
  cbn [decode_rune]. destruct (bval a <? 128) eqn:E1; [cbn [fst snd Strings.take]; rewrite ?sapp_cons, ?sapp_nil; cbn [decode_rune]; by rewrite E1|].
  destruct s as [|b s]; [done|].
  destruct (within 194 223 a && cont b) eqn:E2; [cbn [fst snd Strings.take]; rewrite ?sapp_cons, ?sapp_nil; cbn [decode_rune]; by rewrite E1, E2|].
  destruct s as [|c s]; [done|].
  destruct (within 224 239 a && _ && cont c) eqn:E3; [cbn [fst snd Strings.take]; rewrite ?sapp_cons, ?sapp_nil; cbn [decode_rune]; by rewrite E1, E2, E3|].
  destruct s as [|d s]; [done|].
  destruct (within 240 244 a && _ && cont c && cont d) eqn:E4; [|done].
  cbn [fst snd Strings.take]; rewrite ?sapp_cons, ?sapp_nil; cbn [decode_rune]; by rewrite E1, E2, E3, E4.
Qed.

(** Encoding a decoded rune gives the bytes it was decoded from. *)
Lemma encode_decode_rune s :
  is_invalid (decode_rune s) = false → s ≠ "" →
  encode_rune (decode_rune s).1 = Strings.take (decode_rune s).2 s.
Proof.
  intros Hv Hs. destruct s as [|a s]; [done|]. pose proof (decode_rune_at a s) as H.
  remember (decode_rune (String a s)) as p eqn:Ep. destruct p as [r n]. cbn [fst snd] in *.
  remember (String a s) as s0. unfold encode_rune.
  destruct H as [a' s' H1|a' s' H1|a' b s' u v Ha Hb Hu Hv'|a' b c s' u v w Ha Hb Hc Hu Hv' Hw H0 H13
                |a' b c d s' u v w x Ha Hb Hc Hd Hu Hv' Hw Hx H0 H4]; cbn [Strings.take].
  - pose proof (bval_range a').
    rewrite (proj2 (Z.ltb_ge _ 0)), (proj2 (Z.ltb_ge 1114111 _)), (proj2 (Z.leb_gt 55296 _)) by lia.
    cbn [orb andb]. rewrite (proj2 (Z.ltb_lt _ 128)) by lia. cbn. by rewrite zbyte_bval.
  - done.
  - rewrite (proj2 (Z.ltb_ge _ 0)), (proj2 (Z.ltb_ge 1114111 _)), (proj2 (Z.leb_gt 55296 _)) by lia.
    cbn [orb andb]. rewrite (proj2 (Z.ltb_ge _ 128)), (proj2 (Z.ltb_lt _ 2048)) by lia.
    replace ((u * 64 + v) / 64) with u by (Z.to_euclidean_division_equations; lia).
    replace ((u * 64 + v) mod 64) with v by (Z.to_euclidean_division_equations; lia).
    cbn. by rewrite <- Ha, <- Hb, !zbyte_bval.
  - rewrite (proj2 (Z.ltb_ge _ 0)), (proj2 (Z.ltb_ge 1114111 _)) by lia.
    assert ((55296 <=? u * 4096 + v * 64 + w) && (u * 4096 + v * 64 + w <=? 57343) = false) as -> by lia.
    cbn [orb]. rewrite (proj2 (Z.ltb_ge _ 128)), (proj2 (Z.ltb_ge _ 2048)), (proj2 (Z.ltb_lt _ 65536)) by lia.
    replace ((u * 4096 + v * 64 + w) / 4096) with u by (Z.to_euclidean_division_equations; lia).
    replace ((u * 4096 + v * 64 + w) / 64) with (u * 64 + v) by (Z.to_euclidean_division_equations; lia).
    replace ((u * 64 + v) mod 64) with v by (Z.to_euclidean_division_equations; lia).
    replace ((u * 4096 + v * 64 + w) mod 64) with w by (Z.to_euclidean_division_equations; lia).
    cbn. by rewrite <- Ha, <- Hb, <- Hc, !zbyte_bval.
  - set (r := u * 262144 + v * 4096 + w * 64 + x).
    rewrite (proj2 (Z.ltb_ge _ 0)), (proj2 (Z.ltb_ge 1114111 _)) by lia.
    assert ((55296 <=? r) && (r <=? 57343) = false) as -> by lia.
    cbn [orb]. rewrite (proj2 (Z.ltb_ge _ 128)), (proj2 (Z.ltb_ge _ 2048)), (proj2 (Z.ltb_ge _ 65536)) by lia.
    replace (r / 262144) with u by (Z.to_euclidean_division_equations; lia).
    replace (r / 4096) with (u * 64 + v) by (Z.to_euclidean_division_equations; lia).
    replace (r / 64) with (u * 4096 + v * 64 + w) by (Z.to_euclidean_division_equations; lia).
    replace ((u * 64 + v) mod 64) with v by (Z.to_euclidean_division_equations; lia).
    replace ((u * 4096 + v * 64 + w) mod 64) with w by (Z.to_euclidean_division_equations; lia).
    replace (r mod 64) with x by (Z.to_euclidean_division_equations; lia).
    cbn. by rewrite <- Ha, <- Hb, <- Hc, <- Hd, !zbyte_bval.
Qed.

(** The width of a rune is within the string, and at least 1. *)
Lemma decode_rune_width s : s ≠ "" → (1 ≤ (decode_rune s).2 ≤ String.length s)%nat.
Proof.
  intros Hs. destruct s as [|a s]; [done|]. pose proof (decode_rune_at a s) as H.
  remember (String a s) as s0. destruct H; cbn; lia.
Qed.

(** ** Valid strings *)

(** [s] is a sequence of well-formed runes. *)
Inductive Valid : string → Prop :=
  | Valid_nil : Valid ""
  | Valid_rune s :
      s ≠ "" → is_invalid (decode_rune s) = false → Valid (Strings.drop (decode_rune s).2 s) → Valid s.

Lemma take_drop_string n s : Strings.take n s +:+ Strings.drop n s = s.
Proof.
  revert n. induction s as [|a s IH]; intros [|n]; [done..|]. cbn [Strings.take Strings.drop].
  by rewrite sapp_cons, IH.
Qed.

Lemma drop_length n s : String.length (Strings.drop n s) = (String.length s - n)%nat.
Proof. revert n. induction s as [|a s IH]; intros [|n]; cbn; [done..|]. apply IH. Qed.

Lemma take_length n s : (n ≤ String.length s)%nat → String.length (Strings.take n s) = n.
Proof. revert n. induction s as [|a s IH]; intros [|n]; cbn; intros H; [lia..|]. rewrite IH; lia. Qed.

Lemma take_app_n n s t : (n ≤ String.length s)%nat →
  Strings.take n (Strings.take n s +:+ t) = Strings.take n s ∧ Strings.drop n (Strings.take n s +:+ t) = t.
Proof.
  intros H. pose proof (take_length n s H) as E.
  split; [rewrite <- E at 1; apply Strings.take_app|rewrite <- E at 1; apply Strings.drop_app].
Qed.

(** [utf8.ValidString] decides it. *)
Lemma ValidString_Valid s : ValidString s = true ↔ Valid s.
Proof.
  unfold ValidString. generalize (le_n (String.length s)). generalize (String.length s) at 2 3 as n.
  intros n. revert s. induction n as [|n IH]; intros s Hn.
  { destruct s; [|cbn in Hn; lia]. split; [constructor|done]. }
  destruct s as [|a s]; [split; [constructor|done]|].
  pose proof (decode_rune_width (String a s) ltac:(done)) as Hw.
  assert (String.length (Strings.drop (decode_rune (String a s)).2 (String a s)) ≤ n)%nat as Hd
    by (rewrite drop_length; lia).
  assert (valid_loop (S n) (String a s) =
          negb (is_invalid (decode_rune (String a s))) &&
          valid_loop n (Strings.drop (decode_rune (String a s)).2 (String a s))) as ->.
  { change (valid_loop (S n) (String a s)) with
      (let (r, k) := decode_rune (String a s) in
       negb ((r =? RuneError) && (k =? 1)%nat) && valid_loop n (Strings.drop k (String a s))).
    by destruct (decode_rune (String a s)). }
  rewrite andb_true_iff, negb_true_iff. split.
  - intros [H1 H2]. constructor; [done..|]. by apply IH.
  - intros H. inversion H as [|s' _ H1 H2]; subst. split; [done|]. by apply IH.
Qed.

Lemma Valid_app s t : Valid s → Valid t → Valid (s +:+ t).
Proof.
  intros Hs Ht. induction Hs as [|s Hn Hi Hd IH]; [done|].
  destruct (take_app_n (decode_rune s).2 s (Strings.drop (decode_rune s).2 s +:+ t)) as [_ D];
    [by apply decode_rune_width|].
  pose proof (decode_rune_app s (Strings.drop (decode_rune s).2 s +:+ t) Hi Hn) as E.
  rewrite <- sapp_assoc, take_drop_string in D, E.
  apply Valid_rune; [destruct s; done|by rewrite E|]. by rewrite E, D.
Qed.

(** A string of one well-formed rune. *)
Lemma Valid_one s n r : decode_rune s = (r, n) → n = String.length s → s ≠ "" →
  n ≠ 1%nat ∨ r ≠ RuneError → Valid s.
Proof.
  intros E En Hs Hi. apply Valid_rune; [done| |].
  { rewrite E. unfold is_invalid. cbn [fst snd].
    apply andb_false_iff. destruct Hi; [right; by apply Nat.eqb_neq|left; by apply Z.eqb_neq]. }
  rewrite E. cbn [snd]. subst n.
  assert (Strings.drop (String.length s) s = "") as ->; [|constructor].
  clear. induction s; done.
Qed.

Ltac byte_tests :=
  repeat match goal with
  | |- context [bval (zbyte ?z)] => rewrite (bval_zbyte z) by (Z.to_euclidean_division_equations; lia)
  end.

Lemma encode_rune_valid r : Valid (encode_rune r).
Proof.
  unfold encode_rune.
  set (r' := if _ : bool then RuneError else r).
  assert (0 ≤ r' ≤ 1114111 ∧ ¬ (55296 ≤ r' ≤ 57343)) as [Hr Hs].
  { unfold r', RuneError. destruct (_ || _) eqn:E; [lia|]. lia. }
  clearbody r'. unfold of_bytes.
  destruct (Z.ltb_spec r' 128); [|destruct (Z.ltb_spec r' 2048); [|destruct (Z.ltb_spec r' 65536)]].
  - eapply Valid_one; [|reflexivity|done|].
    + cbn [decode_rune]. byte_tests. by rewrite (proj2 (Z.ltb_lt _ _)) by lia.
    + right. unfold RuneError. lia.
  - assert (0 ≤ r' / 64 < 32 ∧ 2 ≤ r' / 64 ∧ 0 ≤ r' mod 64 < 64) as ?
      by (Z.to_euclidean_division_equations; lia).
    eapply Valid_one; [|reflexivity|done|by left]. cbn [decode_rune]. unfold within, cont. byte_tests.
    rewrite (proj2 (Z.ltb_ge _ 128)) by lia.
    match goal with |- context [if ?b then _ else (RuneError, _)] => replace b with true by lia end. done.
  - assert (0 ≤ r' / 4096 < 16 ∧ 0 ≤ r' / 64 mod 64 < 64 ∧ 0 ≤ r' mod 64 < 64) as ?
      by (Z.to_euclidean_division_equations; lia).
    assert (r' = r' / 4096 * 4096 + r' / 64 mod 64 * 64 + r' mod 64) as Er
      by (Z.to_euclidean_division_equations; lia).
    eapply Valid_one; [|reflexivity|done|by left]. cbn [decode_rune]. unfold within, cont. byte_tests.
    rewrite (proj2 (Z.ltb_ge _ 128)) by lia.
    match goal with |- context [if ?b then (_, 2%nat) else _] => replace b with false by lia end.
    destruct (Z.eqb_spec (224 + r' / 4096) 224); [|destruct (Z.eqb_spec (224 + r' / 4096) 237)];
      (match goal with |- context [if ?b then (_, 3%nat) else _] => replace b with true by lia end); done.
  - assert (0 ≤ r' / 262144 < 5 ∧ 0 ≤ r' / 4096 mod 64 < 64 ∧ 0 ≤ r' / 64 mod 64 < 64 ∧ 0 ≤ r' mod 64 < 64) as ?
      by (Z.to_euclidean_division_equations; lia).
    assert (r' = r' / 262144 * 262144 + r' / 4096 mod 64 * 4096 + r' / 64 mod 64 * 64 + r' mod 64) as Er
      by (Z.to_euclidean_division_equations; lia).
    eapply Valid_one; [|reflexivity|done|by left]. cbn [decode_rune]. unfold within, cont. byte_tests.
    rewrite (proj2 (Z.ltb_ge _ 128)) by lia.
    match goal with |- context [if ?b then (_, 2%nat) else _] => replace b with false by lia end.
    match goal with |- context [if ?b then (_, 3%nat) else _] =>
      replace b with false by (repeat case_match; lia) end.
    destruct (Z.eqb_spec (240 + r' / 262144) 240); [|destruct (Z.eqb_spec (240 + r' / 262144) 244)];
      (match goal with |- context [if ?b then (_, 4%nat) else _] => replace b with true by lia end); done.
Qed.

Lemma valid_head_valid s : s ≠ "" → Valid (valid_head s).
Proof.
  intros Hs. unfold valid_head. destruct (is_invalid _) eqn:E; [apply encode_rune_valid|].
  rewrite <- encode_decode_rune by done. apply encode_rune_valid.
Qed.

Lemma to_valid_valid s : Valid (to_valid s).
Proof.
  unfold to_valid. generalize (String.length s) as n. intros n. revert s.
  induction n as [|n IH]; intros s; destruct s as [|a s]; cbn [valid_utf8_loop]; try apply Valid_nil.
  apply Valid_app; [by apply valid_head_valid|apply IH].
Qed.

(** A valid string is left as it is. *)
Lemma to_valid_id s : Valid s → to_valid s = s.
Proof.
  unfold to_valid. generalize (le_n (String.length s)). generalize (String.length s) at 2 3 as n.
  intros n Hn Hs. revert n Hn. induction Hs as [|s Hs Hi Hd IH]; intros n Hn; [by destruct n|].
  destruct s as [|a s]; [done|]. pose proof (decode_rune_width (String a s) Hs).
  destruct n as [|n]; [cbn in Hn; lia|]. cbn [valid_utf8_loop]. rewrite IH by (rewrite drop_length; lia).
  unfold valid_head. by rewrite Hi, take_drop_string.
Qed.
End Unicode.

#[local] Set Warnings "-register-all,-abstract-large-number".

Module Json.
Import Unicode.
#[local] Arguments Utf8.decode_rune : simpl never.
#[local] Arguments encode_rune : simpl never.
#[local] Arguments to_valid : simpl never.

(** ** Values

    The members of an object are in the order of the text, duplicates included; a number
    is its literal. *)
Inductive json :=
  | JNull
  | JBool (b : bool)
  | JNum (lit : string)
  | JStr (s : string)
  | JArr (l : list json)
  | JObj (l : list (string * json)).

(** The induction principle with hypotheses for the elements and the members. *)
Definition json_rec_nested (P : json → Prop)
    (Hnull : P JNull) (Hbool : ∀ b, P (JBool b)) (Hnum : ∀ n, P (JNum n)) (Hstr : ∀ s, P (JStr s))
    (Harr : ∀ l, Forall P l → P (JArr l))
    (Hobj : ∀ l, Forall (λ m, P m.2) l → P (JObj l)) : ∀ v, P v :=
  fix rec v :=
    match v with
    | JNull => Hnull
    | JBool b => Hbool b
    | JNum n => Hnum n
    | JStr s => Hstr s
    | JArr l =>
        Harr l ((fix all l : Forall P l :=
                   match l with
                   | [] => Forall_nil_2 P
                   | x :: t => Forall_cons_2 P x t (rec x) (all t)
                   end) l)
    | JObj l =>
        Hobj l ((fix all l : Forall (λ m, P m.2) l :=
                   match l with
                   | [] => Forall_nil_2 _
                   | m :: t => Forall_cons_2 _ m t (rec m.2) (all t)
                   end) l)
    end.

(** The number of nested arrays and objects. *)
Fixpoint depth (v : json) : nat :=
  match v with
  | JArr l => S (max_list (depth <$> l))
  | JObj l => S (max_list ((λ m, depth m.2) <$> l))
  | _ => O
  end.

(** ** The encoder *)

Definition dquote : ascii := "034"%char.
Definition backslash : ascii := "\"%char.

(** [htmlSafeSet], for the bytes below [utf8.RuneSelf]. *)
Definition html_safe (a : ascii) : bool :=
  (32 <=? bval a) &&
  negb (bool_decide (a ∈ [dquote; backslash; "<"%char; ">"%char; "&"%char])).

(** The escape of an ASCII byte that is not safe. *)
Definition escape (a : ascii) : string :=
  if bool_decide (a = backslash) || bool_decide (a = dquote) then of_bytes [backslash; a]
  else if bval a =? 8 then "\b"
  else if bval a =? 12 then "\f"
  else if bval a =? 10 then "\n"
  else if bval a =? 13 then "\r"
  else if bval a =? 9 then "\t"
  else "\u00" +:+ of_bytes [Hex.hexdigit (bval a / 16); Hex.hexdigit (bval a mod 16)].

(** How the first rune of [s] is written. *)
Definition quote_head (s : string) : string :=
  match s with
  | EmptyString => EmptyString
  | String a _ =>
      if bval a <? 128 then if html_safe a then of_bytes [a] else escape a
      else
        let p := Utf8.decode_rune s in
        if is_invalid p then "\ufffd"
        else if (p.1 =? 8232) || (p.1 =? 8233) then "\u202" +:+ of_bytes [Hex.hexdigit (p.1 mod 16)]
        else Strings.take p.2 s
  end.

Fixpoint quote_loop (fuel : nat) (s : string) : string :=
  match fuel, s with
  | _, EmptyString => EmptyString
  | O, _ => EmptyString
  | S f, _ => quote_head s +:+ quote_loop f (Strings.drop (Utf8.decode_rune s).2 s)
  end.

(** [appendString(dst, s, true)]; the length of [s] is enough fuel. *)
Definition quote (s : string) : string :=
  String dquote (quote_loop (String.length s) s +:+ of_bytes [dquote]).

(** The elements of an array or the members of an object, and the closing bracket. *)
Definition commas {A} (f : A → string) (close : string) : list A → string :=
  fix go l :=
    match l with
    | [] => close
    | [x] => f x +:+ close
    | x :: t => f x +:+ "," +:+ go t
    end.

Fixpoint encode (v : json) : string :=
  match v with
  | JNull => "null"
  | JBool true => "true"
  | JBool false => "false"
  | JNum n => n
  | JStr s => quote s
  | JArr l => "[" +:+ commas encode "]" l
  | JObj l => "{" +:+ commas (λ m, match m with (k, x) => quote k +:+ ":" +:+ encode x end) "}" l
  end.

(** ** The decoder *)

(** What a parser returns: a value with the rest of the text, a syntax error, or the
    report that the fuel was too small. *)
Inductive parsed (A : Type) :=
  | Parsed (a : A) (rest : string)
  | Syntax
  | OutOfFuel.
Arguments Parsed {A} a rest.
Arguments Syntax {A}.
Arguments OutOfFuel {A}.

Definition pbind {A B} (p : parsed A) (f : A → string → parsed B) : parsed B :=
  match p with Parsed a rest => f a rest | Syntax => Syntax | OutOfFuel => OutOfFuel end.

Definition is_space (a : ascii) : bool :=
  (bval a =? 32) || (bval a =? 9) || (bval a =? 10) || (bval a =? 13).

Fixpoint skip (s : string) : string :=
  match s with
  | String a s' => if is_space a then skip s' else s
  | EmptyString => EmptyString
  end.

Definition hexval (a : ascii) : option Z :=
  let v := bval a in
  if (48 <=? v) && (v <=? 57) then Some (v - 48)
  else if (97 <=? v) && (v <=? 102) then Some (v - 87)
  else if (65 <=? v) && (v <=? 70) then Some (v - 55)
  else None.

(** [getu4], after the backslash and the [u]. *)
Definition getu4 (s : string) : option (Z * string) :=
  match s with
  | String a (String b (String c (String d s'))) =>
      x ← hexval a; y ← hexval b; z ← hexval c; w ← hexval d;
      Some (x * 4096 + y * 256 + z * 16 + w, s')
  | _ => None
  end.

(** [utf16.DecodeRune]: the second half decides whether the pair is a code point. *)
Definition surrogate (r : Z) : bool := (55296 <=? r) && (r <=? 57343).
Definition decode_pair (r1 r2 : Z) : Z :=
  if (55296 <=? r1) && (r1 <? 56320) && (56320 <=? r2) && (r2 <? 57344)
  then (r1 - 55296) * 1024 + (r2 - 56320) + 65536 else Utf8.RuneError.

(** The rune of a [\u] escape and what follows it. A surrogate that is not the first of a
    pair stands for U+FFFD, and what follows is read on its own. *)
Definition unicode_escape (s : string) : option (string * string) :=
  '(r, s1) ← getu4 s;
  if surrogate r then
    Some match s1 with
         | String a (String b s2) =>
             if bool_decide (a = backslash) && bool_decide (b = "u"%char) then
               match getu4 s2 with
               | Some (r2, s3) =>
                   let d := decode_pair r r2 in
                   if d =? Utf8.RuneError then (encode_rune Utf8.RuneError, s1) else (encode_rune d, s3)
               | None => (encode_rune Utf8.RuneError, s1)
               end
             else (encode_rune Utf8.RuneError, s1)
         | _ => (encode_rune Utf8.RuneError, s1)
         end
  else Some (encode_rune r, s1).

(** The byte of a one-letter escape. *)
Definition unescape (c : ascii) : option ascii :=
  if bool_decide (c = dquote) || bool_decide (c = backslash) || bool_decide (c = "/"%char) then Some c
  else if bool_decide (c = "b"%char) then Some "008"%char
  else if bool_decide (c = "f"%char) then Some "012"%char
  else if bool_decide (c = "n"%char) then Some "010"%char
  else if bool_decide (c = "r"%char) then Some "013"%char
  else if bool_decide (c = "t"%char) then Some "009"%char
  else None.

(** One element of a string that is not its end: the bytes it stands for and the rest. *)
Definition unquote_head (s : string) : option (string * string) :=
  match s with
  | EmptyString => None
  | String a s1 =>
      if bool_decide (a = backslash) then
        match s1 with
        | EmptyString => None
        | String c s2 =>
            if bool_decide (c = "u"%char) then unicode_escape s2
            else b ← unescape c; Some (of_bytes [b], s2)
        end
      else if bval a <? 32 then None
      else Some (valid_head s, Strings.drop (Utf8.decode_rune s).2 s)
  end.

(** The rest of a string after its opening quote. *)
Fixpoint unquote (fuel : nat) (s : string) : parsed string :=
  match fuel with
  | O => OutOfFuel
  | S f =>
      match s with
      | EmptyString => Syntax
      | String a s1 =>
          if bool_decide (a = dquote) then Parsed "" s1
          else match unquote_head s with
               | None => Syntax
               | Some (h, s2) => pbind (unquote f s2) (λ t rest, Parsed (h +:+ t) rest)
               end
      end
  end.

(** Numbers: a sign, an integer without leading zeros, a fraction, an exponent. *)
Definition is_digit (a : ascii) : bool := (48 <=? bval a) && (bval a <=? 57).

Fixpoint digits (s : string) : string * string :=
  match s with
  | String a s' =>
      if is_digit a then let (d, r) := digits s' in (String a d, r) else ("", s)
  | EmptyString => ("", "")
  end.

Definition digits1 (s : string) : option (string * string) :=
  match digits s with (EmptyString, _) => None | p => Some p end.

Definition sign_part (s : string) : string * string :=
  match s with
  | String a s' => if bool_decide (a = "-"%char) then (of_bytes [a], s') else ("", s)
  | EmptyString => ("", "")
  end.

Definition int_part (s : string) : option (string * string) :=
  match s with
  | String a s' => if bool_decide (a = "0"%char) then Some (of_bytes [a], s') else digits1 s
  | EmptyString => None
  end.

Definition frac_part (s : string) : option (string * string) :=
  match s with
  | String a s' =>
      if bool_decide (a = "."%char) then '(d, r) ← digits1 s'; Some (String a d, r) else Some ("", s)
  | EmptyString => Some ("", "")
  end.

Definition exp_part (s : string) : option (string * string) :=
  match s with
  | String a s' =>
      if bool_decide (a = "e"%char) || bool_decide (a = "E"%char) then
        let '(g, s2) := match s' with
                        | String b s2 =>
                            if bool_decide (b = "+"%char) || bool_decide (b = "-"%char)
                            then (of_bytes [b], s2) else ("", s')
                        | EmptyString => ("", "")
                        end in
        '(d, r) ← digits1 s2; Some (String a (g +:+ d), r)
      else Some ("", s)
  | EmptyString => Some ("", "")
  end.

Definition lex_number (s : string) : option (string * string) :=
  let (g, s1) := sign_part s in
  '(i, s2) ← int_part s1;
  '(f, s3) ← frac_part s2;
  '(e, s4) ← exp_part s3;
  Some (g +:+ i +:+ f +:+ e, s4).

(** A value that is neither an array nor an object. *)
Definition scalar (s : string) : parsed json :=
  match s with
  | EmptyString => Syntax
  | String a s' =>
      if bool_decide (a = dquote) then
        pbind (unquote (S (String.length s')) s') (λ t rest, Parsed (JStr t) rest)
      else if Strings.HasPrefix s "null" then Parsed JNull (Strings.drop 4 s)
      else if Strings.HasPrefix s "true" then Parsed (JBool true) (Strings.drop 4 s)
      else if Strings.HasPrefix s "false" then Parsed (JBool false) (Strings.drop 5 s)
      else match lex_number s with Some (n, rest) => Parsed (JNum n) rest | None => Syntax end
  end.

(** The name of a member and its colon. *)
Definition key (s : string) : parsed string :=
  match skip s with
  | EmptyString => Syntax
  | String a r =>
      if bool_decide (a = dquote) then
        pbind (unquote (S (String.length r)) r) (λ k rest,
          match skip rest with
          | EmptyString => Syntax
          | String c r1 => if bool_decide (c = ":"%char) then Parsed k r1 else Syntax
          end)
      else Syntax
  end.

(** [value fuel d s] reads one value that may nest [d] levels of arrays and objects;
    [elements] and [members] read what follows [\[] or [{] when the array or the object is
    not empty. *)
Fixpoint value (fuel d : nat) (s : string) : parsed json :=
  match fuel with
  | O => OutOfFuel
  | S f =>
      match skip s with
      | EmptyString => Syntax
      | String a r =>
          if bool_decide (a = "{"%char) then
            match d with
            | O => Syntax
            | S d' =>
                match skip r with
                | EmptyString => Syntax
                | String b r' =>
                    if bool_decide (b = "}"%char) then Parsed (JObj []) r'
                    else pbind (members f d' (String b r')) (λ l rest, Parsed (JObj l) rest)
                end
            end
          else if bool_decide (a = "["%char) then
            match d with
            | O => Syntax
            | S d' =>
                match skip r with
                | EmptyString => Syntax
                | String b r' =>
                    if bool_decide (b = "]"%char) then Parsed (JArr []) r'
                    else pbind (elements f d' (String b r')) (λ l rest, Parsed (JArr l) rest)
                end
            end
          else scalar (String a r)
      end
  end
with elements (fuel d : nat) (s : string) : parsed (list json) :=
  match fuel with
  | O => OutOfFuel
  | S f =>
      pbind (value f d s) (λ v rest,
        match skip rest with
        | EmptyString => Syntax
        | String a r =>
            if bool_decide (a = ","%char) then pbind (elements f d r) (λ l rest, Parsed (v :: l) rest)
            else if bool_decide (a = "]"%char) then Parsed [v] r else Syntax
        end)
  end
with members (fuel d : nat) (s : string) : parsed (list (string * json)) :=
  match fuel with
  | O => OutOfFuel
  | S f =>
      pbind (key s) (λ k rest,
        pbind (value f d rest) (λ v rest,
          match skip rest with
          | EmptyString => Syntax
          | String b r =>
              if bool_decide (b = ","%char) then pbind (members f d r) (λ l rest, Parsed ((k, v) :: l) rest)
              else if bool_decide (b = "}"%char) then Parsed [(k, v)] r else Syntax
          end))
  end.

(** [maxNestingDepth] *)
Definition maxNestingDepth : nat := 10000.

Definition value_fuel (s : string) : nat := 2 * String.length s + 1.

(** The syntax check and the reading of a whole text ([checkValid] and [d.value]). *)
Definition parse_with (fuel : nat) (s : string) : parsed json :=
  pbind (value fuel maxNestingDepth s) (λ v rest,
    match skip rest with EmptyString => Parsed v "" | _ => Syntax end).

Definition decode (s : string) : option json :=
  match parse_with (value_fuel s) s with Parsed v _ => Some v | _ => None end.

(** ** Decoding into a struct

    Decoding goes on after a value of the wrong type and reports the error at the end; the
    callers look at the struct only when there is none, so [None] is every error. *)

(** [appendFoldedName], for comparison with ASCII names: the letters in upper case. Of the
    other code points only U+017F (bytes C5 BF) and U+212A (bytes E2 84 AA) fold to an
    ASCII letter, [S] and [K]. *)
Definition upper_byte (a : ascii) : ascii :=
  if (97 <=? bval a) && (bval a <=? 122) then zbyte (bval a - 32) else a.

Fixpoint fold_name (s : string) : string :=
  match s with
  | EmptyString => EmptyString
  | String a s' =>
      match s' with
      | String b s'' =>
          if (bval a =? 197) && (bval b =? 191) then String "S"%char (fold_name s'')
          else match s'' with
          | String c s3 =>
              if (bval a =? 226) && (bval b =? 132) && (bval c =? 170)
              then String "K"%char (fold_name s3) else String (upper_byte a) (fold_name s')
          | EmptyString => String (upper_byte a) (fold_name s')
          end
      | EmptyString => String (upper_byte a) EmptyString
      end
  end.

Section structs.
Context {T : Type}.

(** How one field takes a value. *)
Definition decoder := json → T → option T.

Definition into_string (set : string → T → T) : decoder := λ v t,
  match v with JStr s => Some (set s t) | JNull => Some t | _ => None end.

(** [strconv.ParseInt(lit, 10, 64)]: a literal with a fraction or an exponent is refused. *)
Definition into_int (set : Z → T → T) : decoder := λ v t,
  match v with
  | JNum lit => n ← Strconv.Atoi lit; Some (set n t)
  | JNull => Some t
  | _ => None
  end.

Definition into_bool (set : bool → T → T) : decoder := λ v t,
  match v with JBool b => Some (set b t) | JNull => Some t | _ => None end.

(** The field of a struct that a member names: its JSON name, case folded. *)
Fixpoint find_field (fs : list (string * decoder)) (k : string) : option decoder :=
  match fs with
  | [] => None
  | (name, d) :: fs' => if bool_decide (fold_name name = fold_name k) then Some d else find_field fs' k
  end.

(** The members in their order; a later one overwrites. *)
Fixpoint decode_members (fs : list (string * decoder)) (ms : list (string * json)) (t : T) : option T :=
  match ms with
  | [] => Some t
  | (k, v) :: ms' =>
      t' ← match find_field fs k with Some d => d v t | None => Some t end;
      decode_members fs ms' t'
  end.

Definition decode_struct (fs : list (string * decoder)) : decoder := λ v t,
  match v with
  | JNull => Some t
  | JObj ms => decode_members fs ms t
  | _ => None
  end.

(** [json.Unmarshal(data, &t)] *)
Definition Unmarshal (fs : list (string * decoder)) (data : string) (t : T) : option T :=
  v ← decode data; decode_struct fs v t.
End structs.

(** ** The decoder consumes its input *)

Abbreviation len := String.length (only parsing).

(** A successful parse leaves less than it was given. *)
Definition shrinks {A} (s : string) (p : parsed A) : Prop :=
  match p with Parsed _ rest => (len rest < len s)%nat | _ => True end.

Lemma shrinks_bind {A B} s (p : parsed A) (f : A → string → parsed B) :
  shrinks s p → (∀ a rest, (len rest < len s)%nat → shrinks s (f a rest)) → shrinks s (pbind p f).
Proof. destruct p; cbn; auto. Qed.

Lemma shrinks_le {A} s t (p : parsed A) : shrinks s p → (len s ≤ len t)%nat → shrinks t p.
Proof. destruct p; cbn; [lia|done..]. Qed.

Lemma skip_length s : (len (skip s) ≤ len s)%nat.
Proof. induction s as [|a s IH]; cbn; [lia|]. destruct (is_space a); cbn; lia. Qed.

Lemma skip_cons s a r : skip s = String a r → (len r < len s)%nat.
Proof. intros E. pose proof (skip_length s) as H. rewrite E in H. cbn in H. lia. Qed.

Lemma getu4_length s r t : getu4 s = Some (r, t) → (len t < len s)%nat.
Proof.
  unfold getu4. do 4 (destruct s as [|? s]; [done|]). intros H.
  repeat match type of H with context [hexval ?c] => destruct (hexval c); [|done]; cbn in H end.
  injection H as _ <-. cbn. lia.
Qed.

Lemma unicode_escape_length s h t : unicode_escape s = Some (h, t) → (len t < len s)%nat.
Proof.
  unfold unicode_escape. destruct (getu4 s) as [[r s1]|] eqn:E; [|done]. apply getu4_length in E. cbn.
  destruct (surrogate r); [|intros [= _ <-]; lia]. intros [= H].
  destruct s1 as [|a [|b s2]]; [injection H as _ <-; lia..|].
  destruct (_ && _); [|injection H as _ <-; lia].
  destruct (getu4 s2) as [[r2 s3]|] eqn:E2; [|injection H as _ <-; lia].
  apply getu4_length in E2. destruct (_ =? _); injection H as _ <-; cbn in *; lia.
Qed.

Lemma unquote_head_length s h t : unquote_head s = Some (h, t) → (len t < len s)%nat.
Proof.
  destruct s as [|a s]; [done|]. cbn [unquote_head]. case_bool_decide.
  - destruct s as [|c s]; [done|]. case_bool_decide.
    + intros E%unicode_escape_length. cbn. lia.
    + destruct (unescape c); [|done]. cbn. intros [= _ <-]. lia.
  - destruct (_ <? _); [done|]. intros [= _ <-]. rewrite drop_length.
    pose proof (decode_rune_width (String a s) ltac:(done)).
    destruct (Utf8.decode_rune _). cbn [snd] in *. lia.
Qed.

Lemma unquote_shrinks n s : shrinks s (unquote n s).
Proof.
  revert s. induction n as [|n IH]; intros s; [done|]. cbn [unquote].
  destruct s as [|a s]; [done|]. case_bool_decide; [cbn; lia|].
  destruct (unquote_head _) as [[h t]|] eqn:E; [|done]. apply unquote_head_length in E.
  apply shrinks_bind; [|done]. apply (shrinks_le t); [apply IH|lia].
Qed.

(** One unit of fuel for every byte and one for the end is enough for a string. *)
Lemma unquote_enough n s : (len s < n)%nat → unquote n s ≠ OutOfFuel.
Proof.
  revert s. induction n as [|n IH]; intros s Hn; [lia|]. cbn [unquote].
  destruct s as [|a s]; [done|]. case_bool_decide; [done|].
  destruct (unquote_head _) as [[h t]|] eqn:E; [|done]. apply unquote_head_length in E.
  specialize (IH t ltac:(lia)). by destruct (unquote n t).
Qed.

Lemma digits_length s : (len (digits s).1 + len (digits s).2 = len s)%nat.
Proof.
  induction s as [|a s IH]; [done|]. cbn. destruct (is_digit a); [|done].
  destruct (digits s); cbn in *. lia.
Qed.

Lemma digits1_length s d r : digits1 s = Some (d, r) → (len r < len s)%nat.
Proof.
  unfold digits1. pose proof (digits_length s) as H. destruct (digits s) as [[|a d'] r']; [done|].
  intros [= _ <-]. cbn in H. lia.
Qed.

Lemma lex_number_length s n r : lex_number s = Some (n, r) → (len r < len s)%nat.
Proof.
  unfold lex_number. destruct (sign_part s) as [g s1] eqn:Eg.
  assert (len s1 ≤ len s)%nat as Hg.
  { destruct s as [|a s]; cbn in Eg; [by injection Eg as _ <-|].
    case_bool_decide; injection Eg as _ <-; cbn; lia. }
  destruct (int_part s1) as [[i s2]|] eqn:Ei; [|done]. cbn.
  assert (len s2 < len s1)%nat as Hi.
  { destruct s1 as [|a s1]; cbn in Ei; [done|]. case_bool_decide; [injection Ei as _ <-; cbn; lia|].
    by apply digits1_length in Ei. }
  destruct (frac_part s2) as [[f s3]|] eqn:Ef; [|done]. cbn.
  assert (len s3 ≤ len s2)%nat as Hf.
  { destruct s2 as [|a s2]; cbn in Ef; [by injection Ef as _ <-|].
    case_bool_decide; [|by injection Ef as _ <-].
    destruct (digits1 s2) as [[d r']|] eqn:E; [|done]. apply digits1_length in E.
    cbn in Ef. injection Ef as _ <-. cbn. lia. }
  destruct (exp_part s3) as [[e s4]|] eqn:Ee; [|done]. cbn. intros [= _ <-].
  enough (len s4 ≤ len s3)%nat by lia.
  destruct s3 as [|a s3]; cbn in Ee; [by injection Ee as _ <-|].
  destruct (_ || _); [|by injection Ee as _ <-].
  destruct (match s3 with "" => _ | _ => _ end) as [g' s5] eqn:E5.
  assert (len s5 ≤ len s3)%nat.
  { destruct s3 as [|b s3]; [by injection E5 as _ <-|].
    destruct (_ || _); injection E5 as _ <-; cbn; lia. }
  destruct (digits1 s5) as [[d r']|] eqn:E; [|done]. apply digits1_length in E.
  cbn in Ee. injection Ee as _ <-. cbn. lia.
Qed.

Lemma scalar_shrinks s : shrinks s (scalar s).
Proof.
  destruct s as [|a s]; [done|]. unfold scalar. case_bool_decide.
  { apply shrinks_bind; [|done]. apply (shrinks_le s); [apply unquote_shrinks|cbn; lia]. }
  repeat (destruct (Strings.HasPrefix _ _); [unfold shrinks; rewrite drop_length; cbn; lia|]).
  destruct (lex_number _) as [[n r]|] eqn:E; [|done]. by apply lex_number_length in E.
Qed.

Lemma scalar_enough s : scalar s ≠ OutOfFuel.
Proof.
  destruct s as [|a s]; [done|]. unfold scalar. case_bool_decide.
  { pose proof (unquote_enough (S (len s)) s ltac:(lia)). by destruct (unquote _ _). }
  repeat (destruct (Strings.HasPrefix _ _); [done|]). by destruct (lex_number _) as [[]|].
Qed.

Lemma key_shrinks s : shrinks s (key s).
Proof.
  unfold key. destruct (skip s) as [|a r] eqn:E; [done|]. apply skip_cons in E.
  case_bool_decide; [|done]. apply shrinks_bind; [apply (shrinks_le r); [apply unquote_shrinks|lia]|].
  intros k rest Hk. destruct (skip rest) as [|c r1] eqn:E1; [done|]. apply skip_cons in E1.
  case_bool_decide; [cbn; lia|done].
Qed.

Lemma key_enough s : key s ≠ OutOfFuel.
Proof.
  unfold key. destruct (skip s) as [|a r]; [done|]. case_bool_decide; [|done].
  pose proof (unquote_enough (S (len r)) r ltac:(lia)).
  destruct (unquote _ r) as [k rest| |]; [|done..]. cbn. destruct (skip rest); [done|].
  by case_bool_decide.
Qed.

Lemma value_shrinks n :
  (∀ d s, shrinks s (value n d s)) ∧ (∀ d s, shrinks s (elements n d s)) ∧
  (∀ d s, shrinks s (members n d s)).
Proof.
  induction n as [|n (IHv & IHe & IHm)]; [done|]. split_and!; intros d s.
  - cbn [value]. destruct (skip s) as [|a r] eqn:E; [done|]. apply skip_cons in E.
    case_bool_decide; [|case_bool_decide];
      [destruct d as [|d]; [done|]; destruct (skip r) as [|b r'] eqn:E'; [done|];
       apply skip_cons in E'; case_bool_decide; [cbn; lia|]; apply shrinks_bind; [|done];
       apply (shrinks_le (String b r')); [eauto|cbn; lia]..|].
    apply (shrinks_le (String a r)); [apply scalar_shrinks|cbn; lia].
  - cbn [elements]. apply shrinks_bind; [apply IHv|]. intros v rest Hr.
    destruct (skip rest) as [|a r] eqn:E; [done|]. apply skip_cons in E.
    case_bool_decide; [|case_bool_decide; [cbn; lia|done]].
    apply shrinks_bind; [|done]. apply (shrinks_le r); [apply IHe|lia].
  - cbn [members]. apply shrinks_bind; [apply key_shrinks|]. intros k r1 Hk.
    apply shrinks_bind; [apply (shrinks_le r1); [apply IHv|lia]|].
    intros v rest Hv. destruct (skip rest) as [|b r2] eqn:E2; [done|]. apply skip_cons in E2.
    case_bool_decide; [|case_bool_decide; [cbn; lia|done]].
    apply shrinks_bind; [|done]. apply (shrinks_le r2); [apply IHm|lia].
Qed.

Lemma pbind_enough {A B} (p : parsed A) (f : A → string → parsed B) s :
  shrinks s p → p ≠ OutOfFuel → (∀ a rest, (len rest < len s)%nat → f a rest ≠ OutOfFuel) →
  pbind p f ≠ OutOfFuel.
Proof. destruct p; cbn; auto. Qed.

(** The fuel a text of a given length needs. *)
Lemma value_enough n :
  (∀ d s, (2 * len s + 1 ≤ n)%nat → value n d s ≠ OutOfFuel) ∧
  (∀ d s, (2 * len s + 2 ≤ n)%nat → elements n d s ≠ OutOfFuel) ∧
  (∀ d s, (2 * len s + 2 ≤ n)%nat → members n d s ≠ OutOfFuel).
Proof.
  induction n as [|n (IHv & IHe & IHm)]; [split_and!; intros; lia|].
  destruct (value_shrinks n) as (Sv & Se & Sm). split_and!; intros d s Hn.
  - cbn [value]. destruct (skip s) as [|a r] eqn:E; [done|]. apply skip_cons in E.
    case_bool_decide; [|case_bool_decide; [|apply scalar_enough]];
      (destruct d as [|d]; [done|]; destruct (skip r) as [|b r'] eqn:E'; [done|];
       apply skip_cons in E'; case_bool_decide; [done|]; apply (pbind_enough _ _ (String b r'));
       [eauto| |done]); [apply IHm|apply IHe]; cbn; lia.
  - cbn [elements]. apply (pbind_enough _ _ s); [eauto|apply IHv; lia|]. intros v rest Hr.
    destruct (skip rest) as [|a r] eqn:E; [done|]. apply skip_cons in E.
    case_bool_decide; [|by case_bool_decide].
    apply (pbind_enough _ _ r); [eauto|apply IHe; lia|done].
  - cbn [members]. apply (pbind_enough _ _ s); [apply key_shrinks|apply key_enough|].
    intros k r1 Hk. apply (pbind_enough _ _ r1); [eauto|apply IHv; lia|].
    intros v rest Hv. destruct (skip rest) as [|b r2] eqn:E2; [done|]. apply skip_cons in E2.
    case_bool_decide; [|by case_bool_decide].
    apply (pbind_enough _ _ r2); [eauto|apply IHm; lia|done].
Qed.

(** [p] is the answer of [q] unless it ran out of fuel. *)
Definition below {A} (p q : parsed A) : Prop := p = OutOfFuel ∨ p = q.

Lemma below_bind {A B} (p q : parsed A) (f g : A → string → parsed B) :
  below p q → (∀ a rest, below (f a rest) (g a rest)) → below (pbind p f) (pbind q g).
Proof. intros [->| ->] Hf; [by left|]. destruct q; cbn; [apply Hf|by right|by left]. Qed.

Lemma below_refl {A} (p : parsed A) : below p p.
Proof. by right. Qed.

#[local] Hint Resolve below_refl : core.

(** More fuel does not change an answer. *)
Lemma value_more n m :
  (n ≤ m)%nat →
  (∀ d s, below (value n d s) (value m d s)) ∧ (∀ d s, below (elements n d s) (elements m d s)) ∧
  (∀ d s, below (members n d s) (members m d s)).
Proof.
  revert m. induction n as [|n IH]; intros m Hm; [split_and!; by left|].
  destruct m as [|m]; [lia|]. destruct (IH m ltac:(lia)) as (IHv & IHe & IHm).
  split_and!; intros d s; cbn [value elements members].
  - destruct (skip s) as [|a r]; [done|]. case_bool_decide; [|case_bool_decide; [|done]];
      (destruct d as [|d]; [done|]; destruct (skip r) as [|b r']; [done|]; case_bool_decide; [done|];
       apply below_bind; auto).
  - apply below_bind; [auto|]. intros v rest. destruct (skip rest) as [|a r]; [done|].
    case_bool_decide; [|done]. apply below_bind; auto.
  - apply below_bind; [done|]. intros k r1. apply below_bind; [auto|]. intros v rest.
    destruct (skip rest) as [|b r2]; [done|]. case_bool_decide; [|done]. apply below_bind; auto.
Qed.

(** The fuel [decode] gives decides every text: with any larger amount the answer is the
    same, and it is a value or a syntax error. *)
Lemma parse_with_enough n s :
  (value_fuel s ≤ n)%nat → parse_with n s = parse_with (value_fuel s) s ∧ parse_with n s ≠ OutOfFuel.
Proof.
  intros Hn. unfold parse_with.
  destruct (value_enough (value_fuel s)) as (E & _ & _).
  specialize (E maxNestingDepth s ltac:(unfold value_fuel; lia)).
  destruct (value_more (value_fuel s) n Hn) as (M & _ & _).
  destruct (M maxNestingDepth s) as [H|H]; [done|]. rewrite <- H. split; [done|].
  destruct (value _ _ s); [|done..]. cbn. by destruct (skip rest).
Qed.

(** A parse that succeeds with some fuel is what [decode] finds. *)
Lemma decode_complete n s v : parse_with n s = Parsed v "" → decode s = Some v.
Proof.
  intros H. unfold decode.
  destruct (decide (value_fuel s ≤ n)%nat) as [Hn|Hn].
  - destruct (parse_with_enough n s Hn) as [<- _]. by rewrite H.
  - unfold parse_with in *. destruct (value_more n (value_fuel s) ltac:(lia)) as (M & _ & _).
    destruct (M maxNestingDepth s) as [E|E]; rewrite E in H; [done|]. by rewrite H.
Qed.

(** ** Reading back what was written *)

(** The number literals the decoder accepts. *)
Definition lexes (n : string) : bool := bool_decide (lex_number n = Some (n, "")).

(** Every number of [v] is such a literal. *)
Fixpoint numbers_ok (v : json) : bool :=
  match v with
  | JNum n => lexes n
  | JArr l => forallb numbers_ok l
  | JObj l => forallb (λ m, numbers_ok m.2) l
  | _ => true
  end.

(** [v] with the invalid bytes of its strings replaced. *)
Fixpoint clean (v : json) : json :=
  match v with
  | JStr s => JStr (to_valid s)
  | JArr l => JArr (clean <$> l)
  | JObj l => JObj ((λ m, (to_valid m.1, clean m.2)) <$> l)
  | _ => v
  end.

Lemma decode_rune_ascii_eq a s : bval a < 128 → Utf8.decode_rune (String a s) = (bval a, 1%nat).
Proof. intros H. unfold Utf8.decode_rune. by rewrite (proj2 (Z.ltb_lt _ _) H). Qed.

Lemma valid_head_ascii a s : bval a < 128 → valid_head (String a s) = of_bytes [a].
Proof.
  intros H. unfold valid_head, is_invalid. rewrite decode_rune_ascii_eq by done. cbn [fst snd].
  rewrite (proj2 (Z.eqb_neq (bval a) Utf8.RuneError)); [done|]. unfold Utf8.RuneError. lia.
Qed.

Lemma unquote_escape a t :
  bval a < 128 → html_safe a = false →
  unquote_head (escape a +:+ t) = Some (of_bytes [a], t) ∧ ∃ u, escape a = String backslash u.
Proof.
  intros H H'. revert H H'. revert a; intros [[] [] [] [] [] [] [] []]; vm_compute; intros H H';
    try discriminate; (split; [reflexivity|eexists; reflexivity]).
Qed.

(** What [quote] writes for one rune is read back as one rune. *)
Lemma unquote_quote_head a s t :
  unquote_head (quote_head (String a s) +:+ t) = Some (valid_head (String a s), t) ∧
  ∃ c u, quote_head (String a s) = String c u ∧ c ≠ dquote.
Proof.
  unfold quote_head. destruct (Z.ltb_spec (bval a) 128) as [Ha|Ha].
  - rewrite valid_head_ascii by done. destruct (html_safe a) eqn:Hs.
    + cbn [of_bytes]. rewrite sapp_cons, sapp_nil. unfold unquote_head.
      apply andb_true_iff in Hs as [H32 Hn]. apply negb_true_iff, bool_decide_eq_false in Hn.
      rewrite bool_decide_false by set_solver. rewrite (proj2 (Z.ltb_ge (bval a) 32)) by lia.
      rewrite valid_head_ascii, decode_rune_ascii_eq by done. split; [done|].
      exists a, "". split; [done|set_solver].
    + destruct (unquote_escape a t Ha Hs) as [E [u Eu]]. rewrite E. split; [done|].
      exists backslash, u. by split.
  - unfold valid_head. set (p := Utf8.decode_rune (String a s)).
    destruct (is_invalid p) eqn:Hi; [split; [done|]; by eexists _, _|].
    assert (encode_rune p.1 = Strings.take p.2 (String a s)) as He by by apply encode_decode_rune.
    destruct (Z.eqb_spec p.1 8232) as [E|E]; [|destruct (Z.eqb_spec p.1 8233) as [E'|E']];
      cbn [orb].
    + rewrite <- He, E. split; [done|]. by eexists _, _.
    + rewrite <- He, E'. split; [done|]. by eexists _, _.
    + pose proof (decode_rune_width (String a s) ltac:(done)) as [Hw Hw'].
      pose proof (decode_rune_app (String a s) t Hi ltac:(done)) as Hd. fold p in Hw, Hw', Hd.
      destruct (take_app_n p.2 (String a s) t Hw') as [T D].
      destruct p.2 as [|n] eqn:En; [lia|].
      assert (a ≠ backslash ∧ a ≠ dquote) as [Hb Hq].
      { split; intros ->; vm_compute in Ha; by apply Ha. }
      split; [|by eexists _, _].
      change (Strings.take (S n) (String a s) +:+ t) with (String a (Strings.take n s +:+ t)) in *.
      unfold unquote_head. rewrite bool_decide_false by done.
      rewrite (proj2 (Z.ltb_ge (bval a) 32)) by lia.
      unfold valid_head. rewrite Hd. fold p. by rewrite Hi, En, T, D.
Qed.

(** A quoted string reads back as itself, its invalid bytes replaced. *)
Lemma unquote_quote_loop n s m rest :
  (len s ≤ n)%nat → (len (quote_loop n s) < m)%nat →
  unquote m (quote_loop n s +:+ String dquote rest) = Parsed (valid_utf8_loop n s) rest.
Proof.
  revert s m. induction n as [|n IH]; intros s m Hn Hm.
  { destruct s; [|cbn in Hn; lia]. destruct m; [lia|done]. }
  destruct s as [|a s]; [destruct m; [lia|done]|].
  destruct m as [|m]; [lia|]. cbn [quote_loop valid_utf8_loop] in *.
  set (n0 := (Utf8.decode_rune (String a s)).2) in *. rewrite sapp_assoc.
  set (tl := quote_loop n (Strings.drop n0 (String a s)) +:+ String dquote rest).
  destruct (unquote_quote_head a s tl) as [E (c & u & Ec & Hc)].
  rewrite Strings.length_app_string in Hm.
  assert (1 ≤ n0)%nat by (apply decode_rune_width; done).
  rewrite Ec in E, Hm |- *. rewrite sapp_cons in *. cbn [unquote].
  rewrite bool_decide_false, E by done. unfold tl. cbn in Hm, Hn.
  rewrite IH; [done| |lia]. rewrite drop_length. cbn. lia.
Qed.

Lemma unquote_quote s rest m :
  (len (quote_loop (len s) s) < m)%nat →
  unquote m (quote_loop (len s) s +:+ String dquote rest) = Parsed (to_valid s) rest.
Proof. by apply unquote_quote_loop. Qed.

(** A text that cannot continue a number. *)
Definition ends_number (s : string) : bool :=
  match s with
  | EmptyString => true
  | String a _ => negb (is_digit a) && negb (bool_decide (a ∈ ["."%char; "e"%char; "E"%char]))
  end.

Lemma digits_app s rest :
  ends_number rest = true → digits (s +:+ rest) = ((digits s).1, (digits s).2 +:+ rest).
Proof.
  intros Hr. induction s as [|a s IH].
  - rewrite sapp_nil. destruct rest as [|b rest]; [done|]. cbn in Hr |- *.
    by destruct (is_digit b).
  - rewrite sapp_cons. cbn. destruct (is_digit a); [|done]. rewrite IH. by destruct (digits s).
Qed.

Lemma digits1_app s d r rest :
  ends_number rest = true → digits1 s = Some (d, r) → digits1 (s +:+ rest) = Some (d, r +:+ rest).
Proof.
  unfold digits1. intros Hr. rewrite digits_app by done. destruct (digits s) as [[|a d'] r']; [done|].
  by intros [= <- <-].
Qed.

Lemma int_part_app s i r rest :
  ends_number rest = true → int_part s = Some (i, r) → int_part (s +:+ rest) = Some (i, r +:+ rest).
Proof.
  intros Hr. destruct s as [|a s]; [done|]. rewrite sapp_cons. cbn [int_part].
  case_bool_decide; [by intros [= <- <-]|]. intros Hd. by apply (digits1_app (String a s)).
Qed.

Lemma frac_part_app s f r rest :
  ends_number rest = true → frac_part s = Some (f, r) → frac_part (s +:+ rest) = Some (f, r +:+ rest).
Proof.
  intros Hr. destruct s as [|a s].
  - intros [= <- <-]. rewrite sapp_nil. destruct rest as [|b rest]; [done|]. cbn in Hr |- *.
    apply andb_true_iff in Hr as [_ Hr]. rewrite negb_true_iff, bool_decide_eq_false in Hr.
    by rewrite bool_decide_false by set_solver.
  - rewrite sapp_cons. cbn [frac_part]. case_bool_decide; [|by intros [= <- <-]].
    destruct (digits1 s) as [[d r']|] eqn:E; [|done]. intros [= <- <-].
    by rewrite (digits1_app s d r' rest Hr E).
Qed.

Lemma exp_part_app s e r rest :
  ends_number rest = true → exp_part s = Some (e, r) → exp_part (s +:+ rest) = Some (e, r +:+ rest).
Proof.
  intros Hr. destruct s as [|a s].
  - intros [= <- <-]. rewrite sapp_nil. destruct rest as [|b rest]; [done|]. cbn in Hr |- *.
    apply andb_true_iff in Hr as [_ Hr]. rewrite negb_true_iff, bool_decide_eq_false in Hr.
    by rewrite !bool_decide_false by set_solver.
  - rewrite sapp_cons. cbn [exp_part]. destruct (_ || _); [|by intros [= <- <-]].
    destruct s as [|b s]; [done|]. rewrite sapp_cons.
    destruct (_ || _); [|rewrite <- (sapp_cons b s rest)];
      (destruct (digits1 _) as [[d r']|] eqn:E; [|done]); intros [= <- <-];
      by rewrite (digits1_app _ d r' rest Hr E).
Qed.

Lemma lex_number_app s n r rest :
  ends_number rest = true → lex_number s = Some (n, r) → lex_number (s +:+ rest) = Some (n, r +:+ rest).
Proof.
  intros Hr. unfold lex_number. destruct s as [|a s]; [done|].
  assert (sign_part (String a s +:+ rest) =
          ((sign_part (String a s)).1, (sign_part (String a s)).2 +:+ rest)) as ->.
  { rewrite sapp_cons. cbn. by case_bool_decide. }
  destruct (sign_part (String a s)) as [g s1]. cbn [fst snd].
  destruct (int_part s1) as [[i s2]|] eqn:Ei; [|done]. cbn.
  destruct (frac_part s2) as [[f s3]|] eqn:Ef; [|done]. cbn.
  destruct (exp_part s3) as [[e s4]|] eqn:Ee; [|done]. cbn. intros [= <- <-].
  rewrite (int_part_app _ _ _ _ Hr Ei). cbn. rewrite (frac_part_app _ _ _ _ Hr Ef). cbn.
  by rewrite (exp_part_app _ _ _ _ Hr Ee).
Qed.

(** A number starts with a digit or a minus sign. *)
Lemma lexes_head n : lexes n = true → ∃ a u, n = String a u ∧ (is_digit a || bool_decide (a = "-"%char)) = true.
Proof.
  intros H%bool_decide_eq_true. destruct n as [|a u]; [done|]. exists a, u. split; [done|].
  revert H. unfold lex_number. cbn [sign_part]. case_bool_decide; [by rewrite orb_true_r|].
  cbn [int_part]. case_bool_decide; [by subst|]. unfold digits1. cbn. by destruct (is_digit a).
Qed.

(** [p] answers [a] with the rest [rest] from some amount of fuel on. *)
Definition reads {A} (p : nat → parsed A) (a : A) (rest : string) : Prop :=
  ∃ n, ∀ m, (n ≤ m)%nat → p m = Parsed a rest.

(** One more unit of fuel, and a parser built on two others. *)
Lemma reads_step {A} (p q : nat → parsed A) a rest :
  (∀ m, p (S m) = q m) → reads q a rest → reads p a rest.
Proof.
  intros E [n H]. exists (S n). intros m Hm. destruct m as [|m]; [lia|]. rewrite E. apply H. lia.
Qed.

Lemma reads_bind {A B} (p : nat → parsed A) (f : nat → A → string → parsed B) a r b rest :
  reads p a r → reads (λ m, f m a r) b rest → reads (λ m, pbind (p m) (f m)) b rest.
Proof.
  intros [n H] [n' H']. exists (n `max` n')%nat. intros m Hm. rewrite H by lia. cbn. apply H'. lia.
Qed.

Lemma reads_ret {A} (a : A) rest : reads (λ _, Parsed a rest) a rest.
Proof. by exists O. Qed.

Lemma digit_not_special a :
  (is_digit a || bool_decide (a = "-"%char)) = true →
  is_space a = false ∧ a ∉ [dquote; "{"%char; "["%char; "]"%char; "}"%char; "n"%char; "t"%char; "f"%char].
Proof.
  intros H. rewrite <- (bool_decide_eq_false (a ∈ _)). revert H.
  revert a; intros [[] [] [] [] [] [] [] []]; vm_compute; intros H; try discriminate H; by split.
Qed.

(** The first byte of an encoded value is no space and closes nothing. *)
Lemma encode_head v :
  numbers_ok v = true →
  ∃ a u, encode v = String a u ∧ is_space a = false ∧ a ≠ "]"%char ∧ a ≠ "}"%char.
Proof.
  destruct v as [|b|n|s|l|l]; cbn [encode numbers_ok]; intros H.
  - by eexists _, _.
  - destruct b; by eexists _, _.
  - apply lexes_head in H as (a & u & -> & Ha). apply digit_not_special in Ha as [Hs Hn].
    exists a, u. split_and!; [done..|set_solver|set_solver].
  - by eexists _, _.
  - by eexists _, _.
  - by eexists _, _.
Qed.

Lemma scalar_number n rest :
  lexes n = true → ends_number rest = true → scalar (n +:+ rest) = Parsed (JNum n) rest.
Proof.
  intros Hn Hr. destruct (lexes_head n Hn) as (a & u & -> & [_ Ha]%digit_not_special).
  apply bool_decide_eq_true in Hn.
  apply (lex_number_app _ _ _ rest Hr) in Hn. rewrite sapp_nil in Hn. rewrite sapp_cons in *.
  unfold scalar. rewrite bool_decide_false by set_solver.
  cbn [Strings.HasPrefix]. rewrite !bool_decide_false by set_solver. cbn [andb]. by rewrite Hn.
Qed.

Lemma scalar_string s rest : scalar (quote s +:+ rest) = Parsed (JStr (to_valid s)) rest.
Proof.
  unfold quote. rewrite sapp_cons, sapp_assoc. unfold scalar. rewrite bool_decide_true by done.
  cbn [of_bytes]. rewrite sapp_cons, sapp_nil, unquote_quote; [done|].
  rewrite Strings.length_app_string. lia.
Qed.

Lemma skip_not_space a s : is_space a = false → skip (String a s) = String a s.
Proof. intros H. cbn. by rewrite H. Qed.

(** A value whose first byte opens neither an array nor an object. *)
Lemma reads_scalar d a s v rest :
  is_space a = false → a ≠ "{"%char → a ≠ "["%char → scalar (String a s) = Parsed v rest →
  reads (λ m, value m d (String a s)) v rest.
Proof.
  intros Hs Ho Hb E. exists 1%nat. intros [|m] Hm; [lia|]. cbn [value].
  by rewrite skip_not_space, !bool_decide_false by done.
Qed.

(** What the round trip says of one value. *)
Definition reads_back (v : json) : Prop :=
  numbers_ok v = true → ∀ d rest, (depth v ≤ d)%nat → ends_number rest = true →
  reads (λ m, value m d (encode v +:+ rest)) (clean v) rest.

(** After an element comes the end of the array or a comma. *)
Lemma elements_encode l x d rest :
  Forall reads_back (x :: l) → forallb numbers_ok (x :: l) = true →
  (max_list (depth <$> x :: l) ≤ d)%nat →
  reads (λ m, elements m d (commas encode "]" (x :: l) +:+ rest)) (clean <$> x :: l) rest.
Proof.
  revert x. induction l as [|y l IH]; intros x Hl Hn Hd;
    apply Forall_cons in Hl as [Hx Hl]; cbn in Hn; apply andb_true_iff in Hn as [Hnx Hnl]; cbn in Hd.
  - change (commas encode "]" [x]) with (encode x +:+ "]"). rewrite sapp_assoc.
    eapply (reads_step _ (λ m, pbind (value m d (encode x +:+ "]" +:+ rest)) _)); [done|].
    eapply (reads_bind _ (λ m v r, _)); [by apply Hx; [|lia|]|].
    rewrite sapp_cons, sapp_nil. cbn. apply reads_ret.
  - change (commas encode "]" (x :: y :: l)) with (encode x +:+ "," +:+ commas encode "]" (y :: l)).
    rewrite !sapp_assoc.
    eapply (reads_step _ (λ m, pbind (value m d (encode x +:+ "," +:+ commas encode "]" (y :: l) +:+ rest)) _));
      [done|].
    eapply (reads_bind _ (λ m v r, _)); [by apply Hx; [|lia|]|].
    rewrite sapp_cons, sapp_nil. cbn -[elements commas].
    eapply (reads_bind _ (λ m v r, _)); [apply IH; [done..|cbn; lia]|]. apply reads_ret.
Qed.

Definition encode_member (m : string * json) : string :=
  match m with (k, x) => quote k +:+ ":" +:+ encode x end.

Lemma key_quote k s : key (quote k +:+ ":" +:+ s) = Parsed (to_valid k) s.
Proof.
  unfold quote. rewrite sapp_cons, sapp_assoc. unfold key. rewrite skip_not_space by done.
  rewrite bool_decide_true by done. cbn [of_bytes]. rewrite !sapp_cons, !sapp_nil, unquote_quote; [done|].
  rewrite Strings.length_app_string. lia.
Qed.

Lemma members_encode l x d rest :
  Forall (λ m, reads_back m.2) (x :: l) → forallb (λ m, numbers_ok m.2) (x :: l) = true →
  (max_list ((λ m, depth m.2) <$> x :: l) ≤ d)%nat →
  reads (λ m, members m d (commas encode_member "}" (x :: l) +:+ rest))
    ((λ m, (to_valid m.1, clean m.2)) <$> x :: l) rest.
Proof.
  revert x. induction l as [|y l IH]; intros [k x] Hl Hn Hd;
    apply Forall_cons in Hl as [Hx Hl]; cbn in Hn; apply andb_true_iff in Hn as [Hnx Hnl]; cbn in Hd, Hx.
  - change (commas encode_member "}" [(k, x)]) with ((quote k +:+ ":" +:+ encode x) +:+ "}").
    rewrite !sapp_assoc. eapply reads_step; [intros m; cbn [members]; rewrite key_quote; cbn [pbind]; reflexivity|].
    eapply (reads_bind _ (λ m v r, _)); [by apply Hx; [|lia|]|].
    rewrite sapp_cons, sapp_nil. cbn. apply reads_ret.
  - change (commas encode_member "}" ((k, x) :: y :: l))
      with ((quote k +:+ ":" +:+ encode x) +:+ "," +:+ commas encode_member "}" (y :: l)).
    rewrite !sapp_assoc. eapply reads_step; [intros m; cbn [members]; rewrite key_quote; cbn [pbind]; reflexivity|].
    eapply (reads_bind _ (λ m v r, _)); [by apply Hx; [|lia|]|].
    rewrite sapp_cons, sapp_nil. cbn -[members commas].
    eapply (reads_bind _ (λ m v r, _)); [apply IH; [done..|cbn; lia]|]. apply reads_ret.
Qed.

(** What follows the opening bracket of an array or an object that is not empty. *)
Lemma commas_head {A} (f : A → string) close x l rest a u :
  f x = String a u → ∃ u', commas f close (x :: l) +:+ rest = String a u'.
Proof. intros E. destruct l; cbn; rewrite E, !sapp_cons; by eexists. Qed.

Lemma value_encode v : reads_back v.
Proof.
  induction v as [|b|n|s|l IH|l IH] using json_rec_nested; intros Hn d rest Hd Hr.
  - apply reads_scalar; [done..|]. by destruct rest.
  - destruct b; (apply reads_scalar; [done..|]; by destruct rest).
  - pose proof (scalar_number n rest Hn Hr) as E. destruct (lexes_head n Hn) as (a & u & -> & Ha).
    apply digit_not_special in Ha as [Hs Ha]. cbn [encode]. rewrite sapp_cons in *.
    apply reads_scalar; [done|set_solver|set_solver|done].
  - pose proof (scalar_string s rest) as E. cbn [encode clean]. unfold quote in *. rewrite sapp_cons in *.
    by apply reads_scalar.
  - cbn [encode clean depth] in *. destruct d as [|d]; [lia|]. destruct l as [|x l].
    { exists 1%nat. intros [|m] Hm; [lia|]. done. }
    assert (numbers_ok x = true) as Hx by (cbn in Hn; by apply andb_true_iff in Hn as [? _]).
    destruct (encode_head x Hx) as (a & u & Ea & Hs & Hc & _).
    destruct (commas_head encode "]" x l rest a u Ea) as [u' Eu].
    pose proof (elements_encode l x d rest IH Hn ltac:(lia)) as HE. rewrite Eu in HE.
    rewrite sapp_assoc, Eu, sapp_cons, sapp_nil.
    eapply reads_step; [intros m; cbn [value]; rewrite (skip_not_space "["%char), bool_decide_false,
      bool_decide_true, (skip_not_space a), bool_decide_false by done; reflexivity|].
    eapply (reads_bind _ (λ m v r, _)); [done|]. apply reads_ret.
  - cbn [encode clean depth] in *. fold encode_member in *. destruct d as [|d]; [lia|]. destruct l as [|x l].
    { exists 1%nat. intros [|m] Hm; [lia|]. done. }
    assert (∃ u, encode_member x = String dquote u) as [u Ea] by (destruct x; by eexists).
    destruct (commas_head encode_member "}" x l rest dquote u Ea) as [u' Eu].
    pose proof (members_encode l x d rest IH Hn ltac:(lia)) as HE. rewrite Eu in HE.
    rewrite sapp_assoc, Eu, sapp_cons, sapp_nil.
    eapply reads_step; [intros m; cbn [value]; rewrite (skip_not_space "{"%char),
      bool_decide_true, (skip_not_space dquote), bool_decide_false by done; reflexivity|].
    eapply (reads_bind _ (λ m v r, _)); [done|]. apply reads_ret.
Qed.

(** Spaces around a value are ignored. *)
Fixpoint all_space (s : string) : bool :=
  match s with String a s' => is_space a && all_space s' | EmptyString => true end.

Lemma all_space_skip s : all_space s = true → skip s = "".
Proof. induction s as [|a s IH]; [done|]. cbn. by destruct (is_space a). Qed.

Lemma all_space_ends s : all_space s = true → ends_number s = true.
Proof.
  destruct s as [|a s]; [done|]. cbn. intros [H _]%andb_true_iff. revert H.
  revert a; intros [[] [] [] [] [] [] [] []]; vm_compute; done.
Qed.

(** What [encode] writes, [decode] reads, invalid bytes in its strings replaced. *)
Lemma decode_of_encode v ws :
  numbers_ok v = true → (depth v ≤ maxNestingDepth)%nat → all_space ws = true →
  decode (encode v +:+ ws) = Some (clean v).
Proof.
  intros Hn Hd Hw. destruct (value_encode v Hn maxNestingDepth ws Hd (all_space_ends _ Hw)) as [n H].
  apply (decode_complete n). unfold parse_with. rewrite H by done. cbn. by rewrite all_space_skip.
Qed.

(** ** Decoded strings are valid UTF-8 *)

Lemma unquote_head_valid s h t : unquote_head s = Some (h, t) → Valid h.
Proof.
  intros H. destruct s as [|a s]; [done|]. cbn [unquote_head] in H. case_bool_decide.
  - destruct s as [|c s]; [done|]. case_bool_decide.
    + unfold unicode_escape in H. destruct (getu4 s) as [[r s1]|]; [|done]. cbn in H.
      destruct (surrogate r); [|injection H as <- _; apply encode_rune_valid].
      injection H as H.
      repeat (case_match; simplify_eq/=; try apply encode_rune_valid).
    + unfold unescape in H. repeat case_bool_decide; simplify_eq/=;
        by eapply Valid_one; [reflexivity|done|done|right].
  - destruct (_ <? _); [done|]. injection H as <- _. by apply valid_head_valid.
Qed.

(** The strings a parser returned are valid. *)
Definition parsed_all {A} (P : A → Prop) (p : parsed A) : Prop :=
  match p with Parsed a _ => P a | _ => True end.

Lemma parsed_all_bind {A B} (P : A → Prop) (Q : B → Prop) (p : parsed A) (f : A → string → parsed B) :
  parsed_all P p → (∀ a rest, P a → parsed_all Q (f a rest)) → parsed_all Q (pbind p f).
Proof. destruct p; cbn; auto. Qed.

Lemma unquote_valid n s : parsed_all Valid (unquote n s).
Proof.
  revert s. induction n as [|n IH]; intros s; [done|]. cbn [unquote].
  destruct s as [|a s]; [done|]. case_bool_decide; [constructor|].
  destruct (unquote_head _) as [[h t]|] eqn:E; [|done]. apply unquote_head_valid in E.
  eapply parsed_all_bind; [apply IH|]. intros u rest Hu. by apply Valid_app.
Qed.

Definition Clean (v : json) : Prop := clean v = v.
Definition CleanMember (m : string * json) : Prop := Valid m.1 ∧ Clean m.2.

Lemma scalar_clean s : parsed_all Clean (scalar s).
Proof.
  destruct s as [|a s]; [done|]. unfold scalar. case_bool_decide.
  { eapply parsed_all_bind; [apply unquote_valid|]. intros t rest Ht. unfold Clean. cbn.
    by rewrite to_valid_id. }
  repeat (destruct (Strings.HasPrefix _ _); [done|]). by destruct (lex_number _) as [[]|].
Qed.

Lemma key_valid s : parsed_all Valid (key s).
Proof.
  unfold key. destruct (skip s) as [|a r]; [done|]. case_bool_decide; [|done].
  eapply parsed_all_bind; [apply unquote_valid|]. intros k rest Hk.
  destruct (skip rest); [done|]. by case_bool_decide.
Qed.

Lemma Clean_arr l : Forall Clean l → Clean (JArr l).
Proof.
  unfold Clean. intros H. cbn. f_equal. induction H as [|x l Hx _ IH]; [done|]. cbn. by rewrite Hx, IH.
Qed.

Lemma Clean_obj l : Forall CleanMember l → Clean (JObj l).
Proof.
  unfold Clean. intros H. cbn. f_equal. induction H as [|[k x] l [Hk Hx] _ IH]; [done|]. cbn in *.
  by rewrite Hx, IH, to_valid_id.
Qed.

Lemma value_clean n :
  (∀ d s, parsed_all Clean (value n d s)) ∧ (∀ d s, parsed_all (Forall Clean) (elements n d s)) ∧
  (∀ d s, parsed_all (Forall CleanMember) (members n d s)).
Proof.
  induction n as [|n (IHv & IHe & IHm)]; [done|].
  split_and!; intros d s; cbn [value elements members].
  - destruct (skip s) as [|a r]; [done|]. case_bool_decide; [|case_bool_decide; [|apply scalar_clean]];
      (destruct d as [|d]; [done|]; destruct (skip r) as [|b r']; [done|]; case_bool_decide; [done|];
       eapply parsed_all_bind; [eauto|]; intros l rest Hl); [by apply Clean_obj|by apply Clean_arr].
  - eapply parsed_all_bind; [eauto|]. intros v rest Hv. destruct (skip rest) as [|a r]; [done|].
    case_bool_decide; [|case_bool_decide; [by apply Forall_singleton|done]].
    eapply parsed_all_bind; [eauto|]. intros l rest' Hl. by apply Forall_cons.
  - eapply parsed_all_bind; [apply key_valid|]. intros k rest Hk.
    eapply parsed_all_bind; [eauto|]. intros v rest' Hv. destruct (skip rest') as [|a r]; [done|].
    case_bool_decide; [|case_bool_decide; [by apply Forall_singleton|done]].
    eapply parsed_all_bind; [eauto|]. intros l rest'' Hl. by apply Forall_cons.
Qed.

(** A decoded value is its own cleaned form: every string of it is valid UTF-8. *)
Lemma decode_clean s v : decode s = Some v → clean v = v.
Proof.
  unfold decode, parse_with. destruct (value_clean (value_fuel s)) as (H & _ & _).
  specialize (H maxNestingDepth s). destruct (value _ _ s) as [v' rest| |]; [|done..]. cbn in *.
  destruct (skip rest); [|done]. by intros [= <-].
Qed.

(** ** Integers *)

Lemma digit_is_digit d : 0 ≤ d ≤ 9 → is_digit (Strconv.digit d) = true.
Proof. intros H. unfold is_digit. rewrite Strconv.bval_digit by done. lia. Qed.

(** The digits of a non-negative integer: no leading zero unless it is 0. *)
Lemma utoa_digits fuel n acc :
  0 ≤ n < 2 ^ Z.of_nat fuel → (0 < fuel)%nat →
  ∃ ds, Strconv.utoa fuel n acc = ds +:+ acc ∧ digits ds = (ds, "") ∧
    (∃ a u, ds = String a u ∧ (a = "0"%char → u = "" ∧ n = 0)).
Proof.
  revert n acc. induction fuel as [|fuel IH]; intros n acc Hn Hf; [lia|].
  assert (0 ≤ n mod 10 ≤ 9) as Hd by (pose proof (Z.mod_pos_bound n 10); lia).
  cbn [Strconv.utoa]. destruct (Z.ltb_spec n 10) as [Hlt|Hge].
  - exists (of_bytes [Strconv.digit (n mod 10)]). split; [done|]. split; [cbn [string_of_list_ascii digits]; by rewrite digit_is_digit|].
    exists (Strconv.digit (n mod 10)), "". split; [done|]. intros E%(f_equal bval).
    rewrite Strconv.bval_digit in E by done. rewrite Z.mod_small in E by lia.
    change (bval "0"%char) with 48 in E. split; [done|lia].
  - rewrite Nat2Z.inj_succ, Z.pow_succ_r in Hn by lia.
    assert (0 ≤ n / 10 < 2 ^ Z.of_nat fuel) as Hq.
    { split; [apply Z.div_pos; lia|]. apply Z.div_lt_upper_bound; lia. }
    assert (1 ≤ n / 10) by (apply Z.div_le_lower_bound; lia).
    assert (0 < fuel)%nat as Hf' by (destruct fuel; [cbn in Hq; lia|lia]).
    destruct (IH (n / 10) (String (Strconv.digit (n mod 10)) acc) Hq Hf') as (ds & -> & Hds & a & u & -> & H0).
    exists (String a u +:+ of_bytes [Strconv.digit (n mod 10)]).
    split; [by rewrite sapp_assoc|]. split.
    + clear -Hds Hd. revert Hds. generalize (String a u) as s. intros s. induction s as [|c s IH].
      * rewrite sapp_nil. cbn [string_of_list_ascii digits]. by rewrite digit_is_digit.
      * rewrite sapp_cons. cbn [digits]. destruct (is_digit c); [|done]. destruct (digits s) as [x y].
        intros [= -> ->]. by rewrite IH.
    + exists a, (u +:+ of_bytes [Strconv.digit (n mod 10)]). split; [done|]. intros Ha.
      apply H0 in Ha as [_ ?]. lia.
Qed.

(** Printed integers are number literals. *)
Lemma lexes_Itoa n : lexes (Strconv.Itoa n) = true.
Proof.
  assert (∀ m, 0 ≤ m → ∃ a u, Strconv.utoa (S (Z.to_nat (Z.log2 m))) m "" = String a u ∧
            is_digit a = true ∧ int_part (String a u) = Some (String a u, "")) as Hu.
  { intros m Hm. destruct (utoa_digits _ m "" (Strconv.log2_fuel m Hm) ltac:(lia))
      as (ds & -> & Hds & a & u & -> & H0). exists a, u. rewrite sapp_nil_r. split; [done|].
    assert (is_digit a = true) as Ha by (cbn in Hds; by destruct (is_digit a)).
    split; [done|]. cbn [int_part]. case_bool_decide as E; [by destruct (H0 E) as [-> _]; subst|].
    unfold digits1. by rewrite Hds. }
  apply bool_decide_eq_true. unfold lex_number, Strconv.Itoa. destruct (Z.ltb_spec n 0) as [Hn|Hn].
  - destruct (Hu (- n) ltac:(lia)) as (a & u & -> & Ha & Hi). cbn [sign_part].
    rewrite bool_decide_true by done. rewrite Hi. cbn. by rewrite sapp_nil_r.
  - destruct (Hu n Hn) as (a & u & -> & Ha & Hi). cbn [sign_part].
    rewrite bool_decide_false by (intros ->; done). rewrite Hi. cbn. by rewrite !sapp_nil_r.
Qed.
(** ** ASCII strings are valid *)

Lemma ascii_valid s : Utf8.is_ascii s = true → Utf8.ValidString s = true.
Proof.
  intros H. apply Unicode.ValidString_Valid. unfold Utf8.is_ascii in H.
  induction s as [|a s IH]; [constructor|]. cbn in H. apply andb_true_iff in H as [Ha H].
  apply Z.ltb_lt in Ha. pose proof (decode_rune_ascii_eq a s Ha) as E.
  apply Unicode.Valid_rune; [done| |rewrite E; by apply IH].
  rewrite E. unfold Unicode.is_invalid, Utf8.RuneError. cbn [fst snd]. lia.
Qed.

Lemma ascii_app s t : Utf8.is_ascii (s +:+ t) = Utf8.is_ascii s && Utf8.is_ascii t.
Proof. unfold Utf8.is_ascii. by rewrite to_bytes_app, forallb_app. Qed.

Lemma ascii_cons a s : Utf8.is_ascii (String a s) = (bval a <? 128) && Utf8.is_ascii s.
Proof. done. Qed.

Lemma ascii_base64 e l : Utf8.is_ascii (Base64.EncodeToString e l) = true.
Proof.
  unfold Utf8.is_ascii, Base64.EncodeToString. rewrite to_of_bytes.
  apply List.forallb_forall. intros x Hx%list_elem_of_In.
  assert (Forall (λ a, (bval a <? 128) = true) (Base64.encode e l)) as HF.
  { apply Base64.encode_digits; [|done]. intros i Hi.
    pose proof (Base64.dec_enc e i Hi) as D. revert D. generalize (Base64.enc_char e i) as a.
    intros a. unfold Base64.dec_char. pose proof (bval_range a). destruct e; repeat case_match; lia || done. }
  by rewrite Forall_forall in HF; apply HF.
Qed.

Lemma ascii_Itoa n : Utf8.is_ascii (Strconv.Itoa n) = true.
Proof.
  assert (∀ fuel m acc, Utf8.is_ascii acc = true → Utf8.is_ascii (Strconv.utoa fuel m acc) = true) as Hu.
  { induction fuel as [|fuel IH]; intros m acc Ha; [done|]. cbn [Strconv.utoa].
    assert (Utf8.is_ascii (String (Strconv.digit (m mod 10)) acc) = true).
    { pose proof (Z.mod_pos_bound m 10). rewrite ascii_cons, Ha, Strconv.bval_digit; lia. }
    destruct (m <? 10); [done|by apply IH]. }
  unfold Strconv.Itoa. destruct (n <? 0); [rewrite ascii_cons|]; rewrite Hu; done.
Qed.


(** ** Building values *)

Lemma depth_arr n l : Forall (λ v, (depth v ≤ n)%nat) l → (depth (JArr l) ≤ S n)%nat.
Proof. intros H. cbn [depth]. apply le_n_S. induction H; cbn; lia. Qed.

Lemma depth_obj n l : Forall (λ m, (depth m.2 ≤ n)%nat) l → (depth (JObj l) ≤ S n)%nat.
Proof. intros H. cbn [depth]. apply le_n_S. induction H; cbn; lia. Qed.

(** A value that is read back as it is: [n] bounds its depth. *)
Record plain (n : nat) (v : json) : Prop := {
  plain_numbers : numbers_ok v = true;
  plain_clean : Clean v;
  plain_depth : (depth v ≤ n)%nat
}.

Lemma plain_str n s : Utf8.ValidString s = true → plain n (JStr s).
Proof.
  intros H%Unicode.ValidString_Valid. split; [done| |cbn; lia]. unfold Clean. cbn. by rewrite Unicode.to_valid_id.
Qed.

Lemma plain_int n z : plain n (JNum (Strconv.Itoa z)).
Proof. split; [apply lexes_Itoa|done|cbn; lia]. Qed.

Lemma plain_bool n b : plain n (JBool b).
Proof. split; [done|done|cbn; lia]. Qed.

Lemma plain_null n : plain n JNull.
Proof. split; [done|done|cbn; lia]. Qed.

Lemma plain_arr n l : Forall (plain n) l → plain (S n) (JArr l).
Proof.
  intros H. split.
  - cbn [numbers_ok]. induction H as [|v l [Hv _ _] _ IH]; [done|]. cbn. by rewrite Hv.
  - apply Clean_arr. eapply Forall_impl; [exact H|]. by intros v [].
  - apply depth_arr. eapply Forall_impl; [exact H|]. by intros v [].
Qed.

Lemma plain_obj n l : Forall (λ m, Utf8.ValidString m.1 = true ∧ plain n m.2) l → plain (S n) (JObj l).
Proof.
  intros H. split.
  - cbn [numbers_ok]. induction H as [|v l [_ [Hv _ _]] _ IH]; [done|]. cbn. by rewrite Hv.
  - apply Clean_obj. eapply Forall_impl; [exact H|].
    intros m [Hk [_ Hc _]]. split; [by apply Unicode.ValidString_Valid|done].
  - apply depth_obj. eapply Forall_impl; [exact H|]. by intros v [_ []].
Qed.

Lemma decode_plain n v : plain n v → (n <=? maxNestingDepth)%nat = true → decode (encode v) = Some v.
Proof.
  intros [Hn Hc Hd] Hm%Nat.leb_le. rewrite <- (sapp_nil_r (encode v)).
  rewrite decode_of_encode by (done || (etrans; [exact Hd|exact Hm])). by rewrite Hc.
Qed.
End Json.
