(* ===== verification/JsonText.v ===== *)
(** * encoding/json: maps and lines

    A Go map is written as an object with its keys in order ([sorted_entries]). What the
    encoder writes has no control bytes in it ([encode_no_control]), so that a text of one
    value is one line. *)

From S2P Require Import Prelude GoStd Json.
From stdpp Require Import sorting.
Local Open Scope Z_scope.

Module JsonText.
Import Json.

(** ** Maps *)

Section maps.
Context {A : Type}.

Definition key_le (x y : string * A) : Prop := String.leb x.1 y.1 = true.

#[global] Instance key_le_dec : RelDecision key_le.
Proof. intros x y. unfold key_le. apply _. Defined.

Definition sorted_entries (m : gmap string A) : list (string * A) := merge_sort key_le (map_to_list m).

Lemma sorted_perm m : sorted_entries m ≡ₚ map_to_list m.
Proof. apply merge_sort_Permutation. Qed.

Lemma sorted_Forall (P : string → A → Prop) m :
  map_Forall P m → Forall (λ kv, P kv.1 kv.2) (sorted_entries m).
Proof. intros H. rewrite Forall_forall. intros [k v]. rewrite sorted_perm, elem_of_map_to_list. apply H. Qed.

Lemma sorted_NoDup m : NoDup (sorted_entries m).*1.
Proof. rewrite sorted_perm. apply NoDup_fst_map_to_list. Qed.

Lemma list_to_map_sorted m : list_to_map (sorted_entries m) = m.
Proof.
  rewrite (list_to_map_proper _ (map_to_list m)); [apply list_to_map_to_list|apply sorted_NoDup|apply sorted_perm].
Qed.
End maps.

(** ** Control bytes *)

Definition no_control (s : string) : bool := forallb (λ a, 32 <=? bval a) (to_bytes s).

Lemma no_control_app s t : no_control (s +:+ t) = no_control s && no_control t.
Proof. unfold no_control. by rewrite to_bytes_app, forallb_app. Qed.

Lemma no_control_cons a s : no_control (String a s) = (32 <=? bval a) && no_control s.
Proof. done. Qed.

Lemma hexdigit_no_control d : 0 ≤ d < 16 → (32 <=? bval (Hex.hexdigit d)) = true.
Proof.
  intros H. assert (forallb (λ d, 32 <=? bval (Hex.hexdigit d)) (seqZ 0 16) = true) as HF by (vm_compute; reflexivity).
  rewrite List.forallb_forall in HF. apply HF, list_elem_of_In, elem_of_seqZ. lia.
Qed.

Lemma escape_no_control a : no_control (escape a) = true.
Proof.
  pose proof (bval_range a). unfold escape. destruct (_ || _) eqn:E.
  { apply orb_true_iff in E as [Hx%bool_decide_eq_true|Hx%bool_decide_eq_true]; rewrite Hx; done. }
  repeat (destruct (_ =? _); [done|]). rewrite no_control_app. cbn -[Hex.hexdigit Z.div Z.modulo].
  rewrite !hexdigit_no_control by (Z.to_euclidean_division_equations; lia). done.
Qed.

(** The bytes of a rune that is not ASCII are all above. *)
Lemma rune_no_control s :
  Unicode.is_invalid (Utf8.decode_rune s) = false → (∀ a s', s = String a s' → 128 ≤ bval a) →
  no_control (Strings.take (Utf8.decode_rune s).2 s) = true.
Proof.
  intros Hv Hb. destruct s as [|a s]; [done|]. specialize (Hb a s eq_refl).
  unfold Utf8.decode_rune in *. rewrite (proj2 (Z.ltb_ge _ _) Hb) in *.
  repeat (case_match; try done); repeat (match goal with H : _ && _ = true |- _ => apply andb_true_iff in H as [? ?] end);
    unfold Utf8.within, Utf8.cont in *;
    repeat (match goal with H : _ && _ = true |- _ => apply andb_true_iff in H as [? ?] end);
    cbn [snd Strings.take]; rewrite ?no_control_cons; cbn; lia.
Qed.

Lemma quote_head_no_control s : no_control (quote_head s) = true.
Proof.
  destruct s as [|a s]; [done|]. cbn [quote_head]. destruct (Z.ltb_spec (bval a) 128).
  { destruct (html_safe a) eqn:E; [|apply escape_no_control]. unfold html_safe in E.
    apply andb_true_iff in E as [E _]. cbn. by rewrite E. }
  destruct (Unicode.is_invalid _) eqn:E; [done|]. destruct (_ || _).
  - rewrite no_control_app. cbn -[Hex.hexdigit Z.modulo]. by rewrite hexdigit_no_control by (apply Z.mod_pos_bound; lia).
  - apply rune_no_control; [done|]. by intros ? ? [= <- <-].
Qed.

Lemma quote_no_control s : no_control (quote s) = true.
Proof.
  unfold quote. rewrite no_control_cons, no_control_app. cbn [andb]. rewrite andb_true_r.
  generalize (String.length s) as n. intros n. revert s. induction n as [|n IH]; intros s; [by destruct s|].
  cbn [quote_loop]. destruct s as [|a s]; [done|]. by rewrite no_control_app, quote_head_no_control, IH.
Qed.

(** *** Numbers *)

Lemma digits_no_control s : no_control (digits s).1 = true.
Proof.
  induction s as [|a s IH]; [done|]. cbn [digits]. destruct (is_digit a) eqn:E; [|done].
  destruct (digits s) as [d r]. cbn [fst] in *. rewrite no_control_cons, IH. unfold is_digit in E. lia.
Qed.

Lemma digits1_no_control s d r : digits1 s = Some (d, r) → no_control d = true.
Proof.
  unfold digits1. pose proof (digits_no_control s) as H. destruct (digits s) as [[|a d'] r']; [done|].
  by intros [= <- <-].
Qed.

Lemma lex_number_no_control s n rest : lex_number s = Some (n, rest) → no_control n = true.
Proof.
  unfold lex_number. destruct (sign_part s) as [g s1] eqn:Eg.
  destruct (int_part s1) as [[i s2]|] eqn:Ei; [|done]. cbn [mbind option_bind].
  destruct (frac_part s2) as [[f s3]|] eqn:Ef; [|done]. cbn [mbind option_bind].
  destruct (exp_part s3) as [[e s4]|] eqn:Ee; [|done]. cbn [mbind option_bind]. intros [= <- _].
  assert (no_control g = true) as Hg.
  { unfold sign_part in Eg. destruct s as [|a s]; [by injection Eg as <- <-|]. case_bool_decide as Ha; injection Eg as <- <-; [by subst|done]. }
  assert (no_control i = true) as Hi.
  { unfold int_part in Ei. destruct s1 as [|a s1]; [done|]. case_bool_decide as Ha; [injection Ei as <- <-; by subst|].
    by eapply digits1_no_control. }
  assert (no_control f = true) as Hf.
  { unfold frac_part in Ef. destruct s2 as [|a s2]; [by injection Ef as <- <-|]. case_bool_decide as Ha; [|by injection Ef as <- <-].
    destruct (digits1 s2) as [[d r]|] eqn:Ed; [|done]. injection Ef as <- <-. subst a.
    rewrite no_control_cons. by rewrite (digits1_no_control _ _ _ Ed). }
  assert (no_control e = true) as He.
  { unfold exp_part in Ee. destruct s3 as [|a s3]; [by injection Ee as <- <-|].
    destruct (bool_decide (a = "e"%char) || _) eqn:Ha; [|by injection Ee as <- <-].
    destruct (match s3 with String b s2 => _ | EmptyString => _ end) as [g' s5] eqn:Eg'.
    destruct (digits1 s5) as [[d r]|] eqn:Ed; [|done]. injection Ee as <- <-.
    rewrite no_control_cons, no_control_app, (digits1_no_control _ _ _ Ed), andb_true_r.
    apply orb_true_iff in Ha. apply andb_true_iff. split.
    - destruct Ha as [Hx%bool_decide_eq_true|Hx%bool_decide_eq_true]; rewrite Hx; done.
    - destruct s3 as [|b s3]; [by injection Eg' as <- <-|].
      destruct (_ || _) eqn:Hb in Eg'; injection Eg' as <- <-; [|done].
      apply orb_true_iff in Hb as [Hx%bool_decide_eq_true|Hx%bool_decide_eq_true]; rewrite Hx; done. }
  by rewrite !no_control_app, Hg, Hi, Hf, He.
Qed.

(** ** Values *)

Lemma commas_no_control {A} (f : A → string) close l :
  no_control close = true → Forall (λ x, no_control (f x) = true) l → no_control (commas f close l) = true.
Proof.
  intros Hc H. induction H as [|x l Hx Hl IH]; [done|]. cbn [commas]. destruct l as [|y l].
  - by rewrite no_control_app, Hx, Hc.
  - by rewrite !no_control_app, Hx, IH.
Qed.

Lemma encode_no_control v : numbers_ok v = true → no_control (encode v) = true.
Proof.
  induction v as [| |n| |l IH|l IH] using json_rec_nested; cbn [numbers_ok encode]; intros Hn.
  - done.
  - by destruct b.
  - unfold lexes in Hn. apply bool_decide_eq_true in Hn. by eapply lex_number_no_control.
  - apply quote_no_control.
  - rewrite no_control_app. apply commas_no_control; [done|].
    rewrite List.forallb_forall in Hn. rewrite Forall_forall in IH |- *. intros x Hx. apply IH; [done|].
    by apply Hn, list_elem_of_In.
  - rewrite no_control_app. apply commas_no_control; [done|].
    rewrite List.forallb_forall in Hn. rewrite Forall_forall in IH |- *. intros [k x] Hx.
    rewrite !no_control_app, quote_no_control. apply (IH (k, x)); [done|]. by apply (Hn (k, x)), list_elem_of_In.
Qed.

Lemma no_control_newline s : no_control s = true → "010"%char ∉ to_bytes s.
Proof.
  unfold no_control. rewrite List.forallb_forall. intros H Hin.
  apply list_elem_of_In in Hin. by apply H in Hin.
Qed.
End JsonText.
