(* ===== verification/Http.v ===== *)
(** * net/http and net/url

    What the gateway uses of the standard library's HTTP server: the request, the response
    writer with its rule that the first [WriteHeader] decides, [http.Error], the headers
    and the query string. *)

From S2P Require Import Prelude GoStd Json.
Local Open Scope Z_scope.

Module Http.

Definition StatusOK : Z := 200.
Definition StatusBadRequest : Z := 400.
Definition StatusUnauthorized : Z := 401.
Definition StatusForbidden : Z := 403.
Definition StatusNotFound : Z := 404.
Definition StatusMethodNotAllowed : Z := 405.
Definition StatusTooManyRequests : Z := 429.
Definition StatusInternalServerError : Z := 500.
Definition StatusServiceUnavailable : Z := 503.

(** ** Headers

    The server stores the canonical form of every header name, which depends on the name up
    to the case of its letters; [Get] looks a name up by its canonical form and returns the
    first value. *)
Definition Header := list (string * string).

Definition lower_name (s : string) : string := of_bytes (Strings.lower_byte <$> to_bytes s).

Fixpoint Header_Get (h : Header) (name : string) : string :=
  match h with
  | [] => ""
  | (k, v) :: h' => if bool_decide (lower_name k = lower_name name) then v else Header_Get h' name
  end.

(** ** Requests

    [Body] is what [io.ReadAll] gets; [Ctx] is the value the request's context holds under
    the gateway's identity key. *)
Record Request {I : Type} := {
  Method : string;
  Path : string;
  RawQuery : string;
  Headers : Header;
  Body : result string;
  RemoteAddr : string;
  Ctx : option I
}.
Arguments Request I : clear implicits.

(** [r.WithContext(context.WithValue(ctx, key, v))] *)
Definition with_ctx {I} (v : I) (r : Request I) : Request I :=
  {| Method := Method r; Path := Path r; RawQuery := RawQuery r; Headers := Headers r; Body := Body r;
     RemoteAddr := RemoteAddr r; Ctx := Some v |}.

(** ** Query strings *)

Definition cut (c : ascii) : string → string * option string :=
  fix go s :=
    match s with
    | EmptyString => ("", None)
    | String a s' =>
        if bool_decide (a = c) then ("", Some s')
        else let (h, t) := go s' in (String a h, t)
    end.

(** [url.QueryUnescape]: [%xx] and [+]; a malformed escape is an error. *)
Fixpoint QueryUnescape (s : string) : option string :=
  match s with
  | EmptyString => Some ""
  | String a s' =>
      if bool_decide (a = "%"%char) then
        match s' with
        | String x (String y s'') =>
            hi ← Json.hexval x; lo ← Json.hexval y; t ← QueryUnescape s'';
            Some (String (zbyte (hi * 16 + lo)) t)
        | _ => None
        end
      else t ← QueryUnescape s';
           Some (String (if bool_decide (a = "+"%char) then " "%char else a) t)
  end.

(** One setting of a query; [url.ParseQuery] drops the ones with an error, and
    [URL.Query] ignores that there was one. *)
Definition query_pair (kv : string) : option (string * string) :=
  if Strings.ContainsByte ";"%char kv then None
  else if bool_decide (kv = "") then None
  else
    let (k, v) := cut "="%char kv in
    k' ← QueryUnescape k; v' ← QueryUnescape (default "" v); Some (k', v').

Definition Query (raw : string) : list (string * string) :=
  omap query_pair (Strings.Split "&"%char raw).

(** [r.URL.Query().Get(name)] *)
Definition Query_Get (raw name : string) : string :=
  match List.find (λ kv, bool_decide (kv.1 = name)) (Query raw) with Some (_, v) => v | None => "" end.

(** ** The response

    [sent] is the status and the headers once they are written. A [Write] before that sends
    status 200; a second [WriteHeader] is ignored. *)
Record ResponseWriter := {
  header : gmap string string;
  sent : option (Z * gmap string string);
  written : string
}.

Definition new_writer : ResponseWriter := {| header := ∅; sent := None; written := "" |}.

Definition Header_Set (k v : string) (w : ResponseWriter) : ResponseWriter :=
  {| header := <[k := v]> (header w); sent := sent w; written := written w |}.

Definition Header_Del (k : string) (w : ResponseWriter) : ResponseWriter :=
  {| header := delete k (header w); sent := sent w; written := written w |}.

Definition WriteHeader (code : Z) (w : ResponseWriter) : ResponseWriter :=
  match sent w with
  | Some _ => w
  | None => {| header := header w; sent := Some (code, header w); written := written w |}
  end.

Definition Write (s : string) (w : ResponseWriter) : ResponseWriter :=
  let w := WriteHeader StatusOK w in
  {| header := header w; sent := sent w; written := written w +:+ s |}.

Definition newline : string := of_bytes ["010"%char].

(** [http.Error(w, msg, code)] *)
Definition Error (msg : string) (code : Z) (w : ResponseWriter) : ResponseWriter :=
  let w := Header_Del "Content-Length" w in
  let w := Header_Set "Content-Type" "text/plain; charset=utf-8" w in
  let w := Header_Set "X-Content-Type-Options" "nosniff" w in
  Write (msg +:+ newline) (WriteHeader code w).

(** What the client gets when the handler returns: status and body. *)
Definition response (w : ResponseWriter) : Z * string :=
  (match sent w with Some (code, _) => code | None => StatusOK end, written w).

Definition status_of (w : ResponseWriter) : Z := (response w).1.
End Http.
