(* ===== verification/GoTime.v ===== *)
(** * time: printing durations and instants, and reading instants

    [Duration.String] and the layouts [time.RFC3339] and [time.RFC3339Nano] in UTC, with
    the calendar they need, and [time.Parse] with the layout [time.RFC3339]. Instants are
    nanoseconds since 1 January of year 1. What is printed is read back ([Parse_RFC3339Nano]). *)

From S2P Require Import Prelude GoStd Json.
Local Open Scope Z_scope.

Module GoTime.

(** [n] with leading zeros up to [width] digits. *)
Definition pad_left (width : nat) (s : string) : string :=
  of_bytes (replicate (width - String.length s) "0"%char) +:+ s.

(** [v mod 10^prec] as a fraction without trailing zeros, nothing when it is 0. *)
Definition fmtFrac (v : Z) (prec : nat) : string :=
  let f := v mod 10 ^ Z.of_nat prec in
  if f =? 0 then "" else "." +:+ Strings.TrimRight "0"%char (pad_left prec (Strconv.Itoa f)).

Definition micro_sign : string := of_bytes ["194"%char; "181"%char].

(** [Duration.String] *)
Definition Duration_String (d : Z) : string :=
  let u := uint64 (if d <? 0 then - d else d) in
  let text :=
    if u <? Second then
      if u =? 0 then "0s"
      else if u <? 1000 then Strconv.Itoa u +:+ "ns"
      else if u <? 1000000 then Strconv.Itoa (u / 1000) +:+ fmtFrac u 3 +:+ micro_sign +:+ "s"
      else Strconv.Itoa (u / 1000000) +:+ fmtFrac u 6 +:+ "ms"
    else
      let s := u / Second in
      let secs := Strconv.Itoa (s mod 60) +:+ fmtFrac u 9 +:+ "s" in
      let m := s / 60 in
      if m =? 0 then secs
      else
        let mins := Strconv.Itoa (m mod 60) +:+ "m" +:+ secs in
        let h := m / 60 in
        if h =? 0 then mins else Strconv.Itoa h +:+ "h" +:+ mins in
  if d <? 0 then "-" +:+ text else text.

(** ** The calendar *)

Definition is_leap (y : Z) : bool := (y mod 4 =? 0) && (negb (y mod 100 =? 0) || (y mod 400 =? 0)).

(** The days before 1 January of year [y], counted from year 1. *)
Definition days_before (y : Z) : Z := let p := y - 1 in 365 * p + p / 4 - p / 100 + p / 400.

Definition month_days (leap : bool) : list Z :=
  [31; if leap then 29 else 28; 31; 30; 31; 30; 31; 31; 30; 31; 30; 31].

(** The month and the day of the month, from the day of the year, counted from 0. *)
Fixpoint month_of (ms : list Z) (m : Z) (yday : Z) : Z * Z :=
  match ms with
  | [] => (m, yday + 1)
  | n :: ms' => if yday <? n then (m, yday + 1) else month_of ms' (m + 1) (yday - n)
  end.

(** The year of a day: cycles of 400, 100 and 4 years, the last year of the first two being
    longer. *)
Definition year_of (d : Z) : Z :=
  let n400 := d / 146097 in
  let d := d - n400 * 146097 in
  let n100 := Z.min 3 (d / 36524) in
  let d := d - n100 * 36524 in
  let n4 := d / 1461 in
  let d := d - n4 * 1461 in
  let n1 := Z.min 3 (d / 365) in
  400 * n400 + 100 * n100 + 4 * n4 + n1 + 1.

(** [t.Date()] of a day. *)
Definition civil (d : Z) : Z * Z * Z :=
  let y := year_of d in
  let '(m, dd) := month_of (month_days (is_leap y)) 1 (d - days_before y) in
  (y, m, dd).

Definition DayNs : Z := 86400 * Second.

Definition date_time (t : time) : string :=
  let '(y, m, d) := civil (t / DayNs) in
  let s := t mod DayNs / Second in
  pad_left 4 (Strconv.Itoa y) +:+ "-" +:+ pad_left 2 (Strconv.Itoa m) +:+ "-" +:+
  pad_left 2 (Strconv.Itoa d) +:+ "T" +:+ pad_left 2 (Strconv.Itoa (s / 3600)) +:+ ":" +:+
  pad_left 2 (Strconv.Itoa (s / 60 mod 60)) +:+ ":" +:+ pad_left 2 (Strconv.Itoa (s mod 60)).

(** [t.UTC().Format(time.RFC3339)] and [time.RFC3339Nano], for years from 1 on. *)
Definition RFC3339 (t : time) : string := date_time t +:+ "Z".
Definition RFC3339Nano (t : time) : string := date_time t +:+ fmtFrac (t mod Second) 9 +:+ "Z".

(** ** The year of a day is the year it lies in *)

Lemma days_before_step y : days_before (y + 1) = days_before y + (if is_leap y then 366 else 365).
Proof.
  unfold days_before, is_leap. replace (y + 1 - 1) with y by lia.
  destruct (Z.eqb_spec (y mod 4) 0), (Z.eqb_spec (y mod 100) 0), (Z.eqb_spec (y mod 400) 0); cbn [negb orb andb];
    Z.to_euclidean_division_equations; lia.
Qed.

Lemma year_of_spec d : 0 ≤ d → days_before (year_of d) ≤ d < days_before (year_of d + 1).
Proof.
  intros Hd. unfold days_before, year_of.
  remember (d / 146097) as n400 eqn:E1. remember (d - n400 * 146097) as d1 eqn:E2.
  assert (0 ≤ d1 < 146097 ∧ 0 ≤ n400) as (H1 & Hn) by (Z.to_euclidean_division_equations; lia). clear E1.
  remember (Z.min 3 (d1 / 36524)) as n100 eqn:E3. remember (d1 - n100 * 36524) as d2 eqn:E4.
  assert (0 ≤ n100 ≤ 3 ∧ 0 ≤ d2 ∧ (n100 < 3 → d2 < 36524) ∧ d2 < 36525) as (H2 & H3 & H4 & H5)
    by (Z.to_euclidean_division_equations; lia). clear E3.
  remember (d2 / 1461) as n4 eqn:E5. remember (d2 - n4 * 1461) as d3 eqn:E6.
  assert (0 ≤ d3 < 1461 ∧ 0 ≤ n4 ≤ 24) as (H6 & H7) by (Z.to_euclidean_division_equations; lia). clear E5.
  remember (Z.min 3 (d3 / 365)) as n1 eqn:E7.
  assert (0 ≤ n1 ≤ 3 ∧ n1 * 365 ≤ d3 ∧ (n1 < 3 → d3 < n1 * 365 + 365)) as (H8 & H9 & H10)
    by (Z.to_euclidean_division_equations; lia). clear E7.
  assert ((400 * n400 + 100 * n100 + 4 * n4 + n1) / 4 = 100 * n400 + 25 * n100 + n4 ∧
          (400 * n400 + 100 * n100 + 4 * n4 + n1) / 100 = 4 * n400 + n100 ∧
          (400 * n400 + 100 * n100 + 4 * n4 + n1) / 400 = n400) as (D1 & D2 & D3)
    by (Z.to_euclidean_division_equations; lia).
  assert (0 ≤ d3 - 365 * n1 ∧ (d3 - 365 * n1 < 365 ∨ n1 = 3)) as [? ?] by lia.
  replace (400 * n400 + 100 * n100 + 4 * n4 + n1 + 1 - 1) with (400 * n400 + 100 * n100 + 4 * n4 + n1) by lia.
  rewrite D1, D2, D3. split; [lia|].
  replace (400 * n400 + 100 * n100 + 4 * n4 + n1 + 1 + 1 - 1) with (400 * n400 + 100 * n100 + 4 * n4 + n1 + 1) by lia.
  destruct (decide (n1 = 3)) as [->|?].
  - assert ((400 * n400 + 100 * n100 + 4 * n4 + 3 + 1) / 4 = 100 * n400 + 25 * n100 + n4 + 1) as ->
      by (Z.to_euclidean_division_equations; lia).
    destruct (decide (n4 = 24)) as [->|?].
    + assert ((400 * n400 + 100 * n100 + 4 * 24 + 3 + 1) / 100 = 4 * n400 + n100 + 1) as ->
        by (Z.to_euclidean_division_equations; lia).
      destruct (decide (n100 = 3)) as [->|?].
      * assert ((400 * n400 + 100 * 3 + 4 * 24 + 3 + 1) / 400 = n400 + 1) as ->
          by (Z.to_euclidean_division_equations; lia). lia.
      * assert ((400 * n400 + 100 * n100 + 4 * 24 + 3 + 1) / 400 = n400) as ->
          by (Z.to_euclidean_division_equations; lia). lia.
    + assert ((400 * n400 + 100 * n100 + 4 * n4 + 3 + 1) / 100 = 4 * n400 + n100 ∧
              (400 * n400 + 100 * n100 + 4 * n4 + 3 + 1) / 400 = n400) as [-> ->]
        by (Z.to_euclidean_division_equations; lia). lia.
  - assert ((400 * n400 + 100 * n100 + 4 * n4 + n1 + 1) / 4 = 100 * n400 + 25 * n100 + n4 ∧
            (400 * n400 + 100 * n100 + 4 * n4 + n1 + 1) / 100 = 4 * n400 + n100 ∧
            (400 * n400 + 100 * n100 + 4 * n4 + n1 + 1) / 400 = n400) as (-> & -> & ->)
      by (Z.to_euclidean_division_equations; lia). lia.
Qed.

(** ** time.Parse(time.RFC3339, value) *)

(** [getnum]: one or two digits, two when [fixed]. *)
Definition getnum (fixed : bool) (s : string) : option (Z * string) :=
  match s with
  | EmptyString => None
  | String a s' =>
      x ← Strconv.digit_val a;
      match s' with
      | EmptyString => if fixed then None else Some (x, s')
      | String b s'' =>
          match Strconv.digit_val b with
          | Some y => Some (10 * x + y, s'')
          | None => if fixed then None else Some (x, s')
          end
      end
  end.

(** The four digits of the year. *)
Definition read_year (s : string) : option (Z * string) :=
  '(c, s) ← getnum true s; '(y, s) ← getnum true s; Some (100 * c + y, s).

(** A character of the layout. *)
Definition expect (c : ascii) (s : string) : option string :=
  match s with
  | String a s' => if bool_decide (a = c) then Some s' else None
  | EmptyString => None
  end.

(** A fraction may follow the seconds although the layout has none; of its digits the first
    nine count. *)
Definition read_frac (s : string) : Z * string :=
  match s with
  | String a r =>
      if bool_decide (a = "."%char) || bool_decide (a = ","%char) then
        let (ds, rest) := Json.digits r in
        if bool_decide (ds = "") then (0, s)
        else
          let ds := Strings.take 9 ds in
          (default 0 (Strconv.atou 0 ds) * 10 ^ (9 - Z.of_nat (String.length ds)), rest)
      else (0, s)
  | EmptyString => (0, s)
  end.

(** The offset in seconds: [Z], or a sign, hours and minutes, up to 24 and 60. *)
Definition read_zone (s : string) : option (Z * string) :=
  match s with
  | EmptyString => None
  | String a s' =>
      if bool_decide (a = "Z"%char) then Some (0, s')
      else
        '(hr, s) ← getnum true s'; s ← expect ":"%char s; '(mm, s) ← getnum true s;
        if (24 <? hr) || (60 <? mm) then None
        else if bool_decide (a = "+"%char) then Some ((hr * 60 + mm) * 60, s)
        else if bool_decide (a = "-"%char) then Some (- ((hr * 60 + mm) * 60), s)
        else None
  end.

(** The days of the year before a month. *)
Definition month_start (leap : bool) (m : Z) : Z :=
  foldr Z.add 0 (take (Z.to_nat (m - 1)) (month_days leap)).

Definition daysIn (leap : bool) (m : Z) : Z := default 0 (month_days leap !! Z.to_nat (m - 1)).

(** [time.Date] in UTC. *)
Definition Date (y m d h mi s ns : Z) : time :=
  (days_before y + month_start (is_leap y) m + (d - 1)) * DayNs +
  ((h * 60 + mi) * 60 + s) * Second + ns.

Definition Parse_RFC3339 (v : string) : option time :=
  '(y, v) ← read_year v; v ← expect "-"%char v;
  '(m, v) ← getnum true v; v ← expect "-"%char v;
  '(d, v) ← getnum true v; v ← expect "T"%char v;
  '(h, v) ← getnum false v; v ← expect ":"%char v;
  '(mi, v) ← getnum true v; v ← expect ":"%char v;
  '(s, v) ← getnum true v;
  let (ns, v) := read_frac v in
  '(offset, v) ← read_zone v;
  if bool_decide (v = "") && (1 <=? m) && (m <=? 12) && (1 <=? d) && (d <=? daysIn (is_leap y) m) &&
     (h <? 24) && (mi <? 60) && (s <? 60)
  then Some (Date y m d h mi s ns - offset * Second) else None.

(** ** Numbers of a fixed width *)

(** The last [w] decimal digits of [n]. *)
Fixpoint fixed (w : nat) (n : Z) : string :=
  match w with
  | O => ""
  | S w' => fixed w' (n / 10) +:+ of_bytes [Strconv.digit (n mod 10)]
  end.

Definition zeros (k : nat) : string := of_bytes (replicate k "0"%char).

Lemma zeros_snoc k : zeros k +:+ of_bytes ["0"%char] = zeros (S k).
Proof. unfold zeros. rewrite <- of_bytes_app. f_equal. by rewrite <- replicate_cons_app. Qed.

Lemma length_fixed w n : String.length (fixed w n) = w.
Proof. revert n. induction w as [|w IH]; intros n; [done|]. cbn [fixed]. rewrite Strings.length_app_string, IH. cbn. lia. Qed.

Lemma fixed_0 w : fixed w 0 = zeros w.
Proof. induction w as [|w IH]; [done|]. cbn [fixed]. change (0 / 10) with 0. rewrite IH. apply zeros_snoc. Qed.

Lemma utoa_fixed w : ∀ fuel n acc,
  (1 ≤ w)%nat → 0 ≤ n < 10 ^ Z.of_nat w → 0 ≤ n < 2 ^ Z.of_nat fuel → (0 < fuel)%nat →
  ∃ k, zeros k +:+ Strconv.utoa fuel n acc = fixed w n +:+ acc ∧
    (String.length (Strconv.utoa fuel n acc) + k = w + String.length acc)%nat.
Proof.
  induction w as [|w IH]; intros fuel n acc Hw Hn Hf Hpos; [lia|]. destruct fuel as [|fuel]; [lia|].
  cbn [Strconv.utoa fixed]. rewrite sapp_assoc. destruct (Z.ltb_spec n 10) as [Hlt|Hge].
  - exists w. rewrite Z.div_small by lia. rewrite fixed_0. split; [done|]. cbn. lia.
  - rewrite Nat2Z.inj_succ, Z.pow_succ_r in Hn, Hf by lia.
    assert (1 ≤ n / 10) by (apply Z.div_le_lower_bound; lia).
    assert (0 ≤ n / 10 < 10 ^ Z.of_nat w ∧ 0 ≤ n / 10 < 2 ^ Z.of_nat fuel) as [H1 H2].
    { split; (split; [lia|]); apply Z.div_lt_upper_bound; lia. }
    destruct (IH fuel (n / 10) (String (Strconv.digit (n mod 10)) acc)) as (k & E & L);
      [destruct w; [cbn in H1; lia|lia]|done|done|destruct fuel; [cbn in H2; lia|lia]|].
    exists k. split; [exact E|]. cbn in L. lia.
Qed.

Lemma pad_left_fixed w n : (1 ≤ w)%nat → 0 ≤ n < 10 ^ Z.of_nat w → pad_left w (Strconv.Itoa n) = fixed w n.
Proof.
  intros Hw Hn. unfold Strconv.Itoa. rewrite (proj2 (Z.ltb_ge n 0)) by lia.
  destruct (utoa_fixed w (S (Z.to_nat (Z.log2 n))) n "") as (k & E & L);
    [done|done|apply Strconv.log2_fuel; lia|lia|]. rewrite sapp_nil_r in E. cbn [String.length] in L.
  unfold pad_left. replace (w - _)%nat with k by lia. exact E.
Qed.

Lemma atou_app v s t : Strconv.atou v (s +:+ t) = Strconv.atou v s ≫= λ x, Strconv.atou x t.
Proof.
  revert v. induction s as [|a s IH]; intros v; [done|]. rewrite sapp_cons. cbn [Strconv.atou].
  destruct (Strconv.digit_val a); [|done]. cbn. apply IH.
Qed.

Lemma digit_range n : 0 ≤ n mod 10 ≤ 9.
Proof. pose proof (Z.mod_pos_bound n 10). lia. Qed.

Lemma atou_fixed w : ∀ n v, 0 ≤ n < 10 ^ Z.of_nat w →
  Strconv.atou v (fixed w n) = Some (v * 10 ^ Z.of_nat w + n).
Proof.
  induction w as [|w IH]; intros n v Hn; [cbn in *; f_equal; lia|]. cbn [fixed].
  rewrite Nat2Z.inj_succ, Z.pow_succ_r in * by lia.
  rewrite atou_app, IH by (split; [apply Z.div_pos; lia|apply Z.div_lt_upper_bound; lia]).
  cbn. rewrite Strconv.digit_val_digit by apply digit_range. cbn. f_equal. pose proof (Z.div_mod n 10). lia.
Qed.

Lemma digits_fixed w : ∀ n, Json.digits (fixed w n) = (fixed w n, "").
Proof.
  assert (∀ s a, Json.digits s = (s, "") → Json.is_digit a = true → Json.digits (s +:+ of_bytes [a]) = (s +:+ of_bytes [a], "")) as H.
  { induction s as [|c s IH]; intros a Hs Ha; [rewrite sapp_nil; cbn [string_of_list_ascii Json.digits]; by rewrite Ha|]. rewrite sapp_cons. cbn [Json.digits] in *.
    destruct (Json.is_digit c); [|done]. destruct (Json.digits s) as [x y]. injection Hs as -> ->. by rewrite IH. }
  induction w as [|w IH]; intros n; [done|]. cbn [fixed]. apply H; [apply IH|].
  apply Json.digit_is_digit, digit_range.
Qed.

(** *** Trailing zeros *)

Lemma TrimRight_zeros s : ∃ k, s = Strings.TrimRight "0"%char s +:+ zeros k.
Proof.
  induction s as [|a s [k IH]]; [by exists 0%nat|]. cbn [Strings.TrimRight].
  destruct (Strings.TrimRight "0"%char s) as [|b t] eqn:E.
  - rewrite sapp_nil in IH. case_bool_decide as Ha.
    + exists (S k). by rewrite Ha, IH.
    + exists k. by rewrite sapp_cons, sapp_nil, <- IH.
  - exists k. by rewrite sapp_cons, <- IH.
Qed.

Lemma atou_zeros k v : Strconv.atou v (zeros k) = Some (v * 10 ^ Z.of_nat k).
Proof. rewrite <- fixed_0, atou_fixed by (split; [lia|apply Z.pow_pos_nonneg; lia]). f_equal. lia. Qed.

Lemma digits_prefix s t : Json.digits (s +:+ t) = (s +:+ t, "") → Json.digits s = (s, "").
Proof.
  induction s as [|c s IH]; [done|]. rewrite sapp_cons. cbn [Json.digits]. destruct (Json.is_digit c); [|done].
  destruct (Json.digits (s +:+ t)) as [x y]. intros [= -> ->]. by rewrite IH.
Qed.

Lemma read_frac_fmt f rest :
  0 ≤ f < 10 ^ 9 → Json.ends_number rest = true →
  (∀ a r, rest = String a r → a ≠ "."%char ∧ a ≠ ","%char) →
  read_frac (fmtFrac f 9 +:+ rest) = (f, rest).
Proof.
  intros Hf Hend Hrest. unfold fmtFrac. change (10 ^ Z.of_nat 9) with (10 ^ 9). rewrite Z.mod_small by done.
  destruct (Z.eqb_spec f 0) as [->|Hf0].
  { rewrite sapp_nil. unfold read_frac. destruct rest as [|a r]; [done|].
    destruct (Hrest a r eq_refl). by rewrite !bool_decide_false. }
  rewrite pad_left_fixed by (done || lia).
  destruct (TrimRight_zeros (fixed 9 f)) as [k Hk]. set (ds := Strings.TrimRight _ _) in *.
  pose proof (digits_fixed 9 f) as Hd. rewrite Hk in Hd. apply digits_prefix in Hd.
  pose proof (atou_fixed 9 f 0 Hf) as Hv. rewrite Hk, atou_app in Hv.
  pose proof (length_fixed 9 f) as Hl. rewrite Hk, Strings.length_app_string in Hl.
  assert (String.length (zeros k) = k) as Hz by (unfold zeros; by rewrite length_of_bytes, length_replicate).
  destruct (Strconv.atou 0 ds) as [x|] eqn:Ex; [|done]. cbn [mbind option_bind] in Hv. rewrite atou_zeros in Hv.
  injection Hv as Hv. change (10 ^ Z.of_nat 9) with (10 ^ 9) in Hv.
  assert (ds ≠ "") as Hne by (intros E; rewrite E in Ex; injection Ex as <-; lia).
  change (("." +:+ ds) +:+ rest) with (String "."%char (ds +:+ rest)). unfold read_frac.
  rewrite bool_decide_true by done. cbn [orb]. rewrite Json.digits_app, Hd by done. cbn [fst snd]. rewrite sapp_nil.
  rewrite bool_decide_false by done.
  assert (Strings.take 9 ds = ds) as ->.
  { clear -Hl.
    assert (∀ n s, (String.length s ≤ n)%nat → Strings.take n s = s) as H.
    { induction n as [|n IH]; intros [|a s] H; try done; cbn in *; [lia|]. by rewrite IH by lia. }
    apply H. lia. }
  rewrite Ex. cbn [default]. replace (9 - Z.of_nat (String.length ds)) with (Z.of_nat k) by lia.
  f_equal. unfold default. cbn. lia.
Qed.

(** *** Dates *)

Lemma getnum_fixed b n rest : 0 ≤ n < 100 → getnum b (fixed 2 n +:+ rest) = Some (n, rest).
Proof.
  intros Hn. cbn [fixed]. rewrite sapp_nil, sapp_assoc. cbn [string_of_list_ascii].
  rewrite !sapp_cons, !sapp_nil. cbn [getnum].
  rewrite !Strconv.digit_val_digit by apply digit_range. cbn. f_equal. f_equal.
  rewrite (Z.mod_small (n / 10)) by (split; [apply Z.div_pos; lia|apply Z.div_lt_upper_bound; lia]).
  pose proof (Z.div_mod n 10). lia.
Qed.

Lemma read_year_fixed y rest : 0 ≤ y < 10000 → read_year (fixed 4 y +:+ rest) = Some (y, rest).
Proof.
  intros Hy. assert (fixed 4 y = fixed 2 (y / 100) +:+ fixed 2 (y mod 100)) as ->.
  { cbn [fixed]. rewrite !sapp_nil, !sapp_assoc. cbn [string_of_list_ascii]. rewrite !sapp_cons, !sapp_nil.
    assert (y / 10 / 10 / 10 = y / 100 / 10 ∧ y / 10 / 10 = y / 100 ∧ y / 10 mod 10 = y mod 100 / 10 mod 10 ∧
            y mod 10 = (y mod 100) mod 10) as (-> & -> & -> & ->) by (Z.to_euclidean_division_equations; lia).
    done. }
  unfold read_year. rewrite sapp_assoc.
  rewrite getnum_fixed by (split; [apply Z.div_pos; lia|apply Z.div_lt_upper_bound; lia]). cbn [mbind option_bind].
  rewrite getnum_fixed by (apply Z.mod_pos_bound; lia). cbn. f_equal. f_equal. pose proof (Z.div_mod y 100). lia.
Qed.

Lemma expect_cons c s : expect c (of_bytes [c] +:+ s) = Some s.
Proof. change (of_bytes [c] +:+ s) with (String c s). cbn [expect]. by rewrite bool_decide_true. Qed.

(** The day of the year and the date within it. *)
Definition month_ok (leap : bool) (yday : Z) : bool :=
  let '(m, d) := month_of (month_days leap) 1 yday in
  (1 <=? m) && (m <=? 12) && (1 <=? d) && (d <=? daysIn leap m) && (month_start leap m + (d - 1) =? yday).

Lemma months_ok (leap : bool) yday : 0 ≤ yday < (if leap then 366 else 365) → month_ok leap yday = true.
Proof.
  intros H. assert (forallb (month_ok leap) (seqZ 0 (if leap then 366 else 365)) = true) as HF
    by (destruct leap; vm_compute; reflexivity).
  rewrite List.forallb_forall in HF. apply HF, list_elem_of_In, elem_of_seqZ. lia.
Qed.

Lemma daysIn_31 leap m : daysIn leap m ≤ 31.
Proof.
  unfold daysIn. destruct (month_days leap !! Z.to_nat (m - 1)) as [n|] eqn:E; [|done]. cbn.
  apply list_elem_of_lookup_2 in E. unfold month_days in E. destruct leap; repeat (apply elem_of_cons in E as [->|E]; [lia|]); by apply elem_of_nil in E.
Qed.

(** A year of four digits. *)
Definition year_ok (t : time) : Prop := 0 ≤ t ∧ year_of (t / DayNs) < 10000.

Lemma year_of_pos d : 0 ≤ d → 1 ≤ year_of d.
Proof. intros H. unfold year_of. Z.to_euclidean_division_equations; lia. Qed.

(** What [RFC3339Nano] prints, [Parse_RFC3339] reads. *)
Lemma Parse_RFC3339Nano t : year_ok t → Parse_RFC3339 (RFC3339Nano t) = Some t.
Proof.
  intros [Ht Hy]. assert (0 ≤ t / DayNs) as Hday by (apply Z.div_pos; [done|reflexivity]).
  pose proof (year_of_spec _ Hday) as Hspec. rewrite days_before_step in Hspec.
  pose proof (year_of_pos _ Hday) as Hy1.
  assert (0 ≤ t mod DayNs < DayNs) as Htod by (apply Z.mod_pos_bound; reflexivity).
  unfold RFC3339Nano, date_time, civil. set (y := year_of (t / DayNs)) in *.
  pose proof (months_ok (is_leap y) (t / DayNs - days_before y)) as Hm. unfold month_ok in Hm.
  destruct (month_of _ 1 _) as [m d]. specialize (Hm ltac:(destruct (is_leap y); lia)).
  rewrite !andb_true_iff in Hm. destruct Hm as ((((Hm1 & Hm2) & Hd1) & Hd2) & Hdate).
  pose proof (daysIn_31 (is_leap y) m).
  set (s := t mod DayNs / Second).
  assert (0 ≤ s < 86400 ∧ 0 ≤ s / 3600 < 24 ∧ 0 ≤ s / 60 mod 60 < 60 ∧ 0 ≤ s mod 60 < 60) as (Hs & Hh & Hmi & Hse)
    by (unfold s, DayNs, Second in *; Z.to_euclidean_division_equations; lia).
  rewrite !pad_left_fixed by lia. rewrite !sapp_assoc.
  unfold Parse_RFC3339. rewrite read_year_fixed by lia. cbn [mbind option_bind].
  change "-" with (of_bytes ["-"%char]). change "T" with (of_bytes ["T"%char]). change ":" with (of_bytes [":"%char]).
  do 10 (first [rewrite expect_cons|rewrite getnum_fixed by lia]; cbn [mbind option_bind]).
  rewrite read_frac_fmt; [|apply Z.mod_pos_bound; reflexivity|done|by intros ? ? [= <- <-]].
  cbn [read_zone]. rewrite bool_decide_true by done. cbn [mbind option_bind].
  rewrite Hm1, Hm2, Hd1, Hd2, (proj2 (Z.ltb_lt _ 24)), !(proj2 (Z.ltb_lt _ 60)), bool_decide_true by (done || lia). cbn [andb].
  f_equal. unfold Date. apply Z.eqb_eq in Hdate.
  assert ((s / 3600 * 60 + s / 60 mod 60) * 60 + s mod 60 = s) as -> by (Z.to_euclidean_division_equations; lia).
  replace (days_before y + month_start (is_leap y) m + (d - 1)) with (t / DayNs) by lia.
  unfold s, DayNs, Second in *. Z.to_euclidean_division_equations; lia.
Qed.

(** Printed instants are ASCII. *)
Lemma ascii_zeros k : Utf8.is_ascii (zeros k) = true.
Proof.
  unfold zeros. induction k as [|k IH]; [done|]. cbn [replicate string_of_list_ascii].
  by rewrite Json.ascii_cons, IH.
Qed.

Lemma ascii_RFC3339Nano t : Utf8.is_ascii (RFC3339Nano t) = true.
Proof.
  assert (∀ w n, Utf8.is_ascii (pad_left w (Strconv.Itoa n)) = true) as Hp.
  { intros w n. unfold pad_left. rewrite Json.ascii_app, Json.ascii_Itoa, andb_true_r. apply ascii_zeros. }
  unfold RFC3339Nano, date_time, fmtFrac. destruct (civil _) as [[y m] d]. rewrite !Json.ascii_app, !Hp. cbn [andb].
  destruct (_ =? 0); [done|]. rewrite Json.ascii_app. set (s := pad_left 9 _).
  destruct (TrimRight_zeros s) as [k Hk]. apply (f_equal Utf8.is_ascii) in Hk.
  unfold s at 1 in Hk. rewrite Hp, Json.ascii_app in Hk. symmetry in Hk. apply andb_true_iff in Hk as [Hk _].
  by rewrite Hk.
Qed.

(** [Time.MarshalJSON] refuses a year that has not four digits. *)
Definition year_in_range (t : time) : bool :=
  let y := year_of (t / DayNs) in (0 <=? y) && (y <=? 9999).

Definition errYear : error :=
  errorString "json: error calling MarshalJSON for type time.Time: Time.MarshalJSON: year outside of range [0,9999]".

Lemma year_ok_range t : year_ok t → year_in_range t = true.
Proof.
  intros [Ht Hy]. unfold year_in_range. assert (0 ≤ t / DayNs) as Hd by (apply Z.div_pos; [done|reflexivity]).
  pose proof (year_of_pos _ Hd). apply andb_true_iff. split; apply Z.leb_le; lia.
Qed.
End GoTime.
