(* ===== verification/RateLimit.v ===== *)
(** * services/gateway/internal/middleware/ratelimit.go

    [Limiters] is what the gateway relies on of [golang.org/x/time/rate]: a limiter as a
    value that [Allow] updates, with the documented bounds of a token bucket as laws.
    [RateLimiter] holds the clients of the [sync.Map] and, because a caller keeps the
    pointer to a client while the map changes, the clients in a store of their own.
    [Allow] is given whole, as the middleware calls it, and as the atomic steps of the
    goroutines that run it; [run] interleaves the steps of any requests with those of the
    cleanup loop. *)

From S2P Require Import Prelude GoStd Json Http.
Local Open Scope Z_scope.

(** ** golang.org/x/time/rate *)
Class Limiters := {
  Limiter : Type;
  NewLimiter : Z → Z → Limiter;
  lim_Allow : Limiter → time → Limiter * bool
}.

(** The answers of one limiter to calls at the times [ts]. *)
Fixpoint lim_run `{Limiters} (l : Limiter) (ts : list time) : list bool :=
  match ts with
  | [] => []
  | t :: ts' => let (l', ok) := lim_Allow l t in ok :: lim_run l' ts'
  end.

Definition admitted (bs : list bool) : Z := zlen (filter (λ b, b = true) bs).

(** Times that do not go back. *)
Fixpoint ascending (t0 : time) (ts : list time) : bool :=
  match ts with [] => true | t :: ts' => (t0 <=? t) && ascending t ts' end.

(** The bucket starts full and holds [b] tokens, and [r] tokens arrive per second. *)
Class LimitersLaws (L : Limiters) : Prop := {
  lim_bound r b t ts :
    0 ≤ r → 0 ≤ b → ascending t ts = true →
    Second * admitted (lim_run (NewLimiter r b) (t :: ts)) ≤ Second * b + r * (List.last ts t - t);
  lim_burst r b t ts :
    0 ≤ r → ascending t ts = true → zlen ts < b →
    lim_run (NewLimiter r b) (t :: ts) = replicate (S (length ts)) true
}.

Module RateLimit.

Section limiter.
Context {L : Limiters}.

(** A [client] is created together with its limiter and keeps it, so one location stands for
    the pointer to the client and for the pointer to its limiter. *)
Record client := { limiter : Limiter; lastSeen : time }.

Record RateLimiter := {
  clients : gmap string nat;
  r : Z;
  b : Z;
  cleanup : Z;
  heap : gmap nat client;
  next : nat
}.

(** [time.NewTicker] panics when its interval is not positive; the loop runs in a goroutine
    of its own, so the panic ends the process. *)
Definition NewTicker (d : Z) : outcome unit :=
  if d <=? 0 then Panic "non-positive interval for NewTicker" else Ret tt.

(** The new limiter and what becomes of the goroutine it starts. *)
Definition NewRateLimiter (requestsPerSecond burstSize cleanupInterval : Z) : RateLimiter * outcome unit :=
  ({| clients := ∅; r := requestsPerSecond; b := burstSize; cleanup := cleanupInterval;
      heap := ∅; next := 0 |}, NewTicker cleanupInterval).

Definition set_object (loc : nat) (c : client) (rl : RateLimiter) : RateLimiter :=
  {| clients := clients rl; r := r rl; b := b rl; cleanup := cleanup rl;
     heap := <[loc := c]> (heap rl); next := next rl |}.

(** [rl.clients.Load(clientID)] *)
Definition load (rl : RateLimiter) (clientID : string) : option nat := clients rl !! clientID.

(** [cl.lastSeen = time.Now()] through the pointer that was loaded; the map may have dropped
    or replaced it since. *)
Definition touch (rl : RateLimiter) (loc : nat) (now : time) : RateLimiter :=
  match heap rl !! loc with
  | Some cl => set_object loc {| limiter := limiter cl; lastSeen := now |} rl
  | None => rl
  end.

(** [rate.NewLimiter(rl.r, rl.b)] and [Store] of a client that has it. *)
Definition store_new (rl : RateLimiter) (clientID : string) (now : time) : RateLimiter * nat :=
  let loc := next rl in
  ({| clients := <[clientID := loc]> (clients rl); r := r rl; b := b rl; cleanup := cleanup rl;
      heap := <[loc := {| limiter := NewLimiter (r rl) (b rl); lastSeen := now |}]> (heap rl);
      next := S loc |}, loc).

Definition getLimiter (rl : RateLimiter) (clientID : string) (now : time) : RateLimiter * nat :=
  match load rl clientID with
  | Some loc => (touch rl loc now, loc)
  | None => store_new rl clientID now
  end.

(** [limiter.Allow()] through a pointer. *)
Definition allow_at (rl : RateLimiter) (loc : nat) (now : time) : RateLimiter * bool :=
  match heap rl !! loc with
  | Some cl =>
      let (l', ok) := lim_Allow (limiter cl) now in
      (set_object loc {| limiter := l'; lastSeen := lastSeen cl |} rl, ok)
  | None => (rl, false)
  end.

(** [now] is read by [getLimiter], [now'] by the limiter. *)
Definition Allow (rl : RateLimiter) (clientID : string) (now now' : time) : RateLimiter * bool :=
  let (rl, loc) := getLimiter rl clientID now in allow_at rl loc now'.

(** [time.Since(c.lastSeen) > rl.cleanup*3], the clock read at [now]. *)
Definition idle (rl : RateLimiter) (c : client) (now : time) : bool :=
  int64 (cleanup rl * 3) <? now - lastSeen c.

(** [rl.clients.Delete(key)] *)
Definition remove (rl : RateLimiter) (key : string) : RateLimiter :=
  {| clients := delete key (clients rl); r := r rl; b := b rl; cleanup := cleanup rl;
     heap := heap rl; next := next rl |}.

(** ** The middleware *)

Definition min (a b : Z) : Z := if a <? b then a else b.

Definition getClientID {I} (req : Http.Request I) : string :=
  let apiKey := Http.Header_Get (Http.Headers req) "X-API-Key" in
  if bool_decide (apiKey ≠ "") then "apikey:" +:+ apiKey
  else
    let token := Http.Header_Get (Http.Headers req) "Authorization" in
    if bool_decide (token ≠ "") then "token:" +:+ Strings.take (Z.to_nat (min (slen token) 32)) token
    else "ip:" +:+ Http.RemoteAddr req.

(** The next handler is run on the state of the server behind the middleware; [W] is what it
    leaves of the response, and [ret] a response that is just written. *)
Definition HTTPMiddleware {I S W : Type} (now now' : time)
    (next : S → Http.ResponseWriter → Http.Request I → S * W) (ret : Http.ResponseWriter → W)
    (rl : RateLimiter) (s : S) (w : Http.ResponseWriter) (req : Http.Request I) : RateLimiter * (S * W) :=
  let (rl, ok) := Allow rl (getClientID req) now now' in
  if negb ok then (rl, (s, ret (Http.Error "Too Many Requests" Http.StatusTooManyRequests w)))
  else (rl, next s w req).

(** ** Concurrent runs

    Every request is a goroutine, and the cleanup loop is one more. A request looks its
    client up, then writes [lastSeen] through the pointer it found, or stores a new client;
    then it asks the limiter it holds. The cleanup loop visits a key, which gives it the
    client stored there, compares [lastSeen], and deletes the key. These are the atomic
    steps; a run is any sequence of them, and a step of a goroutine that is not at that
    point does nothing. *)
Inductive phase :=
  | Start
  | Found (loc : nat)
  | Missed
  | Holding (loc : nat)
  | Done (ok : bool).

Inductive sweeper :=
  | Ranging
  | Visiting (key : string) (loc : nat)
  | Deleting (key : string).

Inductive event :=
  | Arrive (clientID : string)
  | Lookup (i : nat)
  | Touch (i : nat) (now : time)
  | Create (i : nat) (now : time)
  | Ask (i : nat) (now : time)
  | Visit (key : string)
  | Compare (now : time)
  | Remove.

(** An answer of a limiter: for whom, which limiter, when and what. *)
Record answer := { who : string; bucket : nat; asked : time; granted : bool }.

(** The limiter, the goroutines, and two records of the run: [created] says for which
    client the limiter at each location was made, [log] lists the answers. *)
Record system := {
  limits : RateLimiter;
  requests : list (string * phase);
  sweep : sweeper;
  created : list string;
  log : list answer
}.

Definition start (rl : RateLimiter) : system :=
  {| limits := rl; requests := []; sweep := Ranging; created := []; log := [] |}.

Definition arrive (id : string) (s : system) : system :=
  {| limits := limits s; requests := requests s ++ [(id, Start)]; sweep := sweep s;
     created := created s; log := log s |}.

(** Goroutine [i] moves on to [ph], leaving the limiter as [rl]. *)
Definition moved (i : nat) (id : string) (ph : phase) (rl : RateLimiter) (s : system) : system :=
  {| limits := rl; requests := <[i := (id, ph)]> (requests s); sweep := sweep s;
     created := created s; log := log s |}.

Definition made (id : string) (s : system) : system :=
  {| limits := limits s; requests := requests s; sweep := sweep s;
     created := created s ++ [id]; log := log s |}.

Definition logged (a : answer) (s : system) : system :=
  {| limits := limits s; requests := requests s; sweep := sweep s;
     created := created s; log := log s ++ [a] |}.

Definition swept (sw : sweeper) (rl : RateLimiter) (s : system) : system :=
  {| limits := rl; requests := requests s; sweep := sw; created := created s; log := log s |}.

Definition exec (s : system) (e : event) : system :=
  match e with
  | Arrive id => arrive id s
  | Lookup i =>
      match requests s !! i with
      | Some (id, Start) =>
          match load (limits s) id with
          | Some loc => moved i id (Found loc) (limits s) s
          | None => moved i id Missed (limits s) s
          end
      | _ => s
      end
  | Touch i now =>
      match requests s !! i with
      | Some (id, Found loc) => moved i id (Holding loc) (touch (limits s) loc now) s
      | _ => s
      end
  | Create i now =>
      match requests s !! i with
      | Some (id, Missed) =>
          let (rl, loc) := store_new (limits s) id now in made id (moved i id (Holding loc) rl s)
      | _ => s
      end
  | Ask i now =>
      match requests s !! i with
      | Some (id, Holding loc) =>
          let (rl, ok) := allow_at (limits s) loc now in
          logged {| who := id; bucket := loc; asked := now; granted := ok |} (moved i id (Done ok) rl s)
      | _ => s
      end
  | Visit key =>
      match sweep s, clients (limits s) !! key with
      | Ranging, Some loc => swept (Visiting key loc) (limits s) s
      | _, _ => s
      end
  | Compare now =>
      match sweep s with
      | Visiting key loc =>
          match heap (limits s) !! loc with
          | Some c => swept (if idle (limits s) c now then Deleting key else Ranging) (limits s) s
          | None => s
          end
      | _ => s
      end
  | Remove =>
      match sweep s with
      | Deleting key => swept Ranging (remove (limits s) key) s
      | _ => s
      end
  end.

Definition run (s : system) (es : list event) : system := fold_left exec es s.

(** The answers a client got, in order, and when its requests were asked. *)
Definition answers_of (id : string) (s : system) : list bool :=
  granted <$> filter (λ a, who a = id) (log s).

Definition asked_at (id : string) (s : system) : list time :=
  asked <$> filter (λ a, who a = id) (log s).

(** How many limiters were made for a client. *)
Definition buckets (id : string) (s : system) : Z := zlen (filter (λ i, i = id) (created s)).

(** No request of the client is between a lookup that missed and its store while another
    one looks the client up, and the cleanup loop does not find the client idle. *)
Definition missing (id : string) (s : system) : bool :=
  existsb (λ q, bool_decide (q.1 = id) && match q.2 with Missed => true | _ => false end) (requests s).

Definition calm_step (id : string) (s : system) (e : event) : bool :=
  match e with
  | Lookup i =>
      match requests s !! i with
      | Some (id', Start) => negb (bool_decide (id' = id) && missing id s)
      | _ => true
      end
  | Compare now =>
      match sweep s with
      | Visiting key loc =>
          match heap (limits s) !! loc with
          | Some c => negb (bool_decide (key = id) && idle (limits s) c now)
          | None => true
          end
      | _ => true
      end
  | _ => true
  end.

Fixpoint calm (id : string) (s : system) (es : list event) : bool :=
  match es with [] => true | e :: es' => calm_step id s e && calm id (exec s e) es' end.

(** ** Invariant *)

Lemma filter_agree {A} (P Q : A → Prop) `{∀ x, Decision (P x), ∀ x, Decision (Q x)} (l : list A) :
  (∀ x, x ∈ l → P x ↔ Q x) → filter P l = filter Q l.
Proof.
  induction l as [|x l IH]; intros E; [done|]. rewrite !filter_cons, IH by (intros; apply E; by right).
  pose proof (E x (list_elem_of_here x l)). repeat case_decide; tauto.
Qed.

Lemma filter_none {A} (P : A → Prop) `{∀ x, Decision (P x)} (l : list A) : (∀ x, x ∈ l → ¬ P x) → filter P l = [].
Proof.
  induction l as [|x l IH]; intros E; [done|].
  rewrite filter_cons_False by (apply E; left). apply IH. intros y Hy. apply E. by right.
Qed.

(** The state of a limiter after the calls at the times [ts]. *)
Definition lim_after (l : Limiter) (ts : list time) : Limiter :=
  fold_left (λ l t, (lim_Allow l t).1) ts l.

Lemma lim_run_snoc l ts t :
  lim_run l (ts ++ [t]) = lim_run l ts ++ [(lim_Allow (lim_after l ts) t).2].
Proof.
  revert l. induction ts as [|u ts IH]; intros l; cbn; [by destruct (lim_Allow l t)|].
  destruct (lim_Allow l u) as [l' ok]. cbn. by rewrite IH.
Qed.

Lemma lim_after_snoc l ts t : lim_after l (ts ++ [t]) = (lim_Allow (lim_after l ts) t).1.
Proof. unfold lim_after. by rewrite fold_left_app. Qed.

Definition at_bucket (loc : nat) (as_ : list answer) : list answer := filter (λ a, bucket a = loc) as_.
#[local] Arguments at_bucket : simpl never.

(** Every limiter belongs to the client it was made for, all its answers went to requests of
    that client, and they are those of a bucket that was new. *)
Record inv (rps burst : Z) (s : system) : Prop := {
  inv_r : r (limits s) = rps;
  inv_b : b (limits s) = burst;
  inv_next : next (limits s) = length (created s);
  inv_heap : ∀ loc, is_Some (heap (limits s) !! loc) ↔ is_Some (created s !! loc);
  inv_clients : ∀ id loc, clients (limits s) !! id = Some loc → created s !! loc = Some id;
  inv_requests : ∀ i id loc,
    requests s !! i = Some (id, Found loc) ∨ requests s !! i = Some (id, Holding loc) →
    created s !! loc = Some id;
  inv_log : ∀ a, a ∈ log s → created s !! bucket a = Some (who a);
  inv_buckets : ∀ loc cl, heap (limits s) !! loc = Some cl →
    limiter cl = lim_after (NewLimiter rps burst) (asked <$> at_bucket loc (log s)) ∧
    granted <$> at_bucket loc (log s) = lim_run (NewLimiter rps burst) (asked <$> at_bucket loc (log s))
}.

Lemma inv_new rps burst c : inv rps burst (start (NewRateLimiter rps burst c).1).
Proof.
  split; cbn; try done.
  - intros loc. rewrite lookup_nil, lookup_empty. done.
  - by intros i id loc [].
  - intros a H. by apply elem_of_nil in H.
Qed.

(** A request that moves on without touching a limiter. *)
Lemma inv_moved rps burst s i id ph :
  (∀ loc, ph = Found loc ∨ ph = Holding loc → created s !! loc = Some id) →
  inv rps burst s → inv rps burst (moved i id ph (limits s) s).
Proof.
  intros Hp [Hr Hb Hn Hh Hc Hq Hl Hk]. split; cbn; try done.
  intros j id' loc [H|H]; apply list_lookup_insert_Some in H as [(<- & [= <- ->] & _)|[_ H]]; eauto.
Qed.

(** A client object that is replaced keeps the objects that are there. *)
Lemma heap_set loc cl cl0 rl l : heap rl !! loc = Some cl0 → is_Some (heap (set_object loc cl rl) !! l) ↔ is_Some (heap rl !! l).
Proof. intros H. cbn. rewrite lookup_insert_is_Some'. split; [intros [<-|?]; [by rewrite H|done]|auto]. Qed.

Lemma inv_touch rps burst s loc now :
  inv rps burst s → inv rps burst (swept (sweep s) (touch (limits s) loc now) s).
Proof.
  intros [Hr Hb Hn Hh Hc Hq Hl Hk]. unfold touch. destruct (heap (limits s) !! loc) as [c0|] eqn:E.
  - split; cbn -[set_object]; try done.
    + intros l. by rewrite (heap_set loc _ c0).
    + cbn. intros l cl [[<- <-]|[_ H]]%lookup_insert_Some; [exact (Hk loc c0 E)|eauto].
  - by split.
Qed.

Lemma inv_create rps burst s i id now :
  inv rps burst s →
  inv rps burst (made id (moved i id (Holding (store_new (limits s) id now).2) (store_new (limits s) id now).1 s)).
Proof.
  intros [Hr Hb Hn Hh Hc Hq Hl Hk].
  assert (∀ loc j, created s !! loc = Some j → (created s ++ [id]) !! loc = Some j) as Hkeep
    by (intros; by apply lookup_app_l_Some).
  assert ((created s ++ [id]) !! next (limits s) = Some id) as Hnew
    by (rewrite Hn; apply list_lookup_middle; done).
  split; cbn; try done.
  - rewrite length_app. cbn. lia.
  - intros loc. rewrite lookup_insert_is_Some', Hh, !lookup_lt_is_Some, length_app, Hn. cbn. lia.
  - intros j loc [[<- <-]|[_ H]]%lookup_insert_Some; eauto.
  - intros j id' loc [H|H]; apply list_lookup_insert_Some in H as [(<- & [= <- <-] & _)|[_ H]]; eauto.
  - eauto.
  - intros loc cl [[<- <-]|[_ H]]%lookup_insert_Some; [|eauto].
    assert (at_bucket (next (limits s)) (log s) = []) as ->.
    { apply filter_none. intros a Ha E. apply Hl, lookup_lt_Some in Ha. lia. }
    cbn. by rewrite Hr, Hb.
Qed.

Lemma inv_ask rps burst s i id loc now :
  requests s !! i = Some (id, Holding loc) → inv rps burst s → inv rps burst (exec s (Ask i now)).
Proof.
  intros Hi [Hr Hb Hn Hh Hc Hq Hl Hk]. pose proof (Hq i id loc (or_intror Hi)) as Ho.
  destruct (proj2 (Hh loc)) as [c0 E]; [by rewrite Ho|]. destruct (Hk loc c0 E) as [Ha Hg].
  cbn. rewrite Hi. unfold allow_at. rewrite E, Ha.
  destruct (lim_Allow _ now) as [l' ok] eqn:El.
  split; cbn -[set_object]; try done.
  - intros l. by rewrite (heap_set loc _ c0).
  - intros j id' l [H|H]; apply list_lookup_insert_Some in H as [(<- & [= <- <-] & _)|[_ H]]; eauto.
  - intros a [H|H]%elem_of_app; [by apply Hl|]. by apply list_elem_of_singleton in H as ->.
  - cbn. intros l cl [[<- <-]|[Hne H]]%lookup_insert_Some; unfold at_bucket in *; rewrite filter_app.
    + rewrite filter_cons_True by done. cbn. rewrite !fmap_app. cbn.
      rewrite lim_run_snoc, lim_after_snoc, El, <- Hg. done.
    + rewrite filter_cons_False by done. cbn. rewrite app_nil_r. eauto.
Qed.

Lemma inv_swept rps burst s sw :
  inv rps burst s → inv rps burst (swept sw (limits s) s).
Proof. by intros []; split. Qed.

Lemma inv_remove rps burst s key :
  inv rps burst s → inv rps burst (swept Ranging (remove (limits s) key) s).
Proof.
  intros []. split; cbn; try done. intros id loc [_ H]%lookup_delete_Some. eauto.
Qed.

Lemma inv_exec rps burst s e : inv rps burst s → inv rps burst (exec s e).
Proof.
  intros W. destruct e as [id|i|i now|i now|i now|key|now|].
  - destruct W as [Hr Hb Hn Hh Hc Hq Hl Hk]. split; cbn; try done.
    intros j id' loc [H|H]; apply lookup_app_Some in H as [H|[_ H]]; eauto;
      by apply list_lookup_singleton_Some in H as [_ [=]].
  - cbn. destruct (requests s !! i) as [[id []]|]; try done.
    destruct (load (limits s) id) as [loc|] eqn:E; apply inv_moved; try done; intros l.
    + intros [[= <-]|[=]]. by apply (inv_clients _ _ s W).
    + by intros [[=]|[=]].
  - cbn. destruct (requests s !! i) as [[id []]|] eqn:Hi; try done.
    apply (inv_moved rps burst (swept (sweep s) (touch (limits s) loc now) s)); [|by apply inv_touch].
    intros l [[=]|[= <-]]. cbn. apply (inv_requests _ _ s W i). by left.
  - cbn -[store_new]. destruct (requests s !! i) as [[id []]|]; try done.
    pose proof (inv_create rps burst s i id now W) as H. by destruct (store_new (limits s) id now).
  - destruct (requests s !! i) as [[id []]|] eqn:Hi; try (cbn; by rewrite Hi). by eapply inv_ask.
  - cbn. destruct (sweep s), (clients (limits s) !! key); try done. by apply inv_swept.
  - cbn. destruct (sweep s); try done. destruct (heap (limits s) !! loc); [|done]. by apply inv_swept.
  - cbn. destruct (sweep s); try done. by apply inv_remove.
Qed.

Lemma inv_run rps burst s es : inv rps burst s → inv rps burst (run s es).
Proof. revert s. induction es as [|e es IH]; intros s W; [done|]. by apply IH, inv_exec. Qed.

(** A client that is never looked up twice before it is stored, and never found idle, has at
    most one limiter: none while it is not in the map, one from then on. *)
Record settled (id : string) (s : system) : Prop := {
  settled_sweep : sweep s ≠ Deleting id;
  settled_one : ∀ i j, requests s !! i = Some (id, Missed) → requests s !! j = Some (id, Missed) → i = j;
  settled_in : is_Some (clients (limits s) !! id) →
               buckets id s = 1 ∧ ∀ i, requests s !! i ≠ Some (id, Missed);
  settled_out : clients (limits s) !! id = None → buckets id s = 0
}.

Lemma missing_false id s i : missing id s = false → requests s !! i ≠ Some (id, Missed).
Proof.
  intros M H%list_elem_of_lookup_2. apply not_true_iff_false in M. apply M, existsb_exists.
  exists (id, Missed). split; [by apply list_elem_of_In|]. cbn. by rewrite bool_decide_true.
Qed.

Lemma buckets_made id id' s :
  buckets id (made id' s) = buckets id s + (if bool_decide (id' = id) then 1 else 0).
Proof.
  unfold buckets, zlen. cbn. rewrite filter_app, length_app, filter_cons.
  case_decide; case_bool_decide; try done; cbn; lia.
Qed.

(** A request that moves on to anything but a missed lookup, the map being left alone. *)
Lemma settled_moved id s i id' ph rl :
  clients rl = clients (limits s) → (id' ≠ id ∨ ph ≠ Missed) →
  settled id s → settled id (moved i id' ph rl s).
Proof.
  intros Hc Hm [Hs H1 Hi Ho].
  assert (∀ j, <[i := (id', ph)]> (requests s) !! j = Some (id, Missed) → requests s !! j = Some (id, Missed)) as Hback.
  { intros j H. apply list_lookup_insert_Some in H as [(-> & [= -> ->] & _)|[_ H]]; [destruct Hm; congruence|done]. }
  split; cbn; rewrite ?Hc; eauto. intros H. destruct (Hi H) as [Hb Hn]. split; [done|].
  intros j Hj. by apply (Hn j), Hback.
Qed.

Lemma settled_missed id s i :
  missing id s = false → clients (limits s) !! id = None →
  settled id s → settled id (moved i id Missed (limits s) s).
Proof.
  intros M E [Hs H1 Hi Ho]. split; cbn; [done| |by rewrite E; intros []|auto].
  intros j j' Hj Hj'.
  apply list_lookup_insert_Some in Hj as [(<- & _)|[_ Hj]]; [|by apply (missing_false id s j) in M].
  apply list_lookup_insert_Some in Hj' as [(<- & _)|[_ Hj']]; [done|by apply (missing_false id s j') in M].
Qed.

Lemma settled_create id s i id' now :
  requests s !! i = Some (id', Missed) → settled id s → settled id (exec s (Create i now)).
Proof.
  intros Hq [Hs H1 Hi Ho]. cbn. rewrite Hq.
  assert (∀ j, <[i := (id', Holding (next (limits s)))]> (requests s) !! j = Some (id, Missed) →
               requests s !! j = Some (id, Missed) ∧ i ≠ j) as Hback.
  { intros j H. by apply list_lookup_insert_Some in H as [(-> & [=] & _)|[? H]]. }
  split; [done| | |]; rewrite ?buckets_made; cbn -[buckets].
  - intros j j' [Hj _]%Hback [Hj' _]%Hback. by apply H1.
  - destruct (decide (id' = id)) as [->|Hne].
    + intros _. rewrite bool_decide_true by done. rewrite (Ho : _ → buckets id (moved i id _ _ s) = 0); [split; [done|]|].
      * intros j [Hj Hne]%Hback. by apply Hne, H1.
      * apply eq_None_not_Some. intros [_ Hn]%Hi. by apply (Hn i).
    + rewrite lookup_insert_ne, bool_decide_false, Z.add_0_r by done. intros [Hb Hn]%Hi. split; [done|].
      intros j [Hj _]%Hback. by apply (Hn j).
  - intros [E Hne]%lookup_insert_None. rewrite bool_decide_false, Z.add_0_r by done. by apply Ho.
Qed.

Lemma settled_exec id s e : calm_step id s e = true → settled id s → settled id (exec s e).
Proof.
  intros C S. destruct e as [id'|i|i now|i now|i now|key|now|].
  - assert (∀ j, (requests s ++ [(id', Start)]) !! j = Some (id, Missed) → requests s !! j = Some (id, Missed)) as Hback.
    { intros j [H|[_ H]]%lookup_app_Some; [done|]. by apply list_lookup_singleton_Some in H as [_ [=]]. }
    destruct S as [Hs H1 Hi Ho]. split; cbn; eauto. intros [Hb Hn]%Hi. split; [done|].
    intros j Hj. by apply (Hn j), Hback.
  - cbn in *. destruct (requests s !! i) as [[id' []]|]; try done. unfold load.
    destruct (clients (limits s) !! id') as [loc|] eqn:E; [apply settled_moved; [done|right; congruence|done]|].
    destruct (decide (id' = id)) as [->|Hne]; [|apply settled_moved; [done|by left|done]].
    rewrite bool_decide_true in C by done. apply settled_missed; [|done..]. by destruct (missing id s).
  - cbn. destruct (requests s !! i) as [[id' []]|]; try done. apply settled_moved; [|right; congruence|done].
    unfold touch. by destruct (heap (limits s) !! loc).
  - destruct (requests s !! i) as [[id' []]|] eqn:E; try (cbn; by rewrite E). by eapply settled_create.
  - cbn. destruct (requests s !! i) as [[id' []]|]; try done.
    assert (clients (allow_at (limits s) loc now).1 = clients (limits s)) as Hc.
    { unfold allow_at. destruct (heap (limits s) !! loc); [|done]. by destruct (lim_Allow _ now). }
    destruct (allow_at (limits s) loc now) as [rl ok]. cbn in Hc.
    destruct (settled_moved id s i id' (Done ok) rl Hc ltac:(right; congruence) S). by split.
  - cbn. destruct (sweep s), (clients (limits s) !! key); try done. destruct S. by split.
  - cbn in *. destruct (sweep s) as [|key loc|] eqn:E; try done.
    destruct (heap (limits s) !! loc) as [c|]; [|done]. destruct S. split; try done. cbn. destruct (idle (limits s) c now); [|done]. intros [= ->].
    rewrite bool_decide_true in C by done. done.
  - cbn. destruct (sweep s) as [| |key] eqn:E; try done.
    destruct S as [Hs H1 Hi Ho]. assert (key ≠ id) by congruence. split; cbn; try done; by rewrite lookup_delete_ne.
Qed.

Lemma settled_run id s es : calm id s es = true → settled id s → settled id (run s es).
Proof.
  revert s. induction es as [|e es IH]; intros s C S; [done|]. cbn in C. apply andb_true_iff in C as [C C'].
  by apply IH, settled_exec.
Qed.

Lemma settled_new id rps burst c : settled id (start (NewRateLimiter rps burst c).1).
Proof. by split; cbn; try done; intros []. Qed.

Lemma settled_buckets id s : settled id s → buckets id s ≤ 1.
Proof.
  intros [_ _ Hi Ho]. destruct (clients (limits s) !! id); [destruct (Hi (mk_is_Some _ _ eq_refl)) as [-> _]|rewrite Ho by done]; lia.
Qed.

(** The limiters made for a client, as locations. *)
Lemma one_bucket id (l : list string) i j :
  zlen (filter (λ k, k = id) l) ≤ 1 → l !! i = Some id → l !! j = Some id → i = j.
Proof.
  unfold zlen. revert i j. induction l as [|k l IH]; intros i j H Hi Hj; [done|].
  assert (∀ n, l !! n = Some id → (1 ≤ length (filter (λ k, k = id) l))%nat) as Hlen.
  { intros n Hn%list_elem_of_lookup_2. assert (id ∈ filter (λ k, k = id) l) as He by (by apply list_elem_of_filter).
    destruct (filter _ l); [by apply elem_of_nil in He|cbn; lia]. }
  rewrite filter_cons in H. destruct i as [|i], j as [|j]; cbn in Hi, Hj; [done| | |].
  - injection Hi as ->. rewrite decide_True in H by done. apply Hlen in Hj. cbn in H. lia.
  - injection Hj as ->. rewrite decide_True in H by done. apply Hlen in Hi. cbn in H. lia.
  - f_equal. apply IH; [|done..]. case_decide; cbn in H; lia.
Qed.

(** The answers of a client with one limiter are the answers of that limiter. *)
Lemma one_bucket_answers rps burst id s :
  inv rps burst s → buckets id s ≤ 1 → answers_of id s = lim_run (NewLimiter rps burst) (asked_at id s).
Proof.
  intros W Hb. unfold answers_of, asked_at.
  destruct (filter (λ a, who a = id) (log s)) as [|a l] eqn:E; [done|]. rewrite <- E.
  assert (a ∈ filter (λ a, who a = id) (log s)) as [Ha Hl]%list_elem_of_filter by (rewrite E; left).
  pose proof (inv_log _ _ s W a Hl) as Ho.
  rewrite (filter_agree _ (λ x, bucket x = bucket a)).
  - destruct (proj2 (inv_heap _ _ s W (bucket a))) as [cl Hc]; [by rewrite Ho|].
    by apply (inv_buckets _ _ s W (bucket a) cl).
  - intros x Hx. pose proof (inv_log _ _ s W x Hx) as Hox. split.
    + intros Hw. apply (one_bucket id (created s)); [done|by rewrite Hox, Hw|by rewrite Ho, Ha].
    + intros Hw. rewrite Hw, Ho in Hox. congruence.
Qed.

(** ** Properties *)

(** C16. The clients of the rate limiter do not affect each other, however the steps of the
    requests (the lookup, the store, the write of [lastSeen], the call of the limiter) and of
    the cleanup loop interleave: as long as no request of a client looks it up while another
    one that missed it has not yet stored it, and the cleanup loop never finds the client
    idle for more than three intervals, one token bucket is made for the client at most, and
    the answers to its requests are those of that bucket, new at its first request, asked at
    its own times. *)
Theorem clients_isolated rps burst c id es :
  calm id (start (NewRateLimiter rps burst c).1) es = true →
  let s := run (start (NewRateLimiter rps burst c).1) es in
  buckets id s ≤ 1 ∧ answers_of id s = lim_run (NewLimiter rps burst) (asked_at id s).
Proof.
  intros C s. assert (buckets id s ≤ 1) as Hb by (apply settled_buckets, settled_run; [done|apply settled_new]).
  split; [done|]. apply one_bucket_answers; [apply inv_run, inv_new|done].
Qed.

(** *** Counting over several buckets *)

Lemma admitted_cons ok bs : admitted (ok :: bs) = (if ok then 1 else 0) + admitted bs.
Proof.
  unfold admitted, zlen. destruct ok;
    [rewrite filter_cons_True by done; cbn [length]; lia|by rewrite filter_cons_False].
Qed.

Lemma last_cons_default (ts : list time) t t0 : List.last (t :: ts) t0 = List.last ts t.
Proof. revert t. induction ts as [|u ts IH]; intros t; [done|]. cbn in *. by destruct ts. Qed.

Lemma ascending_bounds t ts x :
  ascending t ts = true → x ∈ t :: ts → t ≤ x ≤ List.last ts t.
Proof.
  revert t x. induction ts as [|u ts IH]; intros t x A Hx.
  { apply list_elem_of_singleton in Hx as ->. cbn. lia. }
  cbn [ascending] in A. apply andb_true_iff in A as [Hu A]. apply Z.leb_le in Hu. rewrite last_cons_default.
  apply elem_of_cons in Hx as [->|Hx]; [|specialize (IH u x A Hx); lia].
  specialize (IH u u A (list_elem_of_here u ts)). lia.
Qed.

(** Some of the times that do not go back. *)
Lemma ascending_filter (P : answer → Prop) `{∀ a, Decision (P a)} l t0 :
  ascending t0 (asked <$> l) = true → ascending t0 (asked <$> filter P l) = true.
Proof.
  revert t0. induction l as [|a l IH]; intros t0 A; [done|]. cbn in A. apply andb_true_iff in A as [Ha A].
  rewrite filter_cons. case_decide; cbn; [by rewrite Ha, IH|]. apply IH. clear IH. destruct l as [|a' l]; [done|].
  cbn in *. apply andb_true_iff in A as [Ha' A]. apply Z.leb_le in Ha, Ha'. rewrite A, andb_true_r. lia.
Qed.

Lemma ascending_first t ts : ascending t ts = true → ascending t (t :: ts) = true.
Proof. intros A. cbn. by rewrite Z.leb_refl. Qed.

(** The answers of the locations from [k] on, made for the clients in [cr], are at most as
    many as the locations of [id] can give, if all of them went to [id]. *)
Lemma admitted_buckets (id : string) K cr (k : nat) F :
  0 ≤ K →
  (∀ a, a ∈ F → (k ≤ bucket a)%nat ∧ cr !! (bucket a - k)%nat = Some id) →
  (∀ loc, Second * admitted (granted <$> at_bucket loc F) ≤ K) →
  Second * admitted (granted <$> F) ≤ zlen (filter (λ i, i = id) cr) * K.
Proof.
  intros HK. revert k F. induction cr as [|j cr IH]; intros k F Ho Hb.
  { destruct F as [|a F]; [done|]. by destruct (Ho a (list_elem_of_here a F)) as [_ [=]]. }
  assert (admitted (granted <$> F) = admitted (granted <$> at_bucket k F) + admitted (granted <$> filter (λ a, bucket a ≠ k) F)) as ->.
  { clear. induction F as [|a F IH]; [done|]. unfold at_bucket in *. rewrite fmap_cons, admitted_cons, IH, !filter_cons.
    repeat case_decide; try done; rewrite fmap_cons, admitted_cons; lia. }
  specialize (IH (S k) (filter (λ a, bucket a ≠ k) F)).
  assert (Second * admitted (granted <$> filter (λ a, bucket a ≠ k) F) ≤ zlen (filter (λ i, i = id) cr) * K) as Hrest.
  { apply IH.
    - intros a [Hne Ha]%list_elem_of_filter. destruct (Ho a Ha) as [Hk Hc]. split; [lia|].
      by replace (bucket a - k)%nat with (S (bucket a - S k)) in Hc by lia.
    - intros loc. destruct (decide (loc = k)) as [->|Hne].
      + unfold at_bucket. rewrite filter_none; [unfold admitted, zlen; cbn; lia|].
        by intros a [Hne _]%list_elem_of_filter.
      + unfold at_bucket in *. rewrite list_filter_filter_l; [apply Hb|]. by intros a ->. }
  rewrite filter_cons. case_decide as Hj.
  - unfold zlen in *. cbn [length]. specialize (Hb k). lia.
  - unfold at_bucket. rewrite filter_none; [unfold admitted at 1, zlen at 1; cbn [fmap list_fmap filter length]; cbn; lia|].
    intros a Ha E. destruct (Ho a Ha) as [_ Hc]. rewrite E, Nat.sub_diag in Hc. cbn in Hc. congruence.
Qed.

Context {LL : LimitersLaws L}.

(** One limiter, asked at some of the times from [t] to the last of [ts]. *)
Lemma lim_bound_within rps burst t ts us :
  0 ≤ rps → 0 ≤ burst → ascending t us = true → ascending t ts = true → (∀ u, u ∈ us → u ∈ t :: ts) →
  Second * admitted (lim_run (NewLimiter rps burst) us) ≤ Second * burst + rps * (List.last ts t - t).
Proof.
  intros Hr Hb Au A Hin. pose proof (ascending_bounds t ts t A (list_elem_of_here t ts)).
  destruct us as [|u us]; [unfold admitted, zlen, Second; cbn; nia|].
  cbn in Au. apply andb_true_iff in Au as [_ Au]. pose proof (lim_bound rps burst u us Hr Hb Au).
  assert (List.last us u ∈ u :: us) as Hl.
  { clear. revert u. induction us as [|v us IH]; intros u; [left|]. rewrite last_cons_default. right. apply IH. }
  pose proof (ascending_bounds t ts u A (Hin u (list_elem_of_here u us))).
  pose proof (ascending_bounds t ts _ A (Hin _ Hl)). nia.
Qed.

Lemma buckets_bound rps burst id s t ts :
  inv rps burst s → 0 ≤ rps → 0 ≤ burst → asked_at id s = t :: ts → ascending t ts = true →
  Second * admitted (answers_of id s) ≤ buckets id s * (Second * burst + rps * (List.last ts t - t)).
Proof.
  intros W Hr Hb E A. pose proof (ascending_bounds t ts t A (list_elem_of_here t ts)).
  apply (admitted_buckets id _ (created s) 0).
  - unfold Second. nia.
  - intros a [Hw Ha]%list_elem_of_filter. split; [lia|]. rewrite Nat.sub_0_r, <- Hw. by apply (inv_log _ _ s W).
  - intros loc. unfold at_bucket.
    destruct (filter (λ a, bucket a = loc) (filter (λ a, who a = id) (log s))) as [|a l] eqn:El.
    { unfold admitted, zlen, Second. cbn. nia. }
    rewrite <- El. assert (a ∈ filter (λ a, bucket a = loc) (filter (λ a, who a = id) (log s))) as Ha by (rewrite El; left).
    apply list_elem_of_filter in Ha as [Hl [Hw Ha]%list_elem_of_filter].
    pose proof (inv_log _ _ s W a Ha) as Ho. rewrite Hl, Hw in Ho.
    destruct (proj2 (inv_heap _ _ s W loc)) as [cl Hc]; [by rewrite Ho|].
    assert (filter (λ a, bucket a = loc) (filter (λ a, who a = id) (log s)) = at_bucket loc (log s)) as E'.
    { rewrite list_filter_filter. apply filter_agree. intros x Hx. split; [tauto|]. intros Hb'. split; [done|].
      apply (inv_log _ _ s W) in Hx. rewrite Hb', Ho in Hx. congruence. }
    pose proof (ascending_filter (λ a, bucket a = loc) (filter (λ a, who a = id) (log s)) t) as Af.
    assert (asked <$> filter (λ a, who a = id) (log s) = t :: ts) as Et by done.
    rewrite E' in *. rewrite (proj2 (inv_buckets _ _ s W loc cl Hc)). apply lim_bound_within; [done..| |done|].
    + apply Af. rewrite Et. by apply ascending_first.
    + rewrite <- Et, <- E'. intros u (x & -> & [_ Hx]%list_elem_of_filter)%list_elem_of_fmap.
      by apply list_elem_of_fmap_2.
Qed.

(** C17. The rate a client gets, with a rate and a burst that are not negative, however its
    requests, those of other clients and the cleanup loop interleave: if its limiters are
    asked from [t] on at times that do not go back, then for every token bucket that was made for it at most the burst and [requestsPerSecond] for
    every second that passed are admitted; and the client has one bucket at most, which makes
    this the rate it is meant to get, when no request looks it up between a lookup that missed
    it and its store and the cleanup loop never finds it idle for more than three intervals. *)
Theorem rate_bounded rps burst c id es t ts :
  0 ≤ rps → 0 ≤ burst →
  let s0 := start (NewRateLimiter rps burst c).1 in
  let s := run s0 es in
  asked_at id s = t :: ts → ascending t ts = true →
  let bound := Second * burst + rps * (List.last ts t - t) in
  Second * admitted (answers_of id s) ≤ buckets id s * bound ∧
  (calm id s0 es = true → Second * admitted (answers_of id s) ≤ bound).
Proof.
  intros Hr Hb s0 s E A bound. assert (inv rps burst s) as W by apply inv_run, inv_new.
  split; [by apply buckets_bound|]. intros C.
  rewrite (one_bucket_answers rps burst), E by (done || (apply settled_buckets, settled_run; [done|apply settled_new])).
  by apply lim_bound.
Qed.

(** *** First requests that interleave

    [k] requests of a client arrive, all look it up, and each then stores and asks. *)
Definition racing (id : string) (k : nat) : list event :=
  replicate k (Arrive id) ++ (Lookup <$> seq 0 k) ++ (seq 0 k ≫= λ i, [Create i 0; Ask i 0]).

(** The first [i] of [i + j] goroutines have moved on. *)
Lemma insert_boundary {A} (x y : A) i j :
  <[i := y]> (replicate i y ++ replicate (S j) x) = replicate (S i) y ++ replicate j x.
Proof.
  induction i as [|i IH]; [done|].
  change (y :: <[i := y]> (replicate i y ++ replicate (S j) x) = y :: (replicate (S i) y ++ replicate j x)).
  by rewrite IH.
Qed.

Lemma lookup_boundary {A} (x y : A) i j :
  (replicate i y ++ replicate (S j) x) !! i = Some x.
Proof. rewrite lookup_app_r; rewrite length_replicate; [by rewrite Nat.sub_diag|done]. Qed.

Lemma run_app s es es' : run s (es ++ es') = run (run s es) es'.
Proof. apply fold_left_app. Qed.

Lemma all_arrive id s k :
  let s' := run s (replicate k (Arrive id)) in
  limits s' = limits s ∧ log s' = log s ∧ requests s' = requests s ++ replicate k (id, Start).
Proof.
  cbn. revert s. induction k as [|k IH]; intros s; cbn; [by rewrite app_nil_r|].
  destruct (IH (arrive id s)) as (H1 & H2 & H3). unfold run in *. rewrite H1, H2, H3. cbn.
  by rewrite <- app_assoc.
Qed.

Lemma all_miss id s i j :
  clients (limits s) !! id = None →
  requests s = replicate i (id, Missed) ++ replicate j (id, Start) →
  let s' := run s (Lookup <$> seq i j) in
  limits s' = limits s ∧ log s' = log s ∧ requests s' = replicate (i + j) (id, Missed).
Proof.
  cbn. revert s i. induction j as [|j IH]; intros s i Hc Hq.
  { cbn. rewrite Hq, app_nil_r. by replace (i + 0)%nat with i by lia. }
  cbn [seq fmap list_fmap run fold_left exec]. rewrite Hq, lookup_boundary. unfold load. rewrite Hc.
  destruct (IH (moved i id Missed (limits s) s) (S i)) as (H1 & H2 & H3); [done|cbn; by rewrite Hq, insert_boundary|].
  unfold run in *. rewrite H1, H2, H3. cbn. by replace (i + S j)%nat with (S (i + j)) by lia.
Qed.

Lemma all_admitted id s i j :
  0 ≤ r (limits s) → 1 ≤ b (limits s) →
  requests s = replicate i (id, Done true) ++ replicate j (id, Missed) →
  answers_of id (run s (seq i j ≫= λ n, [Create n 0; Ask n 0])) = answers_of id s ++ replicate j true.
Proof.
  revert s i. induction j as [|j IH]; intros s i Hr Hb Hq; [by rewrite app_nil_r|].
  cbn [seq mbind list_bind]. rewrite run_app.
  assert (lim_run (NewLimiter (r (limits s)) (b (limits s))) [0] = [true]) as Hl
    by (apply (lim_burst _ _ 0 []); [done..|unfold zlen; cbn; lia]).
  cbn in Hl. destruct (lim_Allow _ 0) as [l' ok] eqn:El. injection Hl as ->.
  unfold run at 2. cbn [fold_left exec]. rewrite Hq, lookup_boundary. cbn -[allow_at].
  rewrite Hq, list_lookup_insert_eq by (rewrite length_app, !length_replicate; lia).
  unfold allow_at. cbn. rewrite lookup_insert_eq. cbn. rewrite El.
  rewrite (IH _ (S i)); cbn; [|done|done|].
  - unfold answers_of. cbn. rewrite filter_app, filter_cons_True, fmap_app, <- app_assoc by done. done.
  - by rewrite list_insert_insert_eq, Hq, insert_boundary.
Qed.

(** A client whose first requests interleave gets more than a bucket: [getLimiter] looks it
    up and stores a new limiter in two steps of the map, so any number of first requests
    can each find the client missing and get a full bucket of their own; all are admitted,
    with a burst of 1 as well. *)
Theorem first_requests_race rps burst c id k :
  0 ≤ rps → 1 ≤ burst →
  answers_of id (run (start (NewRateLimiter rps burst c).1) (racing id k)) = replicate k true.
Proof.
  intros Hr Hb. unfold racing. rewrite !run_app.
  destruct (all_arrive id (start (NewRateLimiter rps burst c).1) k) as (L1 & G1 & Q1).
  set (s1 := run _ (replicate k _)) in *.
  destruct (all_miss id s1 0 k) as (L2 & G2 & Q2); [by rewrite L1|by rewrite Q1|].
  set (s2 := run s1 _) in *.
  rewrite (all_admitted id s2 0 k); [|rewrite L2, L1; done..|by rewrite Q2].
  unfold answers_of. by rewrite G2, G1.
Qed.

End limiter.

(** ** Bearer tokens *)

(** The first segment of every token of the JWT manager, which signs with ES256. *)
Definition jwt_header : string :=
  Base64.EncodeToString Base64.URLEncoding
    (to_bytes (Json.encode (Json.JObj [("alg", Json.JStr "ES256"); ("typ", Json.JStr "JWT")]))).

(** Bearer tokens do not tell clients apart: the identifier of a request without API
    key is made of the first 32 bytes of its [Authorization] header, which for [Bearer ]
    and a token of the JWT manager end inside the token's constant header; all holders of
    tokens share one bucket. *)
Theorem bearer_tokens_share_bucket {I} (req : Http.Request I) tok :
  Http.Header_Get (Http.Headers req) "X-API-Key" = "" →
  Http.Header_Get (Http.Headers req) "Authorization" = "Bearer " +:+ jwt_header +:+ "." +:+ tok →
  getClientID req = "token:" +:+ "Bearer " +:+ Strings.take 25 jwt_header.
Proof.
  intros Hk Ht. unfold getClientID. rewrite Hk, Ht. rewrite bool_decide_false by (by intros []).
  rewrite bool_decide_true by done.
  assert (min (slen ("Bearer " +:+ jwt_header +:+ "." +:+ tok)) 32 = 32) as ->.
  { unfold min, slen. rewrite !Strings.length_app_string.
    change (String.length "Bearer ") with 7%nat. change (String.length jwt_header) with 36%nat.
    destruct (Z.ltb_spec (Z.of_nat (7 + (36 + (String.length "." + String.length tok)))) 32); [lia|done]. }
  done.
Qed.

(** ** A token bucket in exact arithmetic

    Tokens are counted in billionths, so that what arrives in [n] nanoseconds at [r] tokens
    per second is [r * n]. *)
Record Bucket := { rate : Z; burst : Z; tokens : Z; last : option time }.

Definition elapsed (l : option time) (t : time) : Z :=
  match l with Some t0 => Z.max 0 (t - t0) | None => 0 end.

Definition bucket_Allow (k : Bucket) (t : time) : Bucket * bool :=
  let have := Z.min (burst k * Second) (tokens k + rate k * elapsed (last k) t) in
  if Second <=? have
  then ({| rate := rate k; burst := burst k; tokens := have - Second; last := Some t |}, true)
  else ({| rate := rate k; burst := burst k; tokens := have; last := Some t |}, false).

#[export] Instance BucketLimiters : Limiters := {|
  Limiter := Bucket;
  NewLimiter := λ r b, {| rate := r; burst := b; tokens := b * Second; last := None |};
  lim_Allow := bucket_Allow
|}.

(** What a bucket that was asked at [t] can still give. *)
Lemma bucket_bound ts r b tk t :
  0 ≤ r → 0 ≤ tk → ascending t ts = true →
  Second * admitted (lim_run ({| rate := r; burst := b; tokens := tk; last := Some t |} : Limiter) ts)
    ≤ tk + r * (List.last ts t - t).
Proof.
  intros Hr. revert tk t. induction ts as [|u ts IH]; intros tk t Htk A.
  { cbn. unfold admitted, zlen. cbn. lia. }
  cbn in A. apply andb_true_iff in A as [Hu A]. apply Z.leb_le in Hu.
  rewrite last_cons_default. cbn [lim_run lim_Allow BucketLimiters]. unfold bucket_Allow. cbn [rate burst tokens last elapsed].
  set (have := Z.min _ _). assert (have ≤ tk + r * (u - t)) as Hh by (unfold have; nia).
  destruct (Z.leb_spec Second have) as [H|H]; rewrite admitted_cons.
  - specialize (IH (have - Second) u ltac:(lia) A). nia.
  - destruct (Z.le_gt_cases 0 have) as [H0|H0]; [specialize (IH have u H0 A); nia|].
    assert (have = b * Second) as Hb by (unfold have in *; nia).
    assert (b < 0) as Hb0 by (rewrite Hb in H0; unfold Second in H0; lia).
    assert (∀ ts tk t, tk < 0 → admitted (lim_run ({| rate := r; burst := b; tokens := tk; last := Some t |} : Limiter) ts) = 0) as Hz.
    { clear -Hb0. induction ts as [|u ts IH]; intros tk t Htk; [done|].
      cbn [lim_run lim_Allow BucketLimiters]. unfold bucket_Allow. cbn [rate burst tokens last].
      destruct (Z.leb_spec Second (Z.min (b * Second) (tk + r * elapsed (Some t) u))) as [H|H].
      - unfold Second in *. lia.
      - rewrite admitted_cons, IH; [done|]. unfold Second in *. lia. }
    rewrite Hz by done. assert (t ≤ List.last ts u).
    { clear -Hu A. revert u Hu A. induction ts as [|v ts IH]; intros u Hu A; [done|].
      cbn in A. apply andb_true_iff in A as [Hv A]. rewrite last_cons_default. apply IH; [lia|done]. }
    nia.
Qed.

Lemma bucket_full ts r b tk t :
  0 ≤ r → (zlen ts) * Second ≤ tk → tk ≤ b * Second → ascending t ts = true →
  lim_run ({| rate := r; burst := b; tokens := tk; last := Some t |} : Limiter) ts = replicate (length ts) true.
Proof.
  intros Hr. revert tk t. induction ts as [|u ts IH]; intros tk t Htk Hb A; [done|].
  cbn in A. apply andb_true_iff in A as [Hu A]. apply Z.leb_le in Hu.
  cbn [lim_run lim_Allow BucketLimiters]. unfold bucket_Allow. cbn [rate burst tokens last elapsed].
  unfold zlen in Htk. cbn [length] in Htk. rewrite Nat2Z.inj_succ in Htk.
  set (have := Z.min _ _). assert (tk ≤ have ≤ b * Second) as [Hh Hhb] by (unfold have; nia).
  clearbody have.
  rewrite (proj2 (Z.leb_le Second have)) by (unfold Second in *; lia). cbn. f_equal. apply IH; [unfold zlen, Second in *; lia..|done].
Qed.

#[export] Instance BucketLimiters_laws : LimitersLaws BucketLimiters.
Proof.
  split.
  - intros r b t ts Hr Hb A. cbn [lim_run lim_Allow NewLimiter BucketLimiters].
    unfold bucket_Allow. cbn [rate burst tokens last elapsed].
    rewrite Z.mul_0_r, Z.add_0_r, Z.min_id. destruct (Z.leb_spec Second (b * Second)) as [H|H];
      rewrite admitted_cons.
    + pose proof (bucket_bound ts r b (b * Second - Second) t Hr ltac:(lia) A). nia.
    + pose proof (bucket_bound ts r b (b * Second) t Hr ltac:(unfold Second; lia) A). nia.
  - intros r b t ts Hr A Hb. cbn [lim_run lim_Allow NewLimiter BucketLimiters].
    unfold bucket_Allow. cbn [rate burst tokens last elapsed].
    rewrite Z.mul_0_r, Z.add_0_r, Z.min_id, (proj2 (Z.leb_le Second (b * Second))) by (unfold zlen, Second in *; lia).
    cbn. f_equal. apply bucket_full; [done|unfold Second in *; lia..|done].
Qed.

(** ** Witnesses *)

(** Client [a] asks three times within a second and once later, with a request of [b] and a
    visit of the cleanup loop in between. *)
Definition demo_events : list event :=
  [Arrive "ip:a"; Lookup 0; Arrive "ip:b"; Lookup 1; Create 1 0; Create 0 0; Ask 0 0; Arrive "ip:a";
   Arrive "ip:a"; Lookup 3; Lookup 2; Ask 1 1; Touch 2 2; Touch 3 2; Ask 3 2; Ask 2 3;
   Visit "ip:a"; Compare (60 * Second); Remove;
   Arrive "ip:a"; Lookup 4; Touch 4 (61 * Second); Ask 4 (61 * Second)].

Definition demo_start : system := start (NewRateLimiter 1 2 (60 * Second)).1.

Lemma clients_isolated_witness :
  calm "ip:a" demo_start demo_events = true ∧
  asked_at "ip:a" (run demo_start demo_events) = [0; 2; 3; 61 * Second] ∧
  answers_of "ip:a" (run demo_start demo_events) = [true; true; false; true].
Proof.
  split; [reflexivity|]. split; [reflexivity|].
  destruct (clients_isolated 1 2 (60 * Second) "ip:a" demo_events) as [_ H]; [reflexivity|].
  etrans; [exact H|reflexivity].
Defined.

(** A run that is not calm: two first requests of [a] interleave, and get a bucket each. *)
Definition demo_race : list event :=
  [Arrive "ip:a"; Arrive "ip:a"; Lookup 0; Lookup 1; Create 0 0; Ask 0 0; Create 1 0; Ask 1 0].

Lemma rate_bounded_witness :
  calm "ip:a" demo_start demo_events = true ∧
  Second * admitted (answers_of "ip:a" (run demo_start demo_events)) ≤ Second * 2 + 1 * (61 * Second - 0) ∧
  buckets "ip:a" (run demo_start demo_race) = 2 ∧
  Second * admitted (answers_of "ip:a" (run demo_start demo_race)) ≤ 2 * (Second * 2 + 1 * (0 - 0)).
Proof.
  split; [reflexivity|]. split.
  { apply (rate_bounded 1 2 (60 * Second) "ip:a" demo_events 0 [2; 3; 61 * Second]); [lia|lia|reflexivity..]. }
  split; [reflexivity|].
  destruct (rate_bounded 1 2 (60 * Second) "ip:a" demo_race 0 [0]) as [H _]; [lia|lia|reflexivity..|exact H].
Defined.

Lemma first_requests_race_witness :
  answers_of "ip:a" (run (start (NewRateLimiter 1 1 (60 * Second)).1) (racing "ip:a" 3)) = [true; true; true].
Proof. apply (first_requests_race 1 1 (60 * Second) "ip:a" 3); lia. Defined.

Definition demo_request (auth : string) : Http.Request unit :=
  {| Http.Method := "POST"; Http.Path := "/v1/crypto/encrypt"; Http.RawQuery := "";
     Http.Headers := [("Authorization", auth)]; Http.Body := Ok ""; Http.RemoteAddr := "10.0.0.1:5000";
     Http.Ctx := None |}.

Lemma bearer_tokens_share_bucket_witness :
  getClientID (demo_request ("Bearer " +:+ jwt_header +:+ ".alice")) =
    "token:Bearer eyJhbGciOiJFUzI1NiIsInR5c" ∧
  getClientID (demo_request ("Bearer " +:+ jwt_header +:+ ".bob")) =
    "token:Bearer eyJhbGciOiJFUzI1NiIsInR5c".
Proof.
  split.
  - rewrite (bearer_tokens_share_bucket (demo_request _) "alice"); reflexivity.
  - rewrite (bearer_tokens_share_bucket (demo_request _) "bob"); reflexivity.
Defined.
End RateLimit.
