(* ===== verification/Config.v ===== *)
(** * Configuration from the environment

    [Strconv2]: [strconv.ParseBool] and [strconv.ParseFloat]; [Duration]:
    [time.ParseDuration]; [Env]: the [getEnv] helpers, which the six [config] packages
    repeat; [Config]: their records and [Load] functions. The environment is a map: an unset
    variable and an empty one read the same through [os.Getenv]. *)

From Stdlib Require Import SpecFloat.
From S2P Require Import Prelude GoStd Json.
Local Open Scope Z_scope.

(** ** strconv *)
Module Strconv2.

Definition ParseBool (s : string) : option bool :=
  if bool_decide (s ∈ ["1"; "t"; "T"; "TRUE"; "true"; "True"]) then Some true
  else if bool_decide (s ∈ ["0"; "f"; "F"; "FALSE"; "false"; "False"]) then Some false
  else None.

(** The correctly rounded [float64] of [(-1)^neg * m / d], for positive [d]: 64 bits more
    than the quotient needs and a bit that tells whether there is a remainder. *)
Definition round_quotient (neg : bool) (m d : Z) : Float64.float64 :=
  let s := 64 + Z.max 0 (Z.log2 d - Z.log2 m) in
  let q := m * 2 ^ s / d in
  let sticky := if m * 2 ^ s mod d =? 0 then 0 else 1 in
  let v := 2 * q + sticky in
  binary_normalize 53 1024 (if neg then - v else v) (- (s + 1)) neg.

(** The value [m * 10^e] of [n] decimal digits; values that are surely out of range are
    settled without the power. *)
Definition of_decimal (neg : bool) (m e n : Z) : Float64.float64 :=
  if m =? 0 then S754_zero neg
  else if 310 <? n + e then S754_infinity neg
  else if n + e <? -330 then S754_zero neg
  else if 0 <=? e then binary_normalize 53 1024 ((if neg then - m else m) * 10 ^ e) 0 neg
  else round_quotient neg m (10 ^ (- e)).

(** A run of digits, its value after [acc] and its length. *)
Fixpoint dec_digits (acc n : Z) (s : string) : Z * Z * string :=
  match s with
  | String a s' =>
      match Strconv.digit_val a with
      | Some d => dec_digits (10 * acc + d) (n + 1) s'
      | None => (acc, n, s)
      end
  | EmptyString => (acc, n, "")
  end.

(** The exponent saturates, as in [readFloat]. *)
Fixpoint exp_digits (acc : Z) (s : string) : Z * string :=
  match s with
  | String a s' =>
      match Strconv.digit_val a with
      | Some d => exp_digits (if acc <? 10000 then 10 * acc + d else acc) s'
      | None => (acc, s)
      end
  | EmptyString => (acc, "")
  end.

Definition first_is (c : ascii) (s : string) : bool :=
  match s with String a _ => bool_decide (a = c) | EmptyString => false end.

(** A sign in front. *)
Definition read_sign (s : string) : bool * string :=
  if first_is "-"%char s then (true, Strings.drop 1 s)
  else if first_is "+"%char s then (false, Strings.drop 1 s) else (false, s).

(** The decimal floating-point literals without their sign: digits with at most one point,
    at least one of them, and an exponent. The mantissa, the power of ten and the number of
    digits. *)
Definition read_decimal (s : string) : option (Z * Z * Z) :=
  let '(m, n, s) := dec_digits 0 0 s in
  let '(m, n, frac, s) :=
    if first_is "."%char s then
      let '(m', n', s') := dec_digits m n (Strings.drop 1 s) in (m', n', n' - n, s')
    else (m, n, 0, s) in
  if n =? 0 then None
  else if first_is "e"%char s || first_is "E"%char s then
    let (eneg, s) := read_sign (Strings.drop 1 s) in
    match s with
    | String a _ =>
        match Strconv.digit_val a with
        | Some _ =>
            let (e, s) := exp_digits 0 s in
            if bool_decide (s = "") then Some (m, (if eneg then - e else e) - frac, n) else None
        | None => None
        end
    | EmptyString => None
    end
  else if bool_decide (s = "") then Some (m, - frac, n) else None.

Definition is_inf (x : Float64.float64) : bool :=
  match x with S754_infinity _ => true | _ => false end.

(** The words for the special values, in any case. *)
Definition special (s : string) : option Float64.float64 :=
  let (neg, t) := read_sign s in
  let t := of_bytes (Strings.lower_byte <$> to_bytes t) in
  if bool_decide (t = "inf") || bool_decide (t = "infinity") then Some (S754_infinity neg)
  else if bool_decide (of_bytes (Strings.lower_byte <$> to_bytes s) = "nan") then Some S754_nan
  else None.

(** Hexadecimal literals, after the sign and [0x]: the exponent is not optional. *)
Fixpoint hex_digits (acc n : Z) (s : string) : Z * Z * string :=
  match s with
  | String a s' =>
      match Json.hexval a with
      | Some d => hex_digits (16 * acc + d) (n + 1) s'
      | None => (acc, n, s)
      end
  | EmptyString => (acc, n, "")
  end.

Definition read_hex (neg : bool) (s : string) : option Float64.float64 :=
  let '(m, n, s) := hex_digits 0 0 s in
  let '(m, n, frac, s) :=
    if first_is "."%char s then
      let '(m', n', s') := hex_digits m n (Strings.drop 1 s) in (m', n', n' - n, s')
    else (m, n, 0, s) in
  if (n =? 0) || negb (first_is "p"%char s || first_is "P"%char s) then None
  else
    let (eneg, s) := read_sign (Strings.drop 1 s) in
    match s with
    | String a _ =>
        match Strconv.digit_val a with
        | Some _ =>
            let (e, s) := exp_digits 0 s in
            if bool_decide (s = "")
            then Some (binary_normalize 53 1024 (if neg then - m else m)
                         ((if eneg then - e else e) - 4 * frac) neg)
            else None
        | None => None
        end
    | EmptyString => None
    end.

(** [underscoreOK], after the sign and the base prefix: every underscore is between two
    digits; [prev] tells whether a digit, an underscore or something else came before. *)
Inductive prev := PDigit | PUnderscore | POther.

Fixpoint underscores_between (hex : bool) (p : prev) (s : string) : bool :=
  match s with
  | EmptyString => match p with PUnderscore => false | _ => true end
  | String a s' =>
      if Json.is_digit a || hex && bool_decide (is_Some (Json.hexval a)) then underscores_between hex PDigit s'
      else if bool_decide (a = "_"%char) then
        match p with PDigit => underscores_between hex PUnderscore s' | _ => false end
      else match p with PUnderscore => false | _ => underscores_between hex POther s' end
  end.

Definition no_underscores (s : string) : string :=
  of_bytes (List.filter (λ a, negb (bool_decide (a = "_"%char))) (to_bytes s)).

(** [strconv.ParseFloat(s, 64)]: the special values, hexadecimal and decimal literals with
    underscores between digits; a value that rounds to infinity is a range error. *)
Definition ParseFloat (s : string) : option Float64.float64 :=
  match special s with
  | Some x => Some x
  | None =>
      let (neg, t) := read_sign s in
      let hex := Strings.HasPrefix t "0x" || Strings.HasPrefix t "0X" in
      let body := if hex then Strings.drop 2 t else t in
      let p := if hex then PDigit else POther in
      if Strings.ContainsByte "_"%char s && negb (underscores_between hex p body) then None
      else
        x ← (if hex then read_hex neg (no_underscores body)
             else '(m, e, n) ← read_decimal (no_underscores body); Some (of_decimal neg m e n));
        if is_inf x then None else Some x
  end.
End Strconv2.

(** ** time.ParseDuration *)
Module Duration.

Definition Nanosecond : Z := 1.
Definition Microsecond : Z := 1000.
Definition Millisecond : Z := 1000000.
Definition Minute : Z := 60 * Second.
Definition Hour : Z := 3600 * Second.

(** [unitMap]; the micro sign is U+00B5 or U+03BC. *)
Definition unit_of (u : string) : option Z :=
  if bool_decide (u = "ns") then Some Nanosecond
  else if bool_decide (u = "us") || bool_decide (u = of_bytes ["194"%char; "181"%char; "s"%char])
          || bool_decide (u = of_bytes ["206"%char; "188"%char; "s"%char]) then Some Microsecond
  else if bool_decide (u = "ms") then Some Millisecond
  else if bool_decide (u = "s") then Some Second
  else if bool_decide (u = "m") then Some Minute
  else if bool_decide (u = "h") then Some Hour
  else None.

(** [leadingInt]: an overflow of 2^63 is an error. *)
Fixpoint leadingInt (x : Z) (s : string) : option (Z * string) :=
  match s with
  | String a s' =>
      match Strconv.digit_val a with
      | Some d =>
          if 2 ^ 63 / 10 <? x then None
          else let y := x * 10 + d in if 2 ^ 63 <? y then None else leadingInt y s'
      | None => Some (x, s)
      end
  | EmptyString => Some (x, "")
  end.

(** [leadingFraction]: the digits that fit, and ten to their number; the rest is skipped. *)
Fixpoint leadingFraction (x scale : Z) (overflow : bool) (s : string) : Z * Z * string :=
  match s with
  | String a s' =>
      match Strconv.digit_val a with
      | Some d =>
          if overflow then leadingFraction x scale true s'
          else if (2 ^ 63 - 1) / 10 <? x then leadingFraction x scale true s'
          else let y := x * 10 + d in
               if 2 ^ 63 <? y then leadingFraction x scale true s'
               else leadingFraction y (scale * 10) false s'
      | None => (x, scale, s)
      end
  | EmptyString => (x, scale, "")
  end.

(** [uint64(float64(f) * (float64(unit) / scale))] *)
Definition trunc (x : Float64.float64) : Z :=
  match x with
  | S754_finite false m e => if 0 <=? e then Zpos m * 2 ^ e else Zpos m / 2 ^ (- e)
  | _ => 0
  end.

Definition frac_units (f unit scale : Z) : Z :=
  uint64 (trunc (SFmul 53 1024 (Float64.of_int f)
                   (Float64.div (Float64.of_int unit) (Float64.of_int scale)))).

(** The unit: up to the next digit or point. *)
Fixpoint unit_part (s : string) : string * string :=
  match s with
  | String a s' =>
      if bool_decide (a = "."%char) || Json.is_digit a then ("", s)
      else let (u, r) := unit_part s' in (String a u, r)
  | EmptyString => ("", "")
  end.

(** One number with its unit, and the rest. *)
Definition element (s : string) : option (Z * string) :=
  match s with
  | EmptyString => None
  | String a _ =>
      if bool_decide (a = "."%char) || Json.is_digit a then
        '(v, s1) ← leadingInt 0 s;
        let pre := negb (String.length s1 =? String.length s)%nat in
        let '(f, scale, s2, post) :=
          match s1 with
          | String b s1' =>
              if bool_decide (b = "."%char) then
                let '(f, scale, s2) := leadingFraction 0 1 false s1' in
                (f, scale, s2, negb (String.length s2 =? String.length s1')%nat)
              else (0, 1, s1, false)
          | EmptyString => (0, 1, s1, false)
          end in
        if negb pre && negb post then None
        else
          let (u, s3) := unit_part s2 in
          if bool_decide (u = "") then None
          else
            unit ← unit_of u;
            if 2 ^ 63 / unit <? v then None
            else
              let v := v * unit in
              let v := if 0 <? f then v + frac_units f unit scale else v in
              if 2 ^ 63 <? v then None else Some (v, s3)
      else None
  end.

(** The loop; the length of [s] is enough fuel, since every element takes at least one
    byte. Running out of fuel is [None] as an error is. *)
Fixpoint elements (fuel : nat) (d : Z) (s : string) : option Z :=
  match s with
  | EmptyString => Some d
  | _ =>
      match fuel with
      | O => None
      | S n =>
          '(v, s') ← element s;
          let d := uint64 (d + v) in if 2 ^ 63 <? d then None else elements n d s'
      end
  end.

Definition ParseDuration (s : string) : option Z :=
  let (neg, s) := Strconv2.read_sign s in
  if bool_decide (s = "0") then Some 0
  else if bool_decide (s = "") then None
  else
    d ← elements (String.length s) 0 s;
    if neg then Some (- d) else if 2 ^ 63 - 1 <? d then None else Some d.
End Duration.

(** ** The helpers *)
Module Env.
Import Duration.

Definition env := gmap string string.

Definition Getenv (e : env) (key : string) : string := default "" (e !! key).

Definition getEnv (e : env) (key defaultValue : string) : string :=
  let value := Getenv e key in if bool_decide (value ≠ "") then value else defaultValue.

(** The helpers that parse share their shape: the value counts when it is not empty and
    parses. *)
Definition getEnvWith {A} (parse : string → option A) (e : env) (key : string) (defaultValue : A) : A :=
  let value := Getenv e key in
  if bool_decide (value ≠ "") then default defaultValue (parse value) else defaultValue.

Definition getEnvInt : env → string → Z → Z := getEnvWith Strconv.Atoi.
Definition getEnvBool : env → string → bool → bool := getEnvWith Strconv2.ParseBool.
Definition getEnvFloat : env → string → Float64.float64 → Float64.float64 := getEnvWith Strconv2.ParseFloat.
Definition getEnvDuration : env → string → Z → Z := getEnvWith ParseDuration.

(** The loop of [getEnvSlice]: [cur] is [value[start:i]]. *)
Fixpoint slice_loop (cur : string) (result : list string) (rest : string) : list string :=
  match rest with
  | EmptyString => if bool_decide (cur = "") then result else result ++ [cur]
  | String a rest' =>
      if bool_decide (a = ","%char)
      then slice_loop "" (if bool_decide (cur = "") then result else result ++ [cur]) rest'
      else slice_loop (cur +:+ of_bytes [a]) result rest'
  end.

Definition getEnvSlice (e : env) (key : string) (defaultValue : list string) : list string :=
  let value := Getenv e key in
  if bool_decide (value ≠ "") then
    match slice_loop "" [] value with [] => defaultValue | result => result end
  else defaultValue.
End Env.

(** ** The records and [Load] *)
Module Config.
Import Duration Env.

Record RedisConfig := { rd_Address : string; rd_Password : string; rd_DB : Z }.
Record LockServiceConfig := { ls_Address : string; ls_Timeout : Z }.

(** *** services/gateway *)
Record ServerConfig := { HTTPPort : Z; GRPCPort : Z }.
Record RateLimitConfig := { Enabled : bool; RequestsPerSec : Z; BurstSize : Z; CleanupInterval : Z }.
Record CircuitBreakerConfig := {
  MaxRequests : Z; Interval : Z; Timeout : Z; FailureRatio : Float64.float64 }.
Record ServicesConfig := {
  AuthAddress : string;
  CryptoAddress : string;
  TokenizeAddress : string;
  LockAddress : string;
  AuditAddress : string
}.
Record GatewayConfig := {
  Server : ServerConfig;
  RateLimit : RateLimitConfig;
  CircuitBreak : CircuitBreakerConfig;
  Services : ServicesConfig;
  Redis : RedisConfig
}.

(** The constant [0.5]. *)
Definition half : Float64.float64 := Float64.div (Float64.of_int 1) (Float64.of_int 2).

Definition gateway_Load (e : env) : GatewayConfig :=
  {| Server := {| HTTPPort := getEnvInt e "GATEWAY_HTTP_PORT" 8080;
                  GRPCPort := getEnvInt e "GATEWAY_GRPC_PORT" 9090 |};
     RateLimit := {| Enabled := getEnvBool e "GATEWAY_RATE_LIMIT_ENABLED" true;
                     RequestsPerSec := getEnvInt e "GATEWAY_RATE_LIMIT_RPS" 1000;
                     BurstSize := getEnvInt e "GATEWAY_RATE_LIMIT_BURST" 2000;
                     CleanupInterval := getEnvDuration e "GATEWAY_RATE_LIMIT_CLEANUP" (1 * Minute) |};
     CircuitBreak := {| MaxRequests := uint32 (getEnvInt e "GATEWAY_CB_MAX_REQUESTS" 5);
                        Interval := getEnvDuration e "GATEWAY_CB_INTERVAL" (10 * Second);
                        Timeout := getEnvDuration e "GATEWAY_CB_TIMEOUT" (60 * Second);
                        FailureRatio := getEnvFloat e "GATEWAY_CB_FAILURE_RATIO" half |};
     Services := {| AuthAddress := getEnv e "AUTH_SERVICE_ADDRESS" "localhost:9091";
                    CryptoAddress := getEnv e "CRYPTO_SERVICE_ADDRESS" "localhost:9092";
                    TokenizeAddress := getEnv e "TOKENIZE_SERVICE_ADDRESS" "localhost:9093";
                    LockAddress := getEnv e "LOCK_SERVICE_ADDRESS" "localhost:9094";
                    AuditAddress := getEnv e "AUDIT_SERVICE_ADDRESS" "localhost:9095" |};
     Redis := {| rd_Address := getEnv e "REDIS_ADDRESS" "localhost:6379";
                 rd_Password := getEnv e "REDIS_PASSWORD" "";
                 rd_DB := getEnvInt e "REDIS_DB" 0 |} |}.

(** *** services/auth *)
Record JWTConfig := { Issuer : string; Audience : string; DefaultTTL : Z; MaxTTL : Z }.
Record AuthCacheConfig := { L1Size : Z; L2TTL : Z }.
Record DatabaseConfig := {
  Driver : string; Host : string; Port : Z; Database : string; User : string; Password : string; MaxConns : Z }.
Record AuthConfig := {
  au_GRPCPort : Z;
  au_JWT : JWTConfig;
  au_Cache : AuthCacheConfig;
  au_Database : DatabaseConfig;
  au_Redis : RedisConfig
}.

Definition auth_Load (e : env) : AuthConfig :=
  {| au_GRPCPort := getEnvInt e "AUTH_GRPC_PORT" 9091;
     au_JWT := {| Issuer := getEnv e "AUTH_JWT_ISSUER" "vault-auth";
                  Audience := getEnv e "AUTH_JWT_AUDIENCE" "vault-platform";
                  DefaultTTL := getEnvDuration e "AUTH_JWT_DEFAULT_TTL" Hour;
                  MaxTTL := getEnvDuration e "AUTH_JWT_MAX_TTL" (24 * Hour) |};
     au_Cache := {| L1Size := getEnvInt e "AUTH_CACHE_L1_SIZE" 10000;
                    L2TTL := getEnvDuration e "AUTH_CACHE_L2_TTL" (5 * Minute) |};
     au_Database := {| Driver := getEnv e "AUTH_DB_DRIVER" "postgres";
                       Host := getEnv e "AUTH_DB_HOST" "localhost";
                       Port := getEnvInt e "AUTH_DB_PORT" 5432;
                       Database := getEnv e "AUTH_DB_DATABASE" "vault";
                       User := getEnv e "AUTH_DB_USER" "vault";
                       Password := getEnv e "AUTH_DB_PASSWORD" "vault-dev-password";
                       MaxConns := getEnvInt e "AUTH_DB_MAX_CONNS" 100 |};
     au_Redis := {| rd_Address := getEnv e "AUTH_REDIS_ADDRESS" "localhost:6379";
                    rd_Password := getEnv e "AUTH_REDIS_PASSWORD" "";
                    rd_DB := getEnvInt e "AUTH_REDIS_DB" 0 |} |}.

(** *** services/crypto *)
Record CryptoConfig := {
  cr_GRPCPort : Z;
  cr_PoolSize : Z;
  cr_QueueSize : Z;
  cr_KeyCacheSize : Z;
  cr_LockService : LockServiceConfig
}.

Definition crypto_Load (e : env) : CryptoConfig :=
  {| cr_GRPCPort := getEnvInt e "CRYPTO_GRPC_PORT" 9092;
     cr_PoolSize := getEnvInt e "CRYPTO_WORKER_POOL_SIZE" 200;
     cr_QueueSize := getEnvInt e "CRYPTO_WORKER_QUEUE_SIZE" 10000;
     cr_KeyCacheSize := getEnvInt e "CRYPTO_KEY_CACHE_SIZE" 1000;
     cr_LockService := {| ls_Address := getEnv e "LOCK_SERVICE_ADDRESS" "localhost:9094";
                          ls_Timeout := getEnvDuration e "LOCK_SERVICE_TIMEOUT" (5 * Second) |} |}.

(** *** services/tokenize *)
Record TokenizeConfig := {
  tk_GRPCPort : Z;
  tk_KeyCacheSize : Z;
  tk_LockService : LockServiceConfig;
  tk_PoolSize : Z
}.

Definition tokenize_Load (e : env) : TokenizeConfig :=
  {| tk_GRPCPort := getEnvInt e "TOKENIZE_GRPC_PORT" 9093;
     tk_KeyCacheSize := getEnvInt e "TOKENIZE_KEY_CACHE_SIZE" 500;
     tk_LockService := {| ls_Address := getEnv e "LOCK_SERVICE_ADDRESS" "localhost:9094";
                          ls_Timeout := getEnvDuration e "LOCK_SERVICE_TIMEOUT" (5 * Second) |};
     tk_PoolSize := getEnvInt e "TOKENIZE_WORKER_POOL_SIZE" 100 |}.

(** *** services/lock *)
Record SealConfig := { Type_ : string; Shares : Z; Threshold : Z }.
Record LockStorageConfig := { lk_StorageType : string; RaftPath : string; NodeID : string }.
Record LockConfig := {
  lk_GRPCPort : Z;
  lk_ClusterPort : Z;
  lk_Seal : SealConfig;
  lk_Storage : LockStorageConfig;
  lk_CacheType : string;
  lk_CacheSize : Z
}.

Definition lock_Load (e : env) : LockConfig :=
  {| lk_GRPCPort := getEnvInt e "LOCK_GRPC_PORT" 9094;
     lk_ClusterPort := getEnvInt e "LOCK_CLUSTER_PORT" 9095;
     lk_Seal := {| Type_ := getEnv e "LOCK_SEAL_TYPE" "shamir";
                   Shares := getEnvInt e "LOCK_SEAL_SHARES" 5;
                   Threshold := getEnvInt e "LOCK_SEAL_THRESHOLD" 3 |};
     lk_Storage := {| lk_StorageType := getEnv e "LOCK_STORAGE_TYPE" "memory";
                      RaftPath := getEnv e "LOCK_RAFT_PATH" "/data/raft";
                      NodeID := getEnv e "LOCK_NODE_ID" "node1" |};
     lk_CacheType := getEnv e "LOCK_CACHE_TYPE" "2q";
     lk_CacheSize := getEnvInt e "LOCK_CACHE_SIZE" 131072 |}.

(** *** services/audit *)
Record AuditStorageConfig := { ad_StorageType : string; FilePath : string; DSN : string }.
Record KafkaConfig := { kf_Enabled : bool; Brokers : list string; Topic : string; GroupID : string }.
Record AuditConfig := {
  ad_GRPCPort : Z;
  ad_Storage : AuditStorageConfig;
  ad_Kafka : KafkaConfig;
  ad_BufferSize : Z;
  ad_FlushInterval : Z
}.

Definition audit_Load (e : env) : AuditConfig :=
  {| ad_GRPCPort := getEnvInt e "AUDIT_GRPC_PORT" 9095;
     ad_Storage := {| ad_StorageType := getEnv e "AUDIT_STORAGE_TYPE" "file";
                      FilePath := getEnv e "AUDIT_FILE_PATH" "/var/log/vault/audit.log";
                      DSN := getEnv e "AUDIT_STORAGE_DSN" "" |};
     ad_Kafka := {| kf_Enabled := getEnvBool e "AUDIT_KAFKA_ENABLED" false;
                    Brokers := getEnvSlice e "AUDIT_KAFKA_BROKERS" ["localhost:9092"];
                    Topic := getEnv e "AUDIT_KAFKA_TOPIC" "vault-audit";
                    GroupID := getEnv e "AUDIT_KAFKA_GROUP_ID" "vault-audit-consumer" |};
     ad_BufferSize := getEnvInt e "AUDIT_BUFFER_SIZE" 1000;
     ad_FlushInterval := getEnvDuration e "AUDIT_FLUSH_INTERVAL" (5 * Second) |}.

(** ** Lemmas *)

(** One element takes at least one byte, and is at most 2^63. *)
Lemma unit_part_length s : (String.length (unit_part s).1 + String.length (unit_part s).2 = String.length s)%nat.
Proof.
  induction s as [|a s IH]; [done|]. cbn. destruct (_ || _); [done|].
  destruct (unit_part s); cbn in *. lia.
Qed.

Lemma leadingInt_length s : ∀ x v r, leadingInt x s = Some (v, r) → (String.length r ≤ String.length s)%nat.
Proof.
  induction s as [|a s IH]; intros x v r; cbn [leadingInt]; [by intros [= _ <-]|].
  destruct (Strconv.digit_val a); [|by intros [= _ <-]].
  destruct (_ <? _); [done|]. destruct (_ <? _); [done|]. intros H%IH. cbn. lia.
Qed.

Lemma leadingFraction_length s : ∀ x sc o f scale r,
  leadingFraction x sc o s = (f, scale, r) → (String.length r ≤ String.length s)%nat.
Proof.
  induction s as [|a s IH]; intros x sc o f scale r; cbn [leadingFraction]; [by intros [= _ _ <-]|].
  destruct (Strconv.digit_val a); [|by intros [= _ _ <-]].
  destruct o; [intros H%IH; cbn; lia|]. destruct (_ <? _); [intros H%IH; cbn; lia|].
  destruct (_ <? _); intros H%IH; cbn; lia.
Qed.

Lemma frac_units_nonneg f unit scale : 0 ≤ frac_units f unit scale.
Proof. apply wrapu_range. lia. Qed.

Lemma leadingInt_nonneg s : ∀ x v r, 0 ≤ x → leadingInt x s = Some (v, r) → 0 ≤ v.
Proof.
  induction s as [|a s IH]; intros x v r Hx; cbn [leadingInt]; [by intros [= <- _]|].
  destruct (Strconv.digit_val a) as [d|] eqn:Ed; [|by intros [= <- _]].
  assert (0 ≤ d). { unfold Strconv.digit_val in Ed. destruct (_ && _) eqn:E; [|done]. injection Ed as <-. lia. }
  destruct (_ <? _); [done|]. destruct (_ <? _); [done|]. apply IH. lia.
Qed.

Lemma unit_of_pos u n : unit_of u = Some n → 0 < n.
Proof. unfold unit_of. intros H. repeat (destruct (_ : bool) in H; [by injection H as <-|]). done. Qed.

Lemma element_spec s v r :
  element s = Some (v, r) → 0 ≤ v ≤ 2 ^ 63 ∧ (String.length r < String.length s)%nat.
Proof.
  destruct s as [|a s]; [done|]. unfold element. destruct (_ || _); [|done].
  destruct (leadingInt 0 (String a s)) as [[x s1]|] eqn:E1; [|done]. cbn [mbind option_bind].
  pose proof (leadingInt_length _ _ _ _ E1) as L1.
  pose proof (leadingInt_nonneg _ 0 _ _ (Z.le_refl 0) E1) as Hx.
  destruct (match s1 with "" => _ | _ => _ end) as [[[f scale] s2] post] eqn:E2.
  assert (String.length s2 ≤ String.length s1)%nat as L2.
  { destruct s1 as [|b s1']; [by injection E2 as _ _ <- _|]. destruct (bool_decide _).
    - destruct (leadingFraction _ _ _ s1') as [[f' sc'] s2'] eqn:E3. injection E2 as _ _ <- _.
      apply leadingFraction_length in E3. cbn. lia.
    - by injection E2 as _ _ <- _. }
  destruct (_ && _); [done|]. pose proof (unit_part_length s2) as L3. destruct (unit_part s2) as [u s3].
  cbn in L3. case_bool_decide as Hu; [done|]. destruct (unit_of u) as [n|] eqn:En; [|done]. cbn [mbind option_bind].
  apply unit_of_pos in En. destruct (_ <? x); [done|].
  set (v' := if 0 <? f then _ else _). destruct (Z.ltb_spec (2 ^ 63) v') as [|Hv]; [done|]. intros [= <- <-].
  pose proof (frac_units_nonneg f n scale).
  split; [split; [unfold v'; destruct (0 <? f); nia|done]|].
  destruct u as [|c u]; [done|]. cbn in L3. lia.
Qed.

(** The loop stops before its fuel does. *)
Lemma elements_enough fuel : ∀ fuel' d s,
  (String.length s ≤ fuel)%nat → (String.length s ≤ fuel')%nat → elements fuel d s = elements fuel' d s.
Proof.
  induction fuel as [|fuel IH]; intros fuel' d s H H'.
  { destruct s; [by destruct fuel'|cbn in H; lia]. }
  destruct s as [|a s]; [by destruct fuel'|]. destruct fuel' as [|fuel']; [cbn in H'; lia|].
  cbn [elements]. destruct (element (String a s)) as [[v r]|] eqn:E; [|done]. cbn [mbind option_bind].
  apply element_spec in E as [_ L]. destruct (_ <? _); [done|]. apply IH; lia.
Qed.

Lemma elements_range fuel : ∀ d s n, 0 ≤ d ≤ 2 ^ 63 → elements fuel d s = Some n → 0 ≤ n ≤ 2 ^ 63.
Proof.
  induction fuel as [|fuel IH]; intros d s n Hd; destruct s as [|a s]; cbn [elements];
    [by intros [= <-]|done|by intros [= <-]|].
  destruct (element (String a s)) as [[v r]|]; [|done]. cbn [mbind option_bind].
  destruct (Z.ltb_spec (2 ^ 63) (uint64 (d + v))) as [|Hle]; [done|]. apply IH.
  split; [by apply wrapu_range|done].
Qed.

(** What the parser returns is a duration of 64 bits. *)
Lemma ParseDuration_range s n : ParseDuration s = Some n → in_int64 n.
Proof.
  unfold ParseDuration. destruct (Strconv2.read_sign s) as [neg s']. case_bool_decide; [by intros [= <-]|].
  case_bool_decide; [done|]. destruct (elements _ 0 s') as [m|] eqn:Em; [|done]. cbn [mbind option_bind].
  apply elements_range in Em; [|lia]. unfold in_int64. destruct neg; [intros [= <-]; lia|].
  destruct (Z.ltb_spec (2 ^ 63 - 1) m); [done|]. intros [= <-]. lia.
Qed.

Lemma slice_loop_split cur result rest :
  Strings.ContainsByte ","%char cur = false →
  slice_loop cur result rest = result ++ List.filter (λ s, negb (bool_decide (s = ""))) (Strings.Split ","%char (cur +:+ rest)).
Proof.
  revert cur result. induction rest as [|a rest IH]; intros cur result Hc; cbn [slice_loop].
  - rewrite sapp_nil_r, Strings.Split_single by done. cbn. by case_bool_decide; cbn; rewrite ?app_nil_r.
  - case_bool_decide as Ha.
    + subst a. rewrite IH by done. rewrite sapp_nil, Strings.Split_cons by done. cbn.
      case_bool_decide; cbn; [done|]. by rewrite <- app_assoc.
    + rewrite IH.
      * by rewrite sapp_assoc.
      * clear -Hc Ha. induction cur as [|c cur IH]; [rewrite sapp_nil; cbn [string_of_list_ascii Strings.ContainsByte]; by rewrite bool_decide_false|].
        rewrite sapp_cons. cbn in *. apply orb_false_iff in Hc as [-> Hc]. by apply IH.
Qed.

(** *** Texts of durations *)

(** Digits in front of something else. *)
Lemma atou_ge s : ∀ x v, 0 ≤ x → Strconv.atou x s = Some v → x ≤ v.
Proof.
  induction s as [|a s IH]; intros x v Hx; cbn; [by intros [= <-]|].
  destruct (Strconv.digit_val a) as [d|] eqn:Ed; [|done]. cbn. intros H.
  assert (0 ≤ d). { unfold Strconv.digit_val in Ed. destruct (_ && _) eqn:E; [|done]. injection Ed as <-. lia. }
  apply IH in H; lia.
Qed.

Definition no_digit (s : string) : bool :=
  match s with EmptyString => true | String a _ => negb (Json.is_digit a) end.

Lemma is_digit_val a : Json.is_digit a = match Strconv.digit_val a with Some _ => true | None => false end.
Proof.
  unfold Json.is_digit, Strconv.digit_val.
  destruct (Z.leb_spec 48 (bval a)), (Z.leb_spec (bval a) 57), (Z.leb_spec 0 (bval a - 48)),
    (Z.leb_spec (bval a - 48) 9); cbn; done || lia.
Qed.

Lemma leadingInt_digits ds : ∀ x v rest,
  0 ≤ x ≤ 2 ^ 63 → Strconv.atou x ds = Some v → no_digit rest = true →
  leadingInt x (ds +:+ rest) = if 2 ^ 63 <? v then None else Some (v, rest).
Proof.
  induction ds as [|a ds IH]; intros x v rest Hx Hv Hr; cbn in Hv.
  - injection Hv as <-. rewrite sapp_nil, (proj2 (Z.ltb_ge _ _)) by lia. destruct rest as [|b rest]; [done|].
    cbn in Hr |- *. rewrite is_digit_val in Hr. by destruct (Strconv.digit_val b).
  - rewrite sapp_cons. cbn [leadingInt]. destruct (Strconv.digit_val a) as [d|] eqn:Ed; [|done]. cbn in Hv.
    assert (0 ≤ d). { unfold Strconv.digit_val in Ed. destruct (_ && _) eqn:E; [|done]. injection Ed as <-. lia. }
    pose proof (atou_ge ds (10 * x + d) v ltac:(lia) Hv) as Hge. rewrite (Z.mul_comm x 10).
    destruct (Z.ltb_spec (2 ^ 63 / 10) x) as [Hbig|_].
    { rewrite (proj2 (Z.ltb_lt _ _)); [done|]. pose proof (Z.mul_succ_div_gt (2 ^ 63) 10). lia. }
    destruct (Z.ltb_spec (2 ^ 63) (10 * x + d)); [by rewrite (proj2 (Z.ltb_lt _ _)) by lia|].
    apply IH; [lia|done..].
Qed.

(** What the units are made of. *)
Definition unit_value (u : string) : Z := default 0 (unit_of u).

Fixpoint wordy (u : string) : bool :=
  match u with EmptyString => true | String a u' => negb (bool_decide (a = "."%char) || Json.is_digit a) && wordy u' end.

Lemma unit_wordy u k : unit_of u = Some k → wordy u = true ∧ u ≠ "".
Proof.
  unfold unit_of. intros H.
  repeat match type of H with
  | (if bool_decide (u = ?x) then _ else _) = _ => destruct (decide (u = x)) as [->|]; [split; [by vm_compute|done]|]; rewrite bool_decide_false in H by done
  | (if bool_decide (u = ?x) || _ || _ then _ else _) = _ =>
      destruct (decide (u = x)) as [->|]; [split; [by vm_compute|done]|]; rewrite (bool_decide_false (u = x)) in H by done; cbn [orb] in H
  | (if bool_decide (u = ?x) || _ then _ else _) = _ =>
      destruct (decide (u = x)) as [->|]; [split; [by vm_compute|done]|]; rewrite (bool_decide_false (u = x)) in H by done; cbn [orb] in H
  end. done.
Qed.

Lemma unit_part_app u rest : wordy u = true → (rest = "" ∨ no_digit rest = false) → unit_part (u +:+ rest) = (u, rest).
Proof.
  intros Hu Hr. induction u as [|a u IH].
  - rewrite sapp_nil. destruct rest as [|b rest]; [done|]. destruct Hr as [|Hr]; [done|]. cbn in Hr |- *.
    apply negb_false_iff in Hr. by rewrite Hr, orb_true_r.
  - cbn in Hu. apply andb_true_iff in Hu as [Ha%negb_true_iff Hu]. rewrite sapp_cons. cbn [unit_part].
    by rewrite Ha, IH.
Qed.

Lemma Itoa_digits n : 0 ≤ n →
  Strconv.atou 0 (Strconv.Itoa n) = Some n ∧ ∃ a s, Strconv.Itoa n = String a s ∧ ∃ d, 0 ≤ d ≤ 9 ∧ a = Strconv.digit d.
Proof.
  intros Hn. unfold Strconv.Itoa. rewrite (proj2 (Z.ltb_ge n 0) Hn).
  pose proof (Strconv.atou1_utoa n Hn) as E.
  destruct (Strconv.utoa_cons (Z.to_nat (Z.log2 n)) n EmptyString) as (a & s & Es & Hd).
  rewrite Es in E |- *. split; [exact E|]. by exists a, s.
Qed.

(** A sum like 1h30m: numbers with their units, and its sign. *)
Fixpoint summands_text (l : list (Z * string)) : string :=
  match l with [] => "" | (n, u) :: l' => Strconv.Itoa n +:+ u +:+ summands_text l' end.

Fixpoint total (l : list (Z * string)) : Z :=
  match l with [] => 0 | (n, u) :: l' => n * unit_value u + total l' end.

Definition duration_text (d : bool * list (Z * string)) : string :=
  (if d.1 then "-" else "") +:+ summands_text d.2.

Definition duration_value (d : bool * list (Z * string)) : Z := if d.1 then - total d.2 else total d.2.

Definition summand_ok (nu : Z * string) : Prop :=
  0 ≤ nu.1 ∧ is_Some (unit_of nu.2) ∧ nu.1 * unit_value nu.2 ≠ 2 ^ 63.

Definition duration_ok (d : bool * list (Z * string)) : Prop := d.2 ≠ [] ∧ Forall summand_ok d.2.

(** After a unit comes the next number or the end. *)
Lemma summands_next l : Forall summand_ok l → summands_text l = "" ∨ no_digit (summands_text l) = false.
Proof.
  intros H. destruct H as [|[n u] l [Hn _] _]; [by left|]. right. cbn.
  destruct (Itoa_digits n Hn) as (_ & a & s & -> & d & Hd & ->). rewrite sapp_cons. cbn.
  by rewrite Json.digit_is_digit.
Qed.

Lemma element_summand n u rest :
  0 ≤ n → is_Some (unit_of u) → (rest = "" ∨ no_digit rest = false) →
  element (Strconv.Itoa n +:+ u +:+ rest) =
    if 2 ^ 63 <? n * unit_value u then None else Some (n * unit_value u, rest).
Proof.
  intros Hn [k Hk] Hr. destruct (unit_wordy u k Hk) as [Hw Hu]. pose proof (unit_of_pos u k Hk) as Hpos.
  assert (unit_value u = k) as -> by (unfold unit_value; by rewrite Hk).
  destruct (Itoa_digits n Hn) as (Hat & a & s & Es & d & Hd & Ha).
  assert (no_digit (u +:+ rest) = true) as Hnd.
  { destruct u as [|b u]; [done|]. cbn in Hw |- *. rewrite sapp_cons. cbn.
    apply andb_true_iff in Hw as [Hb%negb_true_iff _]. by apply orb_false_iff in Hb as [_ ->]. }
  pose proof (leadingInt_digits (Strconv.Itoa n) 0 n (u +:+ rest) ltac:(lia) Hat Hnd) as Hlead.
  rewrite Es, sapp_cons in Hlead |- *. unfold element. rewrite Hlead.
  assert (Json.is_digit a = true) as -> by (by rewrite Ha, Json.digit_is_digit). rewrite orb_true_r.
  destruct (Z.ltb_spec (2 ^ 63) n) as [Hbig|Hle].
  { rewrite (proj2 (Z.ltb_lt (2 ^ 63) (n * k))); [done|]. apply (Z.lt_le_trans _ n); [done|].
    rewrite <- (Z.mul_1_r n) at 1. apply Z.mul_le_mono_nonneg_l; lia. }
  cbn [mbind option_bind].
  assert (match u +:+ rest with
          | String b s1' =>
              if bool_decide (b = "."%char) then
                let '(f, scale, s2) := leadingFraction 0 1 false s1' in
                (f, scale, s2, negb (String.length s2 =? String.length s1')%nat)
              else (0, 1, u +:+ rest, false)
          | EmptyString => (0, 1, u +:+ rest, false)
          end = (0, 1, u +:+ rest, false)) as ->.
  { destruct u as [|b u]; [done|]. cbn in Hw. rewrite sapp_cons.
    apply andb_true_iff in Hw as [Hb%negb_true_iff _]. by apply orb_false_iff in Hb as [-> _]. }
  rewrite (proj2 (Nat.eqb_neq _ _)) by (cbn; rewrite !Strings.length_app_string; lia).
  cbn [negb andb]. rewrite unit_part_app by done. rewrite bool_decide_false by done. rewrite Hk. cbn [mbind option_bind].
  change (0 <? 0) with false. cbv iota.
  destruct (Z.ltb_spec (2 ^ 63 / k) n) as [H|H].
  - rewrite (proj2 (Z.ltb_lt _ _)); [done|]. pose proof (Z.mul_succ_div_gt (2 ^ 63) k). nia.
  - rewrite (proj2 (Z.ltb_ge _ _)); [done|]. pose proof (Z.mul_div_le (2 ^ 63) k). nia.
Qed.

Lemma total_nonneg l : Forall summand_ok l → 0 ≤ total l.
Proof.
  induction 1 as [|[n u] l (Hn & [k Hk] & _) _ IH]; [done|]. cbn in *. unfold unit_value.
  rewrite Hk. pose proof (unit_of_pos u k Hk). cbn. nia.
Qed.

Lemma elements_summands l : ∀ fuel d,
  Forall summand_ok l → (String.length (summands_text l) ≤ fuel)%nat → 0 ≤ d ≤ 2 ^ 63 →
  elements fuel d (summands_text l) = if 2 ^ 63 <? d + total l then None else Some (d + total l).
Proof.
  induction l as [|[n u] l IH]; intros fuel d Hok Hf Hd.
  { cbn. rewrite Z.add_0_r, (proj2 (Z.ltb_ge _ _)) by lia. by destruct fuel. }
  apply Forall_cons in Hok as [(Hn & Hu & Hne) Hok]. cbn [fst snd] in *. pose proof (total_nonneg l Hok) as Ht.
  pose proof (element_summand n u (summands_text l) Hn Hu (summands_next l Hok)) as He.
  assert (0 ≤ n * unit_value u) as Hv.
  { destruct Hu as [k Hk]. unfold unit_value. rewrite Hk. pose proof (unit_of_pos u k Hk). cbn. nia. }
  cbn [summands_text total] in *. destruct (Itoa_digits n Hn) as (_ & a & s & Es & _).
  rewrite Es, sapp_cons in He, Hf |- *. destruct fuel as [|fuel]; [cbn in Hf; lia|]. cbn [elements]. rewrite He.
  destruct (Z.ltb_spec (2 ^ 63) (n * unit_value u)) as [Hbig|Hle]; [by rewrite (proj2 (Z.ltb_lt _ _)) by lia|].
  cbn [mbind option_bind]. assert (uint64 (d + n * unit_value u) = d + n * unit_value u) as -> by (apply wrapu_small; lia).
  destruct (Z.ltb_spec (2 ^ 63) (d + n * unit_value u)) as [Hbig|Hle2]; [by rewrite (proj2 (Z.ltb_lt _ _)) by lia|].
  rewrite IH; [by rewrite Z.add_assoc|done| |lia].
  cbn in Hf. rewrite !Strings.length_app_string in Hf. lia.
Qed.

(** [time.ParseDuration] on such a text: its value, if it fits. *)
Lemma ParseDuration_text d : duration_ok d → ParseDuration (duration_text d) = Strconv.int64_range (duration_value d).
Proof.
  intros [Hne Hok]. destruct d as [neg l]. unfold duration_text, duration_value. cbn [fst snd] in *.
  pose proof (total_nonneg l Hok) as Ht.
  assert (∃ a s, summands_text l = String a s ∧ a ≠ "-"%char ∧ a ≠ "+"%char ∧ s ≠ "") as (a & s & Es & Hm & Hp & Hs).
  { destruct Hok as [|[n u] l (Hn & [k Hk] & _) _]; [done|]. cbn in *.
    destruct (Itoa_digits n Hn) as (_ & a & s & -> & d & Hd & ->). destruct (Strconv.digit_not_sign d Hd) as (H1 & H2 & _).
    exists (Strconv.digit d), (s +:+ u +:+ summands_text l). rewrite sapp_cons. split_and!; [done..|].
    destruct (unit_wordy u k Hk) as [_ Hu]. destruct s; [rewrite sapp_nil|by rewrite sapp_cons]. by destruct u; [|rewrite sapp_cons]. }
  assert (Strconv2.read_sign ((if neg then "-" else "") +:+ summands_text l) = (neg, summands_text l)) as Er.
  { unfold Strconv2.read_sign. destruct neg.
    - rewrite sapp_cons, sapp_nil. cbn. by destruct (summands_text l).
    - rewrite sapp_nil, Es. cbn. by rewrite !bool_decide_false. }
  unfold ParseDuration. rewrite Er, (bool_decide_false (_ = "0")), (bool_decide_false (_ = ""))
    by (rewrite Es; congruence).
  rewrite elements_summands, Z.add_0_l by (done || lia). unfold Strconv.int64_range.
  destruct (Z.ltb_spec (2 ^ 63) (total l)) as [H|H]; cbn [mbind option_bind].
  - destruct neg; [rewrite (proj2 (Z.leb_gt _ _)) by lia; done|].
    by rewrite (proj2 (Z.ltb_ge (total l) _)), andb_false_r by lia.
  - destruct neg.
    + by rewrite (proj2 (Z.leb_le _ _)), (proj2 (Z.ltb_lt _ _)) by lia.
    + rewrite (proj2 (Z.leb_le _ (total l))) by lia. cbn [andb].
      destruct (Z.ltb_spec (2 ^ 63 - 1) (total l)), (Z.ltb_spec (total l) (2 ^ 63)); done || lia.
Qed.

(** *** Reading back what was set *)

Lemma read_with {A} (parse : string → option A) e key d text :
  e !! key = Some text → (text = "" → parse "" = None) → getEnvWith parse e key d = default d (parse text).
Proof.
  intros E H. unfold getEnvWith, Getenv. rewrite E. cbn. case_bool_decide as Hn; [done|].
  assert (text = "") as -> by (by destruct (decide (text = ""))). by rewrite H.
Qed.

Lemma read_int e key d n : e !! key = Some (Strconv.Itoa n) → in_int64 n → getEnvInt e key d = n.
Proof. intros E H. unfold getEnvInt. rewrite (read_with _ _ _ _ _ E) by done. by rewrite Strconv.Atoi_Itoa. Qed.

Definition bool_text (b : bool) : string := if b then "true" else "false".

Lemma read_bool e key d b : e !! key = Some (bool_text b) → getEnvBool e key d = b.
Proof. intros E. unfold getEnvBool. rewrite (read_with _ _ _ _ _ E) by done. by destruct b. Qed.

Lemma read_float e key d text x :
  e !! key = Some text → Strconv2.ParseFloat text = Some x → getEnvFloat e key d = x.
Proof. intros E H. unfold getEnvFloat. rewrite (read_with _ _ _ _ _ E), H by done. done. Qed.

Lemma read_duration e key d v :
  e !! key = Some (duration_text v) → duration_ok v →
  getEnvDuration e key d = default d (Strconv.int64_range (duration_value v)).
Proof. intros E H. unfold getEnvDuration. rewrite (read_with _ _ _ _ _ E), ParseDuration_text by done. done. Qed.

Lemma read_text e key d text : e !! key = Some text → (text = "" → d = "") → getEnv e key d = text.
Proof.
  intros E H. unfold getEnv, Getenv. rewrite E. cbn. case_bool_decide as Hn; [done|].
  assert (text = "") as -> by (by destruct (decide (text = ""))). by apply H.
Qed.

(** The environment that says what a configuration is, with the texts of the ratio and of
    the intervals. *)
Definition gateway_vars (c : GatewayConfig) (ratio : string)
    (cleanup interval timeout : bool * list (Z * string)) : list (string * string) :=
    [("GATEWAY_HTTP_PORT", Strconv.Itoa (HTTPPort (Server c)));
     ("GATEWAY_GRPC_PORT", Strconv.Itoa (GRPCPort (Server c)));
     ("GATEWAY_RATE_LIMIT_ENABLED", bool_text (Enabled (RateLimit c)));
     ("GATEWAY_RATE_LIMIT_RPS", Strconv.Itoa (RequestsPerSec (RateLimit c)));
     ("GATEWAY_RATE_LIMIT_BURST", Strconv.Itoa (BurstSize (RateLimit c)));
     ("GATEWAY_RATE_LIMIT_CLEANUP", duration_text cleanup);
     ("GATEWAY_CB_MAX_REQUESTS", Strconv.Itoa (MaxRequests (CircuitBreak c)));
     ("GATEWAY_CB_INTERVAL", duration_text interval);
     ("GATEWAY_CB_TIMEOUT", duration_text timeout);
     ("GATEWAY_CB_FAILURE_RATIO", ratio);
     ("AUTH_SERVICE_ADDRESS", AuthAddress (Services c));
     ("CRYPTO_SERVICE_ADDRESS", CryptoAddress (Services c));
     ("TOKENIZE_SERVICE_ADDRESS", TokenizeAddress (Services c));
     ("LOCK_SERVICE_ADDRESS", LockAddress (Services c));
     ("AUDIT_SERVICE_ADDRESS", AuditAddress (Services c));
     ("REDIS_ADDRESS", rd_Address (Redis c));
     ("REDIS_PASSWORD", rd_Password (Redis c));
     ("REDIS_DB", Strconv.Itoa (rd_DB (Redis c)))].

Definition gateway_env (c : GatewayConfig) (ratio : string)
    (cleanup interval timeout : bool * list (Z * string)) : env :=
  list_to_map (gateway_vars c ratio cleanup interval timeout).

Definition with_intervals (cleanup interval timeout : Z) (c : GatewayConfig) : GatewayConfig :=
  {| Server := Server c;
     RateLimit := {| Enabled := Enabled (RateLimit c); RequestsPerSec := RequestsPerSec (RateLimit c);
                     BurstSize := BurstSize (RateLimit c); CleanupInterval := cleanup |};
     CircuitBreak := {| MaxRequests := MaxRequests (CircuitBreak c); Interval := interval;
                        Timeout := timeout; FailureRatio := FailureRatio (CircuitBreak c) |};
     Services := Services c; Redis := Redis c |}.

(** Every variable is set once. *)
Lemma gateway_var c ratio cleanup interval timeout i key text :
  gateway_vars c ratio cleanup interval timeout !! i = Some (key, text) →
  gateway_env c ratio cleanup interval timeout !! key = Some text.
Proof.
  intros H. apply elem_of_list_to_map_1; [|by eapply list_elem_of_lookup_2]. cbn [gateway_vars fmap list_fmap fst].
  apply (bool_decide_unpack _). vm_compute. exact I.
Qed.

(** ** Properties *)

(** C40. The gateway's configuration is what the environment says: with every variable set,
    numbers as decimal integers of 64 bits (the breaker's limit an [uint32]), the ratio as any
    text [ParseFloat] reads, the switch as true or false, addresses that are not empty, and
    the three intervals as sums like
    1h30m or -5s, [Load] returns exactly these values, each in its own field; an interval
    that does not fit 64 bits is refused and its default kept. Left out are summands of
    exactly 2^63 nanoseconds, two of which wrap around to nothing in the standard library. *)
Theorem gateway_config_read c ratio cleanup interval timeout :
  Forall in_int64 [HTTPPort (Server c); GRPCPort (Server c); RequestsPerSec (RateLimit c);
                   BurstSize (RateLimit c); rd_DB (Redis c)] →
  0 ≤ MaxRequests (CircuitBreak c) < 2 ^ 32 →
  Forall (λ a, a ≠ "") [AuthAddress (Services c); CryptoAddress (Services c); TokenizeAddress (Services c);
                        LockAddress (Services c); AuditAddress (Services c); rd_Address (Redis c)] →
  Strconv2.ParseFloat ratio = Some (FailureRatio (CircuitBreak c)) →
  Forall duration_ok [cleanup; interval; timeout] →
  gateway_Load (gateway_env c ratio cleanup interval timeout) =
    with_intervals (default (1 * Minute) (Strconv.int64_range (duration_value cleanup)))
                   (default (10 * Second) (Strconv.int64_range (duration_value interval)))
                   (default (60 * Second) (Strconv.int64_range (duration_value timeout))) c.
Proof.
  intros Hi Hm Ha Hr Hd.
  repeat match goal with
  | H : Forall _ (_ :: _) |- _ => apply Forall_cons in H as [? H]
  end.
  assert (in_int64 (MaxRequests (CircuitBreak c))) as Hm' by (unfold in_int64; lia).
  pose proof (gateway_var c ratio cleanup interval timeout) as Hvar.
  set (e := gateway_env _ _ _ _ _) in *. unfold gateway_Load.
  rewrite (read_int e _ 8080 _ (Hvar 0%nat _ _ eq_refl)), (read_int e _ 9090 _ (Hvar 1%nat _ _ eq_refl)),
    (read_bool e _ true _ (Hvar 2%nat _ _ eq_refl)), (read_int e _ 1000 _ (Hvar 3%nat _ _ eq_refl)),
    (read_int e _ 2000 _ (Hvar 4%nat _ _ eq_refl)), (read_duration e _ (1 * Minute) _ (Hvar 5%nat _ _ eq_refl)),
    (read_int e _ 5 _ (Hvar 6%nat _ _ eq_refl)), (read_duration e _ (10 * Second) _ (Hvar 7%nat _ _ eq_refl)),
    (read_duration e _ (60 * Second) _ (Hvar 8%nat _ _ eq_refl)), (read_float e _ half _ _ (Hvar 9%nat _ _ eq_refl) Hr)
    by done.
  rewrite (read_text e _ _ _ (Hvar 10%nat _ _ eq_refl)), (read_text e _ _ _ (Hvar 11%nat _ _ eq_refl)),
    (read_text e _ _ _ (Hvar 12%nat _ _ eq_refl)), (read_text e _ _ _ (Hvar 13%nat _ _ eq_refl)),
    (read_text e _ _ _ (Hvar 14%nat _ _ eq_refl)), (read_text e _ _ _ (Hvar 15%nat _ _ eq_refl)),
    (read_text e _ _ _ (Hvar 16%nat _ _ eq_refl)), (read_int e _ 0 _ (Hvar 17%nat _ _ eq_refl)) by done.
  assert (uint32 (MaxRequests (CircuitBreak c)) = MaxRequests (CircuitBreak c)) as -> by (apply wrapu_small; lia).
  clear. destruct c as [[] [] [] [] []]. reflexivity.
Qed.

(** [getEnvSlice] is a split at commas: the value's pieces between commas without the
    empty ones, in order, and the default when the variable is unset or nothing but
    commas. *)
Theorem env_slice_is_split e key d :
  getEnvSlice e key d =
    match List.filter (λ s, negb (bool_decide (s = ""))) (Strings.Split ","%char (Getenv e key)) with
    | [] => d
    | l => l
    end.
Proof.
  unfold getEnvSlice. rewrite slice_loop_split by done. cbn [app]. rewrite sapp_nil.
  case_bool_decide as H; [done|].
  assert (Getenv e key = "") as -> by (by destruct (decide (Getenv e key = ""))). done.
Qed.

(** The port a service listens on and the address its clients dial. *)
Definition at_port (port : Z) : string := "localhost:" +:+ Strconv.Itoa port.

(** The defaults fit together: with nothing in the environment but the variables of
    other programs, every address the gateway, the crypto and the tokenize service dial is
    the port the service named listens on, and the gateway's own ports differ from them. *)
Theorem defaults_agree e :
  (∀ k, k ∈ ["AUTH_SERVICE_ADDRESS"; "CRYPTO_SERVICE_ADDRESS"; "TOKENIZE_SERVICE_ADDRESS";
             "LOCK_SERVICE_ADDRESS"; "AUDIT_SERVICE_ADDRESS"; "AUTH_GRPC_PORT"; "CRYPTO_GRPC_PORT";
             "TOKENIZE_GRPC_PORT"; "LOCK_GRPC_PORT"; "AUDIT_GRPC_PORT"; "GATEWAY_HTTP_PORT";
             "GATEWAY_GRPC_PORT"] → e !! k = None) →
  let g := gateway_Load e in
  AuthAddress (Services g) = at_port (au_GRPCPort (auth_Load e)) ∧
  CryptoAddress (Services g) = at_port (cr_GRPCPort (crypto_Load e)) ∧
  TokenizeAddress (Services g) = at_port (tk_GRPCPort (tokenize_Load e)) ∧
  LockAddress (Services g) = at_port (lk_GRPCPort (lock_Load e)) ∧
  AuditAddress (Services g) = at_port (ad_GRPCPort (audit_Load e)) ∧
  ls_Address (cr_LockService (crypto_Load e)) = at_port (lk_GRPCPort (lock_Load e)) ∧
  ls_Address (tk_LockService (tokenize_Load e)) = at_port (lk_GRPCPort (lock_Load e)) ∧
  NoDup [HTTPPort (Server g); GRPCPort (Server g); au_GRPCPort (auth_Load e); cr_GRPCPort (crypto_Load e);
         tk_GRPCPort (tokenize_Load e); lk_GRPCPort (lock_Load e); ad_GRPCPort (audit_Load e)].
Proof.
  intros H. cbn. unfold getEnv, getEnvInt, getEnvWith, Getenv.
  repeat match goal with |- context [e !! ?k] => rewrite (H k) by set_solver end. cbn.
  split_and!; try done. repeat constructor; set_solver.
Qed.

(** ** Witnesses *)

Definition demo_env : env :=
  {[ "GATEWAY_RATE_LIMIT_CLEANUP" := "1m30s"; "AUDIT_KAFKA_BROKERS" := ",a:1,,b:2," ]}.

(** A configuration of its own, with an interval of an hour and a half and a timeout that is
    too long. *)
Definition demo_gateway_config : GatewayConfig :=
  {| Server := {| HTTPPort := 80; GRPCPort := 81 |};
     RateLimit := {| Enabled := false; RequestsPerSec := -1; BurstSize := 7; CleanupInterval := 5400 * Second |};
     CircuitBreak := {| MaxRequests := 9; Interval := - (1500 * 1000000); Timeout := 60 * Second; FailureRatio := half |};
     Services := {| AuthAddress := "auth:1"; CryptoAddress := "crypto:2"; TokenizeAddress := "tokenize:3";
                    LockAddress := "lock:4"; AuditAddress := "audit:5" |};
     Redis := {| rd_Address := "redis:6"; rd_Password := ""; rd_DB := 3 |} |}.

Lemma gateway_config_read_witness :
  gateway_Load (gateway_env demo_gateway_config "0.5" (false, [(1, "h"); (30, "m")])
                  (true, [(1, "s"); (500, "ms")]) (false, [(2562048, "h")])) = demo_gateway_config ∧
  duration_text (false, [(1, "h"); (30, "m")]) = "1h30m".
Proof.
  split; [|reflexivity].
  etrans; [apply gateway_config_read|reflexivity].
  - repeat (apply Forall_cons_2; [unfold in_int64; cbn; lia|]). apply Forall_nil_2.
  - cbn. lia.
  - repeat (apply Forall_cons_2; [done|]). apply Forall_nil_2.
  - vm_compute. reflexivity.
  - repeat (apply Forall_cons_2; [split; [done|]; repeat (apply Forall_cons_2; [split_and!; [cbn; lia|by eexists|vm_compute; discriminate]|]); apply Forall_nil_2|]).
    apply Forall_nil_2.
Defined.

Lemma defaults_agree_witness :
  CryptoAddress (Services (gateway_Load demo_env)) = "localhost:9092" ∧
  CryptoAddress (Services (gateway_Load demo_env)) = at_port (cr_GRPCPort (crypto_Load demo_env)).
Proof.
  split; [reflexivity|]. apply (defaults_agree demo_env).
  intros k Hk. repeat (apply elem_of_cons in Hk as [->|Hk]; [reflexivity|]). by apply elem_of_nil in Hk.
Defined.

Example slice_demo : getEnvSlice demo_env "AUDIT_KAFKA_BROKERS" ["localhost:9092"] = ["a:1"; "b:2"].
Proof. vm_compute. reflexivity. Qed.
End Config.
