(* ===== verification/Proxy.v ===== *)
(** * services/gateway/internal/proxy/grpc_proxy.go

    A [*grpc.ClientConn] is a number, and [opened] holds the target of every connection
    that was dialled and not closed; what [grpc.DialContext] answers is an argument of the
    operation that calls it. [GetConnection] holds the lock for reading on its first path
    and for writing on its second, so these are its two atomic steps. *)

From S2P Require Import Prelude GoStd.
Local Open Scope Z_scope.

Module Proxy.

Definition conn := nat.

Record ServiceConnection := { conns : list conn; address : string; counter : Z }.

Definition PoolSize : nat := 10.

Record GRPCProxy := {
  connections : gmap string ServiceConnection;
  opened : gmap conn string;
  dialled : nat
}.

Definition NewGRPCProxy : GRPCProxy := {| connections := ∅; opened := ∅; dialled := 0 |}.

Definition set_service (name : string) (svc : ServiceConnection) (p : GRPCProxy) : GRPCProxy :=
  {| connections := <[name := svc]> (connections p); opened := opened p; dialled := dialled p |}.

(** [conn.Close()]: whether there was something to close. *)
Definition close_conn (p : GRPCProxy) (c : conn) : GRPCProxy * bool :=
  ({| connections := connections p; opened := delete c (opened p); dialled := dialled p |},
   bool_decide (is_Some (opened p !! c))).

Definition close_all (p : GRPCProxy) (cs : list conn) : GRPCProxy :=
  foldl (λ p c, (close_conn p c).1) p cs.

(** One [grpc.DialContext] that succeeds. *)
Definition dial (p : GRPCProxy) (addr : string) : GRPCProxy * conn :=
  ({| connections := connections p; opened := <[dialled p := addr]> (opened p); dialled := S (dialled p) |},
   dialled p).

(** The round-robin choice from a pool that is not empty; the index is in range because
    the remainder of a [uint64] is. *)
Definition next_conn (p : GRPCProxy) (serviceName : string) (svc : ServiceConnection)
    : GRPCProxy * outcome conn :=
  let c := uint64 (counter svc + 1) in
  let idx := c mod zlen (conns svc) in
  (set_service serviceName {| conns := conns svc; address := address svc; counter := c |} p,
   match conns svc !! Z.to_nat idx with
   | Some c => Ret c
   | None => Panic "index out of range"
   end).

(** [svc, ok := p.connections[serviceName]; ok && svc.address == address && len(svc.conns) > 0] *)
Definition usable (p : GRPCProxy) (serviceName addr : string) : option ServiceConnection :=
  match connections p !! serviceName with
  | Some svc =>
      if bool_decide (address svc = addr) && (0 <? length (conns svc))%nat then Some svc else None
  | None => None
  end.

(** The loop that dials; [ok i] is whether dial [i] succeeds. [n] dials are left. *)
Fixpoint dial_pool (p : GRPCProxy) (addr : string) (ok : nat → bool) (n i : nat) (cs : list conn)
    : GRPCProxy * option (list conn) :=
  match n with
  | O => (p, Some cs)
  | S n' =>
      if ok i then
        let (p', c) := dial p addr in dial_pool p' addr ok n' (S i) (cs ++ [c])
      else (close_all p cs, None)
  end.

(** The path under the write lock. *)
Definition connect (p : GRPCProxy) (serviceName addr : string) (ok : nat → bool)
    : GRPCProxy * outcome (result conn) :=
  match usable p serviceName addr with
  | Some svc => let (p', c) := next_conn p serviceName svc in (p', let! c := c in Ret (Ok c))
  | None =>
      let p := match connections p !! serviceName with
               | Some svc => close_all p (conns svc)
               | None => p
               end in
      match dial_pool p addr ok PoolSize 0 [] with
      | (p', None) => (p', Ret (Err (statusError Unavailable ("failed to connect to " +:+ serviceName))))
      | (p', Some cs) =>
          (set_service serviceName {| conns := cs; address := addr; counter := 0 |} p',
           match cs with c :: _ => Ret (Ok c) | [] => Panic "index out of range" end)
      end
  end.

Definition GetConnection (p : GRPCProxy) (serviceName addr : string) (ok : nat → bool)
    : GRPCProxy * outcome (result conn) :=
  match usable p serviceName addr with
  | Some svc => let (p', c) := next_conn p serviceName svc in (p', let! c := c in Ret (Ok c))
  | None => connect p serviceName addr ok
  end.

(** [Close]: the connections of every pool are closed; an error of one is logged only. *)
Definition Close (p : GRPCProxy) : GRPCProxy :=
  let p := foldl (λ p svc, close_all p (conns svc)) p (map_to_list (connections p)).*2 in
  {| connections := ∅; opened := opened p; dialled := dialled p |}.

(** ** Health *)

Inductive ConnState := IDLE | CONNECTING | READY | TRANSIENT_FAILURE | SHUTDOWN.

Definition ConnState_String (s : ConnState) : string :=
  match s with
  | IDLE => "IDLE" | CONNECTING => "CONNECTING" | READY => "READY"
  | TRANSIENT_FAILURE => "TRANSIENT_FAILURE" | SHUTDOWN => "SHUTDOWN"
  end.

Record ServiceHealth := {
  sh_Name : string;
  sh_Address : string;
  sh_Healthy : bool;
  sh_Latency : Z;
  sh_Error : string
}.

(** What one of the goroutines of [HealthCheck] appends; [state] is the answer of
    [conn.GetState] and [latency] what the clock measured. *)
Definition check_one (p : GRPCProxy) (name addr : string) (ok : nat → bool) (state : conn → ConnState)
    (latency : Z) : GRPCProxy * outcome ServiceHealth :=
  let (p', res) := GetConnection p name addr ok in
  (p', let! res := res in
       Ret match res with
           | Err err => {| sh_Name := name; sh_Address := addr; sh_Healthy := false;
                           sh_Latency := latency; sh_Error := Error err |}
           | Ok c =>
               let s := ConnState_String (state c) in
               let healthy := bool_decide (s = "READY") || bool_decide (s = "IDLE") in
               {| sh_Name := name; sh_Address := addr; sh_Healthy := healthy; sh_Latency := latency;
                  sh_Error := if healthy then "" else "connection state: " +:+ s |}
           end).

(** [HealthCheck]: the results in the order in which the goroutines finish, which is the
    order of [services]. *)
Fixpoint HealthCheck (p : GRPCProxy) (services : list (string * string)) (ok : string → nat → bool)
    (state : conn → ConnState) (latency : string → Z) : GRPCProxy * outcome (list ServiceHealth) :=
  match services with
  | [] => (p, Ret [])
  | (name, addr) :: services' =>
      let (p, h) := check_one p name addr (ok name) state (latency name) in
      let (p, hs) := HealthCheck p services' ok state latency in
      (p, let! h := h in let! hs := hs in Ret (h :: hs))
  end.

(** ** Invariant *)

(** Every pool has [PoolSize] connections, pools share none, and every open connection is
    in a pool. *)
Record wf (p : GRPCProxy) : Prop := {
  wf_size : ∀ name svc, connections p !! name = Some svc →
              length (conns svc) = PoolSize ∧ 0 ≤ counter svc < 2 ^ 64;
  wf_dialled : ∀ c, is_Some (opened p !! c) → (c < dialled p)%nat;
  wf_owned : ∀ c, is_Some (opened p !! c) → ∃ name svc, connections p !! name = Some svc ∧ c ∈ conns svc
}.

(** The steps of the gateway's goroutines. *)
Inductive step : GRPCProxy → GRPCProxy → Prop :=
  | step_next p name addr svc :
      usable p name addr = Some svc → step p (next_conn p name svc).1
  | step_connect p name addr ok : step p (connect p name addr ok).1
  | step_close p : step p (Close p).

Lemma opened_close_all p cs c :
  opened (close_all p cs) !! c = if bool_decide (c ∈ cs) then None else opened p !! c.
Proof.
  revert p. induction cs as [|d cs IH]; intros p; [done|]. cbn. rewrite IH. cbn.
  case_bool_decide as H1; [by rewrite bool_decide_true by set_solver|].
  destruct (decide (c = d)) as [->|Hne].
  - rewrite bool_decide_true by set_solver. apply lookup_delete_eq.
  - rewrite bool_decide_false by set_solver. by apply lookup_delete_ne.
Qed.

Lemma close_all_rest p cs :
  connections (close_all p cs) = connections p ∧ dialled (close_all p cs) = dialled p.
Proof. revert p. induction cs as [|d cs IH]; intros p; [done|]. exact (IH (close_conn p d).1). Qed.

(** What a run of dials leaves: all of them open under the address, or all closed again. *)
Lemma dial_pool_spec addr ok n : ∀ p i cs p' res,
  dial_pool p addr ok n i cs = (p', res) →
  (∀ c, is_Some (opened p !! c) → (c < dialled p)%nat) →
  connections p' = connections p ∧ (dialled p ≤ dialled p')%nat ∧
  match res with
  | Some cs' => cs' = cs ++ seq (dialled p) n ∧ dialled p' = (dialled p + n)%nat ∧
      (∀ c, opened p' !! c = (if bool_decide (dialled p ≤ c < dialled p + n)%nat then Some addr else opened p !! c))
  | None =>
      (∀ c, opened p' !! c = (if bool_decide (c ∈ cs ∨ (dialled p ≤ c)%nat) then None else opened p !! c)) ∧
      ∃ j, (i ≤ j < i + n)%nat ∧ ok j = false
  end.
Proof.
  induction n as [|n IH]; intros p i cs p' res E Hd; cbn [dial_pool] in E.
  - injection E as <- <-. split_and!; [done..|by rewrite app_nil_r|lia|].
    intros c. by rewrite bool_decide_false by lia.
  - destruct (ok i) eqn:Hok.
    + cbn [dial] in E. apply IH in E as (Hc & Hl & Hr).
      * cbn in *. split_and!; [done|lia|]. destruct res as [cs'|].
        -- destruct Hr as (-> & -> & Ho). split_and!; [by rewrite <- app_assoc|lia|].
           intros c. rewrite Ho. destruct (decide (c = dialled p)) as [->|Hne].
           ++ rewrite bool_decide_false by lia. rewrite lookup_insert_eq, bool_decide_true by lia. done.
           ++ rewrite lookup_insert_ne by done. case_bool_decide; case_bool_decide; lia || done.
        -- destruct Hr as [Ho (j & Hj & Hf)]. split; [|exists j; split; [lia|done]].
           intros c. rewrite Ho. case_bool_decide as H1; case_bool_decide as H2; try done;
             rewrite elem_of_app, list_elem_of_singleton in H1.
           ++ destruct H2. destruct H1 as [[?|?]|?]; [by left|right; lia..].
           ++ exfalso. destruct H2 as [?|?]; [tauto|]. apply H1. destruct (decide (c = dialled p)); [tauto|right; lia].
           ++ apply lookup_insert_ne. intros E. apply H1. left. right. by symmetry.
      * cbn. intros c. rewrite lookup_insert_is_Some'. intros [<-|H%Hd]; lia.
    + injection E as <- <-. destruct (close_all_rest p cs) as [-> ->]. split_and!; [done..| |exists i; split; [lia|done]].
      intros c. rewrite opened_close_all. case_bool_decide as H1; case_bool_decide as H2; try done.
      * tauto.
      * destruct H2 as [?|?]; [done|]. destruct (opened p !! c) eqn:E; [|done].
        assert (c < dialled p)%nat by (apply Hd; by rewrite E). lia.
Qed.

Lemma pool_wf_new : wf NewGRPCProxy.
Proof. split; cbn; intros *; rewrite ?lookup_empty; [done|by intros []..]. Qed.

(** A usable pool is the service's. *)
Lemma usable_Some p name addr svc :
  usable p name addr = Some svc →
  connections p !! name = Some svc ∧ address svc = addr ∧ (0 < length (conns svc))%nat.
Proof.
  unfold usable. destruct (connections p !! name) as [s|]; [|done].
  destruct (_ && _) eqn:E; [|done]. intros [= <-]. apply andb_true_iff in E as [E1 E2].
  apply bool_decide_eq_true in E1. apply Nat.ltb_lt in E2. done.
Qed.

Lemma wf_next p name svc : wf p → connections p !! name = Some svc → wf (next_conn p name svc).1.
Proof.
  intros W Hs. split; cbn.
  - intros n s [[<- <-]|[_ H]]%lookup_insert_Some; cbn -[wrapu Z.pow]; [|by eapply wf_size].
    split; [by eapply wf_size|by apply wrapu_range].
  - apply W.
  - intros c (n & s & Hn & Hc)%(wf_owned p W). destruct (decide (n = name)) as [->|Hne].
    + eexists name, _. rewrite lookup_insert_eq. split; [done|]. cbn. congruence.
    + exists n, s. by rewrite lookup_insert_ne.
Qed.

(** Closing the pool that is replaced. *)
Definition drop_old (p : GRPCProxy) (name : string) : GRPCProxy :=
  match connections p !! name with Some svc => close_all p (conns svc) | None => p end.

Lemma drop_old_spec p name :
  wf p →
  connections (drop_old p name) = connections p ∧ dialled (drop_old p name) = dialled p ∧
  (∀ c, is_Some (opened (drop_old p name) !! c) →
     is_Some (opened p !! c) ∧ ∃ n s, n ≠ name ∧ connections p !! n = Some s ∧ c ∈ conns s).
Proof.
  intros W. unfold drop_old. destruct (connections p !! name) as [svc|] eqn:E.
  - destruct (close_all_rest p (conns svc)) as [-> ->]. split_and!; [done..|]. intros c.
    rewrite opened_close_all. case_bool_decide as Hc; [by intros []|]. intros H. split; [done|].
    destruct (wf_owned p W c H) as (n & s & Hn & Hs). exists n, s. split; [|done]. intros ->. congruence.
  - split_and!; [done..|]. intros c H. split; [done|].
    destruct (wf_owned p W c H) as (n & s & Hn & Hs). exists n, s. split; [|done]. intros ->. congruence.
Qed.

(** The three ways out of the path under the write lock. *)
Lemma connect_cases p name addr ok :
  wf p →
  (∃ svc, usable p name addr = Some svc ∧
     connect p name addr ok = ((next_conn p name svc).1, let! c := (next_conn p name svc).2 in Ret (Ok c))) ∨
  (usable p name addr = None ∧ ∃ p' j, (j < PoolSize)%nat ∧ ok j = false ∧
     connect p name addr ok = (p', Ret (Err (statusError Unavailable ("failed to connect to " +:+ name)))) ∧
     connections p' = connections p ∧ (dialled p ≤ dialled p')%nat ∧
     (∀ c, opened p' !! c = opened (drop_old p name) !! c)) ∨
  (usable p name addr = None ∧ ∃ p',
     connect p name addr ok =
       (set_service name {| conns := seq (dialled p) PoolSize; address := addr; counter := 0 |} p',
        Ret (Ok (dialled p))) ∧
     connections p' = connections p ∧ dialled p' = (dialled p + PoolSize)%nat ∧
     (∀ c, opened p' !! c = (if bool_decide (dialled p ≤ c < dialled p + PoolSize)%nat
                             then Some addr else opened (drop_old p name) !! c))).
Proof.
  intros W. unfold connect. destruct (usable p name addr) as [svc|].
  { left. exists svc. split; [done|]. by destruct (next_conn p name svc). }
  right. fold (drop_old p name). destruct (drop_old_spec p name W) as (Hc & Hd & Ho).
  destruct (dial_pool (drop_old p name) addr ok PoolSize 0 []) as [p' res] eqn:E.
  apply dial_pool_spec in E as (Hc' & Hl & Hr).
  2: { intros c [H _]%Ho. rewrite Hd. by apply W. }
  rewrite Hc, Hd in *. destruct res as [cs|].
  - right. destruct Hr as (-> & Hd' & Ho'). split; [done|]. exists p'. by split_and!.
  - left. destruct Hr as (Ho' & j & Hj & Hf). split; [done|]. exists p', j.
    split_and!; [lia|done..|]. intros c. rewrite Ho'. case_bool_decide as H1; [|done].
    destruct H1 as [H1|H1]; [set_solver|]. destruct (opened (drop_old p name) !! c) eqn:E; [|done].
    assert (is_Some (opened (drop_old p name) !! c)) as [H%(wf_dialled p W) _]%Ho by by rewrite E. lia.
Qed.

Lemma wf_connect p name addr ok : wf p → wf (connect p name addr ok).1.
Proof.
  intros W. destruct (drop_old_spec p name W) as (Hc & Hd & Ho).
  destruct (connect_cases p name addr ok W)
    as [(svc & U & ->)|[(_ & p' & j & _ & _ & -> & Hc' & Hl & Ho')|(_ & p' & -> & Hc' & Hd' & Ho')]]; cbn [fst].
  - apply usable_Some in U as [U _]. by apply wf_next.
  - split; rewrite ?Hc'; [apply W| |].
    + intros c. rewrite Ho'. intros [H _]%Ho. apply (wf_dialled p W) in H. lia.
    + intros c. rewrite Ho'. intros [H _]%Ho. by apply (wf_owned p W).
  - split; cbn -[seq PoolSize].
    + rewrite Hc'. intros n s [[<- <-]|[_ H]]%lookup_insert_Some; [done|]. by eapply wf_size.
    + intros c. rewrite Ho', Hd'. case_bool_decide; [intros; lia|].
      intros [H1 _]%Ho. apply (wf_dialled p W) in H1. lia.
    + intros c. rewrite Ho', Hc'. case_bool_decide as Hr.
      * intros _. eexists name, _. rewrite lookup_insert_eq. split; [done|]. cbn -[seq PoolSize].
        apply elem_of_seq. lia.
      * intros (_ & n & s & Hne & Hn & Hin)%Ho. exists n, s. by rewrite lookup_insert_ne.
Qed.

(** After [Close] nothing of the pools is open. *)
Lemma opened_close_pools (svcs : list ServiceConnection) p c :
  is_Some (opened (foldl (λ p svc, close_all p (conns svc)) p svcs) !! c) →
  is_Some (opened p !! c) ∧ ∀ svc, svc ∈ svcs → c ∉ conns svc.
Proof.
  revert p. induction svcs as [|s svcs IH]; intros p; cbn; [intros H; split; [done|set_solver]|].
  intros [H Hn]%IH. rewrite opened_close_all in H. case_bool_decide as Hc; [by destruct H|].
  split; [done|]. intros svc [->|Hs]%elem_of_cons; [done|by apply Hn].
Qed.

Lemma Close_empty p : wf p → opened (Close p) = ∅.
Proof.
  intros W. apply map_empty. intros c. destruct (opened (Close p) !! c) eqn:E; [|done].
  assert (is_Some (opened (Close p) !! c)) as H by by rewrite E. cbn in H.
  apply opened_close_pools in H as [H Hn]. destruct (wf_owned p W c H) as (n & svc & Hs & Hc).
  destruct (Hn svc); [|done]. apply list_elem_of_fmap. exists (n, svc). split; [done|]. by apply elem_of_map_to_list.
Qed.

Lemma wf_step p p' : wf p → step p p' → wf p'.
Proof.
  intros W H. destruct H as [p name addr svc U|p name addr ok|p].
  - apply usable_Some in U as [U _]. by apply wf_next.
  - by apply wf_connect.
  - split; cbn; try (intros *; by rewrite lookup_empty);
      intros c; change (foldl _ _ _) with (foldl (λ p svc, close_all p (conns svc)) p (map_to_list (connections p)).*2);
      pose proof (Close_empty p W) as E; cbn in E; rewrite E, lookup_empty; by intros [].
Qed.

Lemma wf_reachable p : rtc step NewGRPCProxy p → wf p.
Proof.
  intros H. assert (∀ p q, rtc step p q → wf p → wf q) as Hr.
  { clear. intros p q H. induction H; eauto using wf_step. }
  by eapply Hr, pool_wf_new.
Qed.

(** The index is always that of a connection of the pool. *)
Lemma next_conn_in p name svc :
  (0 < length (conns svc))%nat → ∃ c, (next_conn p name svc).2 = Ret c ∧ c ∈ conns svc.
Proof.
  intros H. cbn. set (idx := _ mod _).
  assert (0 ≤ idx < zlen (conns svc)) by (apply Z.mod_pos_bound; unfold zlen; lia).
  destruct (lookup_lt_is_Some_2 (conns svc) (Z.to_nat idx)) as [c Hc]; [unfold zlen in *; lia|].
  rewrite Hc. exists c. split; [done|]. by eapply list_elem_of_lookup_2.
Qed.

(** ** Fixed addresses

    The gateway asks for every service with the address of its configuration. *)
Section fixed.
Context (addr_of : string → string).

(** The pools are open and lead where they should. *)
Definition live (p : GRPCProxy) : Prop :=
  ∀ name svc, connections p !! name = Some svc →
    address svc = addr_of name ∧ ∀ c, c ∈ conns svc → opened p !! c = Some (addr_of name).

Inductive fixed_step : GRPCProxy → GRPCProxy → Prop :=
  | fixed_next p name svc :
      usable p name (addr_of name) = Some svc → fixed_step p (next_conn p name svc).1
  | fixed_connect p name ok : fixed_step p (connect p name (addr_of name) ok).1
  | fixed_close p : fixed_step p (Close p).

Lemma fixed_step_step p p' : fixed_step p p' → step p p'.
Proof. intros []; econstructor; done. Qed.

Lemma live_next p name svc :
  live p → connections p !! name = Some svc → live (next_conn p name svc).1.
Proof.
  intros Hl Hs n s. cbn -[wrapu Z.modulo].
  intros [[<- <-]|[_ H]]%lookup_insert_Some; [exact (Hl name svc Hs)|exact (Hl n s H)].
Qed.

(** With its address fixed, a service that has a pool has a usable one. *)
Lemma unusable_new p name :
  wf p → live p → usable p name (addr_of name) = None → connections p !! name = None.
Proof.
  intros W Hl. unfold usable. destruct (connections p !! name) as [svc|] eqn:E; [|done].
  destruct (Hl _ _ E) as [-> _]. destruct (wf_size p W _ _ E) as [-> _].
  by rewrite bool_decide_true.
Qed.

Lemma live_connect p name ok : wf p → live p → live (connect p name (addr_of name) ok).1.
Proof.
  intros W Hl.
  destruct (connect_cases p name (addr_of name) ok W)
    as [(svc & U & ->)|[(U & p' & j & _ & _ & -> & Hc & _ & Ho)|(U & p' & -> & Hc & _ & Ho)]]; cbn [fst].
  - apply usable_Some in U as [U _]. by apply live_next.
  - apply unusable_new in U; [|done..]. unfold drop_old in Ho. rewrite U in Ho.
    intros n s. rewrite Hc. intros Hn. destruct (Hl n s Hn) as [Ha Hs]. split; [done|].
    intros c Hin. rewrite Ho. by apply Hs.
  - apply unusable_new in U; [|done..]. unfold drop_old in Ho. rewrite U in Ho.
    intros n s. cbn -[seq PoolSize]. rewrite Hc. intros [[<- <-]|[Hne Hn]]%lookup_insert_Some; cbn -[seq PoolSize].
    + split; [done|]. intros c [Hlo Hhi]%elem_of_seq. rewrite Ho. by rewrite bool_decide_true.
    + destruct (Hl n s Hn) as [Ha Hs]. split; [done|]. intros c Hin. rewrite Ho.
      rewrite bool_decide_false; [by apply Hs|]. intros Hr.
      assert (c < dialled p)%nat by (apply (wf_dialled p W); eexists; by apply Hs). lia.
Qed.

Lemma live_reachable p : rtc fixed_step NewGRPCProxy p → wf p ∧ live p.
Proof.
  assert (wf NewGRPCProxy ∧ live NewGRPCProxy) as H0 by (split; [apply pool_wf_new|]; intros n s; cbn; by rewrite lookup_empty).
  assert (∀ p q, fixed_step p q → wf p ∧ live p → wf q ∧ live q) as Hs.
  { intros p' q H [W Hl]. split; [by eapply wf_step, fixed_step_step|].
    destruct H as [p' name svc [U _]%usable_Some| |p']; [by apply live_next|by apply live_connect|].
    intros n s. cbn. by rewrite lookup_empty. }
  intros H. revert H0. induction H; eauto.
Qed.

(** Both paths give the same answer when nothing comes between them. *)
Lemma GetConnection_connect p name addr ok : GetConnection p name addr ok = connect p name addr ok.
Proof. unfold GetConnection, connect. by destruct (usable _ _ _). Qed.

(** The answers for a service asked for with its address. *)
Lemma connect_answers p name ok :
  wf p → live p →
  (∃ c, (connect p name (addr_of name) ok).2 = Ret (Ok c) ∧
     opened (connect p name (addr_of name) ok).1 !! c = Some (addr_of name)) ∨
  (∃ j, (j < PoolSize)%nat ∧ ok j = false ∧
     (connect p name (addr_of name) ok).2 =
       Ret (Err (statusError Unavailable ("failed to connect to " +:+ name)))).
Proof.
  intros W Hl.
  destruct (connect_cases p name (addr_of name) ok W)
    as [(svc & U & E)|[(U & p' & j & Hj & Hf & E & _)|(U & p' & E & _ & _ & Ho)]]; rewrite E; cbn [fst snd].
  - left. apply usable_Some in U as (U & _ & Hlen).
    destruct (next_conn_in p name svc Hlen) as (c & -> & Hc). exists c. split; [done|].
    by apply (Hl name svc U).
  - right. by exists j.
  - left. exists (dialled p). split; [done|]. cbn -[PoolSize]. rewrite Ho.
    rewrite bool_decide_true; [done|]. unfold PoolSize. lia.
Qed.

(** C13. The connection pool of a gateway whose services have fixed addresses: however its
    requests interleave, also when dials fail and after [Close], a request for a service
    gets a connection that is open and was dialled to the service's address, or the
    [Unavailable] error because a dial of its own failed; it never panics, and every open
    connection is in one of the pools. *)
Theorem connections_live p name ok :
  rtc fixed_step NewGRPCProxy p →
  let (p', res) := GetConnection p name (addr_of name) ok in
  ((∃ c, res = Ret (Ok c) ∧ opened p' !! c = Some (addr_of name)) ∨
   (∃ j, (j < PoolSize)%nat ∧ ok j = false ∧
      res = Ret (Err (statusError Unavailable ("failed to connect to " +:+ name))))) ∧
  (∀ c, is_Some (opened p' !! c) → ∃ n svc, connections p' !! n = Some svc ∧ c ∈ conns svc) ∧
  opened (Close p') = ∅.
Proof.
  intros [W Hl]%live_reachable. rewrite GetConnection_connect.
  pose proof (wf_connect p name (addr_of name) ok W) as W'.
  pose proof (connect_answers p name ok W Hl) as H.
  destruct (connect p name (addr_of name) ok) as [p' res]. cbn [fst snd] in *.
  split; [done|]. split; [apply W'|by apply Close_empty].
Qed.
End fixed.

(** ** Round robin *)

(** Consecutive requests. *)
Fixpoint get_n (p : GRPCProxy) (name addr : string) (ok : nat → bool) (n : nat)
    : list (outcome (result conn)) :=
  match n with
  | O => []
  | S n' => let (p', res) := GetConnection p name addr ok in res :: get_n p' name addr ok n'
  end.

(** While the counter does not wrap, the requests go through the pool in its order. *)
Lemma get_n_order n : ∀ p name addr ok svc,
  usable p name addr = Some svc → 0 ≤ counter svc → counter svc + Z.of_nat n < 2 ^ 64 →
  get_n p name addr ok n =
    (λ i, match conns svc !! Z.to_nat ((counter svc + 1 + Z.of_nat i) mod zlen (conns svc)) with
          | Some c => Ret (Ok c) | None => Panic "index out of range" end) <$> seq 0 n.
Proof.
  induction n as [|n IH]; intros p name addr ok svc U H0 Hn; [done|].
  pose proof (usable_Some p name addr svc U) as (Hs & Ha & Hlen).
  cbn [get_n seq fmap list_fmap]. unfold GetConnection. rewrite U. unfold next_conn.
  assert (uint64 (counter svc + 1) = counter svc + 1) as -> by (apply wrapu_small; lia).
  f_equal; [rewrite Z.add_0_r; by destruct (conns svc !! _)|].
  erewrite (IH _ name addr ok {| conns := conns svc; address := address svc; counter := counter svc + 1 |});
    cbn [counter conns]; [|shelve|lia|lia].
  rewrite <- fmap_S_seq, <- list_fmap_compose. apply list_fmap_ext. intros i x _. cbn.
  replace (counter svc + 1 + 1 + Z.of_nat x) with (counter svc + 1 + Z.of_nat (S x)) by lia. done.
  Unshelve.
  unfold usable. cbn [connections set_service]. rewrite lookup_insert_eq. cbn [address conns].
  rewrite bool_decide_true by done. by rewrite (proj2 (Nat.ltb_lt _ _)).
Qed.

(** The indices of [length l] requests in a row are a rotation. *)
Lemma rotation_order {A} (l : list A) k :
  (k < length l)%nat →
  (λ i, l !! ((k + i) mod length l)%nat) <$> seq 0 (length l) = Some <$> drop k l ++ take k l.
Proof.
  intros Hk. apply list_eq. intros i. rewrite !list_lookup_fmap.
  destruct (decide (i < length l)%nat) as [Hi|Hi].
  - rewrite lookup_seq_lt by done. cbn. destruct (decide (k + i < length l)%nat) as [H|H].
    + rewrite Nat.mod_small by done. rewrite lookup_app_l by (rewrite length_drop; lia).
      rewrite lookup_drop. by destruct (lookup_lt_is_Some_2 l (k + i) H) as [x ->].
    + assert ((k + i) mod length l = k + i - length l)%nat as ->.
      { rewrite <- (Nat.mod_small (k + i - length l) (length l)) by lia.
        replace (k + i)%nat with (k + i - length l + 1 * length l)%nat at 1 by lia.
        apply Nat.Div0.mod_add. }
      rewrite lookup_app_r by (rewrite length_drop; lia). rewrite length_drop.
      rewrite lookup_take_lt by lia. replace (i - (length l - k))%nat with (k + i - length l)%nat by lia.
      by destruct (lookup_lt_is_Some_2 l (k + i - length l)) as [x ->]; [lia|].
  - rewrite lookup_seq_ge by lia. rewrite lookup_ge_None_2; [done|].
    rewrite length_app, length_drop, length_take. lia.
Qed.

(** The pool is used evenly: as long as the 64-bit counter does not wrap, the next
    [PoolSize] requests for a connected service get every connection of its pool exactly
    once. *)
Theorem round_robin_fair p name addr ok svc :
  rtc step NewGRPCProxy p → usable p name addr = Some svc →
  counter svc + Z.of_nat PoolSize < 2 ^ 64 →
  ∃ cs, get_n p name addr ok PoolSize = (λ c, Ret (Ok c)) <$> cs ∧ cs ≡ₚ conns svc.
Proof.
  intros W%wf_reachable U Hc. pose proof (usable_Some p name addr svc U) as (Hs & _ & _).
  destruct (wf_size p W _ _ Hs) as [Hlen H0].
  set (k := Z.to_nat ((counter svc + 1) mod Z.of_nat PoolSize)).
  assert (k < length (conns svc))%nat as Hk.
  { rewrite Hlen. unfold k, PoolSize. pose proof (Z.mod_pos_bound (counter svc + 1) 10). lia. }
  exists (drop k (conns svc) ++ take k (conns svc)). split.
  - rewrite (get_n_order PoolSize p name addr ok svc U) by (lia || done).
    pose proof (rotation_order (conns svc) k Hk) as R. rewrite Hlen in R.
    apply (f_equal (fmap (M := list) (from_option (λ c, Ret (Ok c)) (Panic "index out of range")))) in R.
    rewrite <- !list_fmap_compose in R. etrans; [|etrans; [exact R|done]].
    apply list_fmap_ext. intros i x _. cbn -[PoolSize Nat.modulo].
    replace (Z.to_nat ((counter svc + 1 + Z.of_nat x) mod zlen (conns svc))) with ((k + x) mod PoolSize)%nat;
      [by destruct (conns svc !! _)|].
    unfold zlen. rewrite Hlen. unfold k.
    rewrite <- (Nat2Z.id (_ mod PoolSize)), Nat2Z.inj_mod, Nat2Z.inj_add, Z2Nat.id
      by (apply Z.mod_pos_bound; unfold PoolSize; lia).
    by rewrite Z.add_mod_idemp_l by (unfold PoolSize; lia).
  - rewrite Permutation_app_comm. by rewrite take_drop.
Qed.

(** A pool that could not be replaced is handed out closed: when a service is asked for
    with a new address and a dial fails, the pool of the old address has been closed and
    stays in the map, and the next request with the old address gets one of its closed
    connections. *)
Theorem failed_switch_hands_out_closed p name addr addr' svc ok ok' :
  rtc step NewGRPCProxy p → usable p name addr = Some svc → addr' ≠ addr → ok 0%nat = false →
  ∃ c, (GetConnection (GetConnection p name addr' ok).1 name addr ok').2 = Ret (Ok c) ∧
    opened (GetConnection (GetConnection p name addr' ok).1 name addr ok').1 !! c = None.
Proof.
  intros W%wf_reachable U Hne Hok. pose proof (usable_Some p name addr svc U) as (Hs & Ha & Hlen).
  assert (usable p name addr' = None) as U'.
  { unfold usable. rewrite Hs. rewrite bool_decide_false; [done|congruence]. }
  assert ((GetConnection p name addr' ok).1 = close_all (close_all p (conns svc)) []) as ->.
  { unfold GetConnection, connect. rewrite U', Hs. cbn -[PoolSize]. unfold PoolSize. cbn. by rewrite Hok. }
  cbn [close_all foldl]. set (p1 := close_all p (conns svc)).
  assert (connections p1 = connections p) as Hc by apply close_all_rest.
  assert (usable p1 name addr = Some svc) as U1 by (unfold usable in *; by rewrite Hc).
  unfold GetConnection. rewrite U1. destruct (next_conn_in p1 name svc Hlen) as (c & E & Hin).
  exists c. unfold next_conn in E |- *. cbn -[wrapu Z.modulo] in E |- *. rewrite E. split; [done|].
  unfold p1. rewrite opened_close_all. by rewrite bool_decide_true.
Qed.

(** ** Witnesses *)

Definition demo_addr : string → string := λ _, "localhost:9092".
Definition demo_proxy : GRPCProxy := (connect NewGRPCProxy "crypto" "localhost:9092" (λ _, true)).1.
Definition demo_pool : ServiceConnection := {| conns := seq 0 10; address := "localhost:9092"; counter := 0 |}.

Lemma connections_live_witness :
  (GetConnection demo_proxy "crypto" "localhost:9092" (λ _, false)).2 = Ret (Ok 1%nat) ∧
  opened (Close (GetConnection demo_proxy "crypto" "localhost:9092" (λ _, false)).1) = ∅.
Proof.
  split; [vm_compute; reflexivity|].
  pose proof (connections_live demo_addr demo_proxy "crypto" (λ _, false)) as H.
  change (demo_addr "crypto") with "localhost:9092" in H.
  destruct (GetConnection demo_proxy "crypto" "localhost:9092" (λ _, false)) as [p' res].
  apply H, rtc_once, (fixed_connect demo_addr NewGRPCProxy "crypto" (λ _, true)).
Defined.

Lemma round_robin_fair_witness :
  ∃ cs, get_n demo_proxy "crypto" "localhost:9092" (λ _, false) PoolSize = (λ c, Ret (Ok c)) <$> cs ∧
    cs ≡ₚ seq 0 10.
Proof.
  apply (round_robin_fair demo_proxy "crypto" "localhost:9092" (λ _, false) demo_pool);
    [apply rtc_once, step_connect|vm_compute; reflexivity|vm_compute; reflexivity].
Defined.

Lemma failed_switch_hands_out_closed_witness :
  ∃ c, (GetConnection (GetConnection demo_proxy "crypto" "other:1" (λ _, false)).1 "crypto" "localhost:9092"
          (λ _, true)).2 = Ret (Ok c) ∧
    opened (GetConnection (GetConnection demo_proxy "crypto" "other:1" (λ _, false)).1 "crypto" "localhost:9092"
          (λ _, true)).1 !! c = None.
Proof.
  apply (failed_switch_hands_out_closed demo_proxy "crypto" "localhost:9092" "other:1" demo_pool);
    [apply rtc_once, step_connect|vm_compute; reflexivity|discriminate|reflexivity].
Defined.
End Proxy.
