(* ===== verification/Codec.v ===== *)
(** * pkg/grpcutil/codec: the message codec

    The codec hands a message to the encoder generated for it, to that of the protobuf
    library, or refuses it. [Encoders] is what it calls: both encoders on the messages that
    have them. [Unmarshal] decodes into the message it is given. *)

From S2P Require Import Prelude.

Class Encoders := {
  vtMessage : Type;
  protoMessage : Type;
  MarshalVT : vtMessage → result bytes;
  UnmarshalVT : vtMessage → bytes → vtMessage * option error;
  proto_Marshal : protoMessage → result bytes;
  proto_Unmarshal : bytes → protoMessage → protoMessage * option error
}.

Module Codec.

Definition Name : string := "proto".

Section codec.
Context {E : Encoders}.

(** A value by the first interface of the two it implements; another one by the name of its
    type. *)
Inductive value :=
  | VT (m : vtMessage)
  | Proto (m : protoMessage)
  | Other (typeName : string).

Definition Marshal (v : value) : result bytes :=
  match v with
  | VT vt => MarshalVT vt
  | Proto m => proto_Marshal m
  | Other t => Err (errorString ("failed to marshal: " +:+ t +:+ " is not a proto.Message"))
  end.

Definition Unmarshal (data : bytes) (v : value) : value * option error :=
  match v with
  | VT vt => let (vt, err) := UnmarshalVT vt data in (VT vt, err)
  | Proto m => let (m, err) := proto_Unmarshal data m in (Proto m, err)
  | Other t => (v, Some (errorString ("failed to unmarshal: " +:+ t +:+ " is not a proto.Message")))
  end.

(** What every encoder promises for itself: a fresh message takes what was written. *)
Context (fresh_vt : vtMessage) (fresh_proto : protoMessage).
Hypothesis vt_law : ∀ m b, MarshalVT m = Ok b → UnmarshalVT fresh_vt b = (m, None).
Hypothesis proto_law : ∀ m b, proto_Marshal m = Ok b → proto_Unmarshal b fresh_proto = (m, None).

Definition fresh (v : value) : value :=
  match v with VT _ => VT fresh_vt | Proto _ => Proto fresh_proto | Other t => Other t end.

(** Both sides of a connection choose by the type of the value, so a message is decoded by
    the counterpart of the encoder that wrote it; a value that is no message is refused by
    both and stays what it is. *)
Lemma codec_roundtrip v :
  match Marshal v with
  | Ok b => Unmarshal b (fresh v) = (v, None)
  | Err _ => ∀ b t, v = Other t → ∃ err, Unmarshal b v = (v, Some err)
  end.
Proof.
  destruct v as [m|m|t]; cbn.
  - destruct (MarshalVT m) as [b|] eqn:Em; [by rewrite (vt_law m b)|done].
  - destruct (proto_Marshal m) as [b|] eqn:Em; [by rewrite (proto_law m b)|done].
  - eauto.
Qed.
End codec.
End Codec.
