(* ===== verification/GrpcCtx.v ===== *)
(** * context and gRPC metadata

    What the interceptors and the gateway's middleware use of [context] and of
    [google.golang.org/grpc/metadata]: a context is the chain of the values put into it and
    the metadata the call arrived with. A key is a value of a Go type: two packages that
    declare a [contextKey] of their own have different keys with the same text. *)

From S2P Require Import Prelude GoStd Http.
Local Open Scope Z_scope.

Module GrpcCtx.

(** [contextKey(text)] of a package. *)
Record ctxKey := { key_package : string; key_text : string }.

#[export] Instance ctxKey_eq_dec : EqDecision ctxKey.
Proof. solve_decision. Defined.

(** The dynamic types of the values the code stores. *)
Inductive ctxValue {L : Type} :=
  | VString (s : string)
  | VStrings (l : list string)
  | VLogger (l : L).
Arguments ctxValue L : clear implicits.

(** [metadata.MD]: the keys are in lower case. *)
Definition MD := gmap string (list string).

Record Context {L : Type} := {
  values : list (ctxKey * ctxValue L);
  incoming : option MD
}.
Arguments Context L : clear implicits.

Definition Background {L} : Context L := {| values := []; incoming := None |}.

(** [metadata.NewIncomingContext] *)
Definition NewIncomingContext {L} (ctx : Context L) (md : MD) : Context L :=
  {| values := values ctx; incoming := Some md |}.

Definition WithValue {L} (ctx : Context L) (k : ctxKey) (v : ctxValue L) : Context L :=
  {| values := (k, v) :: values ctx; incoming := incoming ctx |}.

Definition Value {L} (ctx : Context L) (k : ctxKey) : option (ctxValue L) :=
  snd <$> List.find (λ kv, bool_decide (kv.1 = k)) (values ctx).

(** [ctx.Value(k).(string)] and the assertions to the other types, in their two-valued form. *)
Definition as_string {L} (v : option (ctxValue L)) : option string :=
  match v with Some (VString s) => Some s | _ => None end.
Definition as_strings {L} (v : option (ctxValue L)) : option (list string) :=
  match v with Some (VStrings l) => Some l | _ => None end.
Definition as_logger {L} (v : option (ctxValue L)) : option L :=
  match v with Some (VLogger l) => Some l | _ => None end.

(** [md.Get(k)] lowers the key. *)
Definition MD_Get (md : MD) (k : string) : list string := default [] (md !! Http.lower_name k).

Lemma Value_eq {L} (ctx : Context L) k v : Value (WithValue ctx k v) k = Some v.
Proof. unfold Value. cbn. by rewrite bool_decide_true. Qed.

Lemma Value_ne {L} (ctx : Context L) k k' v : k ≠ k' → Value (WithValue ctx k v) k' = Value ctx k'.
Proof. intros H. unfold Value. cbn. by rewrite bool_decide_false. Qed.

(** [status.Code(err)] of an error that is not nil: a wrapped status is found. *)
Fixpoint status_Code (err : error) : code :=
  match err with
  | statusError c _ => c
  | wrapError _ inner => status_Code inner
  | sentinel _ _ _ | errorString _ => Unknown
  end.
End GrpcCtx.
