(* ===== verification/Interceptors.v ===== *)
(** * pkg/grpcutil/interceptors and pkg/telemetry/logging

    The server interceptors of the services: authentication by bearer token, and logging
    with request identifiers. A unary handler is a function of the context; what an
    interceptor does besides answering (the response header it sets, the line it logs) is
    part of its result. A logger is the list of the fields that were added to it. The
    token validator is an argument, as it is in the code. *)

From S2P Require Import Prelude GoStd Http GrpcCtx.
Local Open Scope Z_scope.

Module Interceptors.
Import GrpcCtx.

(** ** pkg/telemetry/logging *)

Definition Logger := list (string * string).
Definition Ctx := Context Logger.

(** [logger.With(zap.String(k, v))] *)
Definition With (l : Logger) (k v : string) : Logger := l ++ [(k, v)].

Definition logging_loggerKey : ctxKey := {| key_package := "logging"; key_text := "logger" |}.
Definition logging_requestIDKey : ctxKey := {| key_package := "logging"; key_text := "request_id" |}.

Definition logging_WithContext (defaultLogger : Logger) (ctx : Ctx) : Logger :=
  let logger := match as_logger (Value ctx logging_loggerKey) with
                | Some l => l
                | None => defaultLogger
                end in
  match as_string (Value ctx logging_requestIDKey) with
  | Some requestID => With logger "request_id" requestID
  | None => logger
  end.

Definition logging_NewContext (ctx : Ctx) (logger : Logger) : Ctx :=
  WithValue ctx logging_loggerKey (VLogger logger).

Definition logging_WithRequestID (ctx : Ctx) (requestID : string) : Ctx :=
  WithValue ctx logging_requestIDKey (VString requestID).

Record ServiceLogger := { sl_Logger : Logger; sl_service : string }.

Definition NewServiceLogger (defaultLogger : Logger) (service : string) : ServiceLogger :=
  {| sl_Logger := With defaultLogger "service" service; sl_service := service |}.
Definition sl_WithOperation (l : ServiceLogger) (operation : string) : Logger :=
  With (sl_Logger l) "operation" operation.
Definition sl_WithRequestID (l : ServiceLogger) (requestID : string) : Logger :=
  With (sl_Logger l) "request_id" requestID.
Definition sl_WithIdentity (l : ServiceLogger) (ident : string) : Logger :=
  With (sl_Logger l) "identity" ident.

(** ** Authentication *)

Definition AuthorizationHeader : string := "authorization".
Definition BearerPrefix : string := "bearer ".
Definition TokenKey : ctxKey := {| key_package := "interceptors"; key_text := "token" |}.
Definition IdentityKey : ctxKey := {| key_package := "interceptors"; key_text := "identity" |}.
Definition PoliciesKey : ctxKey := {| key_package := "interceptors"; key_text := "policies" |}.

Definition GetIdentity (ctx : Ctx) : option string := as_string (Value ctx IdentityKey).
Definition GetPolicies (ctx : Ctx) : option (list string) := as_strings (Value ctx PoliciesKey).
Definition GetToken (ctx : Ctx) : option string := as_string (Value ctx TokenKey).

(** [auth[len(BearerPrefix):]] of a string: out of range is a panic. *)
Definition string_from (s : string) (n : nat) : outcome string :=
  if (n <=? String.length s)%nat then Ret (Strings.drop n s) else Panic "slice bounds out of range".

Definition extractToken (ctx : Ctx) : outcome (result string) :=
  match incoming ctx with
  | None => Ret (Err (statusError Unauthenticated "missing metadata"))
  | Some md =>
      match MD_Get md AuthorizationHeader with
      | [] => Ret (Err (statusError Unauthenticated "missing authorization header"))
      | auth :: _ =>
          if negb (Strings.HasPrefix (Strings.ToLower auth) BearerPrefix)
          then Ret (Err (statusError Unauthenticated "invalid authorization format"))
          else let! t := string_from auth (String.length BearerPrefix) in Ret (Ok t)
      end
  end.

(** [TokenValidator.Validate] *)
Definition TokenValidator := Ctx → string → result (string * list string).

(** The context of an authenticated call. *)
Definition authenticated (ctx : Ctx) (token ident : string) (policies : list string) : Ctx :=
  let ctx := WithValue ctx TokenKey (VString token) in
  let ctx := WithValue ctx IdentityKey (VString ident) in
  WithValue ctx PoliciesKey (VStrings policies).

Section interceptors.
Context {Resp : Type}.

Definition Handler := Ctx → outcome (result Resp).

Definition AuthInterceptor (validator : TokenValidator) (skipMethods : list string) (ctx : Ctx)
    (fullMethod : string) (handler : Handler) : outcome (result Resp) :=
  if bool_decide (fullMethod ∈ skipMethods) then handler ctx
  else
    let! tok := extractToken ctx in
    match tok with
    | Err err => Ret (Err (statusError Unauthenticated (Error err)))
    | Ok token =>
        match validator ctx token with
        | Err _ => Ret (Err (statusError Unauthenticated "invalid token"))
        | Ok (ident, policies) => handler (authenticated ctx token ident policies)
        end
    end.

(** ** Logging *)

Definition RequestIDHeader : string := "x-request-id".
Definition RequestIDKey : ctxKey := {| key_package := "interceptors"; key_text := "request_id" |}.

Definition GetRequestID (ctx : Ctx) : option string := as_string (Value ctx RequestIDKey).

(** [uuid] is the result of [uuid.New().String()]. *)
Definition getOrGenerateRequestID (ctx : Ctx) (uuid : string) : string :=
  match incoming ctx with
  | Some md => match MD_Get md RequestIDHeader with id :: _ => id | [] => uuid end
  | None => uuid
  end.

Inductive level := InfoLevel | ErrorLevel.

Record LogLine := {
  log_level : level;
  log_msg : string;
  log_request_id : string;
  log_method : string;
  log_duration : Z;
  log_code : code;
  log_identity : option string;
  log_error : option error;
  log_stream : option (bool * bool)
}.

(** The answer, the headers set on the response and the line logged; a panic of the handler
    leaves before the line. *)
Record Logged (A : Type) := {
  answer : A;
  response_header : list (string * string);
  line : LogLine
}.

Definition err_of {A} (r : result A) : option error := match r with Ok _ => None | Err e => Some e end.
Definition code_of {A} (r : result A) : code := match r with Ok _ => OK | Err e => status_Code e end.

Definition LoggingInterceptor (ctx : Ctx) (fullMethod uuid : string) (duration : Z) (handler : Handler)
    : outcome (Logged (result Resp)) :=
  let requestID := getOrGenerateRequestID ctx uuid in
  let ctx := WithValue ctx RequestIDKey (VString requestID) in
  let! resp := handler ctx in
  Ret {| answer := resp;
         response_header := [(RequestIDHeader, requestID)];
         line := {| log_level := if is_Ok resp then InfoLevel else ErrorLevel;
                    log_msg := if is_Ok resp then "gRPC request completed" else "gRPC request failed";
                    log_request_id := requestID; log_method := fullMethod; log_duration := duration;
                    log_code := code_of resp; log_identity := GetIdentity ctx;
                    log_error := err_of resp; log_stream := None |} |}.
End interceptors.

(** ** Streams

    A [ServerStream] is here what the interceptors use of it, its context; [wrappedStream]
    replaces it. A stream handler answers with an error or none. *)
Record ServerStream := { stream_Context : Ctx }.
Definition wrappedStream (ss : ServerStream) (ctx : Ctx) : ServerStream := {| stream_Context := ctx |}.
Definition StreamHandler := ServerStream → outcome (result unit).

Definition StreamAuthInterceptor (validator : TokenValidator) (skipMethods : list string)
    (ss : ServerStream) (fullMethod : string) (handler : StreamHandler) : outcome (result unit) :=
  if bool_decide (fullMethod ∈ skipMethods) then handler ss
  else
    let ctx := stream_Context ss in
    let! tok := extractToken ctx in
    match tok with
    | Err err => Ret (Err (statusError Unauthenticated (Error err)))
    | Ok token =>
        match validator ctx token with
        | Err _ => Ret (Err (statusError Unauthenticated "invalid token"))
        | Ok (ident, policies) =>
            handler (wrappedStream ss (authenticated ctx token ident policies))
        end
    end.

Definition StreamLoggingInterceptor (ss : ServerStream) (fullMethod : string)
    (isClientStream isServerStream : bool) (uuid : string) (duration : Z) (handler : StreamHandler)
    : outcome (Logged (result unit)) :=
  let ctx := stream_Context ss in
  let requestID := getOrGenerateRequestID ctx uuid in
  let ctx := WithValue ctx RequestIDKey (VString requestID) in
  let! err := handler (wrappedStream ss ctx) in
  Ret {| answer := err;
         response_header := [(RequestIDHeader, requestID)];
         line := {| log_level := if is_Ok err then InfoLevel else ErrorLevel;
                    log_msg := if is_Ok err then "gRPC stream completed" else "gRPC stream failed";
                    log_request_id := requestID; log_method := fullMethod; log_duration := duration;
                    log_code := code_of err; log_identity := None; log_error := err_of err;
                    log_stream := Some (isClientStream, isServerStream) |} |}.

(** ** Lemmas *)

(** One letter of a prefix of the lower-cased string, when it is a letter that only an
    ASCII letter lowers to. *)
Lemma ToLower_prefix a s c p :
  c ≠ "i"%char → c ≠ "k"%char → Strings.HasPrefix (Strings.ToLower (String a s)) (String c p) = true →
  Strings.lower_byte a = c ∧ Strings.HasPrefix (Strings.ToLower s) p = true.
Proof.
  intros Hi Hk. assert (∀ x t, Strings.HasPrefix (String x t) (String c p) = true →
    x = c ∧ Strings.HasPrefix t p = true) as Hp.
  { intros x t H. cbn in H. apply andb_true_iff in H as [->%bool_decide_eq_true H]. done. }
  destruct s as [|b s]; [intros H; exact (Hp _ _ H)|].
  cbn [Strings.ToLower]. destruct (_ && _).
  { intros [<- _]%Hp. done. }
  destruct s as [|d s]; [intros H; exact (Hp _ _ H)|].
  destruct (_ && _); [intros [<- _]%Hp; done|intros H; exact (Hp _ _ H)].
Qed.

(** The prefix is found only where it is, up to the case of its letters. *)
Lemma bearer_prefix auth :
  Strings.HasPrefix (Strings.ToLower auth) BearerPrefix = true →
  ∃ pre tok, auth = pre +:+ tok ∧ String.length pre = 7%nat ∧ Http.lower_name pre = BearerPrefix.
Proof.
  intros H. unfold BearerPrefix in H.
  do 7 (destruct auth as [|? auth]; [done|]; apply ToLower_prefix in H as [? H]; [|done..]).
  eexists (of_bytes [_; _; _; _; _; _; _]), auth. split; [reflexivity|]. split; [done|].
  unfold Http.lower_name, BearerPrefix. cbn -[Strings.lower_byte]. congruence.
Qed.

(** What [extractToken] finds. *)
Lemma extractToken_cases ctx :
  (∃ err, extractToken ctx = Ret (Err err)) ∨
  (∃ md pre tok rest, incoming ctx = Some md ∧ MD_Get md AuthorizationHeader = (pre +:+ tok) :: rest ∧
     Http.lower_name pre = BearerPrefix ∧ extractToken ctx = Ret (Ok tok)).
Proof.
  unfold extractToken. destruct (incoming ctx) as [md|]; [|left; by eexists].
  destruct (MD_Get md AuthorizationHeader) as [|auth rest] eqn:Eg; [left; by eexists|].
  destruct (Strings.HasPrefix _ _) eqn:E; cbn [negb]; [|left; by eexists]. right.
  apply bearer_prefix in E as (pre & tok & -> & Hl & Hp). exists md, pre, tok, rest.
  split_and!; [done..|]. unfold string_from.
  rewrite (proj2 (Nat.leb_le _ _)) by (rewrite Strings.length_app_string; cbn; lia). cbn [obind].
  change (String.length BearerPrefix) with 7%nat. rewrite <- Hl. by rewrite Strings.drop_app.
Qed.

(** The keys are different. *)
Lemma keys_apart :
  TokenKey ≠ IdentityKey ∧ TokenKey ≠ PoliciesKey ∧ IdentityKey ≠ PoliciesKey ∧
  RequestIDKey ≠ IdentityKey ∧ RequestIDKey ≠ logging_requestIDKey ∧ RequestIDKey ≠ logging_loggerKey.
Proof. by split_and!. Qed.

Lemma authenticated_values ctx token ident policies :
  let ctx' := authenticated ctx token ident policies in
  GetToken ctx' = Some token ∧ GetIdentity ctx' = Some ident ∧ GetPolicies ctx' = Some policies.
Proof. done. Qed.

(** A stream is authenticated as a unary call is. *)
Lemma stream_auth_as_unary validator skip ss method handler :
  StreamAuthInterceptor validator skip ss method handler =
  AuthInterceptor validator skip (stream_Context ss) method (λ ctx, handler (wrappedStream ss ctx)).
Proof. by destruct ss. Qed.

(** ** Properties *)

(** C23. The authentication interceptor decides before the handler runs: for a method that
    is not skipped, either the call fails with [Unauthenticated] whatever the handler is,
    or its first [authorization] value is [bearer ] in any case followed by a token that
    the validator accepts, and the answer is the handler's in a context that holds this
    token and the identity and the policies the validator gave. It never panics on its
    own. *)
Theorem interceptor_authenticates {Resp : Type} (validator : TokenValidator) skip ctx method :
  method ∉ skip →
  (∃ t, ∀ handler : Handler (Resp := Resp),
     AuthInterceptor validator skip ctx method handler = Ret (Err (statusError Unauthenticated t))) ∨
  (∃ md pre tok rest ident policies ctx',
     incoming ctx = Some md ∧ MD_Get md AuthorizationHeader = (pre +:+ tok) :: rest ∧
     Http.lower_name pre = BearerPrefix ∧ validator ctx tok = Ok (ident, policies) ∧
     GetToken ctx' = Some tok ∧ GetIdentity ctx' = Some ident ∧ GetPolicies ctx' = Some policies ∧
     ∀ handler : Handler (Resp := Resp), AuthInterceptor validator skip ctx method handler = handler ctx').
Proof.
  intros Hs. unfold AuthInterceptor. rewrite bool_decide_false by done.
  destruct (extractToken_cases ctx) as [[err ->]|(md & pre & tok & rest & Hi & Hg & Hp & ->)]; cbn [obind].
  { left. by eexists. }
  destruct (validator ctx tok) as [[ident policies]|e] eqn:Ev; [|left; by eexists]. right.
  destruct (authenticated_values ctx tok ident policies) as (H1 & H2 & H3).
  by exists md, pre, tok, rest, ident, policies, (authenticated ctx tok ident policies).
Qed.

(** One request identifier per call: the handler sees in its context the identifier
    that is set on the response and logged, it is the client's when the metadata carries
    one, and the logged code is that of the answer. But the logger that
    [logging.WithContext] makes from the handler's context is the one made from the
    caller's: the two packages have keys of different types, and no line of the handler
    carries the identifier. *)
Theorem request_id_consistent {Resp : Type} ctx method uuid d (handler : Handler (Resp := Resp)) resp def :
  let requestID := getOrGenerateRequestID ctx uuid in
  let ctx' := WithValue ctx RequestIDKey (VString requestID) in
  handler ctx' = Ret resp →
  GetRequestID ctx' = Some requestID ∧
  (∀ md id rest, incoming ctx = Some md → MD_Get md RequestIDHeader = id :: rest → requestID = id) ∧
  logging_WithContext def ctx' = logging_WithContext def ctx ∧
  ∃ l, LoggingInterceptor ctx method uuid d handler =
         Ret {| answer := resp; response_header := [(RequestIDHeader, requestID)]; line := l |} ∧
    log_request_id l = requestID ∧ log_code l = code_of resp ∧ log_method l = method.
Proof.
  intros requestID ctx' H. split; [done|]. split.
  { intros md id rest Hi Hg. unfold requestID, getOrGenerateRequestID. by rewrite Hi, Hg. }
  split. { unfold logging_WithContext, ctx'. destruct keys_apart as (_ & _ & _ & _ & H1 & H2).
           by rewrite !Value_ne. }
  eexists. split; [unfold LoggingInterceptor; fold requestID; fold ctx'; by rewrite H|done].
Qed.

(** The identity is not logged by the chain that authenticates inside the logging
    interceptor: the line has the identity of the context before authentication, none for
    an incoming call, although the handler ran with one. *)
Theorem identity_not_logged {Resp : Type} (validator : TokenValidator) skip ctx method uuid d
    (handler : Handler (Resp := Resp)) out :
  GetIdentity ctx = None →
  LoggingInterceptor ctx method uuid d (λ ctx, AuthInterceptor validator skip ctx method handler) = Ret out →
  log_identity (line _ out) = None.
Proof.
  intros Hi. unfold LoggingInterceptor.
  destruct (AuthInterceptor _ _ _ _ _) as [resp|]; [|done]. cbn [obind]. intros [= <-]. cbn.
  unfold GetIdentity. rewrite Value_ne by done. done.
Qed.

(** ** Witnesses *)

Definition demo_ctx : Ctx :=
  NewIncomingContext Background {[ "authorization" := ["BEARER abc"]; "x-request-id" := ["r1"] ]}.
Definition demo_validator : TokenValidator := λ _ tok,
  if bool_decide (tok = "abc") then Ok ("alice", ["admin"]) else Err (errorString "bad token").
Definition demo_handler : Handler (Resp := option string) := λ ctx, Ret (Ok (GetIdentity ctx)).

Lemma interceptor_authenticates_witness :
  AuthInterceptor demo_validator ["/health"] demo_ctx "/svc/M" demo_handler = Ret (Ok (Some "alice")) ∧
  ∃ ctx', GetToken ctx' = Some "abc" ∧
    ∀ handler : Handler (Resp := option string),
      AuthInterceptor demo_validator ["/health"] demo_ctx "/svc/M" handler = handler ctx'.
Proof.
  split; [reflexivity|].
  destruct (interceptor_authenticates (Resp := option string) demo_validator ["/health"] demo_ctx "/svc/M")
    as [[t H]|(md & pre & tok & rest & ident & policies & ctx' & _ & _ & _ & Hv & Ht & _ & _ & H)].
  - rewrite list_elem_of_singleton. discriminate.
  - specialize (H demo_handler). discriminate H.
  - exists ctx'. split; [|done]. rewrite Ht. unfold demo_validator in Hv.
    destruct (bool_decide_reflect (tok = "abc")) as [->|]; [done|discriminate Hv].
Defined.

Lemma request_id_consistent_witness :
  ∃ l, LoggingInterceptor demo_ctx "/svc/M" "uuid" 5 demo_handler =
         Ret {| answer := Ok None; response_header := [("x-request-id", "r1")]; line := l |} ∧
    log_request_id l = "r1" ∧ log_code l = OK ∧ log_method l = "/svc/M".
Proof.
  apply (request_id_consistent demo_ctx "/svc/M" "uuid" 5 demo_handler (Ok None) []). reflexivity.
Defined.

Lemma identity_not_logged_witness :
  ∃ out, LoggingInterceptor demo_ctx "/svc/M" "uuid" 5
           (λ ctx, AuthInterceptor demo_validator [] ctx "/svc/M" demo_handler) = Ret out ∧
    answer _ out = Ok (Some "alice") ∧ log_identity (line _ out) = None.
Proof.
  eexists. split; [reflexivity|]. split; [reflexivity|].
  apply (identity_not_logged demo_validator [] demo_ctx "/svc/M" "uuid" 5 demo_handler); reflexivity.
Defined.
End Interceptors.
