(* ===== verification/GatewayAuth.v ===== *)
(** * services/gateway/internal/middleware/auth.go

    The gateway's authentication middleware, for HTTP requests and for gRPC calls, and the
    permission check behind it. [AuthClient] is an interface of the package without an
    implementation in the repository: it is a class here, its answers pairs of a pointer
    that may be nil and an error. *)

From S2P Require Import Prelude GoStd Http GrpcCtx.
Local Open Scope Z_scope.

Module GatewayAuth.
Import GrpcCtx.

Record TokenInfo := {
  ti_Subject : string;
  ti_Policies : list string;
  ti_Metadata : gmap string string;
  ti_ExpiresAt : Z
}.

Record APIKeyInfo := { ai_KeyID : string; ai_Name : string; ai_Policies : list string }.

(** [ValidateToken] and [ValidateAPIKey] return a pointer, [None] when it is nil. *)
Class AuthClient := {
  ValidateToken : string → result (option TokenInfo);
  ValidateAPIKey : string → result (option APIKeyInfo);
  CheckPermission : string → string → string → result bool
}.

Record IdentityContext := {
  ic_Type : string;
  ic_Subject : string;
  ic_Policies : list string;
  ic_Metadata : gmap string string
}.

Abbreviation Request := (Http.Request IdentityContext).

Section middleware.
Context {C : AuthClient}.

(** The client is the class; what is left is the set of paths. *)
Record AuthMiddleware := { skipPaths : gset string }.

Definition NewAuthMiddleware (paths : list string) : AuthMiddleware :=
  {| skipPaths := list_to_set paths |}.

Definition nil_dereference {A} : outcome A := Panic "invalid memory address or nil pointer dereference".

(** The identity of a validated API key, and of a validated token. *)
Definition by_api_key (apiKey : string) : outcome (result IdentityContext) :=
  match ValidateAPIKey apiKey with
  | Err err => Ret (Err err)
  | Ok None => nil_dereference
  | Ok (Some info) =>
      Ret (Ok {| ic_Type := "apikey"; ic_Subject := ai_KeyID info; ic_Policies := ai_Policies info;
                 ic_Metadata := ∅ |})
  end.

Definition by_token (token : string) : outcome (result IdentityContext) :=
  match ValidateToken token with
  | Err err => Ret (Err err)
  | Ok None => nil_dereference
  | Ok (Some info) =>
      Ret (Ok {| ic_Type := "token"; ic_Subject := ti_Subject info; ic_Policies := ti_Policies info;
                 ic_Metadata := ti_Metadata info |})
  end.

Definition missing_credentials : error := statusError Unauthenticated "missing credentials".

Definition authenticate (r : Request) : outcome (result IdentityContext) :=
  let apiKey := Http.Header_Get (Http.Headers r) "X-API-Key" in
  if bool_decide (apiKey ≠ "") then by_api_key apiKey
  else
    let authHeader := Http.Header_Get (Http.Headers r) "Authorization" in
    if Strings.HasPrefix authHeader "Bearer " then by_token (Strings.TrimPrefix authHeader "Bearer ")
    else Ret (Err missing_credentials).

(** A handler: it changes a state and writes a response. *)
Definition Handler (S : Type) := S → Http.ResponseWriter → Request → outcome (S * Http.ResponseWriter).

Definition HTTPMiddleware {S} (m : AuthMiddleware) (next : Handler S) : Handler S := λ s w r,
  if bool_decide (Http.Path r ∈ skipPaths m) then next s w r
  else
    let! res := authenticate r in
    match res with
    | Err err => Ret (s, Http.Error (Error err) Http.StatusUnauthorized w)
    | Ok ident => next s w (Http.with_ctx ident r)
    end.

Definition authenticateGRPC {L} (ctx : Context L) : outcome (result IdentityContext) :=
  match incoming ctx with
  | None => Ret (Err (statusError Unauthenticated "missing metadata"))
  | Some md =>
      match MD_Get md "x-api-key" with
      | apiKey :: _ => by_api_key apiKey
      | [] =>
          match MD_Get md "authorization" with
          | authHeader :: _ =>
              if Strings.HasPrefix authHeader "Bearer "
              then by_token (Strings.TrimPrefix authHeader "Bearer ")
              else Ret (Err missing_credentials)
          | [] => Ret (Err missing_credentials)
          end
      end
  end.

(** The handler of a call takes the identity its context then holds, if any. *)
Definition GRPCUnaryInterceptor {L Resp} (m : AuthMiddleware) (ctx : Context L) (fullMethod : string)
    (handler : Context L → option IdentityContext → outcome (result Resp)) : outcome (result Resp) :=
  if bool_decide (fullMethod ∈ skipPaths m) then handler ctx None
  else
    let! res := authenticateGRPC ctx in
    match res with
    | Err err => Ret (Err err)
    | Ok ident => handler ctx (Some ident)
    end.

Definition GetIdentity (r : Request) : option IdentityContext := Http.Ctx r.

Definition RequirePermission {S} (path action : string) (next : Handler S) : Handler S := λ s w r,
  match GetIdentity r with
  | None => Ret (s, Http.Error "Unauthorized" Http.StatusUnauthorized w)
  | Some ident =>
      match CheckPermission (ic_Subject ident) path action with
      | Err _ => Ret (s, Http.Error "Permission check failed" Http.StatusInternalServerError w)
      | Ok false => Ret (s, Http.Error "Forbidden" Http.StatusForbidden w)
      | Ok true => next s w r
      end
  end.

(** ** Properties *)

(** The credentials of a request, in the order in which they are looked at. *)
Definition vouched (r : Request) (ident : IdentityContext) : Prop :=
  let apiKey := Http.Header_Get (Http.Headers r) "X-API-Key" in
  (apiKey ≠ "" ∧ ∃ info, ValidateAPIKey apiKey = Ok (Some info) ∧
     ident = {| ic_Type := "apikey"; ic_Subject := ai_KeyID info; ic_Policies := ai_Policies info;
                ic_Metadata := ∅ |}) ∨
  (apiKey = "" ∧ ∃ token info,
     Http.Header_Get (Http.Headers r) "Authorization" = "Bearer " +:+ token ∧
     ValidateToken token = Ok (Some info) ∧
     ident = {| ic_Type := "token"; ic_Subject := ti_Subject info; ic_Policies := ti_Policies info;
                ic_Metadata := ti_Metadata info |}).

Lemma authenticate_vouched r ident : authenticate r = Ret (Ok ident) → vouched r ident.
Proof.
  unfold authenticate, vouched. case_bool_decide as Hk.
  - unfold by_api_key. destruct (ValidateAPIKey _) as [[info|]|]; [|done..]. intros [= <-]. left. eauto.
  - destruct (Strings.HasPrefix _ _) eqn:Hp; [|done]. apply Strings.HasPrefix_spec in Hp as [token Ht].
    rewrite Ht, Strings.TrimPrefix_app. unfold by_token.
    destruct (ValidateToken token) as [[info|]|] eqn:Ev; [|done..]. intros [= <-]. right.
    split; [done|].
    by exists token, info.
Qed.

(** C22. A handler behind the authentication and the permission check takes effect only for
    a caller that may: if the state changes, the client's credentials (its API key, or
    without one its bearer token) were accepted by the auth service, the permission for
    the path and the action was granted to exactly that subject, and the handler saw
    exactly that identity. A skipped path gets no identity, so the check refuses it. *)
Theorem guarded_effects {S : Type} (m : AuthMiddleware) path action (next : Handler S) s w r s' w' :
  Http.Ctx r = None → HTTPMiddleware m (RequirePermission path action next) s w r = Ret (s', w') → s' ≠ s →
  Http.Path r ∉ skipPaths m ∧
  ∃ ident, vouched r ident ∧ CheckPermission (ic_Subject ident) path action = Ok true ∧
    next s w (Http.with_ctx ident r) = Ret (s', w').
Proof.
  intros Hc. unfold HTTPMiddleware. case_bool_decide as Hp.
  { unfold RequirePermission, GetIdentity. rewrite Hc. by intros [= <- <-]. }
  destruct (authenticate r) as [[ident|e]|] eqn:Ea; cbn [obind]; [|by intros [= <- <-]|done].
  apply authenticate_vouched in Ea. unfold RequirePermission. cbn [GetIdentity Http.Ctx Http.with_ctx].
  destruct (CheckPermission _ path action) as [[]|] eqn:Ep; [|by intros [= <- <-]..].
  intros H Hne. split; [done|]. by exists ident.
Qed.

(** The two entry points agree: a gRPC call whose metadata carry the credentials of an
    HTTP request gets the same identity or the same error, as long as the API key is not
    empty; an empty [x-api-key] is handed to the validator here and ignored there. *)
Theorem grpc_http_agree {L : Type} (ctx : Context L) md r :
  incoming ctx = Some md →
  Http.Header_Get (Http.Headers r) "X-API-Key" = hd "" (MD_Get md "x-api-key") →
  Http.Header_Get (Http.Headers r) "Authorization" = hd "" (MD_Get md "authorization") →
  authenticateGRPC ctx =
    if bool_decide (hd "x" (MD_Get md "x-api-key") = "") then by_api_key "" else authenticate r.
Proof.
  intros Hi Hk Ha. unfold authenticateGRPC, authenticate. rewrite Hi, Hk, Ha.
  destruct (MD_Get md "x-api-key") as [|k ks]; cbn [hd].
  - rewrite bool_decide_false by done. rewrite (bool_decide_false (_ ≠ _)) by (by intros []).
    by destruct (MD_Get md "authorization").
  - case_bool_decide as E; [by subst|]. by rewrite bool_decide_true.
Qed.
End middleware.

(** ** Witnesses *)

#[local] Instance demo_client : AuthClient := {|
  ValidateToken := λ t, if bool_decide (t = "tok")
    then Ok (Some {| ti_Subject := "alice"; ti_Policies := ["admin"]; ti_Metadata := ∅; ti_ExpiresAt := 0 |})
    else Err (statusError Unauthenticated "invalid token");
  ValidateAPIKey := λ k, Err (statusError Unauthenticated "invalid api key");
  CheckPermission := λ who path action, Ok (bool_decide (who = "alice"))
|}.

Definition demo_request : Request :=
  {| Http.Method := "POST"; Http.Path := "/v1/secret/data"; Http.RawQuery := "";
     Http.Headers := [("Authorization", "Bearer tok")]; Http.Body := Ok ""; Http.RemoteAddr := "10.0.0.1:5000";
     Http.Ctx := None |}.

Definition demo_next : Handler nat := λ n w _, Ret (S n, w).

Lemma guarded_effects_witness :
  HTTPMiddleware (NewAuthMiddleware ["/health/live"]) (RequirePermission "secret/data" "write" demo_next)
    0%nat Http.new_writer demo_request = Ret (1%nat, Http.new_writer) ∧
  ∃ ident, vouched demo_request ident ∧ CheckPermission (ic_Subject ident) "secret/data" "write" = Ok true.
Proof.
  split; [reflexivity|].
  destruct (guarded_effects (NewAuthMiddleware ["/health/live"]) "secret/data" "write" demo_next
              0%nat Http.new_writer demo_request 1%nat Http.new_writer) as (_ & ident & Hv & Hp & _);
    [reflexivity|reflexivity|discriminate|]. by exists ident.
Defined.

Lemma grpc_http_agree_witness :
  authenticateGRPC (NewIncomingContext (Background (L := unit)) {[ "authorization" := ["Bearer tok"] ]}) =
    authenticate demo_request.
Proof.
  rewrite (grpc_http_agree _ {[ "authorization" := ["Bearer tok"] ]} demo_request); reflexivity.
Defined.
End GatewayAuth.
