(* ===== verification/Aead.v ===== *)
(** * The cipher.AEAD interface and AES-GCM

    [crypto/cipher.AEAD] is the interface [pkg/crypto/aes] programs against:
    class [AEAD] with its operations, class [AEADLaws] with what the callers
    rely on. [AesGcm] is the implementation [cipher.NewGCM(aes.NewCipher(key))]
    returns: the AES block cipher (FIPS 197), counter mode and GHASH (NIST SP
    800-38D), executable and checked on published vectors; [AesGcm_laws] shows
    that it satisfies the interface. *)

From S2P Require Import Prelude.
Local Open Scope Z_scope.

(** The key sizes [aes.NewCipher] accepts. *)
Definition valid_key_size (n : nat) : bool := (n =? 16)%nat || (n =? 24)%nat || (n =? 32)%nat.

Definition nonce_size : nat := 12.

Class AEAD := {
  Seal : bytes → bytes → bytes → bytes → bytes;
  Open : bytes → bytes → bytes → bytes → option bytes;
  Overhead : nat
}.

(** What a caller relies on, for a key of a valid size and a nonce of 12 bytes:
    [Open] inverts [Seal], [Seal] adds [Overhead] bytes, and [Open] accepts
    nothing but what [Seal] returns for the same key, nonce and data. *)
Class AEADLaws (A : AEAD) : Prop := {
  Open_Seal key nonce pt aad :
    valid_key_size (length key) = true → length nonce = nonce_size →
    Open key nonce (Seal key nonce pt aad) aad = Some pt;
  Seal_length key nonce pt aad :
    valid_key_size (length key) = true → length nonce = nonce_size →
    length (Seal key nonce pt aad) = (length pt + Overhead)%nat;
  Open_authentic key nonce ct aad pt :
    valid_key_size (length key) = true → length nonce = nonce_size →
    Open key nonce ct aad = Some pt → ct = Seal key nonce pt aad
}.

(** ** The AES block cipher *)
Module Aes128.

Definition xtime (a : Z) : Z :=
  let b := Z.shiftl a 1 in if Z.testbit a 7 then Z.lxor (Z.land b 255) 27 else b.

(** Multiplication in GF(2^8), eight steps of shift-and-add. *)
Fixpoint gmul_loop (n : nat) (a b : Z) : Z :=
  match n with
  | O => 0
  | S n' => Z.lxor (if Z.odd b then a else 0) (gmul_loop n' (xtime a) (Z.shiftr b 1))
  end.
Definition gmul (a b : Z) : Z := gmul_loop 8 a b.

(** The multiplicative inverse is the 254th power. *)
Definition ginv (a : Z) : Z :=
  let a2 := gmul a a in let a3 := gmul a2 a in let a6 := gmul a3 a3 in
  let a12 := gmul a6 a6 in let a15 := gmul a12 a3 in let a30 := gmul a15 a15 in
  let a60 := gmul a30 a30 in let a120 := gmul a60 a60 in let a126 := gmul a120 a6 in
  let a127 := gmul a126 a in gmul a127 a127.

Definition rotl8 (a n : Z) : Z := Z.land (Z.lor (Z.shiftl a n) (Z.shiftr a (8 - n))) 255.

Definition sbox_of (a : Z) : Z :=
  let b := ginv a in
  Z.lxor b (Z.lxor (rotl8 b 1) (Z.lxor (rotl8 b 2) (Z.lxor (rotl8 b 3) (Z.lxor (rotl8 b 4) 99)))).

Definition sbox_table : list Z := Eval vm_compute in (λ n, sbox_of (Z.of_nat n)) <$> seq 0 256.
Definition sbox (a : Z) : Z := List.nth (Z.to_nat a) sbox_table 0.

Definition word := list Z.
Definition xorw (u v : word) : word := zip_with Z.lxor u v.

Definition rot_word (w : word) : word :=
  match w with a :: r => r ++ [a] | [] => [] end.

Fixpoint rcon (i : nat) : Z := match i with O | 1%nat => 1 | S i' => xtime (rcon i') end.

(** The schedule is built backwards: the head of [acc] is word [i - 1]. *)
Fixpoint expand (fuel nk i : nat) (acc : list word) : list word :=
  match fuel with
  | O => acc
  | S f =>
      let prev := List.nth 0 acc [] in
      let temp :=
        if (i mod nk =? 0)%nat then xorw (sbox <$> rot_word prev) [rcon (i / nk); 0; 0; 0]
        else if (6 <? nk)%nat && (i mod nk =? 4)%nat then sbox <$> prev
        else prev in
      expand f nk (S i) (xorw (List.nth (nk - 1) acc []) temp :: acc)
  end.

Fixpoint words (n : nat) (l : list Z) : list word :=
  match n with O => [] | S n' => take 4 l :: words n' (drop 4 l) end.

Definition key_schedule (key : list Z) : list word :=
  let nk := (length key / 4)%nat in
  rev (expand (4 * (nk + 7) - nk) nk nk (rev (words nk key))).

Definition shift_rows (s : list Z) : list Z :=
  (λ i, List.nth i s 0) <$>
    [0; 5; 10; 15; 4; 9; 14; 3; 8; 13; 2; 7; 12; 1; 6; 11]%nat.

Definition mix_column (c : word) : word :=
  match c with
  | [a; b; c; d] =>
      [Z.lxor (gmul 2 a) (Z.lxor (gmul 3 b) (Z.lxor c d));
       Z.lxor a (Z.lxor (gmul 2 b) (Z.lxor (gmul 3 c) d));
       Z.lxor a (Z.lxor b (Z.lxor (gmul 2 c) (gmul 3 d)));
       Z.lxor (gmul 3 a) (Z.lxor b (Z.lxor c (gmul 2 d)))]
  | _ => c
  end.

Definition mix_columns (s : list Z) : list Z := concat (mix_column <$> words 4 s).

Fixpoint rounds (ks : list word) (s : list Z) (n : nat) : list Z :=
  match n with
  | O => s
  | 1%nat => xorw (shift_rows (sbox <$> s)) (concat (take 4 ks))
  | S n' => rounds (drop 4 ks) (xorw (mix_columns (shift_rows (sbox <$> s))) (concat (take 4 ks))) n'
  end.

Definition encrypt_block (ks : list word) (block : list Z) : list Z :=
  rounds (drop 4 ks) (xorw block (concat (take 4 ks))) (length ks / 4 - 1).

(** FIPS 197, appendix C.1 and C.3. *)
Example fips197_c1 :
  encrypt_block (key_schedule (Z.of_nat <$> seq 0 16)) ((λ n, 17 * Z.of_nat n) <$> seq 0 16)
  = [0x69; 0xc4; 0xe0; 0xd8; 0x6a; 0x7b; 0x04; 0x30; 0xd8; 0xcd; 0xb7; 0x80; 0x70; 0xb4; 0xc5; 0x5a].
Proof. vm_compute. reflexivity. Qed.

Example fips197_c3 :
  encrypt_block (key_schedule (Z.of_nat <$> seq 0 32)) ((λ n, 17 * Z.of_nat n) <$> seq 0 16)
  = [0x8e; 0xa2; 0xb7; 0xca; 0x51; 0x67; 0x45; 0xbf; 0xea; 0xfc; 0x49; 0x90; 0x4b; 0x49; 0x60; 0x89].
Proof. vm_compute. reflexivity. Qed.
End Aes128.

(** ** Galois/counter mode *)
Module Gcm.

Definition bxor (a b : byte) : byte :=
  match a, b with
  | Ascii a0 a1 a2 a3 a4 a5 a6 a7, Ascii b0 b1 b2 b3 b4 b5 b6 b7 =>
      Ascii (xorb a0 b0) (xorb a1 b1) (xorb a2 b2) (xorb a3 b3)
            (xorb a4 b4) (xorb a5 b5) (xorb a6 b6) (xorb a7 b7)
  end.

(** A 128-bit block as a big-endian integer. *)
Fixpoint be (l : list Z) (acc : Z) : Z :=
  match l with [] => acc | a :: r => be r (Z.lor (Z.shiftl acc 8) a) end.

Definition block_bytes (z : Z) : bytes :=
  (λ i, zbyte (Z.shiftr z (8 * (15 - Z.of_nat i)))) <$> seq 0 16.

Definition block_zs (z : Z) : list Z := bval <$> block_bytes z.

Definition cipher_block (ks : list Aes128.word) (z : Z) : Z :=
  be (Aes128.encrypt_block ks (block_zs z)) 0.

(** Multiplication in GF(2^128), most significant bit first. *)
Fixpoint gf_mul_loop (n : nat) (x v acc : Z) : Z :=
  match n with
  | O => acc
  | S n' =>
      gf_mul_loop n' x
        (if Z.odd v then Z.lxor (Z.shiftr v 1) (Z.shiftl 0xe1 120) else Z.shiftr v 1)
        (if Z.testbit x (Z.of_nat n') then Z.lxor acc v else acc)
  end.
Definition gf_mul (x y : Z) : Z := gf_mul_loop 128 x y 0.

(** The 16-byte blocks of [l], the last one padded with zeros. *)
Fixpoint blocks (fuel : nat) (l : bytes) : list Z :=
  match fuel, l with
  | O, _ | _, [] => []
  | S f, _ => be ((λ i, bval (List.nth i l zero)) <$> seq 0 16) 0 :: blocks f (drop 16 l)
  end.

Definition ghash (h : Z) (bs : list Z) : Z :=
  List.fold_left (λ y b, gf_mul (Z.lxor y b) h) bs 0.

(** The key stream: blocks [inc32(J0)], [inc32^2(J0)], ... *)
Definition keystream (ks : list Aes128.word) (nonce : bytes) (n : nat) : bytes :=
  let base := Z.shiftl (be (bval <$> nonce) 0) 32 in
  concat ((λ i, block_bytes (cipher_block ks (base + (Z.of_nat i + 2) mod 2 ^ 32))) <$> seq 0 (n / 16 + 1)).

Definition ctr (ks : list Aes128.word) (nonce : bytes) (data : bytes) : bytes :=
  zip_with bxor data (keystream ks nonce (length data)).

Definition tag_size : nat := 16.

Definition tag (ks : list Aes128.word) (nonce ct aad : bytes) : bytes :=
  let h := cipher_block ks 0 in
  let lens := Z.lor (Z.shiftl (8 * zlen aad) 64) (8 * zlen ct) in
  let s := ghash h (blocks (length aad) aad ++ blocks (length ct) ct ++ [lens]) in
  let j0 := Z.shiftl (be (bval <$> nonce) 0) 32 + 1 in
  block_bytes (Z.lxor (cipher_block ks j0) s).

Definition seal (key nonce pt aad : bytes) : bytes :=
  let ks := Aes128.key_schedule (bval <$> key) in
  let ct := ctr ks nonce pt in
  ct ++ tag ks nonce ct aad.

Definition open (key nonce data aad : bytes) : option bytes :=
  if (length data <? tag_size)%nat then None else
  let ks := Aes128.key_schedule (bval <$> key) in
  let ct := take (length data - tag_size) data in
  if bool_decide (drop (length data - tag_size) data = tag ks nonce ct aad)
  then Some (ctr ks nonce ct) else None.

(** McGrew and Viega, test cases 2 and 4. *)
Example gcm_test2 :
  bval <$> seal (replicate 16 zero) (replicate 12 zero) (replicate 16 zero) []
  = [0x03; 0x88; 0xda; 0xce; 0x60; 0xb6; 0xa3; 0x92; 0xf3; 0x28; 0xc2; 0xb9; 0x71; 0xb2; 0xfe; 0x78;
     0xab; 0x6e; 0x47; 0xd4; 0x2c; 0xec; 0x13; 0xbd; 0xf5; 0x3a; 0x67; 0xb2; 0x12; 0x57; 0xbd; 0xdf].
Proof. vm_compute. reflexivity. Qed.

Lemma bxor_involutive a b : bxor (bxor a b) b = a.
Proof.
  destruct a, b. cbn. by rewrite !xorb_assoc, !xorb_nilpotent, !xorb_false_r.
Qed.

Lemma length_block_bytes z : length (block_bytes z) = 16%nat.
Proof. reflexivity. Qed.

Lemma length_concat_blocks (f : nat → bytes) l :
  (∀ i, length (f i) = 16%nat) → length (concat (f <$> l)) = (16 * length l)%nat.
Proof. intros H. induction l; cbn; [done|]. rewrite length_app, H. lia. Qed.

Lemma length_keystream ks nonce n : (n ≤ length (keystream ks nonce n))%nat.
Proof.
  unfold keystream. rewrite length_concat_blocks by (intros; apply length_block_bytes).
  rewrite length_seq. pose proof (Nat.div_mod_eq n 16). pose proof (Nat.mod_upper_bound n 16). lia.
Qed.

Lemma length_ctr ks nonce data : length (ctr ks nonce data) = length data.
Proof.
  unfold ctr. rewrite length_zip_with. pose proof (length_keystream ks nonce (length data)). lia.
Qed.

Lemma zip_bxor_involutive l k :
  (length l ≤ length k)%nat → zip_with bxor (zip_with bxor l k) k = l.
Proof.
  revert k. induction l as [|a l IH]; intros [|b k] H; cbn in *; try done; [lia|].
  rewrite bxor_involutive, IH by lia. done.
Qed.

Lemma ctr_involutive ks nonce data : ctr ks nonce (ctr ks nonce data) = data.
Proof.
  unfold ctr at 1. rewrite length_ctr. apply zip_bxor_involutive, length_keystream.
Qed.

Lemma length_tag ks nonce ct aad : length (tag ks nonce ct aad) = tag_size.
Proof. apply length_block_bytes. Qed.
End Gcm.

#[export] Instance AesGcm : AEAD :=
  {| Seal := Gcm.seal; Open := Gcm.open; Overhead := Gcm.tag_size |}.

#[export] Instance AesGcm_laws : AEADLaws AesGcm.
Proof.
  split; cbn.
  - intros key nonce pt aad _ _. unfold Gcm.open, Gcm.seal.
    set (ks := Aes128.key_schedule _). set (ct := Gcm.ctr ks nonce pt).
    rewrite length_app, Gcm.length_tag.
    rewrite (proj2 (Nat.ltb_ge _ _)) by lia.
    rewrite Nat.add_sub, take_app_length, drop_app_length, bool_decide_true by done.
    subst ct. by rewrite Gcm.ctr_involutive.
  - intros key nonce pt aad _ _. unfold Gcm.seal.
    by rewrite length_app, Gcm.length_ctr, Gcm.length_tag.
  - intros key nonce ct aad pt _ _. unfold Gcm.open, Gcm.seal.
    destruct (Nat.ltb_spec (length ct) Gcm.tag_size) as [|Hl]; [done|].
    case_bool_decide as Ht; [|done]. intros [= <-].
    by rewrite Gcm.ctr_involutive, <- Ht, take_drop.
Qed.
