(* ===== verification/Aes.v ===== *)
(** * pkg/crypto/aes: AES-GCM with the vault ciphertext format

    [Cipher] models the struct of the same name: the AEAD is determined by the
    key it was made from. The ciphertext format is
    [vault:v{version}:{base64(nonce + ciphertext + tag)}]. *)

From S2P Require Import Prelude GoStd Aead.
Local Open Scope Z_scope.

Module Aes.

Definition NonceSize : nat := 12.
Definition KeySize256 : Z := 32.
Definition KeySize128 : Z := 16.
Definition CiphertextPrefix : string := "vault".

Definition ErrInvalidKeySize : error :=
  sentinel "aes" "ErrInvalidKeySize" "invalid key size: must be 16, 24, or 32 bytes".
Definition ErrInvalidCiphertext : error :=
  sentinel "aes" "ErrInvalidCiphertext" "invalid ciphertext format".
Definition ErrDecryptionFailed : error :=
  sentinel "aes" "ErrDecryptionFailed" "decryption failed: authentication error".
Definition ErrInvalidNonceSize : error :=
  sentinel "aes" "ErrInvalidNonceSize" "invalid nonce size".
Definition ErrCiphertextTooShort : error :=
  sentinel "aes" "ErrCiphertextTooShort" "ciphertext too short".

Record Cipher := { aead_key : bytes; version : Z }.

#[export] Instance Cipher_eq_dec : EqDecision Cipher.
Proof. solve_decision. Defined.

(** [crypto/aes.NewCipher]: fails exactly on the other key sizes. *)
Definition std_NewCipher (key : bytes) : result bytes :=
  if valid_key_size (length key) then Ok key
  else Err (errorString "crypto/aes: invalid key size").

Definition NewCipher (key : bytes) (version : Z) : result Cipher :=
  if negb (length key =? 16)%nat && negb (length key =? 24)%nat && negb (length key =? 32)%nat then
    Err ErrInvalidKeySize
  else match std_NewCipher key with
       | Err e => Err (wrapError "failed to create AES cipher" e)
       | Ok k => Ok {| aead_key := k; version := version |}
       end.

(** [fmt.Sprintf("%s:v%d:%s", CiphertextPrefix, version, encoded)]. *)
Definition format_ciphertext (version : Z) (encoded : string) : string :=
  CiphertextPrefix +:+ String ":"%char
    (String "v"%char (Strconv.Itoa version) +:+ String ":"%char encoded).

Definition ParseCiphertext (ciphertext : string) : result (Z * string) :=
  match Strings.Split ":"%char ciphertext with
  | [p0; p1; p2] =>
      if negb (bool_decide (p0 = CiphertextPrefix)) then Err ErrInvalidCiphertext
      else match p1 with
           | String v (String d ds) =>
               if negb (bool_decide (v = "v"%char)) then Err ErrInvalidCiphertext
               else match Strconv.Atoi (String d ds) with
                    | None => Err ErrInvalidCiphertext
                    | Some version => Ok (version, p2)
                    end
           | _ => Err ErrInvalidCiphertext
           end
  | _ => Err ErrInvalidCiphertext
  end.

Section ops.
Context {A : AEAD}.

Definition EncryptWithNonce (c : Cipher) (plaintext aad nonce : bytes) : result string :=
  if negb (length nonce =? NonceSize)%nat then Err ErrInvalidNonceSize
  else
    let ciphertext := nonce ++ Seal (aead_key c) nonce plaintext aad in
    let encoded := Base64.EncodeToString Base64.StdEncoding ciphertext in
    Ok (format_ciphertext (version c) encoded).

Definition Encrypt (c : Cipher) (plaintext aad : bytes) (r : entropy) : result string :=
  match rand_Read NonceSize r with
  | None => Err (wrapError "failed to generate nonce" (errorString "rand"))
  | Some nonce => EncryptWithNonce c plaintext aad nonce
  end.

(** The part [Decrypt] and [DecryptRaw] share after the base64 text is known;
    [msg] is the text the decoding error is wrapped with. *)
Definition open_encoded (c : Cipher) (msg encoded : string) (aad : bytes) : result bytes :=
  match Base64.DecodeString Base64.StdEncoding encoded with
  | None => Err (wrapError msg (errorString "illegal base64 data"))
  | Some decoded =>
      if (length decoded <? NonceSize + Overhead + 1)%nat then Err ErrCiphertextTooShort
      else
        let nonce := take NonceSize decoded in
        let encrypted := drop NonceSize decoded in
        match Open (aead_key c) nonce encrypted aad with
        | None => Err ErrDecryptionFailed
        | Some plaintext => Ok plaintext
        end
  end.

Definition Decrypt (c : Cipher) (ciphertext : string) (aad : bytes) : result (bytes * Z) :=
  let? (version, data) := ParseCiphertext ciphertext in
  let? plaintext := open_encoded c "failed to decode ciphertext" data aad in
  Ok (plaintext, version).

Definition DecryptRaw (c : Cipher) (encoded : string) (aad : bytes) : result bytes :=
  open_encoded c "failed to decode" encoded aad.

End ops.

Definition GenerateKey (size : Z) (r : entropy) : result bytes :=
  if negb (size =? KeySize128) && negb (size =? KeySize256) && negb (size =? 24) then
    Err ErrInvalidKeySize
  else match rand_Read (Z.to_nat size) r with
       | None => Err (wrapError "failed to generate key" (errorString "rand"))
       | Some key => Ok key
       end.

(** ** Lemmas *)

(** The two spellings of the key size test agree. *)
Lemma valid_key_size_neg n :
  negb (n =? 16)%nat && negb (n =? 24)%nat && negb (n =? 32)%nat = negb (valid_key_size n).
Proof. unfold valid_key_size. by rewrite !negb_orb. Qed.

Lemma NewCipher_spec key v :
  NewCipher key v = if valid_key_size (length key)
                    then Ok {| aead_key := key; version := v |} else Err ErrInvalidKeySize.
Proof.
  unfold NewCipher. rewrite valid_key_size_neg. unfold std_NewCipher.
  by destruct (valid_key_size (length key)).
Qed.

Lemma Parse_format v encoded :
  in_int64 v → Strings.ContainsByte ":"%char encoded = false →
  ParseCiphertext (format_ciphertext v encoded) = Ok (v, encoded).
Proof.
  intros Hv He. unfold ParseCiphertext, format_ciphertext.
  rewrite Strings.Split_cons by reflexivity.
  rewrite Strings.Split_cons.
  2:{ cbn [Strings.ContainsByte]. rewrite bool_decide_false by done. apply Strconv.Itoa_no_colon. }
  rewrite Strings.Split_single by done.
  rewrite bool_decide_true by done. cbn [negb].
  pose proof (Strconv.Atoi_Itoa v Hv) as Ha.
  destruct (Strconv.Itoa_not_empty v) as (d & ds & E). rewrite E in *.
  rewrite bool_decide_true, Ha by done. done.
Qed.

(** What a string that parses looks like. *)
Lemma Parse_inv s v data :
  ParseCiphertext s = Ok (v, data) →
  ∃ num, s = CiphertextPrefix +:+ String ":"%char (String "v"%char num +:+ String ":"%char data) ∧
         Strconv.Atoi num = Some v.
Proof.
  unfold ParseCiphertext. intros H. pose proof (Strings.Join_Split ":"%char s) as J.
  destruct (Strings.Split ":"%char s) as [|p0 [|p1 [|p2 [|]]]]; try done.
  case_bool_decide as E0; cbn [negb] in H; [|done].
  destruct p1 as [|v' [|d ds]]; try done.
  case_bool_decide as E1; cbn [negb] in H; [|done]. subst.
  destruct (Strconv.Atoi (String d ds)) as [z|] eqn:Ez; [|done].
  injection H as -> ->. exists (String d ds). split; [reflexivity|done].
Qed.

Section laws.
Context {A : AEAD} {L : AEADLaws A}.

Lemma EncryptWithNonce_ok c pt aad nonce :
  length nonce = NonceSize →
  EncryptWithNonce c pt aad nonce =
    Ok (format_ciphertext (version c)
         (Base64.EncodeToString Base64.StdEncoding (nonce ++ Seal (aead_key c) nonce pt aad))).
Proof. intros H. unfold EncryptWithNonce. by rewrite H. Qed.

Lemma open_encoded_seal c msg pt aad nonce :
  valid_key_size (length (aead_key c)) = true → length nonce = NonceSize →
  open_encoded c msg
    (Base64.EncodeToString Base64.StdEncoding (nonce ++ Seal (aead_key c) nonce pt aad)) aad
  = if bool_decide (pt = []) then Err ErrCiphertextTooShort else Ok pt.
Proof.
  intros Hk Hn. unfold open_encoded. rewrite Base64.Decode_Encode, length_app, Hn.
  rewrite Seal_length by done. rewrite <- Hn, take_app_length, drop_app_length, Open_Seal by done.
  case_bool_decide as Hp.
  - subst pt. by rewrite (proj2 (Nat.ltb_lt _ _)) by (cbn; lia).
  - destruct pt as [|b pt]; [done|]. by rewrite (proj2 (Nat.ltb_ge _ _)) by (cbn; lia).
Qed.

Lemma Decrypt_EncryptWithNonce c pt aad nonce s :
  valid_key_size (length (aead_key c)) = true → in_int64 (version c) →
  EncryptWithNonce c pt aad nonce = Ok s →
  Decrypt c s aad =
    if bool_decide (pt = []) then Err ErrCiphertextTooShort else Ok (pt, version c).
Proof.
  intros Hk Hv He. unfold EncryptWithNonce in He.
  destruct (Nat.eqb_spec (length nonce) NonceSize) as [Hn|]; cbn in He; [|done].
  injection He as <-. unfold Decrypt.
  rewrite Parse_format by (done || apply Base64.Encode_no_colon). cbn.
  rewrite open_encoded_seal by done. by case_bool_decide.
Qed.

Lemma open_encoded_inv c msg encoded aad pt :
  valid_key_size (length (aead_key c)) = true →
  open_encoded c msg encoded aad = Ok pt →
  pt ≠ [] ∧ ∃ nonce, length nonce = NonceSize ∧
    Base64.DecodeString Base64.StdEncoding encoded = Some (nonce ++ Seal (aead_key c) nonce pt aad).
Proof.
  intros Hk. unfold open_encoded.
  destruct (Base64.DecodeString _ encoded) as [dec|]; [|done].
  destruct (Nat.ltb_spec (length dec) (NonceSize + Overhead + 1)) as [|Hl]; [done|].
  destruct (Open _ _ _ _) as [p|] eqn:Ho; [|done]. intros [= <-].
  assert (length (take NonceSize dec) = NonceSize) as Hn by (rewrite length_take; lia).
  apply Open_authentic in Ho; [|done..]. split.
  - intros ->. apply (f_equal length) in Ho.
    rewrite Seal_length, length_drop in Ho by done. cbn in Ho. lia.
  - exists (take NonceSize dec). split; [done|]. by rewrite <- Ho, take_drop.
Qed.

(** Encryption with a random nonce, parsed and decrypted again. *)
Lemma Encrypt_Decrypt key v c pt aad f :
  NewCipher key v = Ok c → in_int64 v →
  ∃ s data, Encrypt c pt aad (Some f) = Ok s ∧ ParseCiphertext s = Ok (v, data) ∧
    Decrypt c s aad = if bool_decide (pt = []) then Err ErrCiphertextTooShort else Ok (pt, v).
Proof.
  rewrite NewCipher_spec. destruct (valid_key_size (length key)) eqn:Hk; [|done].
  intros [= <-] Hv. unfold Encrypt.
  destruct (rand_Read NonceSize (Some f)) as [nonce|] eqn:Hn; [|done].
  apply rand_Read_length in Hn.
  set (c := {| aead_key := key; version := v |}).
  pose proof (EncryptWithNonce_ok c pt aad nonce Hn) as He.
  do 2 eexists. split; [exact He|]. split.
  - by apply Parse_format, Base64.Encode_no_colon.
  - by apply (Decrypt_EncryptWithNonce c pt aad nonce).
Qed.
End laws.

(** ** Properties *)

(** C7. Round trip: for a key of a valid size and any version of [int], encrypting a
    non-empty plaintext succeeds whenever the random source does, the result parses
    back to the cipher's version, and decrypting it with the same additional data
    returns exactly the plaintext and that version. *)
Theorem aes_roundtrip {A : AEAD} {L : AEADLaws A} key v c pt aad f :
  NewCipher key v = Ok c → in_int64 v → pt ≠ [] →
  ∃ s, Encrypt c pt aad (Some f) = Ok s ∧
       (∃ data, ParseCiphertext s = Ok (v, data)) ∧ Decrypt c s aad = Ok (pt, v).
Proof.
  intros Hc Hv Hp. destruct (Encrypt_Decrypt key v c pt aad f Hc Hv) as (s & data & He & Hs & Hd).
  exists s. split_and!; [done|by exists data|]. by rewrite Hd, bool_decide_false.
Qed.

(** The round trip on AES-256-GCM itself, with a negative version and additional data. *)
Lemma aes_roundtrip_witness :
  ∃ s, Encrypt {| aead_key := replicate 32 zero; version := -7 |} (to_bytes "hello")
         (to_bytes "ctx") (Some (λ _, one)) = Ok s ∧
       (∃ data, ParseCiphertext s = Ok (-7, data)) ∧
       Decrypt {| aead_key := replicate 32 zero; version := -7 |} s (to_bytes "ctx")
       = Ok (to_bytes "hello", -7).
Proof.
  apply (aes_roundtrip (replicate 32 zero) (-7)); [reflexivity|unfold in_int64; lia|done].
Defined.

(** C32. Authenticity: whatever string [Decrypt] accepts, its base64 part is a 12-byte
    nonce followed by the AEAD's encryption, under this key, that nonce and the same
    additional data, of the plaintext it returns, which is not empty; the version it
    returns is the number in the string, whatever the version of the cipher is. *)
Theorem aes_authentic {A : AEAD} {L : AEADLaws A} key v c s aad pt v' :
  NewCipher key v = Ok c → Decrypt c s aad = Ok (pt, v') →
  pt ≠ [] ∧ ∃ num data nonce,
    s = CiphertextPrefix +:+ String ":"%char (String "v"%char num +:+ String ":"%char data) ∧
    Strconv.Atoi num = Some v' ∧ length nonce = NonceSize ∧
    Base64.DecodeString Base64.StdEncoding data = Some (nonce ++ Seal key nonce pt aad).
Proof.
  rewrite NewCipher_spec. destruct (valid_key_size (length key)) eqn:Hk; [|done].
  intros [= <-]. unfold Decrypt.
  destruct (ParseCiphertext s) as [[w data]|] eqn:Hs; cbn; [|done].
  destruct (open_encoded _ _ data aad) as [q|] eqn:Ho; cbn; [|done]. intros [= -> ->].
  apply Parse_inv in Hs as (num & -> & Hnum).
  apply open_encoded_inv in Ho as (Hp & nonce & Hn & Hd); [|done]. eauto 10.
Qed.

(** A cipher of version 1 accepting a ciphertext labelled with version 2. *)
Lemma aes_authentic_witness :
  to_bytes "x" ≠ [] ∧ ∃ num data nonce,
    "vault:v2:AAAAAAAAAAAAAAAAtvibg6SOfSwAI6s7kGFCFqU=" =
      CiphertextPrefix +:+ String ":"%char (String "v"%char num +:+ String ":"%char data) ∧
    Strconv.Atoi num = Some 2 ∧ length nonce = NonceSize ∧
    Base64.DecodeString Base64.StdEncoding data =
      Some (nonce ++ Seal (replicate 32 zero) nonce (to_bytes "x") []).
Proof.
  apply (aes_authentic (replicate 32 zero) 1 {| aead_key := replicate 32 zero; version := 1 |});
    vm_compute; reflexivity.
Defined.

(** An empty plaintext is encrypted but cannot be decrypted: [Decrypt] asks for at
    least one byte between the nonce and the tag and answers [ErrCiphertextTooShort]. *)
Theorem aes_empty_plaintext {A : AEAD} {L : AEADLaws A} key v c aad f :
  NewCipher key v = Ok c → in_int64 v →
  ∃ s, Encrypt c [] aad (Some f) = Ok s ∧ Decrypt c s aad = Err ErrCiphertextTooShort.
Proof.
  intros Hc Hv. destruct (Encrypt_Decrypt key v c [] aad f Hc Hv) as (s & data & He & _ & Hd).
  by exists s.
Qed.

Lemma aes_empty_plaintext_witness :
  ∃ s, Encrypt {| aead_key := replicate 16 zero; version := 1 |} [] [] (Some (λ _, zero)) = Ok s ∧
       Decrypt {| aead_key := replicate 16 zero; version := 1 |} s [] = Err ErrCiphertextTooShort.
Proof.
  apply (aes_empty_plaintext (replicate 16 zero) 1); [reflexivity|unfold in_int64; lia].
Defined.
End Aes.
