(* ===== verification/Keyring.v ===== *)
(** * pkg/crypto/keyring: versioned key management

    The key material is shared: [GetKeyVersion] hands out a pointer to a [Key]
    whose byte slice the keyring keeps using, and [Seal] overwrites these slices
    in place. The model therefore keeps the byte arrays in a store, [heap], and a
    [Key] holds the location of its array. A policy object belongs to one name of
    the map, so policies are held by value. A cipher keeps its own expanded key
    and does not refer to the array it was made from.

    [int] versions are unbounded here: the counter is bumped once for each key
    held in memory, so it does not reach 2^63. *)

From S2P Require Import Prelude GoStd Aead Aes.
Local Open Scope Z_scope.

Module Keyring.

Inductive KeyType :=
  | KeyTypeAES256GCM | KeyTypeChacha20Poly1305 | KeyTypeRSA2048 | KeyTypeRSA4096
  | KeyTypeECDSAP256 | KeyTypeECDSAP384 | KeyTypeEd25519 | KeyTypeFPEFF1.

#[export] Instance KeyType_eq_dec : EqDecision KeyType.
Proof. solve_decision. Defined.

Definition ErrKeyNotFound : error := sentinel "keyring" "ErrKeyNotFound" "key not found".
Definition ErrVersionNotFound : error := sentinel "keyring" "ErrVersionNotFound" "key version not found".
Definition ErrKeyringSealed : error := sentinel "keyring" "ErrKeyringSealed" "keyring is sealed".
Definition ErrKeyringNotSealed : error := sentinel "keyring" "ErrKeyringNotSealed" "keyring is not sealed".
Definition ErrInvalidMasterKey : error := sentinel "keyring" "ErrInvalidMasterKey" "invalid master key".
Definition ErrVersionBelowMin : error := sentinel "keyring" "ErrVersionBelowMin" "key version below minimum allowed".

(** The location of a byte array. *)
Abbreviation loc := nat (only parsing).

Record Key := {
  Version : Z;
  KeyLoc : loc;
  PublicKey : bytes;
  KType : KeyType;
  KCreatedAt : time
}.

Record KeyPolicy := {
  Name : string;
  Type_ : KeyType;
  LatestVersion : Z;
  MinDecryptionVersion : Z;
  MinEncryptionVersion : Z;
  Exportable : bool;
  Derived : bool;
  ConvergentEncryption : bool;
  AutoRotatePeriod : Z;
  DeletionAllowed : bool;
  Keys : list Key;
  CreatedAt : time;
  UpdatedAt : time
}.

Record Keyring := {
  policies : gmap string KeyPolicy;
  ciphers : gmap string (gmap Z Aes.Cipher);
  sealed : bool;
  heap : gmap loc bytes
}.

Definition set_LatestVersion (v : Z) (p : KeyPolicy) : KeyPolicy :=
  {| Name := Name p; Type_ := Type_ p; LatestVersion := v; MinDecryptionVersion :=
     MinDecryptionVersion p; MinEncryptionVersion := MinEncryptionVersion p; Exportable
     := Exportable p; Derived := Derived p; ConvergentEncryption := ConvergentEncryption
     p; AutoRotatePeriod := AutoRotatePeriod p; DeletionAllowed := DeletionAllowed p;
     Keys := Keys p; CreatedAt := CreatedAt p; UpdatedAt := UpdatedAt p |}.
Definition set_MinDecryptionVersion (v : Z) (p : KeyPolicy) : KeyPolicy :=
  {| Name := Name p; Type_ := Type_ p; LatestVersion := LatestVersion p;
     MinDecryptionVersion := v; MinEncryptionVersion := MinEncryptionVersion p;
     Exportable := Exportable p; Derived := Derived p; ConvergentEncryption :=
     ConvergentEncryption p; AutoRotatePeriod := AutoRotatePeriod p; DeletionAllowed :=
     DeletionAllowed p; Keys := Keys p; CreatedAt := CreatedAt p; UpdatedAt := UpdatedAt
     p |}.
Definition set_MinEncryptionVersion (v : Z) (p : KeyPolicy) : KeyPolicy :=
  {| Name := Name p; Type_ := Type_ p; LatestVersion := LatestVersion p;
     MinDecryptionVersion := MinDecryptionVersion p; MinEncryptionVersion := v;
     Exportable := Exportable p; Derived := Derived p; ConvergentEncryption :=
     ConvergentEncryption p; AutoRotatePeriod := AutoRotatePeriod p; DeletionAllowed :=
     DeletionAllowed p; Keys := Keys p; CreatedAt := CreatedAt p; UpdatedAt := UpdatedAt
     p |}.
Definition set_Exportable (v : bool) (p : KeyPolicy) : KeyPolicy :=
  {| Name := Name p; Type_ := Type_ p; LatestVersion := LatestVersion p;
     MinDecryptionVersion := MinDecryptionVersion p; MinEncryptionVersion :=
     MinEncryptionVersion p; Exportable := v; Derived := Derived p; ConvergentEncryption
     := ConvergentEncryption p; AutoRotatePeriod := AutoRotatePeriod p; DeletionAllowed
     := DeletionAllowed p; Keys := Keys p; CreatedAt := CreatedAt p; UpdatedAt :=
     UpdatedAt p |}.
Definition set_Derived (v : bool) (p : KeyPolicy) : KeyPolicy :=
  {| Name := Name p; Type_ := Type_ p; LatestVersion := LatestVersion p;
     MinDecryptionVersion := MinDecryptionVersion p; MinEncryptionVersion :=
     MinEncryptionVersion p; Exportable := Exportable p; Derived := v;
     ConvergentEncryption := ConvergentEncryption p; AutoRotatePeriod := AutoRotatePeriod
     p; DeletionAllowed := DeletionAllowed p; Keys := Keys p; CreatedAt := CreatedAt p;
     UpdatedAt := UpdatedAt p |}.
Definition set_ConvergentEncryption (v : bool) (p : KeyPolicy) : KeyPolicy :=
  {| Name := Name p; Type_ := Type_ p; LatestVersion := LatestVersion p;
     MinDecryptionVersion := MinDecryptionVersion p; MinEncryptionVersion :=
     MinEncryptionVersion p; Exportable := Exportable p; Derived := Derived p;
     ConvergentEncryption := v; AutoRotatePeriod := AutoRotatePeriod p; DeletionAllowed
     := DeletionAllowed p; Keys := Keys p; CreatedAt := CreatedAt p; UpdatedAt :=
     UpdatedAt p |}.
Definition set_AutoRotatePeriod (v : Z) (p : KeyPolicy) : KeyPolicy :=
  {| Name := Name p; Type_ := Type_ p; LatestVersion := LatestVersion p;
     MinDecryptionVersion := MinDecryptionVersion p; MinEncryptionVersion :=
     MinEncryptionVersion p; Exportable := Exportable p; Derived := Derived p;
     ConvergentEncryption := ConvergentEncryption p; AutoRotatePeriod := v;
     DeletionAllowed := DeletionAllowed p; Keys := Keys p; CreatedAt := CreatedAt p;
     UpdatedAt := UpdatedAt p |}.
Definition set_DeletionAllowed (v : bool) (p : KeyPolicy) : KeyPolicy :=
  {| Name := Name p; Type_ := Type_ p; LatestVersion := LatestVersion p;
     MinDecryptionVersion := MinDecryptionVersion p; MinEncryptionVersion :=
     MinEncryptionVersion p; Exportable := Exportable p; Derived := Derived p;
     ConvergentEncryption := ConvergentEncryption p; AutoRotatePeriod := AutoRotatePeriod
     p; DeletionAllowed := v; Keys := Keys p; CreatedAt := CreatedAt p; UpdatedAt :=
     UpdatedAt p |}.
Definition set_Keys (v : list Key) (p : KeyPolicy) : KeyPolicy :=
  {| Name := Name p; Type_ := Type_ p; LatestVersion := LatestVersion p;
     MinDecryptionVersion := MinDecryptionVersion p; MinEncryptionVersion :=
     MinEncryptionVersion p; Exportable := Exportable p; Derived := Derived p;
     ConvergentEncryption := ConvergentEncryption p; AutoRotatePeriod := AutoRotatePeriod
     p; DeletionAllowed := DeletionAllowed p; Keys := v; CreatedAt := CreatedAt p;
     UpdatedAt := UpdatedAt p |}.
Definition set_UpdatedAt (v : time) (p : KeyPolicy) : KeyPolicy :=
  {| Name := Name p; Type_ := Type_ p; LatestVersion := LatestVersion p;
     MinDecryptionVersion := MinDecryptionVersion p; MinEncryptionVersion :=
     MinEncryptionVersion p; Exportable := Exportable p; Derived := Derived p;
     ConvergentEncryption := ConvergentEncryption p; AutoRotatePeriod := AutoRotatePeriod
     p; DeletionAllowed := DeletionAllowed p; Keys := Keys p; CreatedAt := CreatedAt p;
     UpdatedAt := v |}.

Definition set_policies (v : gmap string KeyPolicy) (kr : Keyring) : Keyring :=
  {| policies := v; ciphers := ciphers kr; sealed := sealed kr; heap := heap kr |}.
Definition set_ciphers (v : gmap string (gmap Z Aes.Cipher)) (kr : Keyring) : Keyring :=
  {| policies := policies kr; ciphers := v; sealed := sealed kr; heap := heap kr |}.
Definition set_heap (v : gmap loc bytes) (kr : Keyring) : Keyring :=
  {| policies := policies kr; ciphers := ciphers kr; sealed := sealed kr; heap := v |}.

Definition NewKeyring (h : gmap loc bytes) : Keyring :=
  {| policies := ∅; ciphers := ∅; sealed := false; heap := h |}.

(** A [KeyOption] is a function on the policy; the seven of the package. *)
Definition KeyOption := KeyPolicy → KeyPolicy.
Definition WithExportable (b : bool) : KeyOption := set_Exportable b.
Definition WithDerived (b : bool) : KeyOption := set_Derived b.
Definition WithConvergentEncryption (b : bool) : KeyOption := set_ConvergentEncryption b.
Definition WithMinDecryptionVersion (v : Z) : KeyOption := set_MinDecryptionVersion v.
Definition WithMinEncryptionVersion (v : Z) : KeyOption := set_MinEncryptionVersion v.
Definition WithAutoRotatePeriod (s : Z) : KeyOption := set_AutoRotatePeriod s.
Definition WithDeletionAllowed (b : bool) : KeyOption := set_DeletionAllowed b.

Inductive pkg_option : KeyOption → Prop :=
  | opt_exportable b : pkg_option (WithExportable b)
  | opt_derived b : pkg_option (WithDerived b)
  | opt_convergent b : pkg_option (WithConvergentEncryption b)
  | opt_min_dec v : pkg_option (WithMinDecryptionVersion v)
  | opt_min_enc v : pkg_option (WithMinEncryptionVersion v)
  | opt_auto_rotate s : pkg_option (WithAutoRotatePeriod s)
  | opt_deletion b : pkg_option (WithDeletionAllowed b).

(** [for _, opt := range opts { opt(policy) }] *)
Definition apply_opts (opts : list KeyOption) (p : KeyPolicy) : KeyPolicy :=
  List.fold_left (λ p opt, opt p) opts p.

(** The size of the generated keys: 32 bytes in every branch of the switch. *)
Definition key_size (t : KeyType) : nat :=
  match t with
  | KeyTypeAES256GCM | KeyTypeChacha20Poly1305 | KeyTypeFPEFF1 => 32
  | _ => 32
  end.

(** A location the store does not use: one above the largest. *)
Definition alloc (h : gmap loc bytes) : loc := S (max_list (elements (dom h))).

Definition generateKeyVersion (p : KeyPolicy) (h : gmap loc bytes) (r : entropy) (now : time)
    : option (KeyPolicy * gmap loc bytes) :=
  match rand_Read (key_size (Type_ p)) r with
  | None => None
  | Some keyBytes =>
      let l := alloc h in
      let v := LatestVersion p + 1 in
      let key := {| Version := v; KeyLoc := l; PublicKey := []; KType := Type_ p; KCreatedAt := now |} in
      Some (set_Keys (Keys p ++ [key]) (set_LatestVersion v p), <[l := keyBytes]> h)
  end.

Definition errRand : error := errorString "rand".

(** [clk 0], [clk 1], ... are the successive readings of the clock. *)
Definition CreateKey (kr : Keyring) (name : string) (keyType : KeyType) (opts : list KeyOption)
    (r : entropy) (clk : nat → time) : Keyring * result KeyPolicy :=
  if sealed kr then (kr, Err ErrKeyringSealed)
  else match policies kr !! name with
  | Some _ => (kr, Err (errorString "key already exists"))
  | None =>
      let policy := apply_opts opts
        {| Name := name; Type_ := keyType; LatestVersion := 0; MinDecryptionVersion := 1;
           MinEncryptionVersion := 0; Exportable := false; Derived := false;
           ConvergentEncryption := false; AutoRotatePeriod := 0; DeletionAllowed := false;
           Keys := []; CreatedAt := clk 0%nat; UpdatedAt := clk 1%nat |} in
      match generateKeyVersion policy (heap kr) r (clk 2%nat) with
      | None => (kr, Err errRand)
      | Some (policy', h') =>
          (set_heap h' (set_policies (<[name := policy']> (policies kr)) kr), Ok policy')
      end
  end.

Definition GetKey (kr : Keyring) (name : string) : result KeyPolicy :=
  if sealed kr then Err ErrKeyringSealed
  else match policies kr !! name with
  | None => Err ErrKeyNotFound
  | Some policy => Ok policy
  end.

(** [for _, key := range policy.Keys { if key.Version == version ... }] *)
Definition find_version (ks : list Key) (version : Z) : option Key :=
  List.find (λ k, Version k =? version) ks.

(** Version 0 stands for the latest one. *)
Definition resolve (p : KeyPolicy) (version : Z) : Z :=
  if version =? 0 then LatestVersion p else version.

Definition GetKeyVersion (kr : Keyring) (name : string) (version : Z) : result Key :=
  if sealed kr then Err ErrKeyringSealed
  else match policies kr !! name with
  | None => Err ErrKeyNotFound
  | Some policy =>
      let version := resolve policy version in
      if version <? MinDecryptionVersion policy then Err ErrVersionBelowMin
      else match find_version (Keys policy) version with
           | Some key => Ok key
           | None => Err ErrVersionNotFound
           end
  end.

(** The bytes a location holds; every location a policy refers to is allocated. *)
Definition deref (h : gmap loc bytes) (l : loc) : bytes := default [] (h !! l).

Definition cached_cipher (kr : Keyring) (name : string) (version : Z) : option Aes.Cipher :=
  m ← ciphers kr !! name; m !! version.

Definition GetCipher (kr : Keyring) (name : string) (version : Z) : Keyring * result Aes.Cipher :=
  if sealed kr then (kr, Err ErrKeyringSealed)
  else match policies kr !! name with
  | None => (kr, Err ErrKeyNotFound)
  | Some policy =>
      let version := resolve policy version in
      match cached_cipher kr name version with
      | Some cipher => (kr, Ok cipher)
      | None =>
          match find_version (Keys policy) version with
          | None => (kr, Err ErrVersionNotFound)
          | Some key =>
              match Aes.NewCipher (deref (heap kr) (KeyLoc key)) (Version key) with
              | Err e => (kr, Err e)
              | Ok cipher =>
                  let m := default ∅ (ciphers kr !! name) in
                  (set_ciphers (<[name := <[version := cipher]> m]> (ciphers kr)) kr, Ok cipher)
              end
          end
      end
  end.

Definition RotateKey (kr : Keyring) (name : string) (r : entropy) (clk : nat → time)
    : Keyring * result Z :=
  if sealed kr then (kr, Err ErrKeyringSealed)
  else match policies kr !! name with
  | None => (kr, Err ErrKeyNotFound)
  | Some policy =>
      match generateKeyVersion policy (heap kr) r (clk 0%nat) with
      | None => (kr, Err errRand)
      | Some (policy', h') =>
          let policy' := set_UpdatedAt (clk 1%nat) policy' in
          (set_heap h' (set_policies (<[name := policy']> (policies kr)) kr),
           Ok (LatestVersion policy'))
      end
  end.

Definition DeleteKey (kr : Keyring) (name : string) : Keyring * option error :=
  if sealed kr then (kr, Some ErrKeyringSealed)
  else match policies kr !! name with
  | None => (kr, Some ErrKeyNotFound)
  | Some policy =>
      if negb (DeletionAllowed policy) then
        (kr, Some (errorString "deletion not allowed for this key"))
      else
        (set_ciphers (delete name (ciphers kr)) (set_policies (delete name (policies kr)) kr), None)
  end.

(** The names, in the order Go's map iteration happens to choose. *)
Definition ListKeys (kr : Keyring) : list string := (map_to_list (policies kr)).*1.

Definition UpdateConfig (kr : Keyring) (name : string) (opts : list KeyOption) (now : time)
    : Keyring * option error :=
  if sealed kr then (kr, Some ErrKeyringSealed)
  else match policies kr !! name with
  | None => (kr, Some ErrKeyNotFound)
  | Some policy =>
      let policy' := set_UpdatedAt now (apply_opts opts policy) in
      (set_policies (<[name := policy']> (policies kr)) kr, None)
  end.

(** [for i := range key.Key { key.Key[i] = 0 }] *)
Definition zero_array (h : gmap loc bytes) (l : loc) : gmap loc bytes :=
  alter (λ b, replicate (length b) zero) l h.

(** The arrays of every version of every policy. *)
Definition key_locs (ps : gmap string KeyPolicy) : list loc :=
  concat ((λ np : string * KeyPolicy, KeyLoc <$> Keys np.2) <$> map_to_list ps).

Definition Seal (kr : Keyring) : Keyring :=
  {| policies := ∅; ciphers := ∅; sealed := true;
     heap := List.fold_left zero_array (key_locs (policies kr)) (heap kr) |}.

Definition IsSealed (kr : Keyring) : bool := sealed kr.

(** ** The invariant *)

(** The versions of a policy are 1, 2, ..., [LatestVersion] in this order, and
    every version has an allocated array of 32 bytes. *)
Record policy_wf (h : gmap loc bytes) (name : string) (p : KeyPolicy) : Prop := {
  wf_name : Name p = name;
  wf_latest : 0 < LatestVersion p;
  wf_versions : Version <$> Keys p = seqZ 1 (LatestVersion p);
  wf_arrays : Forall (λ k, ∃ b, h !! KeyLoc k = Some b ∧ length b = 32%nat) (Keys p)
}.

(** A cached cipher is the one made from the array of its version. *)
Definition caches (kr : Keyring) (p : KeyPolicy) (v : Z) (c : Aes.Cipher) : Prop :=
  ∃ k, find_version (Keys p) v = Some k ∧
       c = {| Aes.aead_key := deref (heap kr) (KeyLoc k); Aes.version := v |}.

(** No two versions, of one policy or of two, share an array. *)
Definition apart (ps : gmap string KeyPolicy) : Prop :=
  ∀ n p i k n' p' i' k',
    ps !! n = Some p → Keys p !! i = Some k → ps !! n' = Some p' → Keys p' !! i' = Some k' →
    KeyLoc k = KeyLoc k' → n = n' ∧ i = i'.

Record wf (kr : Keyring) : Prop := {
  wf_policies name p : policies kr !! name = Some p → policy_wf (heap kr) name p;
  wf_ciphers name v c : cached_cipher kr name v = Some c →
    ∃ p, policies kr !! name = Some p ∧ caches kr p v c;
  wf_apart : apart (policies kr);
  wf_sealed : sealed kr = true → policies kr = ∅
}.

(** ** Lemmas on versions *)

Lemma find_version_seqZ ks a n v :
  Version <$> ks = seqZ a n →
  find_version ks v = if bool_decide (a ≤ v) then ks !! Z.to_nat (v - a) else None.
Proof.
  revert a n. induction ks as [|k ks IH]; intros a n H; [by case_bool_decide|].
  destruct (decide (n ≤ 0)) as [Hn|Hn]; [by rewrite seqZ_nil in H by lia|].
  rewrite seqZ_cons in H by lia. cbn in H. injection H as Hk Hks.
  unfold find_version in *. cbn [List.find]. rewrite Hk, (IH _ _ Hks).
  destruct (Z.eqb_spec a v) as [->|Hne].
  - rewrite bool_decide_true by done. by replace (v - v) with 0 by lia.
  - case_bool_decide as H1; case_bool_decide as H2; try lia; [|done].
    replace (Z.to_nat (v - a)) with (S (Z.to_nat (v - Z.succ a))) by lia. done.
Qed.

Lemma find_version_app ks k v :
  find_version (ks ++ [k]) v =
    match find_version ks v with
    | Some k' => Some k'
    | None => if Version k =? v then Some k else None
    end.
Proof. unfold find_version. induction ks as [|a ks IH]; cbn; [done|]. rewrite IH. by destruct (Version a =? v). Qed.

Lemma find_version_Version ks v k : find_version ks v = Some k → Version k = v.
Proof. intros H%List.find_some. lia. Qed.

Lemma find_version_in ks v k : find_version ks v = Some k → k ∈ ks.
Proof. intros [H _]%List.find_some. by apply list_elem_of_In. Qed.

(** A well-formed policy has exactly the versions from 1 to the latest one. *)
Lemma find_version_wf h name p v :
  policy_wf h name p → is_Some (find_version (Keys p) v) ↔ 1 ≤ v ≤ LatestVersion p.
Proof.
  intros [_ Hl Hv _]. rewrite (find_version_seqZ _ _ _ v Hv).
  assert (length (Keys p) = Z.to_nat (LatestVersion p)) as E.
  { by rewrite <- (length_fmap Version), Hv, length_seqZ. }
  case_bool_decide.
  - rewrite lookup_lt_is_Some. lia.
  - split; [by intros []|lia].
Qed.

Lemma alloc_fresh h : h !! alloc h = None.
Proof.
  apply not_elem_of_dom. intros H%elem_of_elements.
  apply max_list_elem_of_le in H. unfold alloc in H. lia.
Qed.

Lemma policy_wf_array h name p k :
  policy_wf h name p → k ∈ Keys p → ∃ b, h !! KeyLoc k = Some b ∧ length b = 32%nat.
Proof. intros [_ _ _ Ha] Hk. rewrite Forall_forall in Ha. by apply Ha. Qed.

(** Allocation leaves the arrays of the other policies alone. *)
Lemma policy_wf_mono h name p b : policy_wf h name p → policy_wf (<[alloc h := b]> h) name p.
Proof.
  intros [Hn Hl Hv Ha]. split; try done.
  eapply Forall_impl; [exact Ha|]. intros k (b' & Hb & Hlen).
  exists b'. split; [|done]. rewrite lookup_insert_ne; [done|].
  intros E. rewrite <- E, alloc_fresh in Hb. done.
Qed.

Lemma caches_mono kr p v c b :
  wf kr → (∃ name, policies kr !! name = Some p) → caches kr p v c →
  caches (set_heap (<[alloc (heap kr) := b]> (heap kr)) kr) p v c.
Proof.
  intros W [name Hp] (k & Hk & ->). exists k. split; [done|]. f_equal. cbn.
  unfold deref. destruct (policy_wf_array _ _ _ k (wf_policies _ W _ _ Hp)) as (b' & Hb & _).
  { by eapply find_version_in. }
  rewrite lookup_insert_ne; [done|]. intros E. by rewrite <- E, alloc_fresh in Hb.
Qed.

(** *** generateKeyVersion *)

Lemma generate_wf h name p r now p' h' :
  generateKeyVersion p h r now = Some (p', h') →
  Name p = name → 0 ≤ LatestVersion p → Version <$> Keys p = seqZ 1 (LatestVersion p) →
  Forall (λ k, ∃ b, h !! KeyLoc k = Some b ∧ length b = 32%nat) (Keys p) →
  policy_wf h' name p' ∧ LatestVersion p' = LatestVersion p + 1 ∧
  ∃ k b, Keys p' = Keys p ++ [k] ∧ Version k = LatestVersion p + 1 ∧ KType k = Type_ p ∧
         h' = <[alloc h := b]> h ∧ KeyLoc k = alloc h ∧ length b = 32%nat.
Proof.
  unfold generateKeyVersion. destruct (rand_Read _ r) as [b|] eqn:Hb; [|done].
  assert (length b = 32%nat) as Hlen.
  { apply rand_Read_length in Hb. rewrite Hb. by destruct (Type_ p). }
  intros [= <- <-] Hn Hl Hv Ha. split; [|eauto 10]. split; cbn; [done|lia| |].
  - rewrite fmap_app, Hv. cbn. rewrite seqZ_app by lia. cbn.
    replace (1 + LatestVersion p) with (LatestVersion p + 1) by lia. done.
  - rewrite Forall_app. split; [|constructor; [|done]].
    + eapply Forall_impl; [exact Ha|]. intros k (b' & Hb' & Hlen').
      exists b'. split; [|done]. rewrite lookup_insert_ne; [done|].
      intros E. by rewrite <- E, alloc_fresh in Hb'.
    + exists b. split; [apply lookup_insert_eq|done].
Qed.

(** Options of the package leave the name, the keys and their count alone. *)
Definition same_keys (p q : KeyPolicy) : Prop :=
  Name p = Name q ∧ Type_ p = Type_ q ∧ LatestVersion p = LatestVersion q ∧ Keys p = Keys q.

Lemma apply_opts_same opts p : Forall pkg_option opts → same_keys (apply_opts opts p) p.
Proof.
  intros H. revert p. unfold apply_opts. induction H as [|o opts Ho _ IH]; intros p; [done|].
  cbn. destruct (IH (o p)) as (H1 & H2 & H3 & H4). unfold same_keys.
  rewrite H1, H2, H3, H4. by destruct Ho.
Qed.

Lemma policy_wf_same h name p q : same_keys q p → policy_wf h name p → policy_wf h name q.
Proof. intros (H1 & _ & H3 & H4) []. split; by rewrite ?H1, ?H3, ?H4. Qed.

(** *** Preservation *)

Lemma NewKeyring_wf h : wf (NewKeyring h).
Proof. split; cbn; [done| |done|done]. intros. unfold cached_cipher in *. done. Qed.

Lemma cached_set_policies ps kr : cached_cipher (set_policies ps kr) = cached_cipher kr.
Proof. done. Qed.

(** The keys a name has. *)
Definition keys_of (kr : Keyring) (name : string) : list Key :=
  match policies kr !! name with Some p => Keys p | None => [] end.

(** A policy whose keys are those of a policy that was there, or fewer. *)
Lemma apart_incl ps ps' :
  (∀ n p', ps' !! n = Some p' → ∃ p, ps !! n = Some p ∧ Keys p' = Keys p) → apart ps → apart ps'.
Proof.
  intros Hin A n p i k n' p' i' k' Hp Hk Hp' Hk'.
  destruct (Hin n p Hp) as (q & Hq & E), (Hin n' p' Hp') as (q' & Hq' & E').
  rewrite E in Hk. rewrite E' in Hk'. by eapply A.
Qed.

(** A policy with one more key, whose array is new. *)
Lemma apart_snoc kr name p' k b :
  wf kr → Keys p' = keys_of kr name ++ [k] → KeyLoc k = alloc (heap kr) →
  apart (policies (set_heap b (set_policies (<[name := p']> (policies kr)) kr))).
Proof.
  intros W Hks Hk. cbn.
  assert (∀ n p i x, <[name := p']> (policies kr) !! n = Some p → Keys p !! i = Some x →
            (n = name ∧ i = length (keys_of kr name) ∧ x = k) ∨
            (KeyLoc x ≠ KeyLoc k ∧ ∃ q, policies kr !! n = Some q ∧ Keys q !! i = Some x)) as Hcase.
  { assert (∀ n q i x, policies kr !! n = Some q → Keys q !! i = Some x → KeyLoc x ≠ KeyLoc k) as Hold.
    { intros n q i x Hq Hx%list_elem_of_lookup_2 E.
      destruct (policy_wf_array _ _ _ x (wf_policies _ W _ _ Hq) Hx) as (c & Hc & _).
      by rewrite E, Hk, alloc_fresh in Hc. }
    intros n p i x [[<- <-]|[Hne Hp]]%lookup_insert_Some Hx; [|right; eauto].
    rewrite Hks in Hx. apply lookup_app_Some in Hx as [Hx|[Hi Hx]].
    - right. unfold keys_of in Hx. destruct (policies kr !! name) as [q|] eqn:Hq; [eauto|done].
    - left. apply list_lookup_singleton_Some in Hx as [? ?]. repeat split; [lia|done]. }
  intros n p i x n' q i' x' Hp Hx Hq Hx' E.
  destruct (Hcase n p i x Hp Hx) as [(-> & -> & ->)|(Hne & p1 & Hp1 & Hx1)],
    (Hcase n' q i' x' Hq Hx') as [(-> & -> & ->)|(Hne' & q1 & Hq1 & Hx1')]; try congruence.
  - done.
  - by eapply (wf_apart _ W).
Qed.

(** Replacing one policy by one with a new key and its array preserves [wf]. *)
Lemma wf_insert kr name p' k b :
  wf kr → sealed kr = false →
  policy_wf (<[alloc (heap kr) := b]> (heap kr)) name p' →
  Keys p' = keys_of kr name ++ [k] → KeyLoc k = alloc (heap kr) →
  wf (set_heap (<[alloc (heap kr) := b]> (heap kr)) (set_policies (<[name := p']> (policies kr)) kr)).
Proof.
  intros W Hs Hp' Hks Hloc. split; cbn.
  - intros n p. destruct (decide (n = name)) as [->|Hne].
    + rewrite lookup_insert_eq. by intros [= <-].
    + rewrite lookup_insert_ne by done. intros Hp. by apply policy_wf_mono, (wf_policies _ W).
  - intros n v c Hc. destruct (wf_ciphers _ W n v c Hc) as (p & Hp & Hcs).
    assert (caches (set_heap (<[alloc (heap kr) := b]> (heap kr)) kr) p v c) as (k' & Hk & ->).
    { eapply caches_mono; eauto. }
    destruct (decide (n = name)) as [->|Hne].
    + exists p'. rewrite lookup_insert_eq. split; [done|]. exists k'. split; [|done].
      unfold keys_of in Hks. rewrite Hp in Hks. by rewrite Hks, find_version_app, Hk.
    + exists p. rewrite lookup_insert_ne by done. split; [done|]. by exists k'.
  - by apply (apart_snoc kr name p' k (heap kr)).
  - congruence.
Qed.

Lemma CreateKey_wf kr name t opts r clk :
  wf kr → Forall pkg_option opts → wf (CreateKey kr name t opts r clk).1.
Proof.
  intros W Ho. unfold CreateKey. destruct (sealed kr) eqn:Hs; [done|].
  destruct (policies kr !! name) eqn:Hp; [done|].
  set (p0 := {| Name := name |}).
  destruct (apply_opts_same opts p0 Ho) as (H1 & H2 & H3 & H4).
  destruct (generateKeyVersion _ _ _ _) as [[p' h']|] eqn:Hg; [|done].
  apply (generate_wf _ name) in Hg; [|by rewrite ?H1, ?H3, ?H4..].
  destruct Hg as (Wp & _ & k & b & Hks & _ & _ & -> & Hloc & _). cbn.
  apply (wf_insert _ _ _ k); [done..| |done]. unfold keys_of. by rewrite Hp, Hks, H4.
Qed.

Lemma RotateKey_wf kr name r clk : wf kr → wf (RotateKey kr name r clk).1.
Proof.
  intros W. unfold RotateKey. destruct (sealed kr) eqn:Hs; [done|].
  destruct (policies kr !! name) as [p|] eqn:Hp; [|done].
  destruct (generateKeyVersion _ _ _ _) as [[p' h']|] eqn:Hg; [|done].
  pose proof (wf_policies _ W _ _ Hp) as [Hn Hl Hv Ha].
  apply (generate_wf _ name) in Hg; [|done || lia..].
  destruct Hg as (Wp & _ & k & b & Hk & _ & _ & -> & Hloc & _). cbn.
  apply (wf_insert _ _ _ k); [done|done|by apply (policy_wf_same _ _ p')| |done].
  unfold keys_of. by rewrite Hp.
Qed.

Lemma GetCipher_wf kr name version : wf kr → wf (GetCipher kr name version).1.
Proof.
  intros W. unfold GetCipher. destruct (sealed kr) eqn:Hs; [done|].
  destruct (policies kr !! name) as [p|] eqn:Hp; [|done].
  destruct (cached_cipher kr name (resolve p version)) eqn:Hc; [done|].
  destruct (find_version (Keys p) (resolve p version)) as [k|] eqn:Hk; [|done].
  rewrite Aes.NewCipher_spec. destruct (valid_key_size _); [|done]. cbn.
  pose proof (find_version_Version _ _ _ Hk) as Ev.
  split; cbn; [apply W| |apply W|apply W].
  intros n v c. unfold cached_cipher. cbn. destruct (decide (n = name)) as [->|Hne].
  - rewrite lookup_insert_eq. cbn. destruct (decide (v = resolve p version)) as [->|Hv].
    + rewrite lookup_insert_eq. intros [= <-]. exists p. split; [done|]. exists k. by rewrite Ev.
    + rewrite lookup_insert_ne by done. intros Hc'. apply (wf_ciphers _ W name v c).
      unfold cached_cipher. destruct (ciphers kr !! name); cbn in *; done.
  - rewrite lookup_insert_ne by done. apply (wf_ciphers _ W n v c).
Qed.

Lemma DeleteKey_wf kr name : wf kr → wf (DeleteKey kr name).1.
Proof.
  intros W. unfold DeleteKey. destruct (sealed kr) eqn:Hs; [done|].
  destruct (policies kr !! name) as [p|] eqn:Hp; [|done].
  destruct (DeletionAllowed p); [|done]. cbn. split; cbn.
  - intros n q. rewrite lookup_delete_Some. intros [_ Hq]. by apply (wf_policies _ W).
  - intros n v c. unfold cached_cipher. cbn. destruct (decide (n = name)) as [->|Hne].
    + by rewrite lookup_delete_eq.
    + rewrite !lookup_delete_ne by done. apply (wf_ciphers _ W n v c).
  - eapply apart_incl, (wf_apart _ W). intros n q [_ Hq]%lookup_delete_Some. eauto.
  - congruence.
Qed.

Lemma UpdateConfig_wf kr name opts now :
  wf kr → Forall pkg_option opts → wf (UpdateConfig kr name opts now).1.
Proof.
  intros W Ho. unfold UpdateConfig. destruct (sealed kr) eqn:Hs; [done|].
  destruct (policies kr !! name) as [p|] eqn:Hp; [|done]. cbn.
  pose proof (apply_opts_same opts p Ho) as Hsame.
  assert (same_keys (set_UpdatedAt now (apply_opts opts p)) p) as Hsame' by exact Hsame.
  split; cbn; [| | |congruence].
  - intros n q. destruct (decide (n = name)) as [->|Hne].
    + rewrite lookup_insert_eq. intros [= <-].
      eapply policy_wf_same; [exact Hsame'|]. by apply (wf_policies _ W).
    + rewrite lookup_insert_ne by done. apply (wf_policies _ W).
  - intros n v c Hc. destruct (wf_ciphers _ W n v c Hc) as (q & Hq & k & Hk & ->).
    destruct (decide (n = name)) as [->|Hne].
    + simplify_eq. eexists. rewrite lookup_insert_eq. split; [done|].
      exists k. destruct Hsame' as (_ & _ & _ & ->). done.
    + exists q. rewrite lookup_insert_ne by done. split; [done|]. by exists k.
  - eapply apart_incl, (wf_apart _ W). intros n q [[<- <-]|[_ Hq]]%lookup_insert_Some; [|eauto].
    exists p. split; [done|]. apply Hsame'.
Qed.

Lemma Seal_wf kr : wf (Seal kr).
Proof. split; cbn; [done| |done|done]. unfold cached_cipher. cbn. done. Qed.

#[export] Hint Resolve NewKeyring_wf CreateKey_wf RotateKey_wf GetCipher_wf DeleteKey_wf
  UpdateConfig_wf Seal_wf : vault.

(** ** Runs of the keyring

    Every operation holds the mutex from start to end, so a concurrent run is a
    sequence of these steps. [Unmarshal], which replaces the policies by those of any text
    it is given, is not one of them; it is in [KeyringStore], with what it does to the text
    of [Marshal]. *)
Inductive step (kr : Keyring) : Keyring → Prop :=
  | step_CreateKey name t opts r clk :
      Forall pkg_option opts → step kr (CreateKey kr name t opts r clk).1
  | step_GetCipher name v : step kr (GetCipher kr name v).1
  | step_RotateKey name r clk : step kr (RotateKey kr name r clk).1
  | step_DeleteKey name : step kr (DeleteKey kr name).1
  | step_UpdateConfig name opts now :
      Forall pkg_option opts → step kr (UpdateConfig kr name opts now).1
  | step_Seal : step kr (Seal kr).

Lemma step_wf kr kr' : wf kr → step kr kr' → wf kr'.
Proof. intros W []; auto with vault. Qed.

Lemma rtc_wf kr kr' : rtc step kr kr' → wf kr → wf kr'.
Proof. induction 1; eauto using step_wf. Qed.

(** *** Sealing *)

Lemma fold_zero_array ls h l :
  List.fold_left zero_array ls h !! l =
    if bool_decide (l ∈ ls) then (λ b, replicate (length b) zero) <$> h !! l else h !! l.
Proof.
  revert h. induction ls as [|a ls IH]; intros h; cbn.
  { by rewrite bool_decide_false by apply not_elem_of_nil. }
  rewrite IH. unfold zero_array. rewrite lookup_alter.
  destruct (decide (a = l)) as [->|Hne].
  - rewrite (bool_decide_true (l ∈ l :: ls)) by apply list_elem_of_here.
    case_bool_decide; [|done]. destruct (h !! l); cbn; [|done]. by rewrite length_replicate.
  - case_bool_decide as H1; case_bool_decide as H2; try done.
    + destruct H2. by apply list_elem_of_further.
    + apply elem_of_cons in H2 as [->|H2]; done.
Qed.

Lemma key_locs_spec ps name p k :
  ps !! name = Some p → k ∈ Keys p → KeyLoc k ∈ key_locs ps.
Proof.
  intros Hp Hk. unfold key_locs. apply list_elem_of_In, List.in_concat.
  exists (KeyLoc <$> Keys p). split.
  - apply list_elem_of_In, list_elem_of_fmap. exists (name, p). split; [done|].
    by apply elem_of_map_to_list.
  - apply list_elem_of_In, list_elem_of_fmap. eauto.
Qed.

(** What a sealed keyring answers, whatever happens to it afterwards. *)
Definition locked (kr : Keyring) : Prop := sealed kr = true ∧ policies kr = ∅.

Lemma locked_step kr kr' : locked kr → step kr kr' → locked kr'.
Proof.
  unfold locked. intros [Hs Hp] [].
  - unfold CreateKey. by rewrite Hs.
  - unfold GetCipher. by rewrite Hs.
  - unfold RotateKey. by rewrite Hs.
  - unfold DeleteKey. by rewrite Hs.
  - unfold UpdateConfig. by rewrite Hs.
  - done.
Qed.

Lemma locked_rtc kr kr' : rtc step kr kr' → locked kr → locked kr'.
Proof. induction 1; eauto using locked_step. Qed.

(** *** Reads in a well-formed keyring *)

(** [GetCipher] without the cache: the reference it is compared with. *)
Definition GetCipher_ref (kr : Keyring) (name : string) (version : Z) : result Aes.Cipher :=
  if sealed kr then Err ErrKeyringSealed
  else match policies kr !! name with
  | None => Err ErrKeyNotFound
  | Some policy =>
      match find_version (Keys policy) (resolve policy version) with
      | None => Err ErrVersionNotFound
      | Some key => Aes.NewCipher (deref (heap kr) (KeyLoc key)) (Version key)
      end
  end.

Lemma deref_length kr name p k :
  wf kr → policies kr !! name = Some p → k ∈ Keys p →
  length (deref (heap kr) (KeyLoc k)) = 32%nat.
Proof.
  intros W Hp Hk. unfold deref.
  by destruct (policy_wf_array _ _ _ k (wf_policies _ W _ _ Hp) Hk) as (b & -> & Hl).
Qed.

Lemma GetKeyVersion_inv kr name v k :
  GetKeyVersion kr name v = Ok k →
  sealed kr = false ∧ ∃ p, policies kr !! name = Some p ∧
    find_version (Keys p) (resolve p v) = Some k ∧ MinDecryptionVersion p ≤ resolve p v.
Proof.
  unfold GetKeyVersion. destruct (sealed kr); [done|].
  destruct (policies kr !! name) as [p|]; [|done].
  destruct (Z.ltb_spec (resolve p v) (MinDecryptionVersion p)); [done|].
  destruct (find_version _ _) as [k'|] eqn:Hf; [|done]. intros [= <-]. eauto 10.
Qed.

(** The outcome of a rotation, in terms of the old and the new policy. *)
Lemma RotateKey_inv kr name r clk kr' n :
  wf kr → RotateKey kr name r clk = (kr', Ok n) →
  sealed kr' = false ∧
  ∃ p p' k b, policies kr !! name = Some p ∧
    policies kr' = <[name := p']> (policies kr) ∧ n = LatestVersion p + 1 ∧
    LatestVersion p' = n ∧ MinDecryptionVersion p' = MinDecryptionVersion p ∧
    Keys p' = Keys p ++ [k] ∧ Version k = n ∧ KeyLoc k = alloc (heap kr) ∧
    heap kr' = <[alloc (heap kr) := b]> (heap kr) ∧ length b = 32%nat.
Proof.
  intros W. unfold RotateKey. destruct (sealed kr) eqn:Hs; [done|].
  destruct (policies kr !! name) as [p|] eqn:Hp; [|done].
  destruct (generateKeyVersion _ _ _ _) as [[p' h']|] eqn:Hg; [|done].
  intros [= <- <-]. split; [done|].
  pose proof (wf_policies _ W _ _ Hp) as [Hn Hl Hv Ha].
  assert (MinDecryptionVersion p' = MinDecryptionVersion p) as Hm.
  { unfold generateKeyVersion in Hg. destruct (rand_Read _ r); [|done]. by injection Hg as <- _. }
  apply (generate_wf _ name) in Hg; [|done || lia..].
  destruct Hg as (_ & El & k & b & Hk & Hkv & _ & -> & Hloc & Hb).
  exists p, (set_UpdatedAt (clk 1%nat) p'), k, b. cbn. rewrite El. done.
Qed.

(** A keyring with one key, and one whose minimum decryption version is 5: the
    concrete states of the examples below. *)
Definition demo_source : entropy := Some (λ n, zbyte (Z.of_nat n + 1)).
Definition demo_keyring : Keyring :=
  (CreateKey (NewKeyring ∅) "k" KeyTypeAES256GCM [] demo_source (λ _, 0)).1.
Definition demo_keyring_min : Keyring :=
  (CreateKey (NewKeyring ∅) "k" KeyTypeAES256GCM [WithMinDecryptionVersion 5] demo_source (λ _, 0)).1.

Lemma demo_keyring_wf : wf demo_keyring.
Proof. apply CreateKey_wf; [apply NewKeyring_wf|constructor]. Qed.

Lemma demo_keyring_min_wf : wf demo_keyring_min.
Proof. apply CreateKey_wf; [apply NewKeyring_wf|repeat constructor]. Qed.

(** ** Properties *)

(** C6. Invariant: in every state a new keyring reaches through its operations on keys and
    [Seal] (with options of the package; [Unmarshal], which takes over the policies of any
    text it is given, is left out), each policy carries its map key as name and holds exactly
    the versions 1, ..., [LatestVersion] in order, each with an allocated array of 32 bytes
    that no other version of any policy shares; every cached cipher is the one made from the
    array of its version; and a sealed keyring holds no policy. *)
Theorem keyring_invariant h kr : rtc step (NewKeyring h) kr → wf kr.
Proof. intros H. eapply rtc_wf; [exact H|apply NewKeyring_wf]. Qed.

Lemma keyring_invariant_witness : wf (RotateKey demo_keyring "k" demo_source (λ _, 1)).1.
Proof.
  apply (keyring_invariant ∅). eapply rtc_l; [|eapply rtc_once].
  - apply (step_CreateKey _ "k" KeyTypeAES256GCM [] demo_source (λ _, 0)). constructor.
  - apply step_RotateKey.
Defined.



(** The cipher cache is transparent: in a well-formed keyring [GetCipher] answers
    what it would answer without a cache, on every branch, and asking again in the state
    it leaves gives the same answer. *)
Theorem cipher_cache_transparent kr name v :
  wf kr →
  (GetCipher kr name v).2 = GetCipher_ref kr name v ∧
  (GetCipher (GetCipher kr name v).1 name v).2 = GetCipher_ref kr name v.
Proof.
  intros W.
  assert (∀ kr, wf kr → (GetCipher kr name v).2 = GetCipher_ref kr name v) as H.
  { clear kr W. intros kr W. unfold GetCipher, GetCipher_ref. destruct (sealed kr); [done|].
    destruct (policies kr !! name) as [p|] eqn:Hp; [|done].
    destruct (cached_cipher kr name (resolve p v)) as [c|] eqn:Hc.
    - destruct (wf_ciphers _ W _ _ _ Hc) as (q & Hq & k & Hk & ->).
      assert (q = p) as -> by congruence.
      rewrite Hk, Aes.NewCipher_spec, (find_version_Version _ _ _ Hk).
      by rewrite (deref_length kr name p) by eauto using find_version_in.
    - destruct (find_version _ _); [|done]. by destruct (Aes.NewCipher _ _). }
  split; [by apply H|]. rewrite H by auto with vault.
  unfold GetCipher, GetCipher_ref. destruct (sealed kr) eqn:Hs; cbn; [by rewrite Hs|].
  destruct (policies kr !! name) as [p|] eqn:Hp; cbn; [|by rewrite Hs, Hp].
  destruct (cached_cipher kr name (resolve p v)) as [c|]; cbn; [by rewrite Hs, Hp|].
  destruct (find_version _ _) eqn:Hf; cbn; [|by rewrite Hs, Hp, Hf].
  destruct (Aes.NewCipher _ _) eqn:Hn; cbn; by rewrite Hs, Hp, Hf.
Qed.

Lemma cipher_cache_transparent_witness :
  (GetCipher demo_keyring "k" 0).2 = GetCipher_ref demo_keyring "k" 0 ∧
  (GetCipher (GetCipher demo_keyring "k" 0).1 "k" 0).2 = GetCipher_ref demo_keyring "k" 0.
Proof. apply (cipher_cache_transparent demo_keyring "k" 0 demo_keyring_wf). Defined.

(** C31. Sealing erases: the array of every key that could be read is overwritten with
    zeros in place, so the copies callers still hold are zero too; and from then on,
    whatever operations on keys follow (all but loading a stored keyring), every read of a
    key or cipher and every creation, rotation, update or deletion answers
    [ErrKeyringSealed]. *)
Theorem seal_erases kr name v k :
  wf kr → GetKeyVersion kr name v = Ok k →
  heap (Seal kr) !! KeyLoc k = Some (replicate 32 zero) ∧
  ∀ kr', rtc step (Seal kr) kr' → ∀ name' v' t opts r clk now,
    GetKeyVersion kr' name' v' = Err ErrKeyringSealed ∧
    GetCipher kr' name' v' = (kr', Err ErrKeyringSealed) ∧
    GetKey kr' name' = Err ErrKeyringSealed ∧
    CreateKey kr' name' t opts r clk = (kr', Err ErrKeyringSealed) ∧
    RotateKey kr' name' r clk = (kr', Err ErrKeyringSealed) ∧
    UpdateConfig kr' name' opts now = (kr', Some ErrKeyringSealed) ∧
    DeleteKey kr' name' = (kr', Some ErrKeyringSealed).
Proof.
  intros W Hk. apply GetKeyVersion_inv in Hk as (_ & p & Hp & Hf & _).
  apply find_version_in in Hf as Hin. split.
  - cbn. rewrite fold_zero_array, bool_decide_true by by eapply key_locs_spec.
    destruct (policy_wf_array _ _ _ k (wf_policies _ W _ _ Hp) Hin) as (b & -> & Hb).
    cbn. by rewrite Hb.
  - intros kr' Hr name' v' t opts r clk now.
    assert (locked kr') as [Hs _] by (eapply locked_rtc; [exact Hr|done]).
    unfold GetKeyVersion, GetCipher, GetKey, CreateKey, RotateKey, UpdateConfig, DeleteKey.
    by rewrite Hs.
Qed.

Lemma seal_erases_witness :
  ∃ k, GetKeyVersion demo_keyring "k" 1 = Ok k ∧
    deref (heap demo_keyring) (KeyLoc k) ≠ replicate 32 zero ∧
    heap (Seal demo_keyring) !! KeyLoc k = Some (replicate 32 zero).
Proof.
  eexists. split; [vm_compute; reflexivity|]. split; [vm_compute; discriminate|].
  apply (seal_erases demo_keyring "k" 1 _ demo_keyring_wf ltac:(vm_compute; reflexivity)).
Defined.

(** [GetCipher] does not look at [MinDecryptionVersion]: for a version that exists
    but lies below the minimum, [GetKeyVersion] refuses with [ErrVersionBelowMin] while
    [GetCipher] hands out the cipher of that version. *)
Theorem cipher_below_minimum kr name p v :
  wf kr → sealed kr = false → policies kr !! name = Some p →
  1 ≤ v ≤ LatestVersion p → v < MinDecryptionVersion p →
  GetKeyVersion kr name v = Err ErrVersionBelowMin ∧
  ∃ c, (GetCipher kr name v).2 = Ok c ∧ Aes.version c = v.
Proof.
  intros W Hs Hp Hv Hm.
  assert (resolve p v = v) as Er by (unfold resolve; by rewrite (proj2 (Z.eqb_neq v 0)) by lia).
  split.
  - unfold GetKeyVersion. by rewrite Hs, Hp, Er, (proj2 (Z.ltb_lt _ _)).
  - apply (find_version_wf _ _ _ _ (wf_policies _ W _ _ Hp)) in Hv as [k Hk].
    unfold GetCipher. rewrite Hs, Hp, Er.
    destruct (cached_cipher kr name v) as [c|] eqn:Hc.
    + destruct (wf_ciphers _ W _ _ _ Hc) as (q & _ & k' & _ & ->). by eexists.
    + rewrite Hk, Aes.NewCipher_spec.
      rewrite (deref_length kr name p) by eauto using find_version_in. cbn.
      eexists. split; [done|]. cbn. by apply find_version_Version in Hk.
Qed.

Lemma cipher_below_minimum_witness :
  GetKeyVersion demo_keyring_min "k" 1 = Err ErrVersionBelowMin ∧
  ∃ c, (GetCipher demo_keyring_min "k" 1).2 = Ok c ∧ Aes.version c = 1.
Proof.
  eapply (cipher_below_minimum demo_keyring_min "k" _ 1 demo_keyring_min_wf eq_refl eq_refl).
  - vm_compute. split; discriminate.
  - vm_compute. reflexivity.
Defined.
End Keyring.
