(* ===== verification/KeyringStore.v ===== *)
(** * pkg/crypto/keyring: Marshal and Unmarshal

    A keyring as JSON. [PolicyData] and [KeyData] are what the text says of a policy and its
    keys: the structs [KeyPolicy] and [Key] with the bytes of a key in place of the array
    that holds them ([view]), and with what a text can say but [Keyring] has no value for: a
    key type that is none of the eight, a missing key or policy (a nil pointer). Loading
    such a text, or the text [null], which leaves the keyring without a map, is [Outside]
    of the model. Instants are written in UTC. A nil slice and an empty one are not told
    apart, both are written as [null]. *)

From S2P Require Import Prelude GoStd Json JsonText GoTime Aead Aes Keyring.
Local Open Scope Z_scope.

Module KeyringStore.
Import Json JsonText Keyring.

Record KeyData := {
  kd_Version : Z;
  kd_Key : bytes;
  kd_PublicKey : bytes;
  kd_Type : Z;
  kd_CreatedAt : time
}.

Record PolicyData := {
  pd_Name : string;
  pd_Type : Z;
  pd_LatestVersion : Z;
  pd_MinDecryptionVersion : Z;
  pd_MinEncryptionVersion : Z;
  pd_Exportable : bool;
  pd_Derived : bool;
  pd_ConvergentEncryption : bool;
  pd_AutoRotatePeriod : Z;
  pd_DeletionAllowed : bool;
  pd_Keys : list (option KeyData);
  pd_CreatedAt : time;
  pd_UpdatedAt : time
}.

(** The constants of [KeyType], by [iota]. *)
Definition KeyType_int (t : KeyType) : Z :=
  match t with
  | KeyTypeAES256GCM => 0 | KeyTypeChacha20Poly1305 => 1 | KeyTypeRSA2048 => 2 | KeyTypeRSA4096 => 3
  | KeyTypeECDSAP256 => 4 | KeyTypeECDSAP384 => 5 | KeyTypeEd25519 => 6 | KeyTypeFPEFF1 => 7
  end.

Definition KeyType_of (n : Z) : option KeyType :=
  List.find (λ t, KeyType_int t =? n)
    [KeyTypeAES256GCM; KeyTypeChacha20Poly1305; KeyTypeRSA2048; KeyTypeRSA4096; KeyTypeECDSAP256;
     KeyTypeECDSAP384; KeyTypeEd25519; KeyTypeFPEFF1].

Definition key_view (h : gmap loc bytes) (k : Key) : KeyData :=
  {| kd_Version := Version k; kd_Key := deref h (KeyLoc k); kd_PublicKey := PublicKey k;
     kd_Type := KeyType_int (KType k); kd_CreatedAt := KCreatedAt k |}.

Definition view (h : gmap loc bytes) (p : KeyPolicy) : PolicyData :=
  {| pd_Name := Name p; pd_Type := KeyType_int (Type_ p); pd_LatestVersion := LatestVersion p;
     pd_MinDecryptionVersion := MinDecryptionVersion p; pd_MinEncryptionVersion := MinEncryptionVersion p;
     pd_Exportable := Exportable p; pd_Derived := Derived p;
     pd_ConvergentEncryption := ConvergentEncryption p; pd_AutoRotatePeriod := AutoRotatePeriod p;
     pd_DeletionAllowed := DeletionAllowed p; pd_Keys := (λ k, Some (key_view h k)) <$> Keys p;
     pd_CreatedAt := CreatedAt p; pd_UpdatedAt := UpdatedAt p |}.

(** ** Marshal *)

Definition jint (n : Z) : json := JNum (Strconv.Itoa n).

Definition jbytes (b : bytes) : json :=
  match b with [] => JNull | _ => JStr (Base64.EncodeToString Base64.StdEncoding b) end.

(** [Time.MarshalJSON], for a year of four digits. *)
Definition jtime (t : time) : json := JStr (GoTime.RFC3339Nano t).

Definition key_json (k : KeyData) : json :=
  JObj ([("version", jint (kd_Version k)); ("key", jbytes (kd_Key k))] ++
        match kd_PublicKey k with [] => [] | b => [("public_key", jbytes b)] end ++
        [("type", jint (kd_Type k)); ("created_at", jtime (kd_CreatedAt k))]).

Definition policy_json (p : PolicyData) : json :=
  JObj [("name", JStr (pd_Name p)); ("type", jint (pd_Type p));
        ("latest_version", jint (pd_LatestVersion p));
        ("min_decryption_version", jint (pd_MinDecryptionVersion p));
        ("min_encryption_version", jint (pd_MinEncryptionVersion p));
        ("exportable", JBool (pd_Exportable p)); ("derived", JBool (pd_Derived p));
        ("convergent_encryption", JBool (pd_ConvergentEncryption p));
        ("auto_rotate_period", jint (pd_AutoRotatePeriod p));
        ("deletion_allowed", JBool (pd_DeletionAllowed p));
        ("keys", match pd_Keys p with
                 | [] => JNull
                 | ks => JArr ((λ k, match k with Some k => key_json k | None => JNull end) <$> ks)
                 end);
        ("created_at", jtime (pd_CreatedAt p)); ("updated_at", jtime (pd_UpdatedAt p))].

Definition policies_json (ps : gmap string PolicyData) : json :=
  JObj (prod_map id policy_json <$> sorted_entries ps).

(** The instants of a policy. *)
Definition instants (p : PolicyData) : list time :=
  pd_CreatedAt p :: pd_UpdatedAt p :: (kd_CreatedAt <$> omap id (pd_Keys p)).

Definition Marshal (kr : Keyring) : result string :=
  let ps := view (heap kr) <$> policies kr in
  if forallb (λ np, forallb GoTime.year_in_range (instants np.2)) (map_to_list ps)
  then Ok (encode (policies_json ps)) else Err GoTime.errYear.

(** ** Unmarshal *)

Section fields.
Context {T : Type}.

(** The elements of a byte slice given as an array; [old] is what the slice held. *)
Fixpoint byte_elements (old : bytes) (l : list json) : option bytes :=
  match l with
  | [] => Some []
  | v :: l' =>
      b ← match v with
          | JNum lit => n ← Strconv.atou1 lit; if n <? 256 then Some (zbyte n) else None
          | JNull => Some (hd zero old)
          | _ => None
          end;
      bs ← byte_elements (tl old) l'; Some (b :: bs)
  end.

Definition into_bytes (get : T → bytes) (set : bytes → T → T) : decoder (T := T) := λ v t,
  match v with
  | JNull => Some (set [] t)
  | JStr s => b ← Base64.DecodeString Base64.StdEncoding s; Some (set b t)
  | JArr l => b ← byte_elements (get t) l; Some (set b t)
  | _ => None
  end.

(** [Time.UnmarshalJSON] *)
Definition into_time (set : time → T → T) : decoder (T := T) := λ v t,
  match v with
  | JNull => Some t
  | JStr s => x ← GoTime.Parse_RFC3339 s; Some (set x t)
  | _ => None
  end.
End fields.

Definition no_KeyData : KeyData :=
  {| kd_Version := 0; kd_Key := []; kd_PublicKey := []; kd_Type := 0; kd_CreatedAt := 0 |}.

Definition Key_fields : list (string * decoder (T := KeyData)) := [
  ("version", into_int (λ n k, {| kd_Version := n; kd_Key := kd_Key k; kd_PublicKey := kd_PublicKey k;
     kd_Type := kd_Type k; kd_CreatedAt := kd_CreatedAt k |}));
  ("key", into_bytes kd_Key (λ b k, {| kd_Version := kd_Version k; kd_Key := b; kd_PublicKey := kd_PublicKey k;
     kd_Type := kd_Type k; kd_CreatedAt := kd_CreatedAt k |}));
  ("public_key", into_bytes kd_PublicKey (λ b k, {| kd_Version := kd_Version k; kd_Key := kd_Key k;
     kd_PublicKey := b; kd_Type := kd_Type k; kd_CreatedAt := kd_CreatedAt k |}));
  ("type", into_int (λ n k, {| kd_Version := kd_Version k; kd_Key := kd_Key k; kd_PublicKey := kd_PublicKey k;
     kd_Type := n; kd_CreatedAt := kd_CreatedAt k |}));
  ("created_at", into_time (λ t k, {| kd_Version := kd_Version k; kd_Key := kd_Key k;
     kd_PublicKey := kd_PublicKey k; kd_Type := kd_Type k; kd_CreatedAt := t |}))].

(** An element of [keys]: [null] is a nil pointer, and an object goes into the struct that
    is there already, if one is. *)
Fixpoint key_elements (old : list (option KeyData)) (l : list json) : option (list (option KeyData)) :=
  match l with
  | [] => Some []
  | v :: l' =>
      k ← match v with
          | JNull => Some None
          | _ => Some <$> decode_struct Key_fields v (default no_KeyData (hd None old))
          end;
      ks ← key_elements (tl old) l'; Some (k :: ks)
  end.

Definition no_PolicyData : PolicyData :=
  {| pd_Name := ""; pd_Type := 0; pd_LatestVersion := 0; pd_MinDecryptionVersion := 0;
     pd_MinEncryptionVersion := 0; pd_Exportable := false; pd_Derived := false;
     pd_ConvergentEncryption := false; pd_AutoRotatePeriod := 0; pd_DeletionAllowed := false;
     pd_Keys := []; pd_CreatedAt := 0; pd_UpdatedAt := 0 |}.

Definition put_Name (v : string) (p : PolicyData) : PolicyData :=
  {| pd_Name := v; pd_Type := pd_Type p; pd_LatestVersion := pd_LatestVersion p;
     pd_MinDecryptionVersion := pd_MinDecryptionVersion p;
     pd_MinEncryptionVersion := pd_MinEncryptionVersion p; pd_Exportable := pd_Exportable p;
     pd_Derived := pd_Derived p; pd_ConvergentEncryption := pd_ConvergentEncryption p;
     pd_AutoRotatePeriod := pd_AutoRotatePeriod p; pd_DeletionAllowed := pd_DeletionAllowed p;
     pd_Keys := pd_Keys p; pd_CreatedAt := pd_CreatedAt p; pd_UpdatedAt := pd_UpdatedAt p |}.
Definition put_Type (v : Z) (p : PolicyData) : PolicyData :=
  {| pd_Name := pd_Name p; pd_Type := v; pd_LatestVersion := pd_LatestVersion p;
     pd_MinDecryptionVersion := pd_MinDecryptionVersion p;
     pd_MinEncryptionVersion := pd_MinEncryptionVersion p; pd_Exportable := pd_Exportable p;
     pd_Derived := pd_Derived p; pd_ConvergentEncryption := pd_ConvergentEncryption p;
     pd_AutoRotatePeriod := pd_AutoRotatePeriod p; pd_DeletionAllowed := pd_DeletionAllowed p;
     pd_Keys := pd_Keys p; pd_CreatedAt := pd_CreatedAt p; pd_UpdatedAt := pd_UpdatedAt p |}.
Definition put_LatestVersion (v : Z) (p : PolicyData) : PolicyData :=
  {| pd_Name := pd_Name p; pd_Type := pd_Type p; pd_LatestVersion := v;
     pd_MinDecryptionVersion := pd_MinDecryptionVersion p;
     pd_MinEncryptionVersion := pd_MinEncryptionVersion p; pd_Exportable := pd_Exportable p;
     pd_Derived := pd_Derived p; pd_ConvergentEncryption := pd_ConvergentEncryption p;
     pd_AutoRotatePeriod := pd_AutoRotatePeriod p; pd_DeletionAllowed := pd_DeletionAllowed p;
     pd_Keys := pd_Keys p; pd_CreatedAt := pd_CreatedAt p; pd_UpdatedAt := pd_UpdatedAt p |}.
Definition put_MinDecryptionVersion (v : Z) (p : PolicyData) : PolicyData :=
  {| pd_Name := pd_Name p; pd_Type := pd_Type p; pd_LatestVersion := pd_LatestVersion p;
     pd_MinDecryptionVersion := v; pd_MinEncryptionVersion := pd_MinEncryptionVersion p;
     pd_Exportable := pd_Exportable p; pd_Derived := pd_Derived p;
     pd_ConvergentEncryption := pd_ConvergentEncryption p; pd_AutoRotatePeriod := pd_AutoRotatePeriod p;
     pd_DeletionAllowed := pd_DeletionAllowed p; pd_Keys := pd_Keys p; pd_CreatedAt := pd_CreatedAt p;
     pd_UpdatedAt := pd_UpdatedAt p |}.
Definition put_MinEncryptionVersion (v : Z) (p : PolicyData) : PolicyData :=
  {| pd_Name := pd_Name p; pd_Type := pd_Type p; pd_LatestVersion := pd_LatestVersion p;
     pd_MinDecryptionVersion := pd_MinDecryptionVersion p; pd_MinEncryptionVersion := v;
     pd_Exportable := pd_Exportable p; pd_Derived := pd_Derived p;
     pd_ConvergentEncryption := pd_ConvergentEncryption p; pd_AutoRotatePeriod := pd_AutoRotatePeriod p;
     pd_DeletionAllowed := pd_DeletionAllowed p; pd_Keys := pd_Keys p; pd_CreatedAt := pd_CreatedAt p;
     pd_UpdatedAt := pd_UpdatedAt p |}.
Definition put_Exportable (v : bool) (p : PolicyData) : PolicyData :=
  {| pd_Name := pd_Name p; pd_Type := pd_Type p; pd_LatestVersion := pd_LatestVersion p;
     pd_MinDecryptionVersion := pd_MinDecryptionVersion p;
     pd_MinEncryptionVersion := pd_MinEncryptionVersion p; pd_Exportable := v;
     pd_Derived := pd_Derived p; pd_ConvergentEncryption := pd_ConvergentEncryption p;
     pd_AutoRotatePeriod := pd_AutoRotatePeriod p; pd_DeletionAllowed := pd_DeletionAllowed p;
     pd_Keys := pd_Keys p; pd_CreatedAt := pd_CreatedAt p; pd_UpdatedAt := pd_UpdatedAt p |}.
Definition put_Derived (v : bool) (p : PolicyData) : PolicyData :=
  {| pd_Name := pd_Name p; pd_Type := pd_Type p; pd_LatestVersion := pd_LatestVersion p;
     pd_MinDecryptionVersion := pd_MinDecryptionVersion p;
     pd_MinEncryptionVersion := pd_MinEncryptionVersion p; pd_Exportable := pd_Exportable p;
     pd_Derived := v; pd_ConvergentEncryption := pd_ConvergentEncryption p;
     pd_AutoRotatePeriod := pd_AutoRotatePeriod p; pd_DeletionAllowed := pd_DeletionAllowed p;
     pd_Keys := pd_Keys p; pd_CreatedAt := pd_CreatedAt p; pd_UpdatedAt := pd_UpdatedAt p |}.
Definition put_ConvergentEncryption (v : bool) (p : PolicyData) : PolicyData :=
  {| pd_Name := pd_Name p; pd_Type := pd_Type p; pd_LatestVersion := pd_LatestVersion p;
     pd_MinDecryptionVersion := pd_MinDecryptionVersion p;
     pd_MinEncryptionVersion := pd_MinEncryptionVersion p; pd_Exportable := pd_Exportable p;
     pd_Derived := pd_Derived p; pd_ConvergentEncryption := v;
     pd_AutoRotatePeriod := pd_AutoRotatePeriod p; pd_DeletionAllowed := pd_DeletionAllowed p;
     pd_Keys := pd_Keys p; pd_CreatedAt := pd_CreatedAt p; pd_UpdatedAt := pd_UpdatedAt p |}.
Definition put_AutoRotatePeriod (v : Z) (p : PolicyData) : PolicyData :=
  {| pd_Name := pd_Name p; pd_Type := pd_Type p; pd_LatestVersion := pd_LatestVersion p;
     pd_MinDecryptionVersion := pd_MinDecryptionVersion p;
     pd_MinEncryptionVersion := pd_MinEncryptionVersion p; pd_Exportable := pd_Exportable p;
     pd_Derived := pd_Derived p; pd_ConvergentEncryption := pd_ConvergentEncryption p;
     pd_AutoRotatePeriod := v; pd_DeletionAllowed := pd_DeletionAllowed p; pd_Keys := pd_Keys p;
     pd_CreatedAt := pd_CreatedAt p; pd_UpdatedAt := pd_UpdatedAt p |}.
Definition put_DeletionAllowed (v : bool) (p : PolicyData) : PolicyData :=
  {| pd_Name := pd_Name p; pd_Type := pd_Type p; pd_LatestVersion := pd_LatestVersion p;
     pd_MinDecryptionVersion := pd_MinDecryptionVersion p;
     pd_MinEncryptionVersion := pd_MinEncryptionVersion p; pd_Exportable := pd_Exportable p;
     pd_Derived := pd_Derived p; pd_ConvergentEncryption := pd_ConvergentEncryption p;
     pd_AutoRotatePeriod := pd_AutoRotatePeriod p; pd_DeletionAllowed := v; pd_Keys := pd_Keys p;
     pd_CreatedAt := pd_CreatedAt p; pd_UpdatedAt := pd_UpdatedAt p |}.
Definition put_Keys (v : list (option KeyData)) (p : PolicyData) : PolicyData :=
  {| pd_Name := pd_Name p; pd_Type := pd_Type p; pd_LatestVersion := pd_LatestVersion p;
     pd_MinDecryptionVersion := pd_MinDecryptionVersion p;
     pd_MinEncryptionVersion := pd_MinEncryptionVersion p; pd_Exportable := pd_Exportable p;
     pd_Derived := pd_Derived p; pd_ConvergentEncryption := pd_ConvergentEncryption p;
     pd_AutoRotatePeriod := pd_AutoRotatePeriod p; pd_DeletionAllowed := pd_DeletionAllowed p;
     pd_Keys := v; pd_CreatedAt := pd_CreatedAt p; pd_UpdatedAt := pd_UpdatedAt p |}.
Definition put_CreatedAt (v : time) (p : PolicyData) : PolicyData :=
  {| pd_Name := pd_Name p; pd_Type := pd_Type p; pd_LatestVersion := pd_LatestVersion p;
     pd_MinDecryptionVersion := pd_MinDecryptionVersion p;
     pd_MinEncryptionVersion := pd_MinEncryptionVersion p; pd_Exportable := pd_Exportable p;
     pd_Derived := pd_Derived p; pd_ConvergentEncryption := pd_ConvergentEncryption p;
     pd_AutoRotatePeriod := pd_AutoRotatePeriod p; pd_DeletionAllowed := pd_DeletionAllowed p;
     pd_Keys := pd_Keys p; pd_CreatedAt := v; pd_UpdatedAt := pd_UpdatedAt p |}.
Definition put_UpdatedAt (v : time) (p : PolicyData) : PolicyData :=
  {| pd_Name := pd_Name p; pd_Type := pd_Type p; pd_LatestVersion := pd_LatestVersion p;
     pd_MinDecryptionVersion := pd_MinDecryptionVersion p;
     pd_MinEncryptionVersion := pd_MinEncryptionVersion p; pd_Exportable := pd_Exportable p;
     pd_Derived := pd_Derived p; pd_ConvergentEncryption := pd_ConvergentEncryption p;
     pd_AutoRotatePeriod := pd_AutoRotatePeriod p; pd_DeletionAllowed := pd_DeletionAllowed p;
     pd_Keys := pd_Keys p; pd_CreatedAt := pd_CreatedAt p; pd_UpdatedAt := v |}.

Definition into_keys : decoder (T := PolicyData) := λ v p,
  match v with
  | JNull => Some (put_Keys [] p)
  | JArr l => ks ← key_elements (pd_Keys p) l; Some (put_Keys ks p)
  | _ => None
  end.

Definition KeyPolicy_fields : list (string * decoder (T := PolicyData)) := [
  ("name", into_string put_Name); ("type", into_int put_Type);
  ("latest_version", into_int put_LatestVersion);
  ("min_decryption_version", into_int put_MinDecryptionVersion);
  ("min_encryption_version", into_int put_MinEncryptionVersion);
  ("exportable", into_bool put_Exportable); ("derived", into_bool put_Derived);
  ("convergent_encryption", into_bool put_ConvergentEncryption);
  ("auto_rotate_period", into_int put_AutoRotatePeriod);
  ("deletion_allowed", into_bool put_DeletionAllowed);
  ("keys", into_keys); ("created_at", into_time put_CreatedAt); ("updated_at", into_time put_UpdatedAt)].

(** The members of the map: every one is decoded into a new struct, [null] is a nil pointer,
    and a later one replaces an earlier one of the same name. *)
Fixpoint policy_members (ms : list (string * json)) (acc : gmap string (option PolicyData))
    : option (gmap string (option PolicyData)) :=
  match ms with
  | [] => Some acc
  | (name, v) :: ms' =>
      p ← match v with
          | JNull => Some None
          | _ => Some <$> decode_struct KeyPolicy_fields v no_PolicyData
          end;
      policy_members ms' (<[name := p]> acc)
  end.

(** The decoded structs as values of the keyring, the bytes of each key in a new array. *)
Definition load_key (h : gmap loc bytes) (k : option KeyData) : option (Key * gmap loc bytes) :=
  k ← k; t ← KeyType_of (kd_Type k);
  let l := alloc h in
  Some ({| Version := kd_Version k; KeyLoc := l; PublicKey := kd_PublicKey k; KType := t;
           KCreatedAt := kd_CreatedAt k |}, <[l := kd_Key k]> h).

Fixpoint load_keys (h : gmap loc bytes) (ks : list (option KeyData)) : option (list Key * gmap loc bytes) :=
  match ks with
  | [] => Some ([], h)
  | k :: ks' => '(k, h) ← load_key h k; '(ks, h) ← load_keys h ks'; Some (k :: ks, h)
  end.

Definition load_policy (h : gmap loc bytes) (p : option PolicyData) : option (KeyPolicy * gmap loc bytes) :=
  p ← p; t ← KeyType_of (pd_Type p); '(ks, h) ← load_keys h (pd_Keys p);
  Some ({| Name := pd_Name p; Type_ := t; LatestVersion := pd_LatestVersion p;
           MinDecryptionVersion := pd_MinDecryptionVersion p; MinEncryptionVersion := pd_MinEncryptionVersion p;
           Exportable := pd_Exportable p; Derived := pd_Derived p;
           ConvergentEncryption := pd_ConvergentEncryption p; AutoRotatePeriod := pd_AutoRotatePeriod p;
           DeletionAllowed := pd_DeletionAllowed p; Keys := ks; CreatedAt := pd_CreatedAt p;
           UpdatedAt := pd_UpdatedAt p |}, h).

Fixpoint load_policies (h : gmap loc bytes) (l : list (string * option PolicyData))
    : option (gmap string KeyPolicy * gmap loc bytes) :=
  match l with
  | [] => Some (∅, h)
  | (name, p) :: l' =>
      '(p, h) ← load_policy h p; '(ps, h) ← load_policies h l'; Some (<[name := p]> ps, h)
  end.

Inductive loaded := Loaded (kr : Keyring) | LoadFailed (err : error) | Outside.

Definition errJSON : error := errorString "json".

(** On an error the keyring stays what it was. *)
Definition Unmarshal (kr : Keyring) (data : string) : loaded :=
  match decode data with
  | None => LoadFailed errJSON
  | Some JNull => Outside
  | Some (JObj ms) =>
      match policy_members ms ∅ with
      | None => LoadFailed errJSON
      | Some ps =>
          match load_policies (heap kr) (map_to_list ps) with
          | None => Outside
          | Some (policies, h) => Loaded {| policies := policies; ciphers := ∅; sealed := false; heap := h |}
          end
      end
  | Some _ => LoadFailed errJSON
  end.

(** ** What can be stored *)

Record key_ok (k : KeyData) : Prop := {
  key_int_version : in_int64 (kd_Version k);
  key_int_type : in_int64 (kd_Type k);
  key_year : GoTime.year_ok (kd_CreatedAt k)
}.

Record policy_ok (p : PolicyData) : Prop := {
  ok_name : Utf8.ValidString (pd_Name p) = true;
  ok_ints : Forall in_int64 [pd_Type p; pd_LatestVersion p; pd_MinDecryptionVersion p; pd_MinEncryptionVersion p;
                             pd_AutoRotatePeriod p];
  ok_years : GoTime.year_ok (pd_CreatedAt p) ∧ GoTime.year_ok (pd_UpdatedAt p);
  ok_keys : ∃ ks, pd_Keys p = Some <$> ks ∧ Forall key_ok ks
}.

(** ** Reading a struct back *)

Lemma decode_member {T} (fs : list (string * decoder)) k v ms (t : T) d t' r :
  find_field fs k = Some d → d v t = Some t' → decode_members fs ms t' = r →
  decode_members fs ((k, v) :: ms) t = r.
Proof. intros Hf Hd Hr. cbn [decode_members]. rewrite Hf, Hd. exact Hr. Qed.

Lemma into_int_jint {T} (set : Z → T → T) n t : in_int64 n → into_int set (jint n) t = Some (set n t).
Proof. intros H. unfold into_int, jint. by rewrite Strconv.Atoi_Itoa. Qed.

Lemma into_bytes_jbytes {T} (get : T → bytes) set b t : into_bytes get set (jbytes b) t = Some (set b t).
Proof. unfold jbytes. destruct b as [|a b]; [done|]. cbn [into_bytes]. by rewrite Base64.Decode_Encode. Qed.

Lemma into_time_jtime {T} (set : time → T → T) x t : GoTime.year_ok x → into_time set (jtime x) t = Some (set x t).
Proof. intros H. unfold into_time, jtime. by rewrite GoTime.Parse_RFC3339Nano. Qed.

(** One member after the other. *)
Ltac read_member :=
  eapply decode_member;
    [reflexivity
    |first [apply into_int_jint; done|apply into_bytes_jbytes|apply into_time_jtime; done|reflexivity]|].

Lemma decode_key k : key_ok k → decode_struct Key_fields (key_json k) no_KeyData = Some k.
Proof.
  intros [Hv Ht Hy]. destruct k as [v key pub t c]; cbn [kd_Version kd_Type kd_CreatedAt] in *.
  unfold decode_struct, key_json. cbn [kd_Version kd_Key kd_PublicKey kd_Type kd_CreatedAt app].
  destruct pub as [|a pub]; cbn [app]; repeat read_member; reflexivity.
Qed.

Lemma key_elements_json ks :
  Forall key_ok ks → key_elements [] (key_json <$> ks) = Some (Some <$> ks).
Proof.
  induction 1 as [|k ks Hk _ IH]; [done|]. rewrite !fmap_cons. cbn [key_elements hd tl].
  transitivity (x ← Some <$> decode_struct Key_fields (key_json k) no_KeyData;
                xs ← key_elements [] (key_json <$> ks); Some (x :: xs)); [done|].
  rewrite decode_key, IH by done. done.
Qed.

Lemma into_keys_json p ks : pd_Keys p = [] → Forall key_ok ks →
  into_keys (match Some <$> ks with
             | [] => JNull
             | l => JArr ((λ k, match k with Some k => key_json k | None => JNull end) <$> l)
             end) p = Some (put_Keys (Some <$> ks) p).
Proof.
  intros Hp Hk. pose proof (key_elements_json ks Hk) as E. destruct ks as [|k ks]; [done|].
  transitivity (xs ← key_elements (pd_Keys p) (key_json <$> k :: ks); Some (put_Keys xs p));
    [|by rewrite Hp, E].
  cbn. rewrite <- list_fmap_compose. done.
Qed.

Lemma decode_policy p : policy_ok p → decode_struct KeyPolicy_fields (policy_json p) no_PolicyData = Some p.
Proof.
  intros [_ Hi [Hc Hu] (ks & Hks & Hk)].
  destruct p as [n t lv md me e d ce ar del keys c u]; cbn [pd_Type pd_LatestVersion pd_MinDecryptionVersion
    pd_MinEncryptionVersion pd_AutoRotatePeriod pd_Keys pd_CreatedAt pd_UpdatedAt] in *. subst keys.
  rewrite !Forall_cons in Hi. destruct Hi as (? & ? & ? & ? & ? & _).
  unfold decode_struct, policy_json. cbn [pd_Name pd_Type pd_LatestVersion pd_MinDecryptionVersion
    pd_MinEncryptionVersion pd_Exportable pd_Derived pd_ConvergentEncryption pd_AutoRotatePeriod
    pd_DeletionAllowed pd_Keys pd_CreatedAt pd_UpdatedAt].
  do 10 read_member.
  eapply decode_member; [reflexivity|apply into_keys_json; done|].
  do 2 read_member. reflexivity.
Qed.

Lemma policy_members_json l : ∀ acc,
  Forall (λ np, policy_ok np.2) l → NoDup l.*1 →
  policy_members (prod_map id policy_json <$> l) acc = Some (list_to_map (prod_map id Some <$> l) ∪ acc).
Proof.
  induction l as [|[name p] l IH]; intros acc Hok Hnd.
  { cbn. f_equal. symmetry. apply map_empty_union. }
  apply Forall_cons in Hok as [Hp Hok]. apply NoDup_cons in Hnd as [Hnin Hnd]. rewrite !fmap_cons.
  transitivity (x ← Some <$> decode_struct KeyPolicy_fields (policy_json p) no_PolicyData;
                policy_members (prod_map id policy_json <$> l) (<[name := x]> acc)); [done|].
  rewrite decode_policy by done. cbn [fmap option_fmap option_map mbind option_bind]. rewrite IH by done.
  f_equal. change (prod_map id Some (name, p)) with (name, Some p).
  rewrite list_to_map_cons, <- insert_union_l, insert_union_r; [done|].
  apply not_elem_of_list_to_map_1. rewrite <- list_fmap_compose. exact Hnin.
Qed.

(** *** The text *)

Lemma plain_bytes n b : plain n (jbytes b).
Proof. destruct b; [apply plain_null|]. apply plain_str, ascii_valid, ascii_base64. Qed.

Lemma plain_time n t : plain n (jtime t).
Proof. apply plain_str, ascii_valid, GoTime.ascii_RFC3339Nano. Qed.

#[local] Hint Resolve plain_null plain_bool plain_bytes plain_time plain_arr plain_obj : core.
#[local] Hint Extern 1 (plain _ (jint _)) => apply plain_int : core.

Lemma plain_key k : plain 1 (key_json k).
Proof.
  unfold key_json. apply plain_obj. destruct (kd_PublicKey k); cbn [app];
    repeat (apply Forall_cons_2; [split; [reflexivity|cbn [snd]; auto]|]); apply Forall_nil_2.
Qed.

Lemma plain_policy p : policy_ok p → plain 3 (policy_json p).
Proof.
  intros [Hn _ _ (ks & Hks & _)]. unfold policy_json. rewrite Hks. apply plain_obj.
  repeat (apply Forall_cons_2; [split; [reflexivity|cbn [snd]; auto]|]); [by apply plain_str| |apply Forall_nil_2].
  destruct (Some <$> ks) as [|x l] eqn:E; [auto|]. apply plain_arr. rewrite <- E. clear E Hks.
  induction ks as [|k ks IH]; cbn; [apply Forall_nil_2|]. apply Forall_cons_2; [apply plain_key|apply IH].
Qed.

(** The policies a keyring can store. *)
Definition all_ok (ps : gmap string PolicyData) : Prop :=
  map_Forall (λ name p, Utf8.ValidString name = true ∧ policy_ok p) ps.

Lemma decode_policies ps : all_ok ps →
  decode (encode (policies_json ps)) = Some (policies_json ps) ∧
  policy_members (prod_map id policy_json <$> sorted_entries ps) ∅ = Some (Some <$> ps).
Proof.
  intros H. pose proof (sorted_Forall _ ps H) as Hall. pose proof (sorted_NoDup ps) as Hnd. split.
  - apply (decode_plain 4); [|reflexivity]. apply plain_obj. rewrite Forall_fmap.
    eapply Forall_impl; [exact Hall|]. intros [name p] [Hn Hp]. split; [done|]. by apply plain_policy.
  - rewrite policy_members_json; [|by eapply Forall_impl; [exact Hall|intros ? []]|done].
    f_equal. rewrite map_union_empty, list_to_map_fmap. f_equal. apply list_to_map_sorted.
Qed.

(** ** Loading *)

Lemma KeyType_of_int t : KeyType_of (KeyType_int t) = Some t.
Proof. by destruct t. Qed.

Definition key_known (k : KeyData) : Prop := ∃ t, kd_Type k = KeyType_int t.

Definition policy_known (p : PolicyData) : Prop :=
  (∃ t, pd_Type p = KeyType_int t) ∧ ∃ ks, pd_Keys p = Some <$> ks ∧ Forall key_known ks.

(** A key or a policy whose arrays are in the heap and that shows the given data. *)
Definition key_as (h : gmap loc bytes) (k : Key) (d : KeyData) : Prop :=
  is_Some (h !! KeyLoc k) ∧ key_view h k = d.

Definition policy_as (h : gmap loc bytes) (q : KeyPolicy) (p : PolicyData) : Prop :=
  Forall (λ k, is_Some (h !! KeyLoc k)) (Keys q) ∧ view h q = p.

Lemma key_view_mono h h' k : h ⊆ h' → is_Some (h !! KeyLoc k) → key_view h' k = key_view h k.
Proof.
  intros Hs [b Hb]. unfold key_view, deref. rewrite Hb, (lookup_weaken _ _ _ _ Hb Hs). done.
Qed.

Lemma key_as_mono h h' k d : h ⊆ h' → key_as h k d → key_as h' k d.
Proof.
  intros Hs [Hi Hv]. split; [by apply (lookup_weaken_is_Some h)|]. by rewrite (key_view_mono h).
Qed.

Lemma policy_as_mono h h' q p : h ⊆ h' → policy_as h q p → policy_as h' q p.
Proof.
  intros Hs [Hi Hv]. split.
  - eapply Forall_impl; [exact Hi|]. intros k Hk. by apply (lookup_weaken_is_Some h).
  - rewrite <- Hv. unfold view. f_equal. apply list_fmap_ext. intros i k Hk. f_equal.
    apply key_view_mono; [done|]. rewrite Forall_lookup in Hi. by eapply Hi.
Qed.

(** Keys in distinct arrays that the heap did not have. *)
Definition fresh_keys (h : gmap loc bytes) (keys : list Key) : Prop :=
  NoDup (KeyLoc <$> keys) ∧ Forall (λ k, h !! KeyLoc k = None) keys.

Lemma fresh_keys_cons h k b keys :
  KeyLoc k = alloc h → fresh_keys (<[alloc h := b]> h) keys → fresh_keys h (k :: keys).
Proof.
  intros Hk [Hnd Hf]. rewrite Forall_forall in Hf. split.
  - cbn. apply NoDup_cons. split; [|done]. intros (x & E & Hx)%list_elem_of_fmap.
    specialize (Hf x Hx). by rewrite <- E, Hk, lookup_insert_eq in Hf.
  - constructor; [rewrite Hk; apply alloc_fresh|]. rewrite Forall_forall. intros x Hx.
    by apply Hf, lookup_insert_None in Hx as [? _].
Qed.

Lemma load_keys_spec ks : ∀ h, Forall key_known ks →
  ∃ keys h', load_keys h (Some <$> ks) = Some (keys, h') ∧ h ⊆ h' ∧ fresh_keys h keys ∧
    Forall2 (key_as h') keys ks.
Proof.
  induction ks as [|d ks IH]; intros h Hk.
  { exists [], h. split_and!; [done|done|split; constructor|done]. } apply Forall_cons in Hk as [[t Ht] Hk].
  set (h1 := <[alloc h := kd_Key d]> h).
  assert (h ⊆ h1) as Hs by (apply insert_subseteq, alloc_fresh).
  destruct (IH h1 Hk) as (keys & h' & E & Hs' & Hf & HF).
  set (k := {| Version := kd_Version d; KeyLoc := alloc h; PublicKey := kd_PublicKey d; KType := t;
               KCreatedAt := kd_CreatedAt d |}).
  exists (k :: keys), h'. split.
  - rewrite fmap_cons. cbn [load_keys]. unfold load_key. cbn [mbind option_bind].
    rewrite Ht, KeyType_of_int. cbn [mbind option_bind]. fold h1. rewrite E. done.
  - split; [by etrans|]. split; [by apply (fresh_keys_cons h k (kd_Key d))|].
    constructor; [|done]. apply (key_as_mono h1); [done|]. split.
    + unfold h1. cbn. rewrite lookup_insert_eq. by eexists.
    + unfold key_view, deref, h1. cbn. rewrite lookup_insert_eq. destruct d; cbn in *. by rewrite Ht.
Qed.

Lemma load_policy_spec h p : policy_known p →
  ∃ q h', load_policy h (Some p) = Some (q, h') ∧ h ⊆ h' ∧ fresh_keys h (Keys q) ∧ policy_as h' q p.
Proof.
  intros [[t Ht] (ks & Hks & Hk)]. destruct (load_keys_spec ks h Hk) as (keys & h' & E & Hs & Hf & HF).
  unfold load_policy. cbn [mbind option_bind]. rewrite Ht, KeyType_of_int. cbn [mbind option_bind].
  rewrite Hks, E. cbn [mbind option_bind]. eexists _, _. split; [reflexivity|]. split; [done|]. split; [done|]. split.
  - cbn. clear -HF. induction HF as [|k d keys ks [H _] _ IH]; by constructor.
  - destruct p; unfold view; cbn in *. rewrite Ht. f_equal. rewrite Hks. clear -HF.
    induction HF as [|k d keys ks [_ H] _ IH]; [done|]. cbn. by rewrite H, IH.
Qed.

(** Every policy in arrays the heap did not have, none shared. *)
Definition fresh_policies (h : gmap loc bytes) (ps : gmap string KeyPolicy) : Prop :=
  apart ps ∧ ∀ name q k, ps !! name = Some q → k ∈ Keys q → h !! KeyLoc k = None.

Lemma fresh_policies_insert h h1 name q ps :
  h ⊆ h1 → fresh_keys h (Keys q) → Forall (λ k, is_Some (h1 !! KeyLoc k)) (Keys q) →
  fresh_policies h1 ps → fresh_policies h (<[name := q]> ps).
Proof.
  intros Hs [Hnd Hf] Hin [A Hfr]. rewrite Forall_forall in Hf, Hin.
  assert (∀ n p x x', ps !! n = Some p → x ∈ Keys p → x' ∈ Keys q → KeyLoc x ≠ KeyLoc x') as Hne.
  { intros n p x x' Hp Hx Hx' E. destruct (Hin x' Hx') as [b Hb]. rewrite <- E, (Hfr n p x) in Hb; done. }
  split.
  - intros n p i k n' p' i' k' [[<- <-]|[Hn Hp]]%lookup_insert_Some Hk [[<- <-]|[Hn' Hp']]%lookup_insert_Some Hk' E.
    + split; [done|]. eapply NoDup_lookup; [exact Hnd| |]; rewrite list_lookup_fmap; [by rewrite Hk|by rewrite Hk', E].
    + destruct (Hne n' p' k' k); [done|by eapply list_elem_of_lookup_2..|done].
    + by destruct (Hne n p k k'); [|eapply list_elem_of_lookup_2..|].
    + by eapply A.
  - intros n p k [[<- <-]|[Hn Hp]]%lookup_insert_Some Hk; [by apply Hf|].
    eapply lookup_weaken_None, Hs. by eapply Hfr.
Qed.

Lemma load_policies_spec l : ∀ h,
  Forall (λ np, ∃ p, np.2 = Some p ∧ policy_known p) l →
  ∃ ps h', load_policies h l = Some (ps, h') ∧ h ⊆ h' ∧ fresh_policies h ps ∧
    ∀ name, match (list_to_map l : gmap string (option PolicyData)) !! name with
            | Some (Some p) => ∃ q, ps !! name = Some q ∧ policy_as h' q p
            | _ => ps !! name = None
            end.
Proof.
  induction l as [|[name o] l IH]; intros h Hl.
  { exists ∅, h. split; [done|]. split; [done|]. split; [by split|]. intros n. cbn. rewrite !lookup_empty. done. }
  apply Forall_cons in Hl as [(p & Ho & Hp) Hl]. cbn in Ho. subst o.
  destruct (load_policy_spec h p Hp) as (q & h1 & E1 & Hs1 & Hf1 & Hq).
  destruct (IH h1 Hl) as (ps & h' & E & Hs & Hf & Hps).
  exists (<[name := q]> ps), h'. split; [cbn [load_policies]; rewrite E1; cbn [mbind option_bind]; rewrite E; done|].
  split; [by etrans|]. split; [eapply fresh_policies_insert; [done|done|apply Hq|done]|].
  intros n. rewrite list_to_map_cons. destruct (decide (name = n)) as [->|Hne].
  - rewrite !lookup_insert_eq. exists q. split; [done|]. by apply (policy_as_mono h1).
  - rewrite !lookup_insert_ne by done. apply Hps.
Qed.

(** ** The round trip *)

(** What a keyring holds that JSON and the layout of instants can carry: names of valid
    UTF-8, machine integers, years of four digits. *)
Definition storable (kr : Keyring) : Prop :=
  map_Forall (λ name p,
    Utf8.ValidString name = true ∧
    Forall in_int64 [LatestVersion p; MinDecryptionVersion p; MinEncryptionVersion p; AutoRotatePeriod p] ∧
    Forall GoTime.year_ok (CreatedAt p :: UpdatedAt p :: (KCreatedAt <$> Keys p))) (policies kr).

Lemma KeyType_int_range t : in_int64 (KeyType_int t).
Proof. unfold in_int64. destruct t; cbn; lia. Qed.

Lemma key_versions h name p k : policy_wf h name p → k ∈ Keys p → 1 ≤ Version k ≤ LatestVersion p.
Proof.
  intros W Hk. apply (list_elem_of_fmap_2 Version) in Hk. rewrite (wf_versions _ _ _ W) in Hk.
  apply elem_of_seqZ in Hk. lia.
Qed.

Lemma storable_view kr : wf kr → storable kr →
  all_ok (view (heap kr) <$> policies kr) ∧ map_Forall (λ _, policy_known) (view (heap kr) <$> policies kr).
Proof.
  intros W S. split; intros name d Hd; rewrite lookup_fmap in Hd; apply fmap_Some in Hd as (p & Hp & ->);
    pose proof (wf_policies _ W _ _ Hp) as Wp; destruct (S name p Hp) as (Hn & Hi & Hy);
    rewrite !Forall_cons in Hi; rewrite !Forall_cons in Hy.
  - destruct Hi as (Hl & Hmd & Hme & Ha & _), Hy as (Hc & Hu & Hk). split; [done|]. split; cbn.
    + by rewrite (wf_name _ _ _ Wp).
    + repeat (apply Forall_cons_2; [first [done|apply KeyType_int_range]|]); apply Forall_nil_2.
    + by split.
    + exists (key_view (heap kr) <$> Keys p). rewrite <- list_fmap_compose. split; [done|].
      rewrite Forall_fmap, Forall_forall. intros k Hin. split; cbn.
      * pose proof (key_versions _ _ _ _ Wp Hin). unfold in_int64 in *. lia.
      * apply KeyType_int_range.
      * apply (proj1 (Forall_forall _ _) Hk). by apply list_elem_of_fmap_2.
  - split; [by exists (Type_ p)|]. exists (key_view (heap kr) <$> Keys p).
    rewrite <- list_fmap_compose. split; [done|]. rewrite Forall_fmap, Forall_forall. intros k _. by exists (KType k).
Qed.

Lemma Marshal_storable kr : wf kr → storable kr →
  Marshal kr = Ok (encode (policies_json (view (heap kr) <$> policies kr))).
Proof.
  intros W S. destruct (storable_view kr W S) as [Hok _]. unfold Marshal.
  assert (forallb (λ np, forallb GoTime.year_in_range (instants np.2))
            (map_to_list (view (heap kr) <$> policies kr)) = true) as ->; [|done].
  apply List.forallb_forall. intros [name p] Hin%list_elem_of_In%elem_of_map_to_list.
  destruct (Hok name p Hin) as [_ [_ _ [Hc Hu] (ks & Hks & Hk)]]. cbn.
  rewrite !GoTime.year_ok_range by done. rewrite Hks. cbn.
  assert (omap id (Some <$> ks) = ks) as -> by (clear; induction ks as [|k ks IH]; cbn; [done|by rewrite IH]).
  clear -Hk. induction Hk as [|k ks [_ _ Hk] _ IH]; [done|]. cbn. by rewrite GoTime.year_ok_range.
Qed.

(** Two keyrings with the same content. *)
Definition same_content (kr kr' : Keyring) : Prop :=
  view (heap kr') <$> policies kr' = view (heap kr) <$> policies kr.

Lemma same_policy kr kr' name : same_content kr kr' →
  match policies kr !! name, policies kr' !! name with
  | Some p, Some p' => view (heap kr') p' = view (heap kr) p
  | None, None => True
  | _, _ => False
  end.
Proof.
  intros H. apply (f_equal (lookup name)) in H. rewrite !lookup_fmap in H.
  destruct (policies kr !! name), (policies kr' !! name); cbn in H; congruence || done.
Qed.

Lemma view_find_version h p h' p' v :
  view h' p' = view h p →
  key_view h' <$> find_version (Keys p') v = key_view h <$> find_version (Keys p) v ∧
  resolve p' v = resolve p v.
Proof.
  intros H. unfold view in H. injection H as _ _ El _ _ _ _ _ _ _ E _ _. split; [|unfold resolve; by rewrite El].
  clear El. revert E. generalize (Keys p) as ks. generalize (Keys p') as ks'. unfold find_version.
  induction ks' as [|k' ks' IH]; intros [|k ks]; cbn [fmap list_fmap]; [done|done|done|]. intros [= E1 E2 E3 E4 E5 E6].
  cbn [List.find]. rewrite E1. destruct (Version k =? v); [|by apply IH].
  cbn. unfold key_view. by rewrite E1, E2, E3, E4, E5.
Qed.

Lemma same_ciphers kr kr' name v :
  same_content kr kr' → sealed kr = false → sealed kr' = false →
  GetCipher_ref kr' name v = GetCipher_ref kr name v.
Proof.
  intros H S S'. unfold GetCipher_ref. rewrite S, S'. pose proof (same_policy kr kr' name H) as Hp.
  destruct (policies kr !! name) as [p|], (policies kr' !! name) as [p'|]; try done.
  destruct (view_find_version _ _ _ _ v Hp) as [_ ->].
  destruct (view_find_version _ _ _ _ (resolve p v) Hp) as [E _].
  destruct (find_version (Keys p') _) as [k'|], (find_version (Keys p) _) as [k|]; cbn in E; try done.
  injection E as Ev Ek _ _ _. by rewrite Ev, Ek.
Qed.

Lemma same_wf kr kr' :
  wf kr → same_content kr kr' → sealed kr' = false → ciphers kr' = ∅ →
  map_Forall (λ _ p, Forall (λ k, is_Some (heap kr' !! KeyLoc k)) (Keys p)) (policies kr') →
  apart (policies kr') → wf kr'.
Proof.
  intros W Hs Hsl Hc Hall Hap. split.
  - intros name p' Hp'. pose proof (same_policy kr kr' name Hs) as Hv. rewrite Hp' in Hv.
    destruct (policies kr !! name) as [p|] eqn:Hp; [|done]. pose proof (wf_policies _ W _ _ Hp) as Wp.
    pose proof (f_equal pd_Name Hv) as En. pose proof (f_equal pd_LatestVersion Hv) as El. cbn in En, El.
    assert (key_view (heap kr') <$> Keys p' = key_view (heap kr) <$> Keys p) as Ek.
    { assert (Some <$> (key_view (heap kr') <$> Keys p') = Some <$> (key_view (heap kr) <$> Keys p)) as E
        by (rewrite <- !list_fmap_compose; exact (f_equal pd_Keys Hv)).
      by apply list_fmap_eq_inj in E; [|apply _]. }
    split.
    + rewrite En. apply Wp.
    + rewrite El. apply Wp.
    + rewrite El. rewrite <- (wf_versions _ _ _ Wp).
      apply (f_equal (fmap kd_Version)) in Ek. by rewrite <- !list_fmap_compose in Ek.
    + specialize (Hall name p' Hp'). cbn in Hall. rewrite Forall_forall in Hall |- *. intros k' Hk'.
      destruct (Hall k' Hk') as [b Hb]. exists b. split; [done|].
      apply (list_elem_of_fmap_2 (key_view (heap kr'))) in Hk'. rewrite Ek in Hk'.
      apply list_elem_of_fmap in Hk' as (k & Hkk & Hk).
      apply (f_equal (λ d, length (kd_Key d))) in Hkk. cbn in Hkk. rewrite (deref_length kr name p) in Hkk by done.
      unfold deref in Hkk. by rewrite Hb in Hkk.
  - intros name v c. unfold cached_cipher. rewrite Hc, lookup_empty. done.
  - done.
  - by rewrite Hsl.
Qed.

(** C8. A stored keyring comes back: what [Marshal] writes for a well-formed keyring whose
    names are valid UTF-8 and whose instants have years of four digits, [Unmarshal] reads
    into any keyring, sealed or not. The result is well formed and not sealed, holds the
    same policies with the same versions, the same bytes of every key and the same
    instants to the nanosecond, in new arrays, one for each version (those already in
    memory stay what they are), and gives for every name and version the cipher the stored keyring gave. *)
Theorem keyring_store_roundtrip kr kr0 :
  wf kr → storable kr →
  ∃ data kr', Marshal kr = Ok data ∧ Unmarshal kr0 data = Loaded kr' ∧
    wf kr' ∧ sealed kr' = false ∧ same_content kr kr' ∧ heap kr0 ⊆ heap kr' ∧
    (∀ name p k, policies kr' !! name = Some p → k ∈ Keys p → heap kr0 !! KeyLoc k = None) ∧
    (sealed kr = false → ∀ name v, (GetCipher kr' name v).2 = (GetCipher kr name v).2).
Proof.
  intros W S. destruct (storable_view kr W S) as [Hok Hknown]. set (ps := view (heap kr) <$> policies kr) in *.
  destruct (decode_policies ps Hok) as [Hdec Hmem].
  destruct (load_policies_spec (map_to_list (Some <$> ps)) (heap kr0)) as (qs & h' & E & Hs & [Hap Hfr] & Hq).
  { rewrite Forall_forall. intros [name o]. rewrite elem_of_map_to_list, lookup_fmap.
    intros (p & Hp & ->)%fmap_Some. exists p. split; [done|]. by apply (Hknown name p). }
  rewrite list_to_map_to_list in Hq. set (kr' := {| policies := qs; ciphers := ∅; sealed := false; heap := h' |}).
  assert (∀ name, match ps !! name with
                  | Some p => ∃ q, qs !! name = Some q ∧ policy_as h' q p
                  | None => qs !! name = None
                  end) as Hq'.
  { intros name. specialize (Hq name). rewrite lookup_fmap in Hq. by destruct (ps !! name). }
  assert (same_content kr kr') as Hsame.
  { unfold same_content. fold ps. apply map_eq. intros name. rewrite lookup_fmap. cbn. specialize (Hq' name).
    destruct (ps !! name) as [p|]; [|by rewrite Hq']. destruct Hq' as (q & -> & _ & Hv). cbn. by rewrite Hv. }
  assert (wf kr') as W'.
  { apply (same_wf kr); [done..| |done]. intros name q Hnq. cbn in Hnq. specialize (Hq' name).
    destruct (ps !! name) as [p|]; [|congruence]. destruct Hq' as (q' & Hq' & Hin & _). by simplify_eq. }
  exists (encode (policies_json ps)), kr'. split; [by apply Marshal_storable|]. split.
  { unfold Unmarshal. rewrite Hdec. unfold policies_json. by rewrite Hmem, E. }
  split_and!; [done|done|done|done|done|]. intros Hsl name v.
  rewrite (proj1 (cipher_cache_transparent kr' name v W')), (proj1 (cipher_cache_transparent kr name v W)).
  by apply same_ciphers.
Qed.

(** A text that cannot be read leaves an error, one with a nil key is outside. *)
Example unmarshal_refuses :
  Unmarshal (NewKeyring ∅) "[]" = LoadFailed errJSON ∧ Unmarshal (NewKeyring ∅) "{" = LoadFailed errJSON.
Proof. by vm_compute. Qed.

Example marshal_demo : Marshal (NewKeyring ∅) = Ok "{}".
Proof. by vm_compute. Qed.

Lemma keyring_store_roundtrip_witness :
  ∃ data kr', Marshal demo_keyring = Ok data ∧ Unmarshal (Seal demo_keyring) data = Loaded kr' ∧
    sealed kr' = false ∧ (GetCipher kr' "k" 1).2 = (GetCipher demo_keyring "k" 1).2.
Proof.
  destruct (keyring_store_roundtrip demo_keyring (Seal demo_keyring) demo_keyring_wf)
    as (data & kr' & Hm & Hu & _ & Hs & _ & _ & _ & Hc).
  - intros name p Hp. destruct (decide (name = "k")) as [->|Hne].
    + vm_compute in Hp. injection Hp as <-. split; [reflexivity|]. split.
      * repeat (apply Forall_cons_2; [split; vm_compute; congruence|]). apply Forall_nil_2.
      * repeat (apply Forall_cons_2; [split; [vm_compute; congruence|reflexivity]|]). apply Forall_nil_2.
    + assert ((map_to_list (policies demo_keyring)).*1 = ["k"]) as E by (vm_compute; reflexivity).
      apply elem_of_map_to_list, (list_elem_of_fmap_2 fst) in Hp. rewrite E in Hp.
      apply list_elem_of_singleton in Hp. done.
  - exists data, kr'. split; [exact Hm|]. split; [exact Hu|]. split; [exact Hs|]. apply Hc. reflexivity.
Defined.
End KeyringStore.
