(* ===== verification/Lock.v ===== *)
(** * services/lock/internal/service: the vault

    [LockService] is the struct of the same name without its logger; the mutex is
    held by every operation from start to end, so the operations are the atomic
    steps of a concurrent run. An operation that can panic returns an [outcome];
    nothing recovers from a panic, so the process ends and what it leaves in memory
    ([Unseal] has already appended the share) is not part of it. *)

From S2P Require Import Prelude GoStd Aead Aes Keyring.
Local Open Scope Z_scope.

Module Lock.

Definition ErrSealed : error := sentinel "lock" "ErrSealed" "vault is sealed".
Definition ErrNotSealed : error := sentinel "lock" "ErrNotSealed" "vault is not sealed".
Definition ErrNotInitialized : error := sentinel "lock" "ErrNotInitialized" "vault is not initialized".
Definition ErrAlreadyInitialized : error := sentinel "lock" "ErrAlreadyInitialized" "vault is already initialized".
Definition ErrInvalidKey : error := sentinel "lock" "ErrInvalidKey" "invalid unseal key".
Definition ErrSecretNotFound : error := sentinel "lock" "ErrSecretNotFound" "secret not found".
Definition ErrKeyNotFound : error := sentinel "lock" "ErrKeyNotFound" "key not found".

Record Secret := {
  Data : gmap string bytes;
  SVersion : Z;
  SCreatedAt : time;
  SUpdatedAt : time;
  CustomMetadata : gmap string string
}.

Record LockService := {
  initialized : bool;
  sealed : bool;
  masterKey : bytes;
  shamirKeys : list bytes;
  threshold : Z;
  unsealKeys : list bytes;
  secrets : gmap string Secret;
  keyring : Keyring.Keyring;
  barrierKey : bytes
}.

Definition set_sealed (v : bool) (s : LockService) : LockService :=
  {| initialized := initialized s; sealed := v; masterKey := masterKey s; shamirKeys :=
     shamirKeys s; threshold := threshold s; unsealKeys := unsealKeys s; secrets :=
     secrets s; keyring := keyring s; barrierKey := barrierKey s |}.
Definition set_unsealKeys (v : list bytes) (s : LockService) : LockService :=
  {| initialized := initialized s; sealed := sealed s; masterKey := masterKey s;
     shamirKeys := shamirKeys s; threshold := threshold s; unsealKeys := v; secrets :=
     secrets s; keyring := keyring s; barrierKey := barrierKey s |}.
Definition set_secrets (v : gmap string Secret) (s : LockService) : LockService :=
  {| initialized := initialized s; sealed := sealed s; masterKey := masterKey s;
     shamirKeys := shamirKeys s; threshold := threshold s; unsealKeys := unsealKeys s;
     secrets := v; keyring := keyring s; barrierKey := barrierKey s |}.
Definition set_keyring (v : Keyring.Keyring) (s : LockService) : LockService :=
  {| initialized := initialized s; sealed := sealed s; masterKey := masterKey s;
     shamirKeys := shamirKeys s; threshold := threshold s; unsealKeys := unsealKeys s;
     secrets := secrets s; keyring := v; barrierKey := barrierKey s |}.

(** [cfgThreshold] is [cfg.Seal.Threshold]; [h] holds the arrays of the process. *)
Definition NewLockService (cfgThreshold : Z) (h : gmap Keyring.loc bytes) : LockService :=
  {| initialized := false; sealed := true; masterKey := []; shamirKeys := [];
     threshold := cfgThreshold; unsealKeys := []; secrets := ∅;
     keyring := Keyring.NewKeyring h; barrierKey := [] |}.

(** ** The placeholder secret sharing *)

(** Share [i]: the index byte [byte(i + 1)], then the secret itself. *)
Definition share (secret : bytes) (i : nat) : bytes := zbyte (Z.of_nat i + 1) :: secret.

(** [make([][]byte, shares)] panics for a negative number. *)
Definition shamirSplit (secret : bytes) (shares threshold : Z) : outcome (list bytes) :=
  if shares <? 0 then Panic "makeslice: len out of range"
  else Ret (share secret <$> seq 0 (Z.to_nat shares)).

(** [shares[0][1:]] panics when the first share is empty. *)
Definition shamirCombine (shares : list bytes) : outcome (result bytes) :=
  match shares with
  | [] => Ret (Err (errorString "no shares provided"))
  | [] :: _ => Panic "slice bounds out of range [1:0]"
  | (_ :: secret) :: _ => Ret (Ok secret)
  end.

(** The loop [for i := range a] after the length test. *)
Fixpoint bytesEqual_loop (a b : bytes) : bool :=
  match a, b with
  | x :: a', y :: b' => if bool_decide (x = y) then bytesEqual_loop a' b' else false
  | _, _ => true
  end.

Definition bytesEqual (a b : bytes) : bool :=
  if negb (length a =? length b)%nat then false else bytesEqual_loop a b.

(** ** Seal operations *)

Definition errRand : error := errorString "rand".

Definition Initialize (s : LockService) (shares thresh : Z) (r1 r2 r3 : entropy)
    : outcome (LockService * result (list string * string)) :=
  if initialized s then Ret (s, Err ErrAlreadyInitialized)
  else match rand_Read 32 r1 with
  | None => Ret (s, Err errRand)
  | Some masterKey =>
      let! shamirKeys := shamirSplit masterKey shares thresh in
      match rand_Read 32 r2 with
      | None => Ret (s, Err errRand)
      | Some barrierKey =>
          match rand_Read 32 r3 with
          | None => Ret (s, Err errRand)
          | Some rootTokenBytes =>
              let rootToken := Base64.EncodeToString Base64.StdEncoding rootTokenBytes in
              let s' :=
                {| initialized := true; sealed := false; masterKey := masterKey;
                   shamirKeys := shamirKeys; threshold := thresh; unsealKeys := unsealKeys s;
                   secrets := secrets s; keyring := keyring s; barrierKey := barrierKey |} in
              let keyStrings := Base64.EncodeToString Base64.StdEncoding <$> shamirKeys in
              Ret (s', Ok (keyStrings, rootToken))
          end
      end
  end.

(** The three values Go returns: unsealed, progress, error. *)
Definition Unseal (s : LockService) (keyShare : string)
    : outcome (LockService * (bool * Z * option error)) :=
  if negb (initialized s) then Ret (s, (false, 0, Some ErrNotInitialized))
  else if negb (sealed s) then Ret (s, (true, threshold s, None))
  else match Base64.DecodeString Base64.StdEncoding keyShare with
  | None => Ret (s, (false, zlen (unsealKeys s), Some ErrInvalidKey))
  | Some keyBytes =>
      let s1 := set_unsealKeys (unsealKeys s ++ [keyBytes]) s in
      if threshold s1 <=? zlen (unsealKeys s1) then
        let! combined := shamirCombine (unsealKeys s1) in
        match combined with
        | Err _ => Ret (set_unsealKeys [] s1, (false, 0, Some ErrInvalidKey))
        | Ok reconstructed =>
            if negb (bytesEqual reconstructed (masterKey s1)) then
              Ret (set_unsealKeys [] s1, (false, 0, Some ErrInvalidKey))
            else
              Ret (set_unsealKeys [] (set_sealed false s1), (true, threshold s1, None))
        end
      else Ret (s1, (false, zlen (unsealKeys s1), None))
  end.

Definition Seal (s : LockService) : LockService * option error :=
  if negb (initialized s) then (s, Some ErrNotInitialized)
  else if sealed s then (s, Some ErrNotSealed)
  else (set_sealed true (set_unsealKeys [] (set_keyring (Keyring.Seal (keyring s)) s)), None).

Definition IsSealed (s : LockService) : bool := sealed s.
Definition IsInitialized (s : LockService) : bool := initialized s.

Definition GetSealStatus (s : LockService) : bool * bool * Z * Z :=
  (sealed s, initialized s, threshold s, zlen (unsealKeys s)).

(** ** Secrets *)

Definition PutSecret (s : LockService) (path : string) (data : gmap string bytes) (now : time)
    : LockService * result Z :=
  if sealed s then (s, Err ErrSealed)
  else
    let version := match secrets s !! path with
                   | Some existing => SVersion existing + 1
                   | None => 1
                   end in
    let secret := {| Data := data; SVersion := version; SCreatedAt := now; SUpdatedAt := now;
                     CustomMetadata := ∅ |} in
    (set_secrets (<[path := secret]> (secrets s)) s, Ok version).

Definition GetSecret (s : LockService) (path : string) : result Secret :=
  if sealed s then Err ErrSealed
  else match secrets s !! path with
  | None => Err ErrSecretNotFound
  | Some secret => Ok secret
  end.

Definition DeleteSecret (s : LockService) (path : string) : LockService * option error :=
  if sealed s then (s, Some ErrSealed)
  else match secrets s !! path with
  | None => (s, Some ErrSecretNotFound)
  | Some _ => (set_secrets (delete path (secrets s)) s, None)
  end.

(** [len(prefix) == 0 || len(path) >= len(prefix) && path[:len(prefix)] == prefix] *)
Definition under_prefix (prefix path : string) : bool :=
  (slen prefix =? 0) ||
  (slen prefix <=? slen path) && bool_decide (Strings.take (String.length prefix) path = prefix).

Definition ListSecrets (s : LockService) (prefix : string) : result (list string) :=
  if sealed s then Err ErrSealed
  else Ok (List.filter (under_prefix prefix) ((map_to_list (secrets s)).*1)).

(** ** Keys *)

Definition CreateKey (s : LockService) (name : string) (keyType : Keyring.KeyType) (r : entropy)
    (clk : nat → time) : LockService * option error :=
  if sealed s then (s, Some ErrSealed)
  else
    let (kr, res) := Keyring.CreateKey (keyring s) name keyType [] r clk in
    (set_keyring kr s, match res with Ok _ => None | Err e => Some e end).

Definition GetKey (s : LockService) (name : string) : result Keyring.KeyPolicy :=
  if sealed s then Err ErrSealed else Keyring.GetKey (keyring s) name.

Definition GetEncryptionKey (s : LockService) (name : string) (version : Z) : result Keyring.Key :=
  if sealed s then Err ErrSealed else Keyring.GetKeyVersion (keyring s) name version.

Definition RotateKey (s : LockService) (name : string) (r : entropy) (clk : nat → time)
    : LockService * result Z :=
  if sealed s then (s, Err ErrSealed)
  else let (kr, res) := Keyring.RotateKey (keyring s) name r clk in (set_keyring kr s, res).

Definition ListKeys (s : LockService) : result (list string) :=
  if sealed s then Err ErrSealed else Ok (Keyring.ListKeys (keyring s)).

(** ** Runs *)

Inductive step (s : LockService) : LockService → Prop :=
  | step_Initialize shares t r1 r2 r3 s' res :
      Initialize s shares t r1 r2 r3 = Ret (s', res) → step s s'
  | step_Unseal k s' res : Unseal s k = Ret (s', res) → step s s'
  | step_Seal : step s (Seal s).1
  | step_PutSecret path data now : step s (PutSecret s path data now).1
  | step_DeleteSecret path : step s (DeleteSecret s path).1
  | step_CreateKey name t r clk : step s (CreateKey s name t r clk).1
  | step_RotateKey name r clk : step s (RotateKey s name r clk).1.

(** Submitting a list of shares one after the other, with the answers. *)
Fixpoint unseal_all (s : LockService) (ks : list string)
    : outcome (LockService * list (bool * Z * option error)) :=
  match ks with
  | [] => Ret (s, [])
  | k :: ks' =>
      let! (s1, a) := Unseal s k in
      let! (s2, rest) := unseal_all s1 ks' in
      Ret (s2, a :: rest)
  end.

Record inv (s : LockService) : Prop := {
  inv_unsealed : sealed s = false → initialized s = true ∧ unsealKeys s = [];
  inv_fresh : initialized s = false → secrets s = ∅ ∧ unsealKeys s = [] ∧
    Keyring.policies (keyring s) = ∅;
  inv_progress : unsealKeys s = [] ∨ zlen (unsealKeys s) < threshold s;
  inv_master : initialized s = true →
    length (masterKey s) = 32%nat ∧ ∃ n, shamirKeys s = share (masterKey s) <$> seq 0 n;
  inv_keyring : Keyring.wf (keyring s);
  inv_locked : initialized s = true → sealed s = true → Keyring.locked (keyring s);
  inv_versions path sec : secrets s !! path = Some sec → 1 ≤ SVersion sec
}.

(** ** Lemmas *)

Lemma bytesEqual_loop_spec a b :
  length a = length b → bytesEqual_loop a b = bool_decide (a = b).
Proof.
  revert b. induction a as [|x a IH]; intros [|y b] H; cbn in *; try done.
  injection H as H. case_bool_decide as E.
  - subst. rewrite IH by done. apply bool_decide_ext. naive_solver.
  - symmetry. apply bool_decide_eq_false. naive_solver.
Qed.

Lemma bytesEqual_spec a b : bytesEqual a b = bool_decide (a = b).
Proof.
  unfold bytesEqual. destruct (Nat.eqb_spec (length a) (length b)) as [E|E]; cbn.
  - by apply bytesEqual_loop_spec.
  - symmetry. apply bool_decide_eq_false. congruence.
Qed.

(** A successful initialisation. *)
Lemma Initialize_inv s n t r1 r2 r3 s' keys tok :
  Initialize s n t r1 r2 r3 = Ret (s', Ok (keys, tok)) →
  initialized s = false ∧ 0 ≤ n ∧ length (masterKey s') = 32%nat ∧
  initialized s' = true ∧ sealed s' = false ∧ threshold s' = t ∧
  shamirKeys s' = share (masterKey s') <$> seq 0 (Z.to_nat n) ∧
  keys = Base64.EncodeToString Base64.StdEncoding <$> shamirKeys s' ∧
  unsealKeys s' = unsealKeys s ∧ secrets s' = secrets s ∧ keyring s' = keyring s.
Proof.
  unfold Initialize. destruct (initialized s); [done|].
  destruct (rand_Read 32 r1) as [m|] eqn:Hm; [|done]. apply rand_Read_length in Hm.
  unfold shamirSplit. destruct (Z.ltb_spec n 0); [done|]. cbn.
  destruct (rand_Read 32 r2) as [b|]; [|done]. destruct (rand_Read 32 r3) as [rt|]; [|done].
  intros [= <- <- <-]. cbn. done.
Qed.

Lemma Initialize_err s n t r1 r2 r3 s' e :
  Initialize s n t r1 r2 r3 = Ret (s', Err e) → s' = s.
Proof.
  unfold Initialize. destruct (initialized s); [by intros [= <- _]|].
  destruct (rand_Read 32 r1) as [m|]; [|by intros [= <- _]].
  unfold shamirSplit. destruct (n <? 0); [done|]. cbn.
  destruct (rand_Read 32 r2); [|by intros [= <- _]].
  by destruct (rand_Read 32 r3); [|intros [= <- _]].
Qed.

(** Every non-panicking answer of [Unseal] changes at most the collected shares,
    and the seal flag from sealed to unsealed with no share left. *)
Lemma Unseal_inv s k s' res :
  Unseal s k = Ret (s', res) →
  s' = s ∨
  (initialized s = true ∧ sealed s = true ∧
   ∃ us, (us = [] ∨ zlen us < threshold s) ∧
     (s' = set_unsealKeys us s ∨ (us = [] ∧ s' = set_unsealKeys us (set_sealed false s)))).
Proof.
  unfold Unseal. destruct (initialized s) eqn:Hi; cbn [negb]; [|intros [= <- _]; by left].
  destruct (sealed s) eqn:Hs; cbn [negb]; [|intros [= <- _]; by left].
  destruct (Base64.DecodeString _ k) as [b|]; [|intros [= <- _]; by left].
  intros H. right. split_and!; [done..|]. cbn in H.
  destruct (Z.leb_spec (threshold s) (zlen (unsealKeys s ++ [b]))) as [Hle|Hlt].
  - exists []. split; [by left|].
    destruct (shamirCombine (unsealKeys s ++ [b])) as [[sec|e]|]; cbn in H; [|injection H as <- _..|done].
    + destruct (bytesEqual sec (masterKey s)); cbn in H; injection H as <- _; [right|left]; done.
    + by left.
  - injection H as <- _. eauto.
Qed.

Lemma Keyring_step_CreateKey s name t r clk :
  Keyring.step (keyring s) (keyring (CreateKey s name t r clk).1) ∨ CreateKey s name t r clk = (s, Some ErrSealed).
Proof.
  unfold CreateKey. destruct (sealed s); [by right|left].
  destruct (Keyring.CreateKey (keyring s) name t [] r clk) as [kr res] eqn:E. cbn.
  replace kr with (Keyring.CreateKey (keyring s) name t [] r clk).1 by by rewrite E.
  by constructor.
Qed.

Lemma Keyring_step_RotateKey s name r clk :
  Keyring.step (keyring s) (keyring (RotateKey s name r clk).1) ∨ RotateKey s name r clk = (s, Err ErrSealed).
Proof.
  unfold RotateKey. destruct (sealed s); [by right|left].
  destruct (Keyring.RotateKey (keyring s) name r clk) as [kr res] eqn:E. cbn.
  replace kr with (Keyring.RotateKey (keyring s) name r clk).1 by by rewrite E.
  constructor.
Qed.

(** What each step does to the part of the state it does not own. *)
Lemma CreateKey_frame s name t r clk :
  ∃ kr, (CreateKey s name t r clk).1 = set_keyring kr s ∧ (kr = keyring s ∨ sealed s = false ∧ Keyring.step (keyring s) kr).
Proof.
  destruct (Keyring_step_CreateKey s name t r clk) as [H|H].
  - unfold CreateKey in *. destruct (sealed s) eqn:Hs; [exists (keyring s); split; [by destruct s|by left]|].
    destruct (Keyring.CreateKey (keyring s) name t [] r clk) as [kr res]. cbn in *. eauto.
  - rewrite H. exists (keyring s). split; [by destruct s|by left].
Qed.

Lemma RotateKey_frame s name r clk :
  ∃ kr, (RotateKey s name r clk).1 = set_keyring kr s ∧ (kr = keyring s ∨ sealed s = false ∧ Keyring.step (keyring s) kr).
Proof.
  destruct (Keyring_step_RotateKey s name r clk) as [H|H].
  - unfold RotateKey in *. destruct (sealed s) eqn:Hs; [exists (keyring s); split; [by destruct s|by left]|].
    destruct (Keyring.RotateKey (keyring s) name r clk) as [kr res]. cbn in *. eauto.
  - rewrite H. exists (keyring s). split; [by destruct s|by left].
Qed.

(** The keyring of a vault only moves by steps of the keyring. *)
Lemma step_keyring s s' : step s s' → rtc Keyring.step (keyring s) (keyring s').
Proof.
  intros H; destruct H.
  - destruct res as [[keys tok]|e].
    + apply Initialize_inv in H as (_ & _ & _ & _ & _ & _ & _ & _ & _ & _ & ->). done.
    + by apply Initialize_err in H as ->.
  - apply Unseal_inv in H as [->|(_ & _ & us & _ & [->|[_ ->]])]; done.
  - unfold Seal. destruct (initialized s); cbn; [|done].
    destruct (sealed s); cbn; [done|]. apply rtc_once, Keyring.step_Seal.
  - unfold PutSecret. by destruct (sealed s).
  - unfold DeleteSecret. destruct (sealed s); [done|]. by destruct (secrets s !! path).
  - destruct (CreateKey_frame s name t r clk) as (kr & -> & [->|[_ Hk]]); [done|by apply rtc_once].
  - destruct (RotateKey_frame s name r clk) as (kr & -> & [->|[_ Hk]]); [done|by apply rtc_once].
Qed.

Lemma rtc_keyring s s' : rtc step s s' → rtc Keyring.step (keyring s) (keyring s').
Proof. induction 1; [done|]. etrans; [by apply step_keyring|done]. Qed.

(** Once initialised, the master key, the threshold and the shares are fixed. *)
Lemma step_master s s' :
  step s s' → initialized s = true →
  initialized s' = true ∧ masterKey s' = masterKey s ∧ threshold s' = threshold s ∧
  shamirKeys s' = shamirKeys s ∧ barrierKey s' = barrierKey s.
Proof.
  intros H Hi; destruct H.
  - destruct res as [[keys tok]|e].
    + apply Initialize_inv in H as (Hf & _). congruence.
    + by apply Initialize_err in H as ->.
  - apply Unseal_inv in H as [->|(_ & _ & us & _ & [->|[_ ->]])]; done.
  - unfold Seal. rewrite Hi. cbn. by destruct (sealed s).
  - unfold PutSecret. by destruct (sealed s).
  - unfold DeleteSecret. destruct (sealed s); [done|]. by destruct (secrets s !! path).
  - by destruct (CreateKey_frame s name t r clk) as (kr & -> & _).
  - by destruct (RotateKey_frame s name r clk) as (kr & -> & _).
Qed.

Lemma rtc_master s s' :
  rtc step s s' → initialized s = true →
  initialized s' = true ∧ masterKey s' = masterKey s ∧ threshold s' = threshold s ∧
  shamirKeys s' = shamirKeys s ∧ barrierKey s' = barrierKey s.
Proof.
  induction 1 as [|s s1 s2 H _ IH]; intros Hi; [done|].
  destruct (step_master _ _ H Hi) as (Hi1 & <- & <- & <- & <-). by apply IH.
Qed.

(** *** The invariant *)

Lemma NewLockService_inv t h : inv (NewLockService t h).
Proof. split; cbn; try done; by left. Qed.

Lemma inv_set_unsealKeys s us :
  inv s → initialized s = true → sealed s = true → us = [] ∨ zlen us < threshold s →
  inv (set_unsealKeys us s).
Proof. intros [] Hi Hs Hu. split; cbn; try done; congruence. Qed.

Lemma inv_set_sealed s :
  inv s → initialized s = true → inv (set_unsealKeys [] (set_sealed false s)).
Proof. intros [] Hi. split; cbn; try done; [congruence|by left]. Qed.

(** A keyring step while unsealed, or none at all. *)
Lemma inv_set_keyring s kr :
  inv s → kr = keyring s ∨ sealed s = false ∧ Keyring.step (keyring s) kr → inv (set_keyring kr s).
Proof.
  intros I [->|[Hs Hk]]; [by destruct s|]. destruct (inv_unsealed _ I Hs) as [Hi _].
  destruct I. split; cbn; try done; try congruence. by eapply Keyring.step_wf.
Qed.

Lemma inv_set_secrets s ss :
  inv s → sealed s = false →
  (∀ path sec, ss !! path = Some sec → 1 ≤ SVersion sec) → inv (set_secrets ss s).
Proof.
  intros I Hs Hv. destruct (inv_unsealed _ I Hs) as [Hi _]. destruct I. split; cbn; done || congruence.
Qed.

Lemma PutSecret_inv s path data now : inv s → inv (PutSecret s path data now).1.
Proof.
  intros I. unfold PutSecret. destruct (sealed s) eqn:Hs; [done|]. cbn.
  apply inv_set_secrets; [done..|]. intros q sec. rewrite lookup_insert_Some.
  intros [[<- <-]|[_ Hq]]; [|by eapply inv_versions]. cbn.
  destruct (secrets s !! path) as [old|] eqn:Ho; [|done].
  apply (inv_versions _ I) in Ho. lia.
Qed.

Lemma DeleteSecret_inv s path : inv s → inv (DeleteSecret s path).1.
Proof.
  intros I. unfold DeleteSecret. destruct (sealed s) eqn:Hs; [done|].
  destruct (secrets s !! path); [|done]. cbn. apply inv_set_secrets; [done..|].
  intros q sec. rewrite lookup_delete_Some. intros [_ Hq]. by eapply inv_versions.
Qed.

Lemma Seal_inv s : inv s → inv (Seal s).1.
Proof.
  intros I. unfold Seal. destruct (initialized s) eqn:Hi; cbn; [|done].
  destruct (sealed s) eqn:Hs; cbn; [done|]. destruct I.
  split; cbn; try done; try congruence; by left.
Qed.

Lemma Initialize_keeps_inv s n t r1 r2 r3 s' res :
  inv s → Initialize s n t r1 r2 r3 = Ret (s', res) → inv s'.
Proof.
  intros I H. destruct res as [[keys tok]|e]; [|by apply Initialize_err in H as ->].
  apply Initialize_inv in H as (Hi & _ & Hm & Hi' & Hs' & _ & Hk & _ & Hu & Hss & Hkr).
  destruct (inv_fresh _ I Hi) as (_ & Hu0 & _).
  split; rewrite ?Hu, ?Hss, ?Hkr; try done; try congruence.
  - by left.
  - intros _. split; [done|]. eauto.
  - apply I.
  - apply I.
Qed.

Lemma step_inv s s' : inv s → step s s' → inv s'.
Proof.
  intros I H; destruct H.
  - by eapply Initialize_keeps_inv.
  - apply Unseal_inv in H as [->|(Hi & Hs & us & Hu & [->|[-> ->]])]; [done| |].
    + by apply inv_set_unsealKeys.
    + by apply inv_set_sealed.
  - by apply Seal_inv.
  - by apply PutSecret_inv.
  - by apply DeleteSecret_inv.
  - destruct (CreateKey_frame s name t r clk) as (kr & -> & H). by apply inv_set_keyring.
  - destruct (RotateKey_frame s name r clk) as (kr & -> & H). by apply inv_set_keyring.
Qed.

Lemma rtc_inv s s' : rtc step s s' → inv s → inv s'.
Proof. induction 1; eauto using step_inv. Qed.

(** *** Collecting shares *)

Definition decodes (k : string) : Prop := is_Some (Base64.DecodeString Base64.StdEncoding k).
Definition decoded (k : string) : bytes := default [] (Base64.DecodeString Base64.StdEncoding k).

(** Below the threshold, each share is recorded and the progress reported. *)
Lemma unseal_all_below s ks :
  initialized s = true → sealed s = true → Forall decodes ks →
  zlen (unsealKeys s) + zlen ks < threshold s →
  unseal_all s ks =
    Ret (set_unsealKeys (unsealKeys s ++ (decoded <$> ks)) s,
         (λ i, (false, zlen (unsealKeys s) + Z.of_nat i + 1, None)) <$> seq 0 (length ks)).
Proof.
  revert s. induction ks as [|k ks IH]; intros s Hi Hs Hd Hl.
  { cbn. rewrite app_nil_r. by destruct s. }
  inversion Hd as [|? ? Hk Hks]; subst. destruct Hk as [b Hb]. cbn [unseal_all].
  unfold zlen in Hl |- *. cbn [length] in Hl.
  unfold Unseal at 1. rewrite Hi, Hs, Hb. cbn -[unseal_all].
  rewrite (proj2 (Z.leb_gt _ _)) by (unfold zlen; rewrite length_app; cbn; lia).
  cbn -[unseal_all]. rewrite IH; [|done..|].
  2:{ cbn. unfold zlen. rewrite length_app. cbn. lia. }
  cbn. f_equal. f_equal.
  - unfold set_unsealKeys. cbn. unfold decoded at 2. rewrite Hb. cbn. by rewrite <- app_assoc.
  - f_equal.
    + unfold zlen. rewrite length_app. cbn. do 2 f_equal. lia.
    + rewrite <- fmap_S_seq, <- list_fmap_compose. apply list_fmap_ext. intros i j _. cbn.
      unfold zlen. rewrite length_app. cbn. do 2 f_equal. lia.
Qed.

Lemma unseal_all_app s ks ks' :
  unseal_all s (ks ++ ks') =
    let! (s1, a) := unseal_all s ks in
    let! (s2, b) := unseal_all s1 ks' in Ret (s2, a ++ b).
Proof.
  revert s. induction ks as [|k ks IH]; intros s.
  - cbn. by destruct (unseal_all s ks') as [[? ?]|].
  - cbn [unseal_all app]. destruct (Unseal s k) as [[s1 a]|]; cbn; [|done].
    rewrite IH. destruct (unseal_all s1 ks) as [[s2 b]|]; cbn; [|done].
    by destruct (unseal_all s2 ks') as [[s3 c]|].
Qed.

Lemma unseal_all_rtc s ks s' a : unseal_all s ks = Ret (s', a) → rtc step s s'.
Proof.
  revert s a. induction ks as [|k ks IH]; intros s a H; cbn in H; [by injection H as <- _|].
  destruct (Unseal s k) as [[s1 b]|] eqn:Hk; cbn in H; [|done].
  destruct (unseal_all s1 ks) as [[s2 c]|] eqn:Hr; cbn in H; [|done]. injection H as <- _.
  eapply rtc_l; [by eapply step_Unseal|by eapply IH].
Qed.

(** The share that reaches the threshold: the first collected share decides. *)
Lemma Unseal_last s k b sec us :
  initialized s = true → sealed s = true → decodes k →
  unsealKeys s ++ [decoded k] = (b :: sec) :: us →
  threshold s ≤ zlen (unsealKeys s) + 1 →
  Unseal s k =
    Ret (if bool_decide (sec = masterKey s)
         then (set_unsealKeys [] (set_sealed false s), (true, threshold s, None))
         else (set_unsealKeys [] s, (false, 0, Some ErrInvalidKey))).
Proof.
  intros Hi Hs [d Hd] Hus Ht. unfold decoded in Hus. rewrite Hd in Hus. cbn in Hus.
  unfold Unseal. rewrite Hi, Hs, Hd. cbn -[zlen]. rewrite Hus.
  assert (zlen (unsealKeys s) + 1 = zlen ((b :: sec) :: us)) as E.
  { rewrite <- Hus. unfold zlen. rewrite length_app. cbn. lia. }
  rewrite (proj2 (Z.leb_le _ _)) by lia. cbn. rewrite bytesEqual_spec. cbn.
  by case_bool_decide.
Qed.

(** Submitting exactly [threshold] shares to a sealed vault. *)
Lemma unseal_all_threshold s k ks b sec :
  initialized s = true → sealed s = true → unsealKeys s = [] →
  decodes k → Forall decodes ks → decoded k = b :: sec → zlen (k :: ks) = threshold s →
  ∃ answers, unseal_all s (k :: ks) =
    Ret (set_sealed (negb (bool_decide (sec = masterKey s))) s, answers) ∧
    last answers = Some (if bool_decide (sec = masterKey s)
                         then (true, threshold s, None) else (false, 0, Some ErrInvalidKey)).
Proof.
  intros Hi Hs Hu Hk Hks Hd Ht.
  assert (∃ ks' k', k :: ks = ks' ++ [k']) as (ks' & k' & E).
  { destruct (exists_last (l := k :: ks)) as (l & x & ->); [done|eauto]. }
  assert (Forall decodes (ks' ++ [k'])) as Hall by (rewrite <- E; by constructor).
  apply Forall_app in Hall as [Hks' Hk'']. inversion Hk'' as [|? ? Hk' _]; subst.
  rewrite E in Ht |- *. rewrite zlen_app in Ht. unfold zlen at 2 in Ht. cbn in Ht.
  rewrite unseal_all_app, unseal_all_below by (done || rewrite Hu; unfold zlen in *; cbn; lia).
  cbn [obind]. cbn [unseal_all].
  assert (unsealKeys s ++ (decoded <$> ks') ++ [decoded k'] = (b :: sec) :: (decoded <$> ks)) as Eus.
  { rewrite Hu. cbn. change [decoded k'] with (decoded <$> [k']).
    rewrite <- fmap_app, <- E. cbn. by rewrite Hd. }
  rewrite (Unseal_last _ k' b sec (decoded <$> ks)); [|done|done|done| |].
  - cbn. case_bool_decide; cbn; (eexists; split; [f_equal; f_equal|by rewrite last_snoc]);
      destruct s; cbn in *; by subst.
  - cbn. by rewrite <- app_assoc.
  - cbn. rewrite zlen_app. unfold zlen in *. rewrite length_fmap. lia.
Qed.

(** Every share the vault issues decodes to the index byte and the master key. *)
Lemma issued_share keys m n k :
  keys = Base64.EncodeToString Base64.StdEncoding <$> (share m <$> seq 0 n) → k ∈ keys →
  decodes k ∧ ∃ b, decoded k = b :: m.
Proof.
  intros -> Hk. apply list_elem_of_fmap in Hk as (x & -> & Hx).
  apply list_elem_of_fmap in Hx as (i & -> & _). unfold decodes, decoded.
  rewrite Base64.Decode_Encode. split; [by eexists|]. by eexists.
Qed.

(** *** Prefixes *)

Lemma take_prefix pre s : Strings.take (String.length pre) s = pre ↔ Strings.HasPrefix s pre = true.
Proof.
  rewrite Strings.HasPrefix_spec. split.
  - revert s. induction pre as [|a pre IH]; intros s; [by exists s|].
    destruct s as [|b s]; [done|]. cbn. intros [= -> H].
    destruct (IH s H) as [t ->]. by exists t.
  - intros [t ->]. induction pre as [|a pre IH]; [by destruct t|].
    change (String a pre +:+ t) with (String a (pre +:+ t)). cbn. by rewrite IH.
Qed.

Lemma under_prefix_spec pre path : under_prefix pre path = Strings.HasPrefix path pre.
Proof.
  unfold under_prefix, slen. apply eq_bool_prop_intro. rewrite !Is_true_true.
  rewrite orb_true_iff, andb_true_iff, bool_decide_eq_true, Z.eqb_eq, Z.leb_le, take_prefix.
  split; [|intros H; right; split; [|done]].
  - intros [H|[_ H]]; [|done]. destruct pre; [by destruct path|cbn in H; lia].
  - apply take_prefix in H. apply (f_equal String.length) in H. revert H.
    generalize (String.length pre). clear pre. intros n. revert n.
    induction path as [|a path IH]; intros [|n]; cbn; try lia.
    intros [= H]. apply IH in H. lia.
Qed.

(** *** Histories of secrets *)

Inductive secret_op :=
  | op_put (path : string) (data : gmap string bytes) (now : time)
  | op_delete (path : string).

Definition exec (s : LockService) (o : secret_op) : LockService :=
  match o with
  | op_put path data now => (PutSecret s path data now).1
  | op_delete path => (DeleteSecret s path).1
  end.

Definition exec_all (s : LockService) (ops : list secret_op) : LockService :=
  List.fold_left exec ops s.

(** The abstract store: for each path, the writes since its last deletion. *)
Definition record_op (path : string) (h : list (gmap string bytes * time)) (o : secret_op)
    : list (gmap string bytes * time) :=
  match o with
  | op_put p data now => if bool_decide (p = path) then h ++ [(data, now)] else h
  | op_delete p => if bool_decide (p = path) then [] else h
  end.

Definition history (path : string) (ops : list secret_op) : list (gmap string bytes * time) :=
  List.fold_left (record_op path) ops [].

(** The secret a history stands for. *)
Definition secret_of (h : list (gmap string bytes * time)) : option Secret :=
  '(data, now) ← last h;
  Some {| Data := data; SVersion := zlen h; SCreatedAt := now; SUpdatedAt := now;
          CustomMetadata := ∅ |}.

Lemma secret_of_None h : secret_of h = None → h = [].
Proof.
  unfold secret_of. destruct (last h) as [[d t]|] eqn:E; [done|]. by apply last_None in E.
Qed.

Lemma exec_sealed s o : sealed (exec s o) = sealed s.
Proof.
  destruct o; cbn; unfold PutSecret, DeleteSecret; destruct (sealed s) eqn:Hs; cbn; try done.
  by destruct (secrets s !! path).
Qed.

Lemma exec_record s o path h :
  sealed s = false → secrets s !! path = secret_of h →
  secrets (exec s o) !! path = secret_of (record_op path h o).
Proof.
  intros Hs Hh. destruct o as [p data now|p]; cbn.
  - unfold PutSecret. rewrite Hs. cbn. case_bool_decide as E; [subst p|by rewrite lookup_insert_ne].
    rewrite lookup_insert_eq, Hh. unfold secret_of at 2. rewrite last_snoc. cbn. do 2 f_equal.
    destruct (secret_of h) as [old|] eqn:Eo.
    + unfold secret_of in Eo. destruct (last h) as [[d t]|]; [|done]. injection Eo as <-.
      cbn. by rewrite zlen_app.
    + by apply secret_of_None in Eo as ->.
  - unfold DeleteSecret. rewrite Hs. case_bool_decide as E.
    + subst p. destruct (secrets s !! path) eqn:Es; cbn; [by rewrite lookup_delete_eq|done].
    + destruct (secrets s !! p); cbn; [by rewrite lookup_delete_ne|done].
Qed.

Lemma exec_all_history s ops path h :
  sealed s = false → secrets s !! path = secret_of h →
  sealed (exec_all s ops) = false ∧
  secrets (exec_all s ops) !! path = secret_of (List.fold_left (record_op path) ops h).
Proof.
  revert s h. unfold exec_all. induction ops as [|o ops IH]; intros s h Hs Hh; cbn; [done|].
  apply IH; [by rewrite exec_sealed|by apply exec_record].
Qed.

(** A vault with five shares and threshold three, used by the examples: it holds
    one key and one secret. *)
Definition demo_init : LockService * result (list string * string) :=
  match Initialize (NewLockService 3 ∅) 5 3 (Some (λ n, zbyte (Z.of_nat n)))
          (Some (λ _, one)) (Some (λ _, zero)) with
  | Ret x => x
  | Panic _ => (NewLockService 3 ∅, Err errRand)
  end.
Definition demo_keys : list string := match demo_init.2 with Ok (ks, _) => ks | Err _ => [] end.
Definition demo_token : string := match demo_init.2 with Ok (_, t) => t | Err _ => "" end.
Definition demo_vault : LockService :=
  (CreateKey (PutSecret demo_init.1 "app/db" {["pw" := to_bytes "s3cret"]} 7).1
     "k" Keyring.KeyTypeAES256GCM (Some (λ _, one)) (λ _, 7)).1.

Lemma demo_init_ok :
  Initialize (NewLockService 3 ∅) 5 3 (Some (λ n, zbyte (Z.of_nat n))) (Some (λ _, one))
    (Some (λ _, zero)) = Ret (demo_init.1, Ok (demo_keys, demo_token)).
Proof. vm_compute. reflexivity. Qed.

Lemma demo_vault_steps : rtc step demo_init.1 demo_vault.
Proof.
  eapply rtc_l; [apply (step_PutSecret _ "app/db" {["pw" := to_bytes "s3cret"]} 7)|].
  apply rtc_once, (step_CreateKey _ "k" Keyring.KeyTypeAES256GCM (Some (λ _, one)) (λ _, 7)).
Qed.

Lemma demo_vault_reachable : rtc step (NewLockService 3 ∅) demo_vault.
Proof. eapply rtc_l; [by eapply step_Initialize, demo_init_ok|apply demo_vault_steps]. Qed.

(** ** Properties *)

(** C1. Invariant of the vault, in every state reached from a new service by any
    sequence of operations: it is unsealed only after initialisation and then holds no
    collected share; before initialisation it holds no secret and no key; there are no
    collected shares or fewer of them than the threshold; the master key has 32 bytes and each share is
    an index byte followed by it; the keyring is well formed and is sealed whenever an
    initialised vault is sealed; stored versions start at 1. *)
Theorem vault_invariant t h s : rtc step (NewLockService t h) s → inv s.
Proof. intros H. eapply rtc_inv; [exact H|apply NewLockService_inv]. Qed.

Lemma vault_invariant_witness : inv demo_vault.
Proof. apply (vault_invariant 3 ∅ demo_vault), demo_vault_reachable. Defined.

(** C21. A sealed vault serves nothing: every operation on secrets and keys answers
    [ErrSealed] and leaves the state as it is. *)
Theorem sealed_vault_blocks s path data now prefix name version t r clk :
  sealed s = true →
  PutSecret s path data now = (s, Err ErrSealed) ∧ GetSecret s path = Err ErrSealed ∧
  DeleteSecret s path = (s, Some ErrSealed) ∧ ListSecrets s prefix = Err ErrSealed ∧
  CreateKey s name t r clk = (s, Some ErrSealed) ∧ GetKey s name = Err ErrSealed ∧
  GetEncryptionKey s name version = Err ErrSealed ∧
  RotateKey s name r clk = (s, Err ErrSealed) ∧ ListKeys s = Err ErrSealed.
Proof.
  intros H. unfold PutSecret, GetSecret, DeleteSecret, ListSecrets, CreateKey, GetKey,
    GetEncryptionKey, RotateKey, ListKeys. by rewrite H.
Qed.

Lemma sealed_vault_blocks_witness : GetSecret (Seal demo_vault).1 "app/db" = Err ErrSealed.
Proof.
  eapply (sealed_vault_blocks (Seal demo_vault).1 "app/db" ∅ 0 "" "" 0 Keyring.KeyTypeAES256GCM
            None (λ _, 0)).
  vm_compute. reflexivity.
Defined.

(** C5. Seal and unseal: take any state an initialised vault reaches while unsealed,
    seal it, and submit any [threshold] of the key strings [Initialize] returned
    (repetitions allowed). No submission panics, the last one answers "unsealed", and
    the vault is back in exactly the state it was sealed in, secrets, master key and
    barrier key included, except that its keyring has been emptied and sealed. *)
Theorem seal_unseal_cycle s0 n t r1 r2 r3 s1 keys tok s2 ks :
  inv s0 → Initialize s0 n t r1 r2 r3 = Ret (s1, Ok (keys, tok)) →
  rtc step s1 s2 → sealed s2 = false →
  Forall (λ k, k ∈ keys) ks → zlen ks = t → 1 ≤ t →
  ∃ s3 answers, Seal s2 = (s3, None) ∧
    unseal_all s3 ks = Ret (set_keyring (Keyring.Seal (keyring s2)) s2, answers) ∧
    last answers = Some (true, t, None).
Proof.
  intros I0 Hinit Hsteps Hs2 Hks Hlen Ht.
  pose proof (Initialize_keeps_inv _ _ _ _ _ _ _ _ I0 Hinit) as I1.
  pose proof (rtc_inv _ _ Hsteps I1) as I2.
  apply Initialize_inv in Hinit as (_ & _ & _ & Hi1 & _ & Ht1 & Hsk & Hkeys & _).
  destruct (rtc_master _ _ Hsteps Hi1) as (Hi2 & Hm2 & Ht2 & _ & _).
  destruct (inv_unsealed _ I2 Hs2) as [_ Hu2].
  rewrite Hsk in Hkeys.
  assert (Forall (λ k, decodes k ∧ ∃ b, decoded k = b :: masterKey s2) ks) as Hall.
  { eapply Forall_impl; [exact Hks|]. intros k Hk. rewrite Hm2. by eapply issued_share. }
  unfold Seal. rewrite Hi2, Hs2. cbn. eexists.
  destruct ks as [|k ks]; [unfold zlen in Hlen; cbn in Hlen; lia|].
  inversion Hall as [|? ? [Hk [b Hb]] Hrest]; subst.
  destruct (unseal_all_threshold
    (set_sealed true (set_unsealKeys [] (set_keyring (Keyring.Seal (keyring s2)) s2))) k ks b (masterKey s2))
    as (answers & Hrun & Hlast); try done.
  { eapply Forall_impl; [exact Hrest|]. by intros ? []. }
  { cbn. congruence. }
  exists answers. rewrite bool_decide_true in Hrun, Hlast by done.
  split_and!; [done| |].
  - rewrite Hrun. unfold set_sealed, set_unsealKeys, set_keyring. cbn.
    by rewrite Hs2, Hu2.
  - rewrite Hlast. cbn. congruence.
Qed.

(** The same share three times is enough. *)
Lemma seal_unseal_cycle_witness :
  ∃ s3 answers, Seal demo_vault = (s3, None) ∧
    unseal_all s3 (replicate 3 (List.nth 4 demo_keys "")) =
      Ret (set_keyring (Keyring.Seal (keyring demo_vault)) demo_vault, answers) ∧
    last answers = Some (true, 3, None).
Proof.
  apply (seal_unseal_cycle (NewLockService 3 ∅) 5 3 _ _ _ _ _ _ demo_vault _
           (NewLockService_inv 3 ∅) demo_init_ok demo_vault_steps);
    [reflexivity| |reflexivity|lia].
  repeat constructor; vm_compute; repeat constructor.
Defined.

(** Only the first share is looked at: when a sealed vault with no collected share
    receives exactly [threshold] well-formed base64 strings, of which the first decodes
    to an arbitrary byte followed by [sec], the vault is unsealed if and only if [sec]
    is the master key, whatever the other shares contain; otherwise it stays sealed
    with the collection reset, and nothing else in the state changes. *)
Theorem first_share_decides s k ks b sec :
  initialized s = true → sealed s = true → unsealKeys s = [] →
  decodes k → Forall decodes ks → decoded k = b :: sec → zlen (k :: ks) = threshold s →
  ∃ answers, unseal_all s (k :: ks) =
    Ret (set_sealed (negb (bool_decide (sec = masterKey s))) s, answers).
Proof.
  intros. destruct (unseal_all_threshold s k ks b sec) as (a & H' & _); eauto.
Qed.

(** Two shares of garbage after a true one. *)
Lemma first_share_decides_witness :
  ∃ answers, unseal_all (Seal demo_vault).1 [List.nth 0 demo_keys ""; ""; "AAAA"] =
    Ret (set_sealed false (Seal demo_vault).1, answers).
Proof.
  assert (bool_decide (masterKey demo_vault = masterKey (Seal demo_vault).1) = true) as E
    by (vm_compute; reflexivity).
  destruct (first_share_decides (Seal demo_vault).1 (List.nth 0 demo_keys "") [""; "AAAA"] one
              (masterKey demo_vault)) as [answers H].
  1-3,6-7: vm_compute; reflexivity.
  - vm_compute. eexists. reflexivity.
  - repeat constructor; vm_compute; eexists; reflexivity.
  - rewrite E in H. exists answers. exact H.
Defined.

(** C38. After a seal the keys are gone for good: in every state reached after a
    successful [Seal], unsealed again or not, reading, creating or rotating a key fails and
    changes nothing, with the lock service's [ErrSealed] while the vault is sealed and the
    keyring's [ErrKeyringSealed] once it is unsealed; and a sealed vault refuses to list
    the keys, an unsealed one lists none. *)
Theorem keys_lost_after_seal s s1 s2 name version t r clk :
  Seal s = (s1, None) → rtc step s1 s2 →
  let e := if sealed s2 then ErrSealed else Keyring.ErrKeyringSealed in
  GetEncryptionKey s2 name version = Err e ∧
  GetKey s2 name = Err e ∧
  CreateKey s2 name t r clk = (s2, Some e) ∧
  RotateKey s2 name r clk = (s2, Err e) ∧
  ListKeys s2 = if sealed s2 then Err ErrSealed else Ok [].
Proof.
  intros Hseal Hsteps.
  assert (Keyring.locked (keyring s2)) as [Hk Hp].
  { eapply Keyring.locked_rtc; [by apply rtc_keyring|].
    unfold Seal in Hseal. destruct (initialized s); cbn in Hseal; [|done].
    destruct (sealed s); cbn in Hseal; [done|]. by injection Hseal as <-. }
  unfold GetEncryptionKey, Keyring.GetKeyVersion, GetKey, Keyring.GetKey, CreateKey,
    Keyring.CreateKey, RotateKey, Keyring.RotateKey, ListKeys, Keyring.ListKeys.
  destruct (sealed s2); [done|].
  rewrite Hk, Hp, map_to_list_empty. cbn. split_and!; try done; by destruct s2.
Qed.

(** A key created before the cycle cannot be read after it. *)
Lemma keys_lost_after_seal_witness :
  (∃ k, GetEncryptionKey demo_vault "k" 0 = Ok k) ∧
  GetEncryptionKey (Seal demo_vault).1 "k" 0 = Err ErrSealed ∧
  GetEncryptionKey (set_sealed false (Seal demo_vault).1) "k" 0 = Err Keyring.ErrKeyringSealed.
Proof.
  split; [by vm_compute; eexists|]. split.
  { apply (keys_lost_after_seal demo_vault (Seal demo_vault).1
             (Seal demo_vault).1 "k" 0 Keyring.KeyTypeAES256GCM None (λ _, 0));
      [vm_compute; reflexivity|apply rtc_refl]. }
  apply (keys_lost_after_seal demo_vault (Seal demo_vault).1
           (set_sealed false (Seal demo_vault).1) "k" 0 Keyring.KeyTypeAES256GCM None (λ _, 0));
    [vm_compute; reflexivity|].
  eapply (unseal_all_rtc _ (take 3 demo_keys)). vm_compute. reflexivity.
Defined.

(** The run-time panics of the seal operations, exactly: [Unseal] panics when an
    initialised, sealed vault receives a base64 string that completes the threshold and
    the first collected share is empty; [Initialize] panics when an uninitialised vault
    is asked for a negative number of shares and the random source works. *)
Theorem seal_panics s k n t r1 r2 r3 :
  ((∃ msg, Unseal s k = Panic msg) ↔
   initialized s = true ∧ sealed s = true ∧ decodes k ∧
   threshold s ≤ zlen (unsealKeys s) + 1 ∧ head (unsealKeys s ++ [decoded k]) = Some []) ∧
  ((∃ msg, Initialize s n t r1 r2 r3 = Panic msg) ↔
   initialized s = false ∧ r1 ≠ None ∧ n < 0).
Proof.
  split.
  - unfold Unseal, decodes, decoded. destruct (initialized s); cbn [negb]; [|naive_solver].
    destruct (sealed s); cbn [negb]; [|naive_solver].
    destruct (Base64.DecodeString _ k) as [b|]; [|naive_solver]. cbn -[zlen].
    assert (zlen (unsealKeys s ++ [b]) = zlen (unsealKeys s) + 1) as ->
      by (unfold zlen; rewrite length_app; cbn; lia).
    destruct (Z.leb_spec (threshold s) (zlen (unsealKeys s) + 1)) as [Hle|Hlt].
    + destruct (unsealKeys s ++ [b]) as [|[|x sec] us]; cbn; [naive_solver|naive_solver|].
      destruct (bytesEqual sec (masterKey s)); cbn; naive_solver.
    + split; [naive_solver|]. intros (_ & _ & _ & H & _). lia.
  - unfold Initialize, shamirSplit. destruct (initialized s); [naive_solver|].
    destruct r1 as [f|]; cbn; [|naive_solver]. destruct (Z.ltb_spec n 0) as [Hn|Hn]; cbn.
    + split; [done|]. intros _. eauto.
    + split; [|naive_solver lia].
      destruct (rand_Read 32 r2); [destruct (rand_Read 32 r3)|]; naive_solver.
Qed.

(** C19. Secrets refine an abstract store of histories: after any sequence of writes and
    deletions on an unsealed vault with no secrets, reading a path gives the last data
    written since the path's last deletion, with the number of those writes as version
    and the time of the last one, and [ErrSecretNotFound] when there is none. *)
Theorem secrets_refine_history s ops path :
  sealed s = false → secrets s = ∅ →
  GetSecret (exec_all s ops) path =
    match secret_of (history path ops) with
    | Some secret => Ok secret
    | None => Err ErrSecretNotFound
    end.
Proof.
  intros Hs He. destruct (exec_all_history s ops path []) as [Hs' Hh]; [done|by rewrite He|].
  unfold GetSecret. rewrite Hs', Hh. done.
Qed.

Lemma secrets_refine_history_witness :
  let ops := [op_put "a" ∅ 1; op_put "b" ∅ 2; op_delete "a"; op_put "a" {["x" := []]} 3;
              op_put "a" {["y" := []]} 4] in
  GetSecret (exec_all demo_init.1 ops) "a" =
    Ok {| Data := {["y" := []]}; SVersion := 2; SCreatedAt := 4; SUpdatedAt := 4;
          CustomMetadata := ∅ |}.
Proof.
  intros ops. rewrite (secrets_refine_history demo_init.1 ops "a") by (vm_compute; reflexivity).
  vm_compute. reflexivity.
Defined.

(** [ListSecrets] returns, without duplicates, exactly the stored paths that start
    with the prefix. *)
Theorem list_secrets_complete s prefix keys :
  ListSecrets s prefix = Ok keys →
  NoDup keys ∧
  ∀ path, path ∈ keys ↔ is_Some (secrets s !! path) ∧ Strings.HasPrefix path prefix = true.
Proof.
  unfold ListSecrets. destruct (sealed s); [done|]. intros [= <-]. split.
  - apply NoDup_ListNoDup, List.NoDup_filter, NoDup_ListNoDup, NoDup_fst_map_to_list.
  - intros path. rewrite list_elem_of_In, List.filter_In, under_prefix_spec.
    rewrite <- list_elem_of_In, list_elem_of_fmap. split.
    + intros [([p sec] & -> & Hp) Hpre]. apply elem_of_map_to_list in Hp. eauto.
    + intros [[sec Hp] Hpre]. split; [|done]. exists (path, sec). split; [done|].
      by apply elem_of_map_to_list.
Qed.

Lemma list_secrets_complete_witness :
  ∃ keys, ListSecrets demo_vault "app/" = Ok keys ∧ NoDup keys ∧ "app/db" ∈ keys.
Proof.
  eexists. split; [vm_compute; reflexivity|].
  destruct (list_secrets_complete demo_vault "app/" ["app/db"]) as [H1 H2];
    [vm_compute; reflexivity|].
  split; [exact H1|]. apply H2. vm_compute. eauto.
Defined.
End Lock.
