(* ===== verification/LockHandler.v ===== *)
(** * services/lock/internal/handler: the gRPC face of the vault

    One definition per method of [LockHandler]. A request or response is a record
    of the fields of the generated message the handler touches; the fields a
    handler leaves out keep the zero value of their type. [int32] conversions are
    explicit. An error is the gRPC status the method returns. *)

From S2P Require Import Prelude GoStd Aead Aes Keyring Lock.
Local Open Scope Z_scope.

Module LockHandler.
Import Lock.

(** ** Messages *)

Inductive ProtoKeyType :=
  | KEY_TYPE_UNSPECIFIED | KEY_TYPE_AES256_GCM | KEY_TYPE_CHACHA20_POLY1305
  | KEY_TYPE_RSA_2048 | KEY_TYPE_RSA_4096 | KEY_TYPE_ECDSA_P256 | KEY_TYPE_ECDSA_P384
  | KEY_TYPE_ED25519 | KEY_TYPE_FPE_FF1.

(** The numbers of the enumeration, as they travel on the wire. *)
Definition key_type_number (t : ProtoKeyType) : Z :=
  match t with
  | KEY_TYPE_UNSPECIFIED => 0 | KEY_TYPE_AES256_GCM => 1 | KEY_TYPE_CHACHA20_POLY1305 => 2
  | KEY_TYPE_RSA_2048 => 3 | KEY_TYPE_RSA_4096 => 4 | KEY_TYPE_ECDSA_P256 => 5
  | KEY_TYPE_ECDSA_P384 => 6 | KEY_TYPE_ED25519 => 7 | KEY_TYPE_FPE_FF1 => 8
  end.

Record SealStatus := {
  st_Sealed : bool;
  st_Initialized : bool;
  st_Threshold : Z;
  st_Shares : Z;
  st_Progress : Z;
  st_ClusterId : string;
  st_ClusterName : string;
  st_Version : string
}.

Definition mkSealStatus (sealed initialized : bool) (threshold progress : Z) : SealStatus :=
  {| st_Sealed := sealed; st_Initialized := initialized; st_Threshold := int32 threshold;
     st_Shares := 0; st_Progress := int32 progress; st_ClusterId := ""; st_ClusterName := "";
     st_Version := "" |}.

Record InitializeRequest := { SecretShares : Z; SecretThreshold : Z }.
Record InitializeResponse := { Keys_ : list string; RootTokens : list string }.
Record UnsealRequest := { UKey : string; Reset_ : bool }.

Record SecretMetadata := {
  md_Path : string;
  md_Version : Z;
  md_CurrentVersion : Z;
  md_CreatedAt : Z;
  md_UpdatedAt : Z
}.
Record GetSecretRequest := { gs_Path : string; gs_Version : Z }.
Record GetSecretResponse := { gs_Data : gmap string bytes; gs_Metadata : SecretMetadata }.
Record PutSecretRequest := {
  ps_Path : string;
  ps_Data : gmap string bytes;
  ps_Cas : Z;
  ps_CustomMetadata : gmap string string
}.
Record CreateKeyRequest := { ck_Name : string; ck_Type : ProtoKeyType; ck_Exportable : bool }.
Record CreateKeyResponse := {
  ckr_Name : string;
  ckr_Type : ProtoKeyType;
  ckr_LatestVersion : Z;
  ckr_CreatedAt : Z
}.
Record GetKeyResponse := {
  gk_Name : string;
  gk_Type : ProtoKeyType;
  gk_LatestVersion : Z;
  gk_MinDecryptionVersion : Z;
  gk_MinEncryptionVersion : Z;
  gk_Exportable : bool
}.
Record GetEncryptionKeyResponse := { ek_Key : bytes; ek_Version : Z; ek_Type : ProtoKeyType }.
Record KeyVersion := { kv_Version : Z; kv_CreatedAt : Z }.

(** ** Key types *)

Definition protoKeyTypeToKeyring (kt : ProtoKeyType) : Keyring.KeyType :=
  match kt with
  | KEY_TYPE_AES256_GCM => Keyring.KeyTypeAES256GCM
  | KEY_TYPE_CHACHA20_POLY1305 => Keyring.KeyTypeChacha20Poly1305
  | KEY_TYPE_RSA_2048 => Keyring.KeyTypeRSA2048
  | KEY_TYPE_RSA_4096 => Keyring.KeyTypeRSA4096
  | KEY_TYPE_ECDSA_P256 => Keyring.KeyTypeECDSAP256
  | KEY_TYPE_ED25519 => Keyring.KeyTypeEd25519
  | _ => Keyring.KeyTypeAES256GCM
  end.

Definition keyringKeyTypeToProto (kt : Keyring.KeyType) : ProtoKeyType :=
  match kt with
  | Keyring.KeyTypeAES256GCM => KEY_TYPE_AES256_GCM
  | Keyring.KeyTypeChacha20Poly1305 => KEY_TYPE_CHACHA20_POLY1305
  | Keyring.KeyTypeRSA2048 => KEY_TYPE_RSA_2048
  | Keyring.KeyTypeRSA4096 => KEY_TYPE_RSA_4096
  | Keyring.KeyTypeECDSAP256 => KEY_TYPE_ECDSA_P256
  | Keyring.KeyTypeEd25519 => KEY_TYPE_ED25519
  | _ => KEY_TYPE_AES256_GCM
  end.

(** ** Seal operations *)

Definition GetSealStatus (s : LockService) : SealStatus :=
  let '(sealed, initialized, threshold, progress) := Lock.GetSealStatus s in
  mkSealStatus sealed initialized threshold progress.

Definition Initialize (s : LockService) (req : InitializeRequest) (r1 r2 r3 : entropy)
    : outcome (LockService * result InitializeResponse) :=
  let! (s', res) := Lock.Initialize s (SecretShares req) (SecretThreshold req) r1 r2 r3 in
  Ret (s',
    match res with
    | Err err =>
        if bool_decide (err = ErrAlreadyInitialized)
        then Err (statusError AlreadyExists "vault already initialized")
        else Err (statusError Internal (Error err))
    | Ok (keys, rootToken) => Ok {| Keys_ := keys; RootTokens := [rootToken] |}
    end).

Definition Unseal (s : LockService) (req : UnsealRequest) : outcome (LockService * result SealStatus) :=
  let! (s', (unsealed, progress, err)) := Lock.Unseal s (UKey req) in
  Ret (s',
    match err with
    | Some err =>
        if bool_decide (err = ErrNotInitialized)
        then Err (statusError FailedPrecondition "vault not initialized")
        else if bool_decide (err = ErrInvalidKey)
        then Err (statusError InvalidArgument "invalid unseal key")
        else Err (statusError Internal (Error err))
    | None =>
        let '(_, initialized, threshold, _) := Lock.GetSealStatus s' in
        Ok (mkSealStatus (negb unsealed) initialized threshold progress)
    end).

Definition Seal (s : LockService) : LockService * result SealStatus :=
  let (s', err) := Lock.Seal s in
  (s',
    match err with
    | Some err =>
        if bool_decide (err = ErrNotInitialized)
        then Err (statusError FailedPrecondition "vault not initialized")
        else Err (statusError Internal (Error err))
    | None => Ok (GetSealStatus s')
    end).

(** ** Secrets *)

(** The error mapping shared by the secret methods. *)
Definition secret_error (err : error) : error :=
  if bool_decide (err = ErrSealed) then statusError FailedPrecondition "vault is sealed"
  else if bool_decide (err = ErrSecretNotFound) then statusError NotFound "secret not found"
  else statusError Internal (Error err).

(** [PutSecret], [ListSecrets], [CreateKey] and [ListKeys] test [ErrSealed] only. *)
Definition sealed_error (err : error) : error :=
  if bool_decide (err = ErrSealed) then statusError FailedPrecondition "vault is sealed"
  else statusError Internal (Error err).

Definition secret_metadata (path : string) (secret : Secret) : SecretMetadata :=
  {| md_Path := path; md_Version := int32 (SVersion secret);
     md_CurrentVersion := int32 (SVersion secret);
     md_CreatedAt := Unix (SCreatedAt secret); md_UpdatedAt := Unix (SUpdatedAt secret) |}.

Definition GetSecret (s : LockService) (req : GetSecretRequest) : result GetSecretResponse :=
  match Lock.GetSecret s (gs_Path req) with
  | Err err => Err (secret_error err)
  | Ok secret =>
      Ok {| gs_Data := Data secret; gs_Metadata := secret_metadata (gs_Path req) secret |}
  end.

Definition PutSecret (s : LockService) (req : PutSecretRequest) (now : time) : LockService * result Z :=
  let (s', res) := Lock.PutSecret s (ps_Path req) (ps_Data req) now in
  (s', match res with Err err => Err (sealed_error err) | Ok version => Ok (int32 version) end).

Definition DeleteSecret (s : LockService) (path : string) : LockService * result unit :=
  let (s', err) := Lock.DeleteSecret s path in
  (s', match err with Some err => Err (secret_error err) | None => Ok tt end).

Definition ListSecrets (s : LockService) (prefix : string) : result (list string) :=
  match Lock.ListSecrets s prefix with Err err => Err (sealed_error err) | Ok keys => Ok keys end.

Definition GetSecretMetadata (s : LockService) (path : string) : result SecretMetadata :=
  match Lock.GetSecret s path with
  | Err err => Err (secret_error err)
  | Ok secret => Ok (secret_metadata path secret)
  end.

(** ** Keys *)

Definition CreateKey (s : LockService) (req : CreateKeyRequest) (r : entropy) (clk : nat → time)
    : LockService * result CreateKeyResponse :=
  let keyType := protoKeyTypeToKeyring (ck_Type req) in
  let (s', err) := Lock.CreateKey s (ck_Name req) keyType r clk in
  (s',
    match err with
    | Some err => Err (sealed_error err)
    | None => Ok {| ckr_Name := ck_Name req; ckr_Type := ck_Type req; ckr_LatestVersion := 1;
                    ckr_CreatedAt := Unix (clk 3%nat) |}
    end).

(** [GetKey], [RotateKey] and [GetKeyVersions] tell a missing key apart. *)
Definition key_error (err : error) : error :=
  if bool_decide (err = ErrSealed) then statusError FailedPrecondition "vault is sealed"
  else if bool_decide (err = Keyring.ErrKeyNotFound) then statusError NotFound "key not found"
  else statusError Internal (Error err).

Definition GetKey (s : LockService) (name : string) : result GetKeyResponse :=
  match Lock.GetKey s name with
  | Err err => Err (key_error err)
  | Ok policy =>
      Ok {| gk_Name := Keyring.Name policy;
            gk_Type := keyringKeyTypeToProto (Keyring.Type_ policy);
            gk_LatestVersion := int32 (Keyring.LatestVersion policy);
            gk_MinDecryptionVersion := int32 (Keyring.MinDecryptionVersion policy);
            gk_MinEncryptionVersion := int32 (Keyring.MinEncryptionVersion policy);
            gk_Exportable := Keyring.Exportable policy |}
  end.

Definition DeleteKey (s : LockService) (name : string) : result unit :=
  Err (statusError Unimplemented "key deletion not supported").

Definition GetEncryptionKey (s : LockService) (name : string) (version : Z)
    : result GetEncryptionKeyResponse :=
  match Lock.GetEncryptionKey s name version with
  | Err err =>
      if bool_decide (err = ErrSealed) then Err (statusError FailedPrecondition "vault is sealed")
      else if bool_decide (err = Keyring.ErrKeyNotFound) || bool_decide (err = Keyring.ErrVersionNotFound)
      then Err (statusError NotFound "key not found")
      else Err (statusError Internal (Error err))
  | Ok key =>
      Ok {| ek_Key := Keyring.deref (Keyring.heap (keyring s)) (Keyring.KeyLoc key);
            ek_Version := int32 (Keyring.Version key);
            ek_Type := keyringKeyTypeToProto (Keyring.KType key) |}
  end.

Definition RotateKey (s : LockService) (name : string) (r : entropy) (clk : nat → time)
    : LockService * result Z :=
  let (s', res) := Lock.RotateKey s name r clk in
  (s', match res with Err err => Err (key_error err) | Ok version => Ok (int32 version) end).

Definition ListKeys (s : LockService) : result (list string) :=
  match Lock.ListKeys s with Err err => Err (sealed_error err) | Ok keys => Ok keys end.

Definition UpdateKeyConfig (s : LockService) : result unit := Ok tt.

(** [make([]*KeyVersion, policy.LatestVersion)] and the loop from 1 to
    [LatestVersion]; [clk i] is the reading of the clock for version [i + 1]. *)
Definition GetKeyVersions (s : LockService) (name : string) (clk : nat → time)
    : outcome (result (list KeyVersion)) :=
  match Lock.GetKey s name with
  | Err err => Ret (Err (key_error err))
  | Ok policy =>
      if Keyring.LatestVersion policy <? 0 then Panic "makeslice: len out of range"
      else Ret (Ok ((λ i, {| kv_Version := int32 (Z.of_nat i + 1); kv_CreatedAt := Unix (clk i) |})
                    <$> seq 0 (Z.to_nat (Keyring.LatestVersion policy))))
  end.

Definition GetLeader (s : LockService) : string * bool := ("localhost:8082", true).
Definition JoinCluster (s : LockService) : bool := false.
Definition LeaveCluster (s : LockService) : bool := false.
Definition GetClusterStatus (s : LockService) : string * string * string :=
  ("standalone", "default", "localhost:8082").

(** ** Lemmas *)

(** The key types with a counterpart on both sides. *)
Definition supported (kt : ProtoKeyType) : bool :=
  match kt with
  | KEY_TYPE_UNSPECIFIED | KEY_TYPE_ECDSA_P384 | KEY_TYPE_FPE_FF1 => false
  | _ => true
  end.

Lemma key_type_supported kt :
  keyringKeyTypeToProto (protoKeyTypeToKeyring kt) = if supported kt then kt else KEY_TYPE_AES256_GCM.
Proof. by destruct kt. Qed.

(** What a successful [CreateKey] stores. *)
Lemma CreateKey_stores s name t r clk s' :
  Lock.CreateKey s name t r clk = (s', None) →
  sealed s = false ∧ sealed s' = false ∧ Keyring.sealed (keyring s') = false ∧
  ∃ p, Keyring.policies (keyring s') !! name = Some p ∧ Keyring.Name p = name ∧
    Keyring.Type_ p = t ∧ Keyring.LatestVersion p = 1 ∧ Keyring.MinDecryptionVersion p = 1 ∧
    Keyring.MinEncryptionVersion p = 0 ∧ Keyring.Exportable p = false.
Proof.
  unfold Lock.CreateKey. destruct (sealed s) eqn:Hs; [done|]. unfold Keyring.CreateKey.
  destruct (Keyring.sealed (keyring s)) eqn:Hk; [done|].
  destruct (Keyring.policies (keyring s) !! name); [done|].
  unfold Keyring.generateKeyVersion. cbn -[rand_Read].
  destruct (rand_Read _ r) as [b|]; [|done]. intros [= <-]. cbn. rewrite Hs, Hk.
  split_and!; [done..|]. eexists. by rewrite lookup_insert_eq.
Qed.

(** ** Properties *)

(** What [GetKey] reports of a key that was just created: the requested name,
    version 1, minimum versions 1 and 0, never exportable (whatever the request
    asked for), and the requested type when the keyring knows it; for the types
    unspecified, ECDSA P-384 and FPE FF1 the key is an AES-256-GCM key, although the
    answer of [CreateKey] repeats the requested type. *)
Theorem created_key_reported s req r clk s' resp :
  CreateKey s req r clk = (s', Ok resp) →
  ckr_Type resp = ck_Type req ∧ ckr_LatestVersion resp = 1 ∧
  GetKey s' (ck_Name req) =
    Ok {| gk_Name := ck_Name req;
          gk_Type := if supported (ck_Type req) then ck_Type req else KEY_TYPE_AES256_GCM;
          gk_LatestVersion := 1; gk_MinDecryptionVersion := 1; gk_MinEncryptionVersion := 0;
          gk_Exportable := false |}.
Proof.
  unfold CreateKey. destruct (Lock.CreateKey _ _ _ _ _) as [s1 [e|]] eqn:E; [done|].
  intros [= <- <-]. split_and!; [done..|].
  apply CreateKey_stores in E as (_ & Hs & Hk & p & Hp & Hn & Ht & Hl & Hd & He & Hx).
  unfold GetKey, Lock.GetKey, Keyring.GetKey. rewrite Hs, Hk, Hp, Hn, Ht, Hl, Hd, He, Hx.
  by rewrite key_type_supported.
Qed.

Lemma created_key_reported_witness :
  ∃ s' resp, CreateKey demo_vault {| ck_Name := "f"; ck_Type := KEY_TYPE_FPE_FF1;
      ck_Exportable := true |} (Some (λ _, one)) (λ _, 9) = (s', Ok resp) ∧
    ckr_Type resp = KEY_TYPE_FPE_FF1 ∧
    GetKey s' "f" = Ok {| gk_Name := "f"; gk_Type := KEY_TYPE_AES256_GCM; gk_LatestVersion := 1;
                          gk_MinDecryptionVersion := 1; gk_MinEncryptionVersion := 0;
                          gk_Exportable := false |}.
Proof.
  eexists _, _. split; [vm_compute; reflexivity|].
  destruct (created_key_reported demo_vault {| ck_Name := "f"; ck_Type := KEY_TYPE_FPE_FF1;
      ck_Exportable := true |} (Some (λ _, one)) (λ _, 9) _ _ eq_refl) as (H1 & _ & H3).
  split; [exact H1|exact H3].
Defined.

(** [GetEncryptionKey] on every branch, for a vault in a reachable state: a sealed
    vault answers FailedPrecondition; an unsealed vault whose keyring is sealed answers
    Internal; an unknown name answers NotFound; a version below the minimum answers
    Internal; a version outside 1, ..., latest answers NotFound; otherwise the answer
    carries 32 bytes of key, the version asked for (the latest for 0) as an [int32],
    and these are the bytes stored for that version. *)
Theorem get_encryption_key_branches s name version :
  inv s →
  match sealed s, Keyring.sealed (keyring s), Keyring.policies (keyring s) !! name with
  | true, _, _ =>
      GetEncryptionKey s name version = Err (statusError FailedPrecondition "vault is sealed")
  | false, true, _ =>
      GetEncryptionKey s name version = Err (statusError Internal "keyring is sealed")
  | false, false, None =>
      GetEncryptionKey s name version = Err (statusError NotFound "key not found")
  | false, false, Some p =>
      let v := if version =? 0 then Keyring.LatestVersion p else version in
      if v <? Keyring.MinDecryptionVersion p then
        GetEncryptionKey s name version =
          Err (statusError Internal "key version below minimum allowed")
      else if (1 <=? v) && (v <=? Keyring.LatestVersion p) then
        ∃ k, Keyring.Keys p !! Z.to_nat (v - 1) = Some k ∧
          length (Keyring.deref (Keyring.heap (keyring s)) (Keyring.KeyLoc k)) = 32%nat ∧
          GetEncryptionKey s name version =
            Ok {| ek_Key := Keyring.deref (Keyring.heap (keyring s)) (Keyring.KeyLoc k);
                  ek_Version := int32 v; ek_Type := keyringKeyTypeToProto (Keyring.KType k) |}
      else GetEncryptionKey s name version = Err (statusError NotFound "key not found")
  end.
Proof.
  intros I. unfold GetEncryptionKey, Lock.GetEncryptionKey, Keyring.GetKeyVersion.
  destruct (sealed s); [done|]. destruct (Keyring.sealed (keyring s)); [done|].
  destruct (Keyring.policies (keyring s) !! name) as [p|] eqn:Hp; [|done].
  fold (Keyring.resolve p version). set (v := Keyring.resolve p version). cbn zeta.
  destruct (v <? Keyring.MinDecryptionVersion p); [done|].
  pose proof (Keyring.wf_policies _ (inv_keyring _ I) _ _ Hp) as Wp.
  pose proof (Keyring.find_version_wf _ _ _ v Wp) as Hiff.
  destruct (Keyring.find_version (Keyring.Keys p) v) as [k|] eqn:Hf.
  - destruct (proj1 Hiff) as [H1 H2]; [by eexists|].
    rewrite (proj2 (Z.leb_le _ _) H1), (proj2 (Z.leb_le _ _) H2). cbn.
    exists k. split_and!.
    + rewrite (Keyring.find_version_seqZ _ _ _ v (Keyring.wf_versions _ _ _ Wp)) in Hf.
      by rewrite bool_decide_true in Hf.
    + eapply Keyring.deref_length; [apply I|done|by eapply Keyring.find_version_in].
    + by rewrite (Keyring.find_version_Version _ _ _ Hf).
  - destruct (Z.leb_spec 1 v), (Z.leb_spec v (Keyring.LatestVersion p)); try done.
    destruct (proj2 Hiff) as [? ?]; [lia|done].
Qed.

Lemma get_encryption_key_branches_witness :
  ∃ b, length b = 32%nat ∧ GetEncryptionKey demo_vault "k" 0 =
    Ok {| ek_Key := b; ek_Version := 1; ek_Type := KEY_TYPE_AES256_GCM |}.
Proof.
  pose proof (get_encryption_key_branches demo_vault "k" 0
    (rtc_inv _ _ demo_vault_reachable (NewLockService_inv 3 ∅))) as H.
  vm_compute in H. destruct H as (k & [= <-] & Hl & H).
  eexists. split; [|vm_compute; reflexivity]. reflexivity.
Defined.

(** [GetKeyVersions] in a reachable vault never panics, and for a key with fewer
    than 2^31 versions it lists the versions 1, ..., [LatestVersion], each exactly
    once and in order. *)
Theorem key_versions_listed s name clk :
  inv s →
  (∃ res, GetKeyVersions s name clk = Ret res) ∧
  (∀ vs, GetKeyVersions s name clk = Ret (Ok vs) →
   ∃ p, Lock.GetKey s name = Ok p ∧
     (Keyring.LatestVersion p < 2 ^ 31 → kv_Version <$> vs = seqZ 1 (Keyring.LatestVersion p))).
Proof.
  intros I. unfold GetKeyVersions.
  destruct (Lock.GetKey s name) as [p|e] eqn:Hg; [|by split; [eauto|]].
  assert (policy_wf : 0 < Keyring.LatestVersion p).
  { unfold Lock.GetKey, Keyring.GetKey in Hg. destruct (sealed s); [done|].
    destruct (Keyring.sealed (keyring s)); [done|].
    destruct (Keyring.policies (keyring s) !! name) as [q|] eqn:Hp; [|done].
    injection Hg as ->. eapply Keyring.wf_latest, Keyring.wf_policies; [apply I|done]. }
  rewrite (proj2 (Z.ltb_ge _ _)) by lia. split; [eauto|]. intros vs [= <-].
  exists p. split; [done|]. intros Hb. rewrite <- list_fmap_compose. unfold seqZ.
  apply list_eq. intros i. rewrite !list_lookup_fmap.
  destruct (decide (i < Z.to_nat (Keyring.LatestVersion p))%nat) as [Hi|Hi].
  - rewrite lookup_seq_lt by done. cbn. f_equal. rewrite int32_small; [lia|]. unfold in_int32. lia.
  - by rewrite lookup_seq_ge by lia.
Qed.

Lemma key_versions_listed_witness :
  ∃ vs, GetKeyVersions (RotateKey demo_vault "k" (Some (λ _, zero)) (λ _, 8)).1 "k" (λ _, 9) =
    Ret (Ok vs) ∧ kv_Version <$> vs = [1; 2].
Proof.
  eexists. split; [vm_compute; reflexivity|].
  destruct (key_versions_listed (RotateKey demo_vault "k" (Some (λ _, zero)) (λ _, 8)).1 "k"
    (λ _, 9)) as [_ H].
  - eapply rtc_inv; [|apply (NewLockService_inv 3 ∅)].
    eapply rtc_r; [apply demo_vault_reachable|].
    apply (step_RotateKey demo_vault "k" (Some (λ _, zero)) (λ _, 8)).
  - destruct (H _ ltac:(vm_compute; reflexivity)) as (p & Hp & Hv).
    vm_compute in Hp. injection Hp as <-. apply Hv. vm_compute. reflexivity.
Defined.
End LockHandler.
