(* ===== verification/KeyService.v ===== *)
(** * The contract between the vault and its clients

    The crypto and the tokenize service fetch keys with the RPC
    [lock.v1.LockService/GetEncryptionKey]. [KeyService] is what they rely on: the
    RPC as a function of the vault's state, and the way that state evolves between
    calls. [KeyServiceLaws] is what the vault promises, and [LockKeyService_laws]
    shows that the handler of the lock service keeps the promise. *)

From S2P Require Import Prelude GoStd Aead Aes Keyring Lock LockHandler.
Local Open Scope Z_scope.

Module KeyService.
Import LockHandler.

Class KeyService (St : Type) := {
  ks_get : St → string → Z → result GetEncryptionKeyResponse;
  ks_step : St → St → Prop;
  ks_ok : St → Prop
}.

(** A key answered for a version is a 32-byte key carrying that version, the
    version 0 stands for a positive one that can be asked for by number, and an
    answer for a number never changes as long as there is one. *)
Class KeyServiceLaws (St : Type) {K : KeyService St} : Prop := {
  ks_ok_step s s' : ks_ok s → ks_step s s' → ks_ok s';
  ks_key_size s n v r : ks_ok s → ks_get s n v = Ok r → length (ek_Key r) = 32%nat;
  ks_positive s n v r : ks_ok s → ks_get s n v = Ok r → 0 < ek_Version r < 2 ^ 31;
  ks_version s n v r : ks_ok s → v ≠ 0 → ks_get s n v = Ok r → ek_Version r = v;
  ks_latest s n r : ks_ok s → ks_get s n 0 = Ok r → ks_get s n (ek_Version r) = Ok r;
  ks_stable s s' n v r r' :
    ks_ok s → rtc ks_step s s' → v ≠ 0 → ks_get s n v = Ok r → ks_get s' n v = Ok r' → r' = r
}.

Lemma ks_ok_rtc {St} `{KeyServiceLaws St} s s' : rtc ks_step s s' → ks_ok s → ks_ok s'.
Proof. induction 1; eauto using ks_ok_step. Qed.

(** ** The vault as a key service *)

(** No key has 2^31 versions or more, so that versions fit the [int32] of the
    messages. *)
Definition narrow (s : Lock.LockService) : Prop :=
  ∀ name p, Keyring.policies (Lock.keyring s) !! name = Some p → Keyring.LatestVersion p < 2 ^ 31.

#[export] Instance LockKeyService : KeyService Lock.LockService := {|
  ks_get := LockHandler.GetEncryptionKey;
  ks_step := λ s s', Lock.step s s' ∧ narrow s';
  ks_ok := λ s, Lock.inv s ∧ narrow s
|}.

(** The keys of [kr] are still there in [kr'], each at its place. *)
Definition keeps (kr kr' : Keyring.Keyring) : Prop :=
  ∀ name p, Keyring.policies kr !! name = Some p →
    ∃ p', Keyring.policies kr' !! name = Some p' ∧ Keyring.Keys p `prefix_of` Keyring.Keys p' ∧
      ∀ k, k ∈ Keyring.Keys p →
        Keyring.heap kr' !! Keyring.KeyLoc k = Keyring.heap kr !! Keyring.KeyLoc k.

Lemma keeps_refl kr : keeps kr kr.
Proof. intros n p Hp. by exists p. Qed.

Lemma keeps_trans kr1 kr2 kr3 : keeps kr1 kr2 → keeps kr2 kr3 → keeps kr1 kr3.
Proof.
  intros H1 H2 n p Hp. destruct (H1 n p Hp) as (p2 & Hp2 & Hpre & Hh).
  destruct (H2 n p2 Hp2) as (p3 & Hp3 & Hpre' & Hh'). exists p3.
  split_and!; [done|by etrans|]. intros k Hk. rewrite <- Hh by done. apply Hh'.
  destruct Hpre as [l ->]. set_solver.
Qed.

(** Storing a new policy under [name], whose keys start with those it replaces, with
    one more array in the store. *)
Lemma keeps_insert kr name p' b :
  Keyring.wf kr →
  (∀ p, Keyring.policies kr !! name = Some p → Keyring.Keys p `prefix_of` Keyring.Keys p') →
  keeps kr (Keyring.set_heap (<[Keyring.alloc (Keyring.heap kr) := b]> (Keyring.heap kr))
              (Keyring.set_policies (<[name := p']> (Keyring.policies kr)) kr)).
Proof.
  intros W Hpre n p Hp.
  assert (Hh : ∀ k, k ∈ Keyring.Keys p →
    <[Keyring.alloc (Keyring.heap kr) := b]> (Keyring.heap kr) !! Keyring.KeyLoc k =
    Keyring.heap kr !! Keyring.KeyLoc k).
  { intros k Hk. rewrite lookup_insert_ne; [done|]. intros E.
    destruct (Keyring.policy_wf_array _ _ _ _ (Keyring.wf_policies _ W _ _ Hp) Hk) as (b' & Hb & _).
    by rewrite <- E, Keyring.alloc_fresh in Hb. }
  destruct (decide (n = name)) as [->|Hne].
  - exists p'. cbn. rewrite lookup_insert_eq. split_and!; [done|by apply Hpre|done].
  - exists p. cbn. rewrite lookup_insert_ne by done. done.
Qed.

Lemma keeps_CreateKey kr name t r clk : Keyring.wf kr → keeps kr (Keyring.CreateKey kr name t [] r clk).1.
Proof.
  intros W. unfold Keyring.CreateKey. destruct (Keyring.sealed kr); [apply keeps_refl|].
  destruct (Keyring.policies kr !! name) eqn:Hp; [apply keeps_refl|].
  unfold Keyring.generateKeyVersion. destruct (rand_Read _ _); [|apply keeps_refl].
  apply keeps_insert; [done|]. congruence.
Qed.

Lemma keeps_RotateKey kr name r clk : Keyring.wf kr → keeps kr (Keyring.RotateKey kr name r clk).1.
Proof.
  intros W. unfold Keyring.RotateKey. destruct (Keyring.sealed kr); [apply keeps_refl|].
  destruct (Keyring.policies kr !! name) as [p|] eqn:Hp; [|apply keeps_refl].
  unfold Keyring.generateKeyVersion. destruct (rand_Read _ _); [|apply keeps_refl].
  apply keeps_insert; [done|]. intros q Hq. assert (q = p) as -> by congruence. cbn. by eexists.
Qed.

(** A step of the vault keeps its keys or loses them all. *)
Lemma step_keeps s s' :
  Lock.inv s → Lock.step s s' →
  keeps (Lock.keyring s) (Lock.keyring s') ∨ Keyring.locked (Lock.keyring s').
Proof.
  intros I H. pose proof (Lock.inv_keyring _ I) as W. destruct H.
  - left. destruct res as [[keys tok]|e].
    + apply Lock.Initialize_inv in H as (_ & _ & _ & _ & _ & _ & _ & _ & _ & _ & ->).
      apply keeps_refl.
    + apply Lock.Initialize_err in H as ->. apply keeps_refl.
  - left. apply Lock.Unseal_inv in H as [->|(_ & _ & us & _ & [->|[_ ->]])]; apply keeps_refl.
  - unfold Lock.Seal. destruct (Lock.initialized s); cbn; [|left; apply keeps_refl].
    destruct (Lock.sealed s); cbn; [left; apply keeps_refl|by right].
  - left. unfold Lock.PutSecret. destruct (Lock.sealed s); apply keeps_refl.
  - left. unfold Lock.DeleteSecret. destruct (Lock.sealed s); [apply keeps_refl|].
    destruct (Lock.secrets s !! path); apply keeps_refl.
  - left. unfold Lock.CreateKey. destruct (Lock.sealed s); [apply keeps_refl|].
    pose proof (keeps_CreateKey (Lock.keyring s) name t r clk W) as H.
    by destruct (Keyring.CreateKey _ _ _ _ _ _) as [kr res].
  - left. unfold Lock.RotateKey. destruct (Lock.sealed s); [apply keeps_refl|].
    pose proof (keeps_RotateKey (Lock.keyring s) name r clk W) as H.
    by destruct (Keyring.RotateKey _ _ _ _) as [kr res].
Qed.

Lemma rtc_keeps s s' :
  Lock.inv s → rtc ks_step s s' →
  keeps (Lock.keyring s) (Lock.keyring s') ∨ Keyring.locked (Lock.keyring s').
Proof.
  intros I H. induction H as [s|s s1 s2 [H _] Hr IH]; [left; apply keeps_refl|].
  pose proof (Lock.step_inv _ _ I H) as I1.
  destruct (step_keeps _ _ I H) as [Hk|Hl].
  - destruct (IH I1) as [Hk'|Hl']; [left; by eapply keeps_trans|by right].
  - right. eapply Keyring.locked_rtc; [|exact Hl]. apply Lock.rtc_keyring. clear -Hr.
    induction Hr as [|? ? ? [? ?]]; [done|]. by eapply rtc_l.
Qed.

(** What an answer of the handler says about the state. *)
Lemma served s n v r :
  LockHandler.GetEncryptionKey s n v = Ok r →
  Keyring.sealed (Lock.keyring s) = false ∧
  ∃ p k, Keyring.policies (Lock.keyring s) !! n = Some p ∧
    Keyring.find_version (Keyring.Keys p) (Keyring.resolve p v) = Some k ∧
    Keyring.MinDecryptionVersion p ≤ Keyring.resolve p v ∧
    r = {| ek_Key := Keyring.deref (Keyring.heap (Lock.keyring s)) (Keyring.KeyLoc k);
           ek_Version := int32 (Keyring.resolve p v);
           ek_Type := keyringKeyTypeToProto (Keyring.KType k) |}.
Proof.
  unfold LockHandler.GetEncryptionKey, Lock.GetEncryptionKey.
  destruct (Lock.sealed s); [done|].
  destruct (Keyring.GetKeyVersion _ n v) as [k|e] eqn:E; [|by repeat case_match].
  intros [= <-]. apply Keyring.GetKeyVersion_inv in E as (Hs & p & Hp & Hf & Hm).
  split; [done|]. exists p, k. by rewrite (Keyring.find_version_Version _ _ _ Hf).
Qed.

(** Versions that are found fit an [int32]. *)
Lemma served_range s n p v k :
  Lock.inv s → narrow s → Keyring.policies (Lock.keyring s) !! n = Some p →
  Keyring.find_version (Keyring.Keys p) v = Some k → 0 < v < 2 ^ 31 ∧ int32 v = v.
Proof.
  intros I N Hp Hf.
  assert (1 ≤ v ≤ Keyring.LatestVersion p) as Hv.
  { eapply Keyring.find_version_wf; [|by eexists].
    eapply Keyring.wf_policies; [apply Lock.inv_keyring, I|done]. }
  pose proof (N _ _ Hp). split; [lia|]. apply int32_small. unfold in_int32. lia.
Qed.

#[export] Instance LockKeyService_laws : KeyServiceLaws Lock.LockService.
Proof.
  split.
  - intros s s' [I _] [H N]. split; [by eapply Lock.step_inv|done].
  - intros s n v r [I N] (_ & p & k & Hp & Hf & _ & ->)%served. cbn.
    eapply Keyring.deref_length; [apply Lock.inv_keyring, I|done|by eapply Keyring.find_version_in].
  - intros s n v r [I N] (_ & p & k & Hp & Hf & _ & ->)%served. cbn -[Z.pow wraps].
    destruct (served_range _ _ _ _ _ I N Hp Hf) as [H ->]. done.
  - intros s n v r [I N] Hv (_ & p & k & Hp & Hf & _ & ->)%served. cbn -[wraps].
    destruct (served_range _ _ _ _ _ I N Hp Hf) as [_ ->]. unfold Keyring.resolve.
    by rewrite (proj2 (Z.eqb_neq v 0)).
  - intros s n r [I N] H. pose proof H as (_ & p & k & Hp & Hf & _ & ->)%served.
    cbn [ks_get LockKeyService ek_Version] in *.
    destruct (served_range _ _ _ _ _ I N Hp Hf) as [Hr E].
    rewrite <- H, E. unfold LockHandler.GetEncryptionKey, Lock.GetEncryptionKey, Keyring.GetKeyVersion.
    rewrite Hp. unfold Keyring.resolve at 1 3. rewrite (proj2 (Z.eqb_neq _ 0)) by lia. done.
  - intros s s' n v r r' [I N] Hr Hv (_ & p & k & Hp & Hf & _ & ->)%served
      (Hs' & p' & k' & Hp' & Hf' & _ & ->)%served.
    assert (∀ q, Keyring.resolve q v = v) as E
      by (intros q; unfold Keyring.resolve; by rewrite (proj2 (Z.eqb_neq v 0))).
    rewrite !E in *. destruct (rtc_keeps _ _ I Hr) as [Hk|[Hl _]]; [|congruence].
    destruct (Hk n p Hp) as (q & Hq & [l Hpre] & Hh). assert (q = p') as -> by congruence.
    rewrite Hpre in Hf'. unfold Keyring.find_version in Hf, Hf'.
    rewrite (find_app_Some _ _ l _ Hf) in Hf'. injection Hf' as <-. unfold Keyring.deref.
    rewrite Hh; [done|]. by eapply Keyring.find_version_in.
Qed.
End KeyService.
