(* ===== verification/Lru.v ===== *)
(** * github.com/hashicorp/golang-lru/v2, as the services use it

    The package is a dependency, not code of this repository: [LRU] lists the
    operations the services call and [LRULaws] their documented behaviour. Every
    operation of the package holds the cache's own mutex, so it is one atomic
    function on the cache. [ListLru] is a concrete cache with this behaviour; the
    examples run on it. *)

From S2P Require Import Prelude.
Local Open Scope Z_scope.

(** [lru_Keys] lists the keys from the least to the most recently used;
    [lru_ok] holds of the caches the package can build. *)
Class LRU (K V : Type) := {
  lru : Type;
  lru_ok : lru → Prop;
  lru_New : Z → option lru;
  lru_Cap : lru → Z;
  lru_Keys : lru → list K;
  lru_Peek : lru → K → option V;
  lru_Get : lru → K → lru * option V;
  lru_Add : lru → K → V → lru * bool;
  lru_Remove : lru → K → lru * bool;
  lru_Purge : lru → lru
}.
Arguments lru K V {_}.

Definition without {K} `{EqDecision K} (k : K) (ks : list K) : list K := filter (λ k', k' ≠ k) ks.

(** Adding [k] makes the cache drop its oldest key: [k] is new and the cache full. *)
Definition lru_evicts {K V} `{EqDecision K} {L : LRU K V} (c : lru K V) (k : K) : bool :=
  negb (bool_decide (k ∈ lru_Keys c)) && (lru_Cap c <=? zlen (lru_Keys c)).

Class LRULaws (K V : Type) `{EqDecision K} {L : LRU K V} : Prop := {
  lru_New_fails n : lru_New n = None ↔ n ≤ 0;
  lru_New_ok n c : lru_New n = Some c → lru_ok c ∧ lru_Keys c = [] ∧ lru_Cap c = n;
  lru_Keys_Peek c k : lru_ok c → k ∈ lru_Keys c ↔ is_Some (lru_Peek c k);
  lru_Keys_NoDup c : lru_ok c → NoDup (lru_Keys c);
  lru_Keys_bound c : lru_ok c → 0 < lru_Cap c ∧ zlen (lru_Keys c) ≤ lru_Cap c;
  lru_Get_ok c k : lru_ok c → lru_ok (lru_Get c k).1 ∧ lru_Cap (lru_Get c k).1 = lru_Cap c;
  lru_Get_value c k : lru_ok c → (lru_Get c k).2 = lru_Peek c k;
  lru_Get_Peek c k k' : lru_ok c → lru_Peek (lru_Get c k).1 k' = lru_Peek c k';
  lru_Get_Keys c k : lru_ok c → lru_Keys (lru_Get c k).1 =
    if bool_decide (k ∈ lru_Keys c) then without k (lru_Keys c) ++ [k] else lru_Keys c;
  lru_Add_ok c k v : lru_ok c → lru_ok (lru_Add c k v).1 ∧ lru_Cap (lru_Add c k v).1 = lru_Cap c;
  lru_Add_evicted c k v : lru_ok c → (lru_Add c k v).2 = lru_evicts c k;
  lru_Add_Keys c k v : lru_ok c → lru_Keys (lru_Add c k v).1 =
    (if lru_evicts c k then tail (lru_Keys c) else without k (lru_Keys c)) ++ [k];
  lru_Add_Peek c k v k' : lru_ok c → lru_Peek (lru_Add c k v).1 k' =
    if bool_decide (k' = k) then Some v
    else if bool_decide (k' ∈ lru_Keys (lru_Add c k v).1) then lru_Peek c k' else None;
  lru_Remove_ok c k : lru_ok c → lru_ok (lru_Remove c k).1 ∧ lru_Cap (lru_Remove c k).1 = lru_Cap c;
  lru_Remove_present c k : lru_ok c → (lru_Remove c k).2 = bool_decide (k ∈ lru_Keys c);
  lru_Remove_Keys c k : lru_ok c → lru_Keys (lru_Remove c k).1 = without k (lru_Keys c);
  lru_Remove_Peek c k k' : lru_ok c → lru_Peek (lru_Remove c k).1 k' =
    if bool_decide (k' = k) then None else lru_Peek c k';
  lru_Purge_ok c : lru_ok c → lru_ok (lru_Purge c) ∧ lru_Cap (lru_Purge c) = lru_Cap c;
  lru_Purge_Keys c : lru_ok c → lru_Keys (lru_Purge c) = []
}.

(** ** Consequences the clients use *)
Section consequences.
Context {K V : Type} `{EqDecision K} {L : LRU K V} {LL : LRULaws K V}.

(** A key that is in the cache after an [Add] is the added one or was there, with
    the same value. *)
Lemma lru_Add_inv c k v k' v' :
  lru_ok c → lru_Peek (lru_Add c k v).1 k' = Some v' →
  (k' = k ∧ v' = v) ∨ (k' ≠ k ∧ lru_Peek c k' = Some v').
Proof.
  intros Hc. rewrite lru_Add_Peek by done. case_bool_decide; [naive_solver|].
  case_bool_decide; naive_solver.
Qed.

Lemma lru_Add_same c k v : lru_ok c → lru_Peek (lru_Add c k v).1 k = Some v.
Proof. intros Hc. rewrite lru_Add_Peek by done. by rewrite bool_decide_true. Qed.

Lemma lru_New_Peek n c k : lru_New n = Some c → lru_Peek c k = None.
Proof.
  intros (Hok & Hk & _)%lru_New_ok. apply eq_None_not_Some.
  rewrite <- lru_Keys_Peek by done. rewrite Hk. apply not_elem_of_nil.
Qed.

Lemma lru_Purge_Peek c k : lru_ok c → lru_Peek (lru_Purge c) k = None.
Proof.
  intros Hc. apply eq_None_not_Some. destruct (lru_Purge_ok c Hc) as [Hok _].
  rewrite <- lru_Keys_Peek by done. rewrite lru_Purge_Keys by done. apply not_elem_of_nil.
Qed.
End consequences.

(** ** A concrete cache *)
Module ListLru.
Section list_lru.
Context {K V : Type} `{EqDecision K}.

Record cache := { items : list (K * V); cap : Z }.

Definition ok (c : cache) : Prop := NoDup (items c).*1 ∧ 0 < cap c ∧ zlen (items c) ≤ cap c.
Definition New (n : Z) : option cache := if n <=? 0 then None else Some {| items := []; cap := n |}.
Definition Keys (c : cache) : list K := (items c).*1.
Fixpoint assoc (k : K) (l : list (K * V)) : option V :=
  match l with [] => None | (k', v) :: l' => if decide (k' = k) then Some v else assoc k l' end.
Definition Peek (c : cache) (k : K) : option V := assoc k (items c).
Definition del (k : K) (l : list (K * V)) : list (K * V) := filter (λ p, p.1 ≠ k) l.

Definition Get (c : cache) (k : K) : cache * option V :=
  match Peek c k with
  | Some v => ({| items := del k (items c) ++ [(k, v)]; cap := cap c |}, Some v)
  | None => (c, None)
  end.
Definition Add (c : cache) (k : K) (v : V) : cache * bool :=
  match Peek c k with
  | Some _ => ({| items := del k (items c) ++ [(k, v)]; cap := cap c |}, false)
  | None =>
      if cap c <=? zlen (items c)
      then ({| items := tail (items c) ++ [(k, v)]; cap := cap c |}, true)
      else ({| items := items c ++ [(k, v)]; cap := cap c |}, false)
  end.
Definition Remove (c : cache) (k : K) : cache * bool :=
  ({| items := del k (items c); cap := cap c |}, bool_decide (is_Some (Peek c k))).
Definition Purge (c : cache) : cache := {| items := []; cap := cap c |}.

Lemma assoc_is_Some k l : is_Some (assoc k l) ↔ k ∈ l.*1.
Proof.
  induction l as [|[k' v] l IH]; cbn; [by rewrite is_Some_alt, elem_of_nil|].
  rewrite elem_of_cons. destruct (decide (k' = k)) as [->|]; naive_solver.
Qed.

Lemma assoc_None k l : assoc k l = None ↔ k ∉ l.*1.
Proof. by rewrite <- assoc_is_Some, eq_None_not_Some. Qed.

Lemma assoc_app k l l' :
  assoc k (l ++ l') = match assoc k l with Some v => Some v | None => assoc k l' end.
Proof. induction l as [|[k' v] l IH]; cbn; [done|]. by destruct (decide (k' = k)). Qed.

Lemma keys_del k l : (del k l).*1 = without k l.*1.
Proof.
  induction l as [|[k' v] l IH]; [done|].
  change (((k', v) :: l).*1) with (k' :: l.*1). unfold del, without in *.
  rewrite !filter_cons. cbn [fst]. destruct (decide (k' ≠ k)); [|done].
  change (((k', v) :: filter (λ p, p.1 ≠ k) l).*1) with (k' :: (filter (λ p, p.1 ≠ k) l).*1).
  by rewrite IH.
Qed.

Lemma assoc_del k l k' : assoc k' (del k l) = if bool_decide (k' = k) then None else assoc k' l.
Proof.
  case_bool_decide as E.
  - subst. apply assoc_None. rewrite keys_del. unfold without. rewrite list_elem_of_filter. naive_solver.
  - induction l as [|[k1 v1] l IH]; [done|]. unfold del in *. rewrite filter_cons. cbn [fst].
    destruct (decide (k1 ≠ k)) as [H1|H1]; cbn [assoc]; [by rewrite IH|].
    rewrite IH. destruct (decide (k1 = k')); [|done]. apply dec_stable in H1. congruence.
Qed.

Lemma without_absent (k : K) (ks : list K) : k ∉ ks → without k ks = ks.
Proof.
  intros Hk. unfold without. induction ks as [|a ks IH]; [done|]. rewrite filter_cons.
  rewrite decide_True by set_solver. f_equal. apply IH. set_solver.
Qed.

Lemma NoDup_without (k : K) (ks : list K) : NoDup ks → NoDup (without k ks ++ [k]).
Proof.
  intros H. apply NoDup_app. unfold without. split_and!; [by apply NoDup_filter| |apply NoDup_singleton].
  intros x Hx Hk. apply list_elem_of_filter in Hx as [Hx _]. set_solver.
Qed.

Lemma length_without (k : K) (ks : list K) : NoDup ks → k ∈ ks → S (length (without k ks)) = length ks.
Proof.
  induction 1 as [|a ks Ha Hn IH]; [by intros ?%elem_of_nil|]. intros Hk. unfold without in *.
  rewrite filter_cons. destruct (decide (a ≠ k)) as [Hne|He]; cbn.
  - f_equal. apply IH. set_solver.
  - apply dec_stable in He as ->. f_equal.
    change (filter _ ks) with (without k ks). by rewrite without_absent.
Qed.

Lemma length_del k l : NoDup l.*1 → k ∈ l.*1 → S (length (del k l)) = length l.
Proof. intros H1 H2. rewrite <- (length_fmap fst), keys_del, length_without, length_fmap by done. done. Qed.

Lemma length_del_le k l : (length (del k l) ≤ length l)%nat.
Proof. apply length_filter. Qed.

#[local] Instance ListLru : LRU K V := {|
  lru := cache; lru_ok := ok; lru_New := New; lru_Cap := cap; lru_Keys := Keys;
  lru_Peek := Peek; lru_Get := Get; lru_Add := Add; lru_Remove := Remove; lru_Purge := Purge
|}.

(** The three shapes an [Add] can take. *)
Lemma Add_cases c k v :
  ok c →
  ((k ∈ Keys c) ∧ Add c k v = ({| items := del k (items c) ++ [(k, v)]; cap := cap c |}, false)) ∨
  ((k ∉ Keys c) ∧ cap c ≤ zlen (items c) ∧
     Add c k v = ({| items := tail (items c) ++ [(k, v)]; cap := cap c |}, true)) ∨
  ((k ∉ Keys c) ∧ zlen (items c) < cap c ∧
     Add c k v = ({| items := items c ++ [(k, v)]; cap := cap c |}, false)).
Proof.
  intros Hc. unfold Add, Keys, Peek. destruct (assoc k (items c)) as [w|] eqn:E.
  - left. split; [|done]. apply assoc_is_Some. by eexists.
  - apply assoc_None in E. right. destruct (Z.leb_spec (cap c) (zlen (items c))); [left|right]; done.
Qed.

Lemma evicts_spec c k :
  lru_evicts c k = negb (bool_decide (k ∈ Keys c)) && (cap c <=? zlen (items c)).
Proof. unfold lru_evicts. cbn. unfold Keys, zlen. by rewrite length_fmap. Qed.

Lemma Add_Keys_list c k v :
  ok c → Keys (Add c k v).1 = (if lru_evicts c k then tail (Keys c) else without k (Keys c)) ++ [k].
Proof.
  intros Hc. rewrite evicts_spec.
  destruct (Add_cases c k v Hc) as [[Hk ->]|[(Hk & Hl & ->)|(Hk & Hl & ->)]]; unfold Keys in *; cbn.
  - rewrite bool_decide_true by done. cbn. by rewrite fmap_app, keys_del.
  - rewrite bool_decide_false by done. cbn. rewrite (proj2 (Z.leb_le _ _)) by done.
    rewrite fmap_app. cbn. by destruct (items c).
  - rewrite bool_decide_false by done. cbn. rewrite (proj2 (Z.leb_gt _ _)) by done.
    by rewrite fmap_app, without_absent.
Qed.

Lemma NoDup_snoc_absent (k : K) (ks : list K) : NoDup ks → k ∉ ks → NoDup (ks ++ [k]).
Proof. intros. apply NoDup_app. split_and!; [done|set_solver|apply NoDup_singleton]. Qed.

Lemma Add_keeps_ok c k v : ok c → ok (Add c k v).1 ∧ cap (Add c k v).1 = cap c.
Proof.
  intros Hc. pose proof Hc as (Hn & Hp & Hl).
  destruct (Add_cases c k v Hc) as [[Hk ->]|[(Hk & Hl' & ->)|(Hk & Hl' & ->)]]; unfold ok, Keys in *; cbn;
    split; try done; rewrite fmap_app, zlen_app; cbn; unfold zlen in *; cbn.
  - rewrite keys_del. split_and!; [by apply NoDup_without|done|].
    pose proof (length_del k (items c) Hn Hk). lia.
  - destruct (items c) as [|p l]; cbn in *; [lia|]. apply NoDup_cons in Hn as [? Hn].
    split_and!; [apply NoDup_snoc_absent; set_solver|done|lia].
  - split_and!; [by apply NoDup_snoc_absent|done|lia].
Qed.

Lemma Add_Peek_list c k v k' :
  ok c → Peek (Add c k v).1 k' =
    if bool_decide (k' = k) then Some v
    else if bool_decide (k' ∈ Keys (Add c k v).1) then Peek c k' else None.
Proof.
  intros Hc. pose proof Hc as (Hn & _ & _).
  case_bool_decide as E; [subst k'|].
  - destruct (Add_cases c k v Hc) as [[Hk ->]|[(Hk & Hl & ->)|(Hk & Hl & ->)]]; unfold Peek, Keys in *; cbn;
      rewrite assoc_app; cbn; rewrite decide_True by done.
    + by rewrite assoc_del, bool_decide_true.
    + rewrite (proj2 (assoc_None k (tail (items c)))); [done|]. destruct (items c); set_solver.
    + by rewrite (proj2 (assoc_None k (items c))).
  - destruct (bool_decide (k' ∈ Keys (Add c k v).1)) eqn:Hin.
    2:{ apply bool_decide_eq_false in Hin. by apply assoc_None. }
    apply bool_decide_eq_true in Hin. revert Hin.
    destruct (Add_cases c k v Hc) as [[Hk ->]|[(Hk & Hl & ->)|(Hk & Hl & ->)]]; unfold Peek, Keys in *; cbn;
      rewrite assoc_app; cbn; rewrite (decide_False (P := k = k')) by done.
    + rewrite assoc_del, bool_decide_false by done. by destruct (assoc k' (items c)).
    + rewrite fmap_app, elem_of_app. cbn. destruct (items c) as [|[k1 v1] l]; [set_solver|].
      cbn in Hn |- *. apply NoDup_cons in Hn as [Hn _]. intros [Hin|Hin]; [|set_solver].
      destruct (decide (k1 = k')) as [->|]; [done|]. by destruct (assoc k' l).
    + by destruct (assoc k' (items c)).
Qed.

Lemma Get_keeps c k :
  ok c → ok (Get c k).1 ∧ cap (Get c k).1 = cap c ∧
  Keys (Get c k).1 = (if bool_decide (k ∈ Keys c) then without k (Keys c) ++ [k] else Keys c) ∧
  ∀ k', Peek (Get c k).1 k' = Peek c k'.
Proof.
  intros Hc. pose proof Hc as (Hn & Hp & Hl). unfold Get. destruct (Peek c k) as [v|] eqn:E; cbn.
  - assert (k ∈ Keys c) as Hk by (apply assoc_is_Some; by eexists).
    rewrite bool_decide_true by done. unfold ok, Keys, Peek, zlen in *. cbn.
    rewrite fmap_app, keys_del, length_app. cbn. pose proof (length_del k (items c) Hn Hk).
    split_and!; [by apply NoDup_without|done|lia|done|done|]. intros k'.
    rewrite assoc_app, assoc_del. cbn. case_bool_decide as E'.
    + subst. by rewrite decide_True, E.
    + rewrite decide_False by done. by destruct (assoc k' (items c)).
  - apply assoc_None in E. by rewrite bool_decide_false.
Qed.

#[local] Instance ListLru_laws : LRULaws K V.
Proof.
  split; cbn.
  - intros n. unfold New. destruct (Z.leb_spec n 0); naive_solver lia.
  - intros n c. unfold New, ok. destruct (Z.leb_spec n 0); [done|]. intros [= <-]. cbn.
    split_and!; try done; [constructor|unfold zlen; cbn; lia].
  - intros c k _. unfold Keys, Peek. by rewrite assoc_is_Some.
  - by intros c (? & _).
  - intros c (_ & ? & ?). unfold Keys, zlen in *. by rewrite length_fmap.
  - intros c k Hc. by destruct (Get_keeps c k Hc) as (? & ? & _).
  - intros c k _. unfold Get. by destruct (Peek c k).
  - intros c k k' Hc. by destruct (Get_keeps c k Hc) as (_ & _ & _ & H).
  - intros c k Hc. by destruct (Get_keeps c k Hc) as (_ & _ & H & _).
  - apply Add_keeps_ok.
  - intros c k v Hc. rewrite evicts_spec.
    destruct (Add_cases c k v Hc) as [[Hk ->]|[(Hk & Hl & ->)|(Hk & Hl & ->)]]; cbn.
    + by rewrite bool_decide_true.
    + rewrite bool_decide_false by done. cbn. symmetry. by apply Z.leb_le.
    + rewrite bool_decide_false by done. cbn. symmetry. by apply Z.leb_gt.
  - apply Add_Keys_list.
  - apply Add_Peek_list.
  - intros c k (Hn & Hp & Hl). unfold ok. cbn. rewrite keys_del. unfold zlen in *.
    pose proof (length_del_le k (items c)). split_and!; [by apply NoDup_filter|done|lia|done].
  - intros c k _. apply bool_decide_ext. unfold Peek, Keys. apply assoc_is_Some.
  - intros c k _. apply keys_del.
  - intros c k k' _. apply assoc_del.
  - intros c (_ & ? & _). unfold ok, Purge, zlen. cbn. split_and!; [constructor|done|lia|done].
  - done.
Qed.
End list_lru.
Arguments cache : clear implicits.
End ListLru.
