(* ===== verification/Cache.v ===== *)
(** * pkg/storage/cache: an LRU cache with an optional time to live

    [LRUCache] is the Go struct: the third-party cache, the time to live (in
    nanoseconds, 0 for none) and the three [int64] counters. The clock is read at
    most once by each operation; the reading is its last argument. *)

From S2P Require Import Prelude GoStd Lru.
Local Open Scope Z_scope.

Module Cache.

Record cacheEntry (V : Type) := { value : V; expiresAt : time }.
Arguments value {V} _.
Arguments expiresAt {V} _.

Section cache.
Context {K V : Type} `{EqDecision K} {L : LRU K (cacheEntry V)}.

Record LRUCache := {
  cache : lru K (cacheEntry V);
  ttl : Z;
  hits : Z;
  misses : Z;
  evictions : Z
}.

Definition NewLRUCacheWithTTL (size ttl : Z) : option LRUCache :=
  c ← lru_New size; Some {| cache := c; ttl := ttl; hits := 0; misses := 0; evictions := 0 |}.

Definition NewLRUCache (size : Z) : option LRUCache := NewLRUCacheWithTTL size 0.

Definition miss (c : LRUCache) (inner : lru K (cacheEntry V)) : LRUCache :=
  {| cache := inner; ttl := ttl c; hits := hits c; misses := int64 (misses c + 1);
     evictions := evictions c |}.

(** [c.ttl > 0 && time.Now().After(entry.expiresAt)] *)
Definition expired (c : LRUCache) (e : cacheEntry V) (now : time) : bool :=
  (0 <? ttl c) && (expiresAt e <? now).

Definition Get (c : LRUCache) (key : K) (now : time) : LRUCache * option V :=
  let (inner, entry) := lru_Get (cache c) key in
  match entry with
  | None => (miss c inner, None)
  | Some e =>
      if expired c e now then (miss c (lru_Remove inner key).1, None)
      else ({| cache := inner; ttl := ttl c; hits := int64 (hits c + 1); misses := misses c;
               evictions := evictions c |}, Some (value e))
  end.

(** The common end of [Set] and [SetWithTTL]. *)
Definition add_entry (c : LRUCache) (key : K) (e : cacheEntry V) : LRUCache :=
  let (inner, evicted) := lru_Add (cache c) key e in
  {| cache := inner; ttl := ttl c; hits := hits c; misses := misses c;
     evictions := if evicted then int64 (evictions c + 1) else evictions c |}.

Definition Set_ (c : LRUCache) (key : K) (v : V) (now : time) : LRUCache :=
  let expiresAt := if 0 <? ttl c then now + ttl c else zeroTime in
  add_entry c key {| value := v; expiresAt := expiresAt |}.

Definition SetWithTTL (c : LRUCache) (key : K) (v : V) (d : Z) (now : time) : LRUCache :=
  add_entry c key {| value := v; expiresAt := now + d |}.

Definition set_cache (c : LRUCache) (inner : lru K (cacheEntry V)) : LRUCache :=
  {| cache := inner; ttl := ttl c; hits := hits c; misses := misses c; evictions := evictions c |}.

Definition Delete (c : LRUCache) (key : K) : LRUCache * bool :=
  let (inner, present) := lru_Remove (cache c) key in (set_cache c inner, present).

Definition Clear (c : LRUCache) : LRUCache := set_cache c (lru_Purge (cache c)).

Definition Len (c : LRUCache) : Z := zlen (lru_Keys (cache c)).

Definition Contains (c : LRUCache) (key : K) (now : time) : bool :=
  match lru_Peek (cache c) key with
  | None => false
  | Some e => negb (expired c e now)
  end.

Definition Keys (c : LRUCache) : list K := lru_Keys (cache c).

Record CacheStats := {
  sHits : Z;
  sMisses : Z;
  sEvictions : Z;
  sSize : Z;
  sHitRatio : Float64.float64
}.

Definition Stats (c : LRUCache) : CacheStats :=
  let total := int64 (hits c + misses c) in
  {| sHits := hits c; sMisses := misses c; sEvictions := evictions c; sSize := Len c;
     sHitRatio := if 0 <? total then Float64.div (Float64.of_int (hits c)) (Float64.of_int total)
                  else Float64.zero |}.

Definition ResetStats (c : LRUCache) : LRUCache :=
  {| cache := cache c; ttl := ttl c; hits := 0; misses := 0; evictions := 0 |}.

(** ** Runs *)

Inductive op :=
  | op_Get (k : K) (now : time)
  | op_Set (k : K) (v : V) (now : time)
  | op_SetWithTTL (k : K) (v : V) (d : Z) (now : time)
  | op_Delete (k : K)
  | op_Clear
  | op_ResetStats.

Definition exec (c : LRUCache) (o : op) : LRUCache :=
  match o with
  | op_Get k now => (Get c k now).1
  | op_Set k v now => Set_ c k v now
  | op_SetWithTTL k v d now => SetWithTTL c k v d now
  | op_Delete k => (Delete c k).1
  | op_Clear => Clear c
  | op_ResetStats => ResetStats c
  end.

Definition exec_all (c : LRUCache) (ops : list op) : LRUCache := List.fold_left exec ops c.

(** What the cache may answer for [k]: the entry the last write to [k] left, if no
    deletion or clearing followed it. *)
Definition record_op (t : Z) (k : K) (e : option (cacheEntry V)) (o : op) : option (cacheEntry V) :=
  match o with
  | op_Set k' v now =>
      if bool_decide (k' = k)
      then Some {| value := v; expiresAt := if 0 <? t then now + t else zeroTime |} else e
  | op_SetWithTTL k' v d now =>
      if bool_decide (k' = k) then Some {| value := v; expiresAt := now + d |} else e
  | op_Delete k' => if bool_decide (k' = k) then None else e
  | op_Clear => None
  | op_Get _ _ | op_ResetStats => e
  end.

Definition last_write (t : Z) (k : K) (ops : list op) : option (cacheEntry V) :=
  List.fold_left (record_op t k) ops None.

(** ** Lemmas *)
Context {LL : LRULaws K (cacheEntry V)}.

Lemma exec_ttl c o : ttl (exec c o) = ttl c.
Proof.
  destruct o; cbn; unfold Get, Set_, SetWithTTL, add_entry, Delete; try done.
  - destruct (lru_Get (cache c) k) as [i [e|]]; [|done]. by destruct (expired c e now).
  - by destruct (lru_Add _ _ _).
  - by destruct (lru_Add _ _ _).
  - by destruct (lru_Remove _ _).
Qed.

Lemma add_entry_cache c k e : cache (add_entry c k e) = (lru_Add (cache c) k e).1.
Proof. unfold add_entry. by destruct (lru_Add (cache c) k e). Qed.

Lemma Get_spec c k now :
  lru_ok (cache c) →
  (Get c k now).2 = (if Contains c k now then value <$> lru_Peek (cache c) k else None) ∧
  lru_ok (cache (Get c k now).1) ∧
  ∀ k' e, lru_Peek (cache (Get c k now).1) k' = Some e → lru_Peek (cache c) k' = Some e.
Proof.
  intros Hc. unfold Get, Contains.
  pose proof (lru_Get_value (cache c) k Hc) as Hv.
  pose proof (lru_Get_ok (cache c) k Hc) as [Hok _].
  pose proof (λ k', lru_Get_Peek (cache c) k k' Hc) as Hp.
  destruct (lru_Get (cache c) k) as [i [e|]]; cbn in *; rewrite <- Hv.
  - destruct (expired c e now); cbn; (split; [done|]).
    + split; [by apply lru_Remove_ok|]. intros k' e'. rewrite lru_Remove_Peek by done.
      case_bool_decide; [done|]. by rewrite Hp.
    + split; [done|]. intros k' e'. by rewrite Hp.
  - split; [done|]. split; [done|]. intros k' e'. by rewrite Hp.
Qed.

Lemma exec_ok c o : lru_ok (cache c) → lru_ok (cache (exec c o)).
Proof.
  intros Hc. destruct o; cbn; unfold Set_, SetWithTTL, Delete, Clear; rewrite ?add_entry_cache.
  - by apply Get_spec.
  - by apply lru_Add_ok.
  - by apply lru_Add_ok.
  - pose proof (lru_Remove_ok (cache c) k Hc) as [H _]. by destruct (lru_Remove (cache c) k).
  - by apply lru_Purge_ok.
  - done.
Qed.

Lemma exec_cap c o : lru_ok (cache c) → lru_Cap (cache (exec c o)) = lru_Cap (cache c).
Proof.
  intros Hc. destruct o; cbn; unfold Get, Set_, SetWithTTL, Delete, Clear; rewrite ?add_entry_cache.
  - pose proof (lru_Get_ok (cache c) k Hc) as [Hok Hcap].
    destruct (lru_Get (cache c) k) as [i [e|]]; cbn in *; [|done].
    destruct (expired c e now); cbn; [|done]. by rewrite (proj2 (lru_Remove_ok i k Hok)).
  - by apply lru_Add_ok.
  - by apply lru_Add_ok.
  - pose proof (lru_Remove_ok (cache c) k Hc) as [_ H]. by destruct (lru_Remove (cache c) k).
  - by apply lru_Purge_ok.
  - done.
Qed.

(** Every entry of the cache is the last one written for its key. *)
Lemma exec_written c o k e0 :
  lru_ok (cache c) → (∀ e, lru_Peek (cache c) k = Some e → e0 = Some e) →
  ∀ e, lru_Peek (cache (exec c o)) k = Some e → record_op (ttl c) k e0 o = Some e.
Proof.
  intros Hc He e.
  destruct o as [k' now|k' v now|k' v d now|k'| |]; cbn; unfold Set_, SetWithTTL, Delete, Clear;
    rewrite ?add_entry_cache.
  - intros H. by apply He, (Get_spec c k' now).
  - intros [[-> ->]|[Hne H]]%lru_Add_inv; [by rewrite bool_decide_true| |done].
    rewrite bool_decide_false by done. by apply He.
  - intros [[-> ->]|[Hne H]]%lru_Add_inv; [by rewrite bool_decide_true| |done].
    rewrite bool_decide_false by done. by apply He.
  - pose proof (lru_Remove_Peek (cache c) k' k Hc) as H. destruct (lru_Remove (cache c) k') as [i b].
    cbn in *. rewrite H. case_bool_decide; [done|]. intros Hk. rewrite bool_decide_false by done.
    by apply He.
  - by rewrite lru_Purge_Peek by done.
  - apply He.
Qed.

Lemma exec_all_written c ops k e0 :
  lru_ok (cache c) → (∀ e, lru_Peek (cache c) k = Some e → e0 = Some e) →
  lru_ok (cache (exec_all c ops)) ∧ ttl (exec_all c ops) = ttl c ∧
  lru_Cap (cache (exec_all c ops)) = lru_Cap (cache c) ∧
  ∀ e, lru_Peek (cache (exec_all c ops)) k = Some e →
       List.fold_left (record_op (ttl c) k) ops e0 = Some e.
Proof.
  revert c e0. unfold exec_all. induction ops as [|o ops IH]; intros c e0 Hc He; cbn; [done|].
  destruct (IH (exec c o) (record_op (ttl c) k e0 o)) as (H1 & H2 & H3 & H4).
  - by apply exec_ok.
  - intros e. by apply exec_written.
  - rewrite exec_ttl in H2, H4. rewrite exec_cap in H3 by done. done.
Qed.

(** ** Properties *)

(** C37. A cache never answers with anything but the last value written: after any
    sequence of operations on a new cache, an answer of [Get] for a key is the value of
    the last [Set] or [SetWithTTL] of that key, with no [Delete] or [Clear] after it,
    and, when the cache has a time to live, the entry is not past its deadline. The
    number of entries never exceeds the size the cache was made with. *)
Theorem cache_answers_last_write size t c ops k now v :
  NewLRUCacheWithTTL size t = Some c →
  ((Get (exec_all c ops) k now).2 = Some v →
   ∃ e, last_write t k ops = Some e ∧ value e = v ∧ (0 < t → now ≤ expiresAt e)) ∧
  Len (exec_all c ops) ≤ size.
Proof.
  unfold NewLRUCacheWithTTL. destruct (lru_New size) as [i|] eqn:Hn; [|done]. intros [= <-].
  pose proof (lru_New_ok _ _ Hn) as (Hok & _ & Hsize).
  destruct (exec_all_written {| cache := i; ttl := t; hits := 0; misses := 0; evictions := 0 |} ops k None)
    as (Hok' & Ht & Hcap & Hw); [done| |].
  { intros e. cbn. by rewrite (lru_New_Peek _ _ k Hn). }
  cbn in Ht, Hcap, Hw. set (c := exec_all _ ops) in *.
  split; [|rewrite <- Hsize, <- Hcap; by apply lru_Keys_bound].
  destruct (Get_spec c k now Hok') as [-> _]. unfold Contains.
  destruct (lru_Peek (cache c) k) as [e|] eqn:Hp; [|done].
  destruct (expired c e now) eqn:He; [done|]. cbn. intros [= <-].
  exists e. split_and!; [by apply Hw|done|]. intros Hpos. unfold expired in He.
  rewrite Ht, (proj2 (Z.ltb_lt 0 t)) in He by done. cbn in He. lia.
Qed.

(** Without a time to live, [SetWithTTL] sets no deadline: the entry is answered
    by [Get] at every later (or earlier) time, however short the time it was given. *)
Theorem set_with_ttl_needs_cache_ttl c k v d now now' :
  lru_ok (cache c) → ttl c ≤ 0 → (Get (SetWithTTL c k v d now) k now').2 = Some v.
Proof.
  intros Hc Ht. unfold SetWithTTL.
  assert (lru_ok (cache (add_entry c k {| value := v; expiresAt := now + d |}))) as Hok.
  { rewrite add_entry_cache. by apply lru_Add_ok. }
  destruct (Get_spec _ k now' Hok) as [-> _]. unfold Contains.
  rewrite add_entry_cache, lru_Add_same by done. unfold expired.
  assert (ttl (add_entry c k {| value := v; expiresAt := now + d |}) = ttl c) as ->
    by apply (exec_ttl c (op_SetWithTTL k v d now)).
  by rewrite (proj2 (Z.ltb_ge 0 (ttl c))).
Qed.

(** With a time to live [t], a value that was just set is answered up to and
    including the instant [t] after it, and from then on the key is a miss and leaves
    the cache. *)
Theorem cache_entry_lifetime c k v now now' :
  lru_ok (cache c) → 0 < ttl c →
  let c' := Set_ c k v now in
  (now' ≤ now + ttl c → (Get c' k now').2 = Some v ∧ Contains c' k now' = true) ∧
  (now + ttl c < now' →
     (Get c' k now').2 = None ∧ Contains c' k now' = false ∧ k ∉ Keys (Get c' k now').1).
Proof.
  intros Hc Ht c'. set (e := {| value := v; expiresAt := now + ttl c |}).
  assert (c' = add_entry c k e) as E by (subst c' e; unfold Set_; by rewrite (proj2 (Z.ltb_lt _ _) Ht)).
  assert (ttl c' = ttl c) as Et by apply (exec_ttl c (op_Set k v now)).
  assert (lru_ok (cache c')) as Hok by by apply (exec_ok c (op_Set k v now)).
  assert (lru_Peek (cache c') k = Some e) as Hp by (rewrite E, add_entry_cache; by apply lru_Add_same).
  assert (Contains c' k now' = negb (now + ttl c <? now')) as Hcon.
  { unfold Contains. rewrite Hp. unfold expired. by rewrite Et, (proj2 (Z.ltb_lt _ _) Ht). }
  destruct (Get_spec c' k now' Hok) as (Hg & Hok' & Hsub). rewrite Hcon in Hg |- *. rewrite Hp in Hg.
  split; intros Hn.
  - rewrite (proj2 (Z.ltb_ge _ _)) in Hg |- * by lia. done.
  - rewrite (proj2 (Z.ltb_lt _ _)) in Hg |- * by lia. split_and!; [done..|].
    unfold Keys. rewrite (lru_Keys_Peek _ _ Hok'). intros [e' He'].
    revert He'. unfold Get. pose proof (lru_Get_value _ k Hok) as Hv. rewrite Hp in Hv.
    pose proof (lru_Get_ok _ k Hok) as [Hok1 _].
    destruct (lru_Get (cache c') k) as [i o]. cbn in Hv, Hok1. subst o.
    unfold expired. rewrite Et, (proj2 (Z.ltb_lt _ _) Ht). cbn.
    rewrite (proj2 (Z.ltb_lt _ _)) by lia. cbn. rewrite lru_Remove_Peek by done.
    by rewrite bool_decide_true.
Qed.
End cache.

(** ** Examples, on the concrete cache *)

#[local] Existing Instance ListLru.ListLru.
#[local] Existing Instance ListLru.ListLru_laws.

Definition demo_inner : ListLru.cache string (cacheEntry Z) :=
  {| ListLru.items := []; ListLru.cap := 2 |}.
Definition demo_cache (t : Z) : LRUCache (K := string) (V := Z) (L := ListLru.ListLru) :=
  {| cache := demo_inner : @lru string (cacheEntry Z) ListLru.ListLru; ttl := t; hits := 0;
     misses := 0; evictions := 0 |}.

Lemma demo_cache_ok t : lru_ok (cache (demo_cache t)).
Proof. cbn. unfold ListLru.ok. cbn. split_and!; [constructor|lia|vm_compute; discriminate]. Qed.

Lemma cache_answers_last_write_witness :
  let ops := [op_Set "a" 1 0; op_Set "b" 2 1; op_Set "a" 3 2; op_Set "c" 4 3] in
  last_write 10 "a" ops = Some {| value := 3; expiresAt := 12 |} ∧ Len (exec_all (demo_cache 10) ops) ≤ 2.
Proof.
  intros ops.
  destruct (cache_answers_last_write 2 10 (demo_cache 10) ops "a" 12 3) as [H1 H2]; [reflexivity|].
  destruct H1 as (e & H1 & _ & _); [vm_compute; reflexivity|].
  split; [reflexivity|exact H2].
Defined.

Lemma set_with_ttl_needs_cache_ttl_witness :
  (Get (SetWithTTL (demo_cache 0) "a" 1 5 0) "a" 1000).2 = Some 1.
Proof. apply (set_with_ttl_needs_cache_ttl (demo_cache 0) "a" 1 5 0 1000); [apply demo_cache_ok|vm_compute; discriminate]. Defined.

Lemma cache_entry_lifetime_witness :
  (Get (Set_ (demo_cache 10) "a" 1 0) "a" 10).2 = Some 1 ∧
  (Get (Set_ (demo_cache 10) "a" 1 0) "a" 11).2 = None.
Proof.
  split.
  - apply (cache_entry_lifetime (demo_cache 10) "a" 1 0 10 (demo_cache_ok 10) ltac:(reflexivity)).
    vm_compute. discriminate.
  - apply (cache_entry_lifetime (demo_cache 10) "a" 1 0 11 (demo_cache_ok 10) ltac:(reflexivity)).
    vm_compute. reflexivity.
Defined.
End Cache.
