(* ===== verification/CryptoSvc.v ===== *)
(** * services/crypto/internal/service: encryption as a service

    [CryptoService] keeps the bounded key cache and whether it has a client of the
    lock service; the AEAD ([AEAD]), the cache ([LRU]) and the lock service
    ([KeyService]) are the interfaces it is written against. A call to the lock
    service is an argument [rpc]: [None] when the call does not reach it, otherwise
    the state of the vault that serves it.

    [EncryptBatch] fetches the key once and its workers share nothing but it, each
    writing its own slot of the results. Concurrent requests, the workers of
    [DecryptBatch] among them, share the key cache: [getKey_step] is the part of a
    [getKey] call between two accesses to shared state, and [sys_step] interleaves the
    calls, and the vault, in any order. *)

From S2P Require Import Prelude GoStd Aead Aes Keyring Lock LockHandler KeyService Lru.
Local Open Scope Z_scope.

Module CryptoSvc.
Import LockHandler KeyService.

Definition ErrKeyNotFound : error := sentinel "crypto" "ErrKeyNotFound" "key not found".
Definition ErrDecryptFailed : error := sentinel "crypto" "ErrDecryptFailed" "decryption failed".
Definition ErrInvalidInput : error := sentinel "crypto" "ErrInvalidInput" "invalid input".
Definition ErrLockServiceRequired : error :=
  sentinel "crypto" "ErrLockServiceRequired" "lock service connection required".

Record KeyInfo := { ki_Key : bytes; ki_Version : Z; ki_Type : Z }.

Record EncryptResult := {
  er_Ciphertext : string;
  er_KeyVersion : Z;
  er_Reference : string;
  er_Error : option error
}.
Record DecryptResult := {
  dr_Plaintext : bytes;
  dr_KeyVersion : Z;
  dr_Reference : string;
  dr_Error : option error
}.
Record BatchItem := { bi_Plaintext : bytes; bi_Context : bytes; bi_Reference : string }.
Record BatchDecryptItem := { bd_Ciphertext : string; bd_Context : bytes; bd_Reference : string }.

(** [keyName], or ["%s:%d"] of the name and the version when there is one. *)
Definition cache_key (keyName : string) (version : Z) : string :=
  if 0 <? version then keyName +:+ String ":"%char (Strconv.Itoa version) else keyName.

Definition info_of (resp : GetEncryptionKeyResponse) : KeyInfo :=
  {| ki_Key := ek_Key resp; ki_Version := ek_Version resp; ki_Type := key_type_number (ek_Type resp) |}.

Section service.
Context {A : AEAD} {L : LRU string KeyInfo} {St : Type} {KS : KeyService St}.

Record CryptoService := { keyCache : lru string KeyInfo; lockClient : bool }.

Definition set_keyCache (c : lru string KeyInfo) (s : CryptoService) : CryptoService :=
  {| keyCache := c; lockClient := lockClient s |}.

(** [conn] is the outcome of [grpc.NewClient]. *)
Definition NewCryptoService (address : string) (conn : result unit) : result CryptoService :=
  match lru_New 10000 with
  | None => Err (wrapError "failed to create key cache" (errorString "must provide a positive size"))
  | Some c =>
      if bool_decide (address = "") then Err (errorString "lock service address is required")
      else match conn with
           | Err e => Err (wrapError "failed to connect to Lock service" e)
           | Ok _ => Ok {| keyCache := c; lockClient := true |}
           end
  end.

(** The RPC: any error of it is reported as [ErrKeyNotFound]. *)
Definition fetch (rpc : option St) (keyName : string) (version : Z) : result KeyInfo :=
  match rpc with
  | None => Err ErrKeyNotFound
  | Some st =>
      match ks_get st keyName (int32 version) with
      | Err _ => Err ErrKeyNotFound
      | Ok resp => Ok (info_of resp)
      end
  end.

Definition getKey (s : CryptoService) (rpc : option St) (keyName : string) (version : Z)
    : CryptoService * result KeyInfo :=
  let cacheKey := cache_key keyName version in
  let (c, cached) := lru_Get (keyCache s) cacheKey in
  let s := set_keyCache c s in
  match cached with
  | Some info => (s, Ok info)
  | None =>
      if negb (lockClient s) then (s, Err ErrLockServiceRequired)
      else match fetch rpc keyName version with
           | Err e => (s, Err e)
           | Ok keyInfo => (set_keyCache (lru_Add (keyCache s) cacheKey keyInfo).1 s, Ok keyInfo)
           end
  end.

Definition newCipher (info : KeyInfo) : result Aes.Cipher := Aes.NewCipher (ki_Key info) (ki_Version info).

(** What [Encrypt] does once it has the key. *)
Definition encrypt_with (info : KeyInfo) (plaintext aad : bytes) (r : entropy) : result string :=
  let? cipher := newCipher info in Aes.Encrypt cipher plaintext aad r.

Definition Encrypt (s : CryptoService) (rpc : option St) (keyName : string) (plaintext aad : bytes)
    (r : entropy) : CryptoService * result (string * Z) :=
  let (s', k) := getKey s rpc keyName 0 in
  (s', let? keyInfo := k in
       let? ciphertext := encrypt_with keyInfo plaintext aad r in
       Ok (ciphertext, ki_Version keyInfo)).

(** What [Decrypt] does once it has the key. *)
Definition decrypt_with (info : KeyInfo) (ciphertext : string) (aad : bytes) : result (bytes * Z) :=
  let? cipher := newCipher info in
  match Aes.Decrypt cipher ciphertext aad with
  | Err _ => Err ErrDecryptFailed
  | Ok r => Ok r
  end.

Definition Decrypt (s : CryptoService) (rpc : option St) (keyName ciphertext : string) (aad : bytes)
    : CryptoService * result (bytes * Z) :=
  match Aes.ParseCiphertext ciphertext with
  | Err e => (s, Err e)
  | Ok (version, _) =>
      let (s', k) := getKey s rpc keyName version in
      (s', let? keyInfo := k in decrypt_with keyInfo ciphertext aad)
  end.

(** ** Batches *)

(** One worker of [EncryptBatch]. *)
Definition encrypt_item (keyInfo : KeyInfo) (itm : BatchItem) (r : entropy) : EncryptResult :=
  match newCipher keyInfo with
  | Err cipherErr =>
      {| er_Ciphertext := ""; er_KeyVersion := 0; er_Reference := bi_Reference itm;
         er_Error := Some cipherErr |}
  | Ok cipher =>
      let enc := Aes.Encrypt cipher (bi_Plaintext itm) (bi_Context itm) r in
      {| er_Ciphertext := match enc with Ok c => c | Err _ => "" end;
         er_KeyVersion := ki_Version keyInfo; er_Reference := bi_Reference itm;
         er_Error := match enc with Ok _ => None | Err e => Some e end |}
  end.

(** [rs i] is the random source of the worker of item [i]. *)
Definition EncryptBatch (s : CryptoService) (rpc : option St) (keyName : string) (items : list BatchItem)
    (rs : nat → entropy) : CryptoService * list EncryptResult :=
  let (s', k) := getKey s rpc keyName 0 in
  (s', match k with
       | Err err =>
           (λ itm, {| er_Ciphertext := ""; er_KeyVersion := 0; er_Reference := bi_Reference itm;
                      er_Error := Some err |}) <$> items
       | Ok keyInfo => imap (λ i itm, encrypt_item keyInfo itm (rs i)) items
       end).

Definition decrypt_result (itm : BatchDecryptItem) (res : result (bytes * Z)) : DecryptResult :=
  match res with
  | Ok (plaintext, version) =>
      {| dr_Plaintext := plaintext; dr_KeyVersion := version; dr_Reference := bd_Reference itm;
         dr_Error := None |}
  | Err e =>
      {| dr_Plaintext := []; dr_KeyVersion := 0; dr_Reference := bd_Reference itm; dr_Error := Some e |}
  end.

(** ** Random bytes *)

Definition GenerateRandom (numBytes : Z) (format : string) (r : entropy) : result string :=
  if (numBytes <=? 0) || (1024 <? numBytes) then Err ErrInvalidInput
  else match rand_Read (Z.to_nat numBytes) r with
       | None => Err (errorString "rand")
       | Some randomBytes =>
           if bool_decide (format = "hex") then Ok (Hex.EncodeToString randomBytes)
           else Ok (Base64.EncodeToString Base64.StdEncoding randomBytes)
       end.

(** ** Concurrent runs *)

(** The stages of a [getKey] call, between two accesses to shared state: before the
    look-up in the cache; after a miss; after the answer of the lock service, before
    it is stored; returned. *)
Inductive phase :=
  | Start
  | Missed
  | Fetched (info : KeyInfo)
  | Finished (res : result KeyInfo).

Definition getKey_step (s : CryptoService) (rpc : option St) (keyName : string) (version : Z)
    (ph : phase) : CryptoService * phase :=
  match ph with
  | Start =>
      let (c, cached) := lru_Get (keyCache s) (cache_key keyName version) in
      (set_keyCache c s,
       match cached with
       | Some info => Finished (Ok info)
       | None => if negb (lockClient s) then Finished (Err ErrLockServiceRequired) else Missed
       end)
  | Missed =>
      (s, match fetch rpc keyName version with
          | Err e => Finished (Err e)
          | Ok info => Fetched info
          end)
  | Fetched info =>
      (set_keyCache (lru_Add (keyCache s) (cache_key keyName version) info).1 s, Finished (Ok info))
  | Finished res => (s, Finished res)
  end.

Inductive request :=
  | EncryptReq (keyName : string) (plaintext aad : bytes) (r : entropy)
  | DecryptReq (keyName ciphertext : string) (aad : bytes).

(** The key a request asks for; a ciphertext that does not parse asks for none. *)
Definition req_key (q : request) : result (string * Z) :=
  match q with
  | EncryptReq name _ _ _ => Ok (name, 0)
  | DecryptReq name ct _ => let? (v, _) := Aes.ParseCiphertext ct in Ok (name, v)
  end.

Definition req_name (q : request) : string :=
  match q with EncryptReq name _ _ _ => name | DecryptReq name _ _ => name end.

Record call := { c_req : request; c_phase : phase }.

Definition encrypt_answer (c : call) : option (result (string * Z)) :=
  match c_req c, c_phase c with
  | EncryptReq _ pt aad r, Finished k =>
      Some (let? info := k in let? ct := encrypt_with info pt aad r in Ok (ct, ki_Version info))
  | _, _ => None
  end.

Definition decrypt_answer (c : call) : option (result (bytes * Z)) :=
  match c_req c with
  | EncryptReq _ _ _ _ => None
  | DecryptReq _ ct aad =>
      match Aes.ParseCiphertext ct, c_phase c with
      | Err e, _ => Some (Err e)
      | Ok _, Finished k => Some (let? info := k in decrypt_with info ct aad)
      | Ok _, _ => None
      end
  end.

(** The workers of a [DecryptBatch]: one decryption request for each item. Their
    results, once every one of them is answered: [wg.Wait()] returns. *)
Definition batch_calls (keyName : string) (items : list BatchDecryptItem) : list call :=
  (λ itm, {| c_req := DecryptReq keyName (bd_Ciphertext itm) (bd_Context itm); c_phase := Start |}) <$> items.

Definition DecryptBatch_results (items : list BatchDecryptItem) (workers : list call)
    : option (list DecryptResult) :=
  mapM (λ p : BatchDecryptItem * call, decrypt_result p.1 <$> decrypt_answer p.2) (zip items workers).

Definition no_colon (name : string) : Prop := Strings.ContainsByte ":"%char name = false.

(** The vault moves on its own, requests arrive (alone or as a batch), and any call in
    progress takes its next step; its RPC may fail or be served by the vault as it is
    then. *)
Inductive sys_step : St * CryptoService * list call → St * CryptoService * list call → Prop :=
  | sys_lock st st' s cs : ks_step st st' → sys_step (st, s, cs) (st', s, cs)
  | sys_accept st s cs qs :
      Forall (λ q, no_colon (req_name q)) qs →
      sys_step (st, s, cs) (st, s, cs ++ ((λ q, {| c_req := q; c_phase := Start |}) <$> qs))
  | sys_run st s cs i q ph name v rpc s' ph' :
      cs !! i = Some {| c_req := q; c_phase := ph |} → req_key q = Ok (name, v) →
      rpc = None ∨ rpc = Some st → getKey_step s rpc name v ph = (s', ph') →
      sys_step (st, s, cs) (st, s', <[i := {| c_req := q; c_phase := ph' |}]> cs).

(** *** The invariant *)

(** The keys the vault has served so far, by name and version. An entry is what the
    vault answers for that version, now and later, if it answers at all. *)
Definition valid (seen : gmap (string * Z) KeyInfo) (st : St) : Prop :=
  ∀ n w info, seen !! (n, w) = Some info →
    ki_Version info = w ∧ 0 < w < 2 ^ 31 ∧ length (ki_Key info) = 32%nat ∧
    ∀ st' r, rtc ks_step st st' → ks_get st' n w = Ok r → info_of r = info.

(** [info] is the seen key a call for version [v] of [n] is entitled to. *)
Definition entitled (seen : gmap (string * Z) KeyInfo) (n : string) (v : Z) (info : KeyInfo) : Prop :=
  seen !! (n, ki_Version info) = Some info ∧ (0 < v < 2 ^ 31 → ki_Version info = v).

Definition coherent (seen : gmap (string * Z) KeyInfo) (s : CryptoService) : Prop :=
  lru_ok (keyCache s) ∧
  ∀ key info, lru_Peek (keyCache s) key = Some info →
    ∃ n v, no_colon n ∧ key = cache_key n v ∧ entitled seen n v info.

Definition call_ok (seen : gmap (string * Z) KeyInfo) (connected : bool) (c : call) : Prop :=
  no_colon (req_name (c_req c)) ∧
  ∀ n v, req_key (c_req c) = Ok (n, v) →
    match c_phase c with
    | Start | Missed => True
    | Fetched info => entitled seen n v info
    | Finished (Ok info) => entitled seen n v info
    | Finished (Err e) => e = ErrKeyNotFound ∨ connected = false
    end.

Record sys_inv (seen : gmap (string * Z) KeyInfo) (y : St * CryptoService * list call) : Prop := {
  si_ok : ks_ok y.1.1;
  si_valid : valid seen y.1.1;
  si_coherent : coherent seen y.1.2;
  si_calls : Forall (call_ok seen (lockClient y.1.2)) y.2
}.

(** ** Lemmas *)

(** [getKey] alone is its three stages in a row. *)
Lemma getKey_stages s rpc name v :
  let '(s1, p1) := getKey_step s rpc name v Start in
  let '(s2, p2) := getKey_step s1 rpc name v p1 in
  getKey_step s2 rpc name v p2 = ((getKey s rpc name v).1, Finished (getKey s rpc name v).2).
Proof.
  unfold getKey_step, getKey. destruct (lru_Get _ _) as [c [info|]]; cbn; [done|].
  destruct (lockClient s); cbn; [|done]. by destruct (fetch rpc name v).
Qed.

Lemma cache_key_inj n v n' v' :
  no_colon n → no_colon n' → cache_key n v = cache_key n' v' →
  n = n' ∧ (0 < v → v' = v) ∧ (0 < v' → v' = v).
Proof.
  intros Hn Hn' H. apply (f_equal (Strings.Split ":"%char)) in H. unfold cache_key in H.
  destruct (Z.ltb_spec 0 v), (Z.ltb_spec 0 v');
    rewrite ?Strings.Split_cons, ?Strings.Split_single in H by (done || apply Strconv.Itoa_no_colon);
    simplify_eq; split_and!; try done; try lia.
  - intros _. symmetry. apply Strconv.Itoa_inj; [lia|lia|done].
  - intros _. symmetry. apply Strconv.Itoa_inj; [lia|lia|done].
Qed.

Lemma entitled_mono seen seen' n v info : seen ⊆ seen' → entitled seen n v info → entitled seen' n v info.
Proof. intros Hs [H ?]. split; [by eapply lookup_weaken|done]. Qed.

Lemma coherent_mono seen seen' s : seen ⊆ seen' → coherent seen s → coherent seen' s.
Proof.
  intros Hs [Hok H]. split; [done|]. intros key info Hp.
  destruct (H key info Hp) as (n & v & ? & ? & ?). eauto 10 using entitled_mono.
Qed.

Lemma call_ok_mono seen seen' b c : seen ⊆ seen' → call_ok seen b c → call_ok seen' b c.
Proof.
  intros Hs [Hn H]. split; [done|]. intros n v Hq. specialize (H n v Hq).
  destruct (c_phase c) as [| |?|[]]; eauto using entitled_mono.
Qed.

Context {LL : LRULaws string KeyInfo} {KL : KeyServiceLaws St}.

Lemma valid_step seen st st' : valid seen st → ks_step st st' → valid seen st'.
Proof.
  intros H Hs n w info Hi. destruct (H n w info Hi) as (? & ? & ? & Hf). split_and!; [done|lia|lia|done|].
  intros st2 r Hr. apply Hf. by eapply rtc_l.
Qed.

(** An answer can be asked for again by the version it carries. *)
Lemma ks_by_number st n v r : ks_ok st → ks_get st n v = Ok r → ks_get st n (ek_Version r) = Ok r.
Proof.
  intros Hok H. destruct (decide (v = 0)) as [->|Hv]; [by apply ks_latest|].
  by rewrite (ks_version st n v r).
Qed.

(** A key the vault hands out is recorded, or already was. *)
Lemma fetch_seen seen st n v info :
  ks_ok st → valid seen st → fetch (Some st) n v = Ok info →
  ∃ seen', seen ⊆ seen' ∧ valid seen' st ∧ entitled seen' n v info.
Proof.
  intros Hok Hv Hf. unfold fetch in Hf.
  destruct (ks_get st n (int32 v)) as [r|] eqn:Hr; [|done]. injection Hf as <-.
  pose proof (ks_by_number _ _ _ _ Hok Hr) as Hn.
  assert (0 < v < 2 ^ 31 → ek_Version r = v) as Hver.
  { intros H. rewrite int32_small in Hr by (unfold in_int32; lia).
    eapply ks_version; [done| |done]. lia. }
  destruct (seen !! (n, ek_Version r)) as [i|] eqn:Hi.
  - exists seen. split_and!; [done..|]. split; [|done]. cbn.
    destruct (Hv _ _ _ Hi) as (_ & _ & _ & Hs). by rewrite (Hs st r).
  - exists (<[(n, ek_Version r) := info_of r]> seen). split_and!.
    + by apply insert_subseteq.
    + intros n' w info. rewrite lookup_insert_Some. intros [[[= <- <-] <-]|[_ Hl]]; [|by apply Hv].
      pose proof (ks_positive _ _ _ _ Hok Hr). cbn. split_and!; [done|lia|lia| |].
      { by eapply ks_key_size. }
      intros st' r' Hst Hr'. f_equal. eapply (ks_stable st st' n (ek_Version r)); [done|done|lia|done..].
    + split; [apply lookup_insert_eq|done].
Qed.

Lemma coherent_hit seen s n v :
  coherent seen s → no_colon n →
  match (lru_Get (keyCache s) (cache_key n v)).2 with
  | Some info => entitled seen n v info
  | None => True
  end ∧ coherent seen (set_keyCache (lru_Get (keyCache s) (cache_key n v)).1 s).
Proof.
  intros [Hok H] Hn. split.
  - rewrite lru_Get_value by done. destruct (lru_Peek _ _) as [info|] eqn:Hp; [|done].
    destruct (H _ _ Hp) as (n' & v' & Hn' & Hk & He).
    destruct (cache_key_inj _ _ _ _ Hn Hn' Hk) as (-> & Hv & _). destruct He as [He1 He2].
    split; [done|]. intros Hv0. rewrite Hv in He2 by lia. by apply He2.
  - split; [by apply lru_Get_ok|]. cbn. intros key info. rewrite lru_Get_Peek by done. apply H.
Qed.

Lemma coherent_add seen s n v info :
  coherent seen s → no_colon n → entitled seen n v info →
  coherent seen (set_keyCache (lru_Add (keyCache s) (cache_key n v) info).1 s).
Proof.
  intros [Hok H] Hn He. split; [by apply lru_Add_ok|]. cbn. intros key i Hp.
  apply lru_Add_inv in Hp as [[-> ->]|[_ Hp]]; [|by apply H|done]. by exists n, v.
Qed.

(** One stage of a call keeps the invariant, and what it learns is recorded. *)
Lemma getKey_step_inv seen st s rpc q n v ph s' ph' :
  ks_ok st → valid seen st → coherent seen s →
  call_ok seen (lockClient s) {| c_req := q; c_phase := ph |} → req_key q = Ok (n, v) →
  rpc = None ∨ rpc = Some st → getKey_step s rpc n v ph = (s', ph') →
  lockClient s' = lockClient s ∧
  ∃ seen', seen ⊆ seen' ∧ valid seen' st ∧ coherent seen' s' ∧
    call_ok seen' (lockClient s) {| c_req := q; c_phase := ph' |}.
Proof.
  intros Hok Hv Hc [Hn Hq] Hk Hrpc Hs. cbn in Hn, Hq. specialize (Hq n v Hk).
  assert (no_colon n) as Hn'.
  { destruct q as [? ? ? ?|? ct ?]; cbn in *; [by simplify_eq|].
    destruct (Aes.ParseCiphertext ct) as [[]|]; by simplify_eq/=. }
  assert (∀ sn p', match p' with
      | Start | Missed => True
      | Fetched info | Finished (Ok info) => entitled sn n v info
      | Finished (Err e) => e = ErrKeyNotFound ∨ lockClient s = false
      end → call_ok sn (lockClient s) {| c_req := q; c_phase := p' |}) as Hcall.
  { intros sn p' Hp. split; [done|]. cbn. intros n1 v1 Hq1. rewrite Hk in Hq1. injection Hq1 as <- <-. done. }
  destruct ph as [| |info|res]; cbn in Hs.
  - pose proof (coherent_hit seen s n v Hc Hn') as [Hh Hc'].
    destruct (lru_Get (keyCache s) (cache_key n v)) as [c cached]. cbn in *. simplify_eq.
    split; [done|]. exists seen. split_and!; [done..|]. apply Hcall.
    destruct cached as [info|]; [done|]. destruct (lockClient s); cbn; auto.
  - simplify_eq. split; [done|].
    destruct (fetch rpc n v) as [info|e] eqn:Hf.
    + destruct Hrpc as [->| ->]; [done|].
      destruct (fetch_seen seen st n v info) as (seen' & H1 & H2 & H3); [done..|].
      exists seen'. split_and!; [done|done|by eapply coherent_mono|by apply Hcall].
    + exists seen. split_and!; [done..|]. apply Hcall. left. unfold fetch in Hf.
      destruct rpc; [|congruence]. destruct (ks_get _ _ _); congruence.
  - simplify_eq. split; [done|]. exists seen. split_and!; [done..| |by apply Hcall].
    by apply coherent_add.
  - simplify_eq. split; [done|]. exists seen. split_and!; [done..|]. by apply Hcall.
Qed.

Lemma sys_step_inv seen y y' :
  sys_inv seen y → sys_step y y' → lockClient y'.1.2 = lockClient y.1.2 ∧ ∃ seen', seen ⊆ seen' ∧ sys_inv seen' y'.
Proof.
  intros [Hok Hv Hc Hcs] H. destruct H as [st st' s cs H|st s cs qs H|st s cs i q ph n v rpc s' ph' Hi Hq Hr H];
    cbn in *.
  - split; [done|]. exists seen. split; [done|].
    split; [by eapply ks_ok_step|by eapply valid_step|done|done].
  - split; [done|]. exists seen. split; [done|]. split; [done..|]. cbn.
    apply Forall_app. split; [done|]. rewrite Forall_fmap. eapply Forall_impl; [exact H|].
    intros q Hq. split; [done|]. done.
  - destruct (getKey_step_inv seen st s rpc q n v ph s' ph') as (Hl & seen' & H1 & H2 & H3 & H4); try done.
    { by eapply Forall_lookup_1 in Hcs. }
    split; [done|]. exists seen'. split; [done|]. split; [done..|]. cbn. rewrite Hl.
    apply Forall_insert; [|done]. eapply Forall_impl; [exact Hcs|]. intros c. by apply call_ok_mono.
Qed.

Lemma sys_rtc_inv seen y y' :
  sys_inv seen y → rtc sys_step y y' → lockClient y'.1.2 = lockClient y.1.2 ∧ ∃ seen', seen ⊆ seen' ∧ sys_inv seen' y'.
Proof.
  intros I H. revert seen I. induction H as [y|y y1 y2 H _ IH]; intros seen I; [eauto|].
  destruct (sys_step_inv seen y y1 I H) as (Hl & seen1 & Hs1 & I1).
  destruct (IH seen1 I1) as (Hl2 & seen2 & Hs2 & I2). split; [congruence|].
  exists seen2. split; [by etrans|done].
Qed.

(** The service as [NewCryptoService] returns it. *)
Lemma NewCryptoService_inv st address conn s :
  ks_ok st → NewCryptoService address conn = Ok s → lockClient s = true ∧ sys_inv ∅ (st, s, []).
Proof.
  intros Hok H. unfold NewCryptoService in H. destruct (lru_New 10000) as [c|] eqn:Hc; [|done].
  destruct (bool_decide _); [done|]. destruct conn; [|done]. injection H as <-. split; [done|].
  split; [done| | |constructor].
  - intros n w info Hi. by rewrite lookup_empty in Hi.
  - split; [by apply (lru_New_ok 10000)|]. cbn. intros key info. by rewrite (lru_New_Peek _ _ _ Hc).
Qed.

(** A whole [getKey] in between keeps the invariant too. *)
Lemma getKey_inv seen st s cs rpc n v s' k :
  sys_inv seen (st, s, cs) → no_colon n → rpc = None ∨ rpc = Some st → getKey s rpc n v = (s', k) →
  ∃ seen', seen ⊆ seen' ∧ sys_inv seen' (st, s', cs) ∧
    match k with
    | Ok info => entitled seen' n v info
    | Err e => e = ErrKeyNotFound ∨ lockClient s = false
    end.
Proof.
  intros [Hok Hv Hc Hcs] Hn Hr. cbn in *. unfold getKey.
  pose proof (coherent_hit seen s n v Hc Hn) as [Hh Hc'].
  destruct (lru_Get (keyCache s) (cache_key n v)) as [c cached]. cbn in *.
  destruct cached as [info|].
  { intros [= <- <-]. exists seen. split_and!; [done|by split|done]. }
  destruct (lockClient s) eqn:Hl; cbn.
  2:{ intros [= <- <-]. exists seen. split_and!; [done| |by right].
      split; [done..|]. cbn. by rewrite Hl. }
  destruct (fetch rpc n v) as [info|e] eqn:Hf; intros [= <- <-].
  - destruct Hr as [->| ->]; [done|].
    destruct (fetch_seen seen st n v info) as (seen' & H1 & H2 & H3); [done..|].
    exists seen'. split_and!; [done| |done]. split; [done|done| |].
    + cbn. apply (coherent_add _ (set_keyCache c s)); [by eapply coherent_mono|done|done].
    + cbn. rewrite Hl. eapply Forall_impl; [exact Hcs|]. intros ?. by apply call_ok_mono.
  - exists seen. split_and!; [done|split; [done..|cbn; by rewrite Hl]|]. left. unfold fetch in Hf.
    destruct rpc; [|congruence]. destruct (ks_get _ _ _); congruence.
Qed.

(** Requests keep their place. *)
Lemma sys_step_calls y y' i c :
  sys_step y y' → y.2 !! i = Some c → ∃ c', y'.2 !! i = Some c' ∧ c_req c' = c_req c.
Proof.
  intros H Hi. destruct H as [| |st s cs j q ph n v rpc s' ph' Hj Hq Hr H]; cbn in *.
  - eauto.
  - exists c. split; [by apply lookup_app_l_Some|done].
  - destruct (decide (i = j)) as [->|Hne].
    + eexists. rewrite list_lookup_insert_eq by (by eapply lookup_lt_Some). split; [done|].
      rewrite Hj in Hi. by injection Hi as <-.
    + exists c. by rewrite list_lookup_insert_ne.
Qed.

Lemma sys_rtc_calls y y' i c :
  rtc sys_step y y' → y.2 !! i = Some c → ∃ c', y'.2 !! i = Some c' ∧ c_req c' = c_req c.
Proof.
  intros H. revert c. induction H as [|y y1 y2 H _ IH]; intros c Hi; [eauto|].
  destruct (sys_step_calls _ _ _ _ H Hi) as (c1 & H1 & <-). by apply IH.
Qed.

Context {AL : AEADLaws A}.

(** What the decryption of a ciphertext of [pt] answers: [Decrypt] of package [aes] refuses
    the ciphertext of an empty plaintext as too short. *)
Definition undone (pt : bytes) (version : Z) : result (bytes * Z) :=
  if bool_decide (pt = []) then Err ErrDecryptFailed else Ok (pt, version).

Lemma undone_some pt version : pt ≠ [] → undone pt version = Ok (pt, version).
Proof. intros H. unfold undone. by rewrite bool_decide_false. Qed.

Lemma encrypt_with_undone info pt aad r ct :
  length (ki_Key info) = 32%nat → 0 < ki_Version info < 2 ^ 31 →
  encrypt_with info pt aad r = Ok ct →
  (∃ data, Aes.ParseCiphertext ct = Ok (ki_Version info, data)) ∧
  decrypt_with info ct aad = undone pt (ki_Version info).
Proof.
  intros Hl Hv. unfold encrypt_with, decrypt_with, newCipher, undone.
  destruct (Aes.NewCipher (ki_Key info) (ki_Version info)) as [c|] eqn:Hc; cbn; [|done].
  destruct r as [f|]; [|done].
  destruct (Aes.Encrypt_Decrypt _ _ _ pt aad f Hc) as (s & data & He & Hs & Hd); [unfold in_int64; lia|].
  rewrite He. intros [= <-]. split; [by eexists|]. rewrite Hd. by case_bool_decide.
Qed.

Lemma encrypt_with_decrypts info pt aad r ct :
  length (ki_Key info) = 32%nat → 0 < ki_Version info < 2 ^ 31 → pt ≠ [] →
  encrypt_with info pt aad r = Ok ct →
  (∃ data, Aes.ParseCiphertext ct = Ok (ki_Version info, data)) ∧
  decrypt_with info ct aad = Ok (pt, ki_Version info).
Proof. intros Hl Hv Hp He. rewrite <- undone_some by done. by eapply encrypt_with_undone. Qed.

(** With a seen key, encryption succeeds whenever the random source does. *)
Lemma encrypt_with_ok info pt aad f :
  length (ki_Key info) = 32%nat → ∃ ct, encrypt_with info pt aad (Some f) = Ok ct.
Proof.
  intros Hl. unfold encrypt_with, newCipher. rewrite Aes.NewCipher_spec, Hl.
  change (valid_key_size 32) with true. cbn [rbind]. unfold Aes.Encrypt. destruct (rand_Read Aes.NonceSize (Some f)) as [nonce|] eqn:Hn; [|done].
  apply rand_Read_length in Hn. eexists. by apply Aes.EncryptWithNonce_ok.
Qed.

(** The answer to the decryption of what a seen key encrypted. *)
Lemma decrypt_entitled seen st n v info info' pt aad r ct data :
  valid seen st → entitled seen n 0 info → entitled seen n v info' →
  encrypt_with info pt aad r = Ok ct → Aes.ParseCiphertext ct = Ok (v, data) →
  decrypt_with info' ct aad = undone pt (ki_Version info) ∧ v = ki_Version info.
Proof.
  intros Hv [H1 _] [H2 H3] He Hparse. destruct (Hv _ _ _ H1) as (_ & Hr & Hl & _).
  destruct (encrypt_with_undone _ _ _ _ _ Hl Hr He) as [[d Hd] Hdec].
  assert (v = ki_Version info) as -> by congruence. rewrite H3 in H2 by done.
  assert (info' = info) as -> by congruence. done.
Qed.

Lemma answered_encrypt seen y i ci name pt aad r ct ver :
  sys_inv seen y → y.2 !! i = Some ci → c_req ci = EncryptReq name pt aad r →
  encrypt_answer ci = Some (Ok (ct, ver)) →
  no_colon name ∧ ∃ info, entitled seen name 0 info ∧ ki_Version info = ver ∧ encrypt_with info pt aad r = Ok ct.
Proof.
  intros I Hi Hq Ha. pose proof (Forall_lookup_1 _ _ _ _ (si_calls _ _ I) Hi) as [Hn Hc].
  unfold encrypt_answer in Ha. rewrite Hq in *. cbn in *. specialize (Hc name 0 eq_refl).
  destruct (c_phase ci) as [| | |[info|e]]; try done. cbn in Ha.
  destruct (encrypt_with info pt aad r) as [ct'|] eqn:He; cbn in Ha; [|done].
  injection Ha as <- <-. eauto.
Qed.

Lemma answered_decrypt seen y j cj name pt aad r ct a info :
  sys_inv seen y → lockClient y.1.2 = true → y.2 !! j = Some cj → c_req cj = DecryptReq name ct aad →
  decrypt_answer cj = Some a →
  entitled seen name 0 info → encrypt_with info pt aad r = Ok ct →
  a = undone pt (ki_Version info) ∨ a = Err ErrKeyNotFound.
Proof.
  intros I Hl Hj Hq Ha He Henc.
  pose proof (Forall_lookup_1 _ _ _ _ (si_calls _ _ I) Hj) as [_ Hc].
  unfold decrypt_answer in Ha. rewrite Hq in *. cbn in Hc.
  pose proof (si_valid _ _ I) as Hv. destruct (Hv _ _ _ (proj1 He)) as (_ & Hr & Hlen & _).
  destruct (encrypt_with_undone _ _ _ _ _ Hlen Hr Henc) as [[d Hd] _].
  rewrite Hd in Ha, Hc. cbn in Hc. specialize (Hc _ _ eq_refl).
  destruct (c_phase cj) as [| | |[info'|e]]; try done; cbn in Ha; injection Ha as <-.
  - left. by eapply decrypt_entitled.
  - right. destruct Hc as [->|Hc]; [done|congruence].
Qed.

Lemma getKey_served s st name v :
  lockClient s = true → 0 < v < 2 ^ 31 → is_Ok (ks_get st name v) = true →
  ∃ s' info, getKey s (Some st) name v = (s', Ok info).
Proof.
  intros Hl Hv Hs. unfold getKey. destruct (lru_Get _ _) as [c [x|]]; [eauto|]. cbn. rewrite Hl. cbn.
  rewrite int32_small by (unfold in_int32; lia). destruct (ks_get st name v); [eauto|done].
Qed.

(** *** A service that answered one encryption since it started

    Whatever the name, the only entry of its cache is not the one a decryption asks for. *)

Lemma cache_key_numbered n v : 0 < v → cache_key n v ≠ cache_key n 0.
Proof.
  intros Hv. unfold cache_key. rewrite (proj2 (Z.ltb_lt 0 v) Hv). cbn. intros H%(f_equal String.length).
  rewrite Strings.length_app_string in H. cbn in H. lia.
Qed.

Lemma getKey_first address conn s st n s1 info v :
  NewCryptoService address conn = Ok s → getKey s (Some st) n 0 = (s1, Ok info) → 0 < v →
  lockClient s1 = true ∧ fetch (Some st) n 0 = Ok info ∧
  ∀ st', (getKey s1 (Some st') n v).2 = fetch (Some st') n v.
Proof.
  intros H Hg Hv. unfold NewCryptoService in H. destruct (lru_New 10000) as [c|] eqn:Hc; [|done].
  destruct (bool_decide _); [done|]. destruct conn; [|done]. injection H as <-.
  destruct (lru_New_ok _ _ Hc) as [Hok _]. unfold getKey in Hg. cbn [keyCache] in Hg.
  pose proof (lru_Get_value c (cache_key n 0) Hok) as Hget. rewrite (lru_New_Peek _ _ _ Hc) in Hget.
  pose proof (lru_Get_Peek c (cache_key n 0) (cache_key n v) Hok) as Hpeek. rewrite (lru_New_Peek _ _ _ Hc) in Hpeek.
  destruct (lru_Get_ok c (cache_key n 0) Hok) as [Hok1 _].
  destruct (lru_Get c (cache_key n 0)) as [c1 o]. cbn [fst snd] in *. subst o.
  cbn -[fetch cache_key] in Hg. destruct (fetch (Some st) n 0) as [i|]; [|done]. injection Hg as <- <-.
  split; [done|]. split; [done|]. intros st'. unfold getKey. cbn -[fetch cache_key].
  rewrite (surjective_pairing (lru_Get _ _)).
  rewrite lru_Get_value, lru_Add_Peek, bool_decide_false, Hpeek
    by (done || (by apply lru_Add_ok) || (by apply cache_key_numbered)).
  case_bool_decide; cbn -[fetch]; by destruct (fetch (Some st') n v).
Qed.

(** What the vault answered the first request is what it answers for that version later. *)
Lemma first_seen address conn s st n s1 info :
  ks_ok st → NewCryptoService address conn = Ok s → getKey s (Some st) n 0 = (s1, Ok info) →
  ∃ seen, valid seen st ∧ entitled seen n 0 info.
Proof.
  intros Hok Hnew Hg. destruct (getKey_first address conn s st n s1 info 1 Hnew Hg) as (_ & Hf & _); [lia|].
  assert (valid ∅ st) as V0 by (intros ??? H; by rewrite lookup_empty in H).
  destruct (fetch_seen ∅ st n 0 info Hok V0 Hf) as (seen & _ & V & E). eauto.
Qed.

Lemma first_version address conn s st n s1 info :
  ks_ok st → NewCryptoService address conn = Ok s → getKey s (Some st) n 0 = (s1, Ok info) →
  0 < ki_Version info < 2 ^ 31 ∧ length (ki_Key info) = 32%nat.
Proof.
  intros Hok Hnew Hg. destruct (first_seen address conn s st n s1 info Hok Hnew Hg) as (seen & V & E & _).
  by destruct (V _ _ _ E) as (_ & Hr & Hlen & _).
Qed.

Lemma fresh_roundtrip address conn s st n s1 info pt aad r ct st' :
  ks_ok st → NewCryptoService address conn = Ok s → getKey s (Some st) n 0 = (s1, Ok info) →
  encrypt_with info pt aad r = Ok ct → pt ≠ [] →
  rtc ks_step st st' → is_Ok (ks_get st' n (ki_Version info)) = true →
  (Decrypt s1 (Some st') n ct aad).2 = Ok (pt, ki_Version info).
Proof.
  intros Hok Hnew Hg Henc Hp Hst Hserve.
  destruct (first_seen address conn s st n s1 info Hok Hnew Hg) as (seen & V & E & _).
  destruct (V _ _ _ E) as (_ & Hr & Hlen & Hsame).
  destruct (encrypt_with_decrypts _ _ _ _ _ Hlen Hr Hp Henc) as [[d Hd] Hdec].
  unfold Decrypt. rewrite Hd.
  destruct (getKey_first address conn s st n s1 info (ki_Version info) Hnew Hg) as (_ & _ & Hget); [lia|].
  specialize (Hget st'). destruct (getKey s1 (Some st') n (ki_Version info)) as [s2 k]. cbn [snd] in *. subst k.
  unfold fetch. rewrite int32_small by (unfold in_int32; lia).
  destruct (ks_get st' n (ki_Version info)) as [resp|] eqn:Hk; [|done]. cbn. by rewrite (Hsame st' resp).
Qed.

(** Decryption by a service that can still get the key. *)
Lemma Decrypt_served seen st s cs name info pt aad r ct :
  sys_inv seen (st, s, cs) → lockClient s = true → no_colon name → entitled seen name 0 info →
  encrypt_with info pt aad r = Ok ct → pt ≠ [] → is_Ok (ks_get st name (ki_Version info)) = true →
  (Decrypt s (Some st) name ct aad).2 = Ok (pt, ki_Version info).
Proof.
  intros I Hl Hn He Henc Hp Hs.
  destruct (si_valid _ _ I _ _ _ (proj1 He)) as (_ & Hr & Hlen & _).
  destruct (encrypt_with_decrypts _ _ _ _ _ Hlen Hr Hp Henc) as [[d Hd] _].
  unfold Decrypt. rewrite Hd.
  destruct (getKey_served s st name (ki_Version info) Hl Hr Hs) as (s' & info' & Hg). rewrite Hg.
  destruct (getKey_inv seen st s cs (Some st) name (ki_Version info) s' (Ok info') I Hn)
    as (seen' & Hsub & I' & Hk); [by right|done|]. cbn.
  rewrite <- undone_some by done.
  eapply (decrypt_entitled seen' st name (ki_Version info)); [apply I'|by eapply entitled_mono|done..].
Qed.
End service.

(** ** Properties *)
Section properties.
Context {A : AEAD} {AL : AEADLaws A} {L : LRU string KeyInfo} {LL : LRULaws string KeyInfo}.
Context {St : Type} {KS : KeyService St} {KL : KeyServiceLaws St}.


(** C36. Availability: in any state reached as above in which the encryption was
    answered, [Decrypt] succeeds, with that plaintext and version, whenever the vault
    still serves that version of the key; it needs no luck with the cache. *)
Theorem crypto_available st0 address conn s0 st s cs i ci name pt aad r ct ver :
  ks_ok st0 → NewCryptoService address conn = Ok s0 → rtc sys_step (st0, s0, []) (st, s, cs) →
  cs !! i = Some ci → c_req ci = EncryptReq name pt aad r → encrypt_answer ci = Some (Ok (ct, ver)) →
  pt ≠ [] → is_Ok (ks_get st name ver) = true →
  (Decrypt s (Some st) name ct aad).2 = Ok (pt, ver).
Proof.
  intros Hok Hnew Hrun Hi Hqi Hai Hp Hserved.
  destruct (NewCryptoService_inv st0 address conn s0 Hok Hnew) as [Hl I0].
  destruct (sys_rtc_inv _ _ _ I0 Hrun) as (Hl' & seen & _ & I). cbn in Hl'.
  destruct (answered_encrypt _ _ _ _ _ _ _ _ _ _ I Hi Hqi Hai) as (Hn & info & He & <- & Henc).
  eapply Decrypt_served; [exact I|congruence|done..].
Qed.

(** The items of the decryption batch that undoes an encryption batch. *)
Definition undo_items (items : list BatchItem) (ers : list EncryptResult) : list BatchDecryptItem :=
  zip_with (λ itm er, {| bd_Ciphertext := er_Ciphertext er; bd_Context := bi_Context itm;
                         bd_Reference := er_Reference er |}) items ers.

(** Each item of a batch that was encrypted without error, by a seen key. *)
Lemma EncryptBatch_items seen st s cs rpc name items rs s1 ers :
  sys_inv seen (st, s, cs) → no_colon name → rpc = None ∨ rpc = Some st →
  EncryptBatch s rpc name items rs = (s1, ers) → Forall (λ er, er_Error er = None) ers →
  length ers = length items ∧
  (items ≠ [] → ∃ seen' info, seen ⊆ seen' ∧ sys_inv seen' (st, s1, cs) ∧ entitled seen' name 0 info ∧
    ∀ i itm er, items !! i = Some itm → ers !! i = Some er →
      er_Reference er = bi_Reference itm ∧ er_KeyVersion er = ki_Version info ∧
      encrypt_with info (bi_Plaintext itm) (bi_Context itm) (rs i) = Ok (er_Ciphertext er)).
Proof.
  intros I Hn Hr. unfold EncryptBatch. destruct (getKey s rpc name 0) as [s' k] eqn:Hg.
  intros [= <- <-] Hall.
  split; [destruct k; [by rewrite length_imap|by rewrite length_fmap]|]. intros Hne.
  destruct (getKey_inv seen st s cs rpc name 0 s' k I Hn Hr Hg) as (seen' & Hsub & I' & Hk).
  destruct k as [info|e].
  2:{ destruct items as [|itm items]; [done|]. cbn in Hall. by inversion Hall. }
  exists seen', info. split_and!; [done..|]. intros i itm er Hi He.
  pose proof (Forall_lookup_1 _ _ _ _ Hall He) as Herr.
  rewrite list_lookup_imap, Hi in He. cbn in He. injection He as <-.
  revert Herr. unfold encrypt_item, encrypt_with.
  destruct (newCipher info) as [c|]; cbn; [|done].
  destruct (Aes.Encrypt c (bi_Plaintext itm) (bi_Context itm) (rs i)); cbn; done.
Qed.

(** The workers of the batch, after any run: worker [i] is the call that came with
    item [i]. *)
Lemma batch_workers name items ers st s cs st2 s2 cs2 :
  length ers = length items →
  rtc sys_step (st, s, cs ++ batch_calls name (undo_items items ers)) (st2, s2, cs2) →
  length (take (length items) (drop (length cs) cs2)) = length items ∧
  ∀ i itm er, items !! i = Some itm → ers !! i = Some er →
    ∃ c, take (length items) (drop (length cs) cs2) !! i = Some c ∧ cs2 !! (length cs + i)%nat = Some c ∧
         c_req c = DecryptReq name (er_Ciphertext er) (bi_Context itm).
Proof.
  intros Hlen Hrun. match goal with |- _ ∧ ?H => assert H as Hcall end.
  { intros i itm er Hi He.
    destruct (sys_rtc_calls _ _ (length cs + i)
      {| c_req := DecryptReq name (er_Ciphertext er) (bi_Context itm); c_phase := Start |} Hrun)
      as (c & Hc & Hq).
    { cbn. rewrite lookup_app_r by lia. replace (length cs + i - length cs)%nat with i by lia.
      unfold batch_calls. rewrite list_lookup_fmap. unfold undo_items.
      by rewrite lookup_zip_with, Hi, He. }
    exists c. split_and!; [|done|done]. rewrite lookup_take, lookup_drop.
    rewrite decide_True by (by eapply lookup_lt_Some). done. }
  split; [|done]. pose proof (length_take_le (drop (length cs) cs2) (length items)) as Hle.
  destruct (decide (length items = 0%nat)) as [E|E]; [by rewrite E|].
  destruct (lookup_lt_is_Some_2 items (length items - 1)) as [itm Hi]; [lia|].
  destruct (lookup_lt_is_Some_2 ers (length items - 1)) as [er He]; [lia|].
  destruct (Hcall _ _ _ Hi He) as (c & Hc & _). apply lookup_lt_Some in Hc.
  rewrite length_take in *. lia.
Qed.

Lemma getKey_lockClient s rpc name v : lockClient (getKey s rpc name v).1 = lockClient s.
Proof.
  unfold getKey. destruct (lru_Get _ _) as [? [?|]]; [done|].
  destruct (negb _); [done|]. by destruct (fetch rpc name v).
Qed.

(** The invariant after a batch of decryptions has been accepted. *)
Lemma batch_inv seen st s cs name items y :
  sys_inv seen (st, s, cs) → no_colon name → rtc sys_step (st, s, cs ++ batch_calls name items) y →
  lockClient y.1.2 = lockClient s ∧ ∃ seen', seen ⊆ seen' ∧ sys_inv seen' y.
Proof.
  intros [K1 K2 K3 K4] Hn Hrun. apply (sys_rtc_inv seen _ y) in Hrun; [done|].
  split; [done..|]. cbn in *. apply Forall_app. split; [done|].
  unfold batch_calls. rewrite Forall_fmap. apply Forall_true. intros x. by split.
Qed.


(** No request waits for another: whatever the service and the vault have become
    between its stages, a [getKey] call has returned after three stages; and run
    without interruption the stages are exactly [getKey]. *)
Theorem getKey_wait_free (s1 s2 s3 : CryptoService) (rpc1 rpc2 rpc3 : option St) name v :
  (∃ res, (getKey_step s3 rpc3 name v
            (getKey_step s2 rpc2 name v (getKey_step s1 rpc1 name v Start).2).2).2 = Finished res) ∧
  (let '(t1, p1) := getKey_step s1 rpc1 name v Start in
   let '(t2, p2) := getKey_step t1 rpc1 name v p1 in
   getKey_step t2 rpc1 name v p2 = ((getKey s1 rpc1 name v).1, Finished (getKey s1 rpc1 name v).2)).
Proof.
  split; [|apply getKey_stages]. unfold getKey_step at 3.
  destruct (lru_Get _ _) as [c [info|]]; cbn; [eauto|].
  destruct (lockClient s1); cbn; [|eauto]. destruct (fetch rpc2 name v); cbn; eauto.
Qed.

(** A key that was just obtained is in the cache. *)
Lemma getKey_cached s rpc name v s' info :
  lru_ok (keyCache s) → getKey s rpc name v = (s', Ok info) →
  lru_ok (keyCache s') ∧ lru_Peek (keyCache s') (cache_key name v) = Some info.
Proof.
  intros Hok. unfold getKey. pose proof (lru_Get_ok _ (cache_key name v) Hok) as [Hok' _].
  pose proof (lru_Get_value _ (cache_key name v) Hok) as Hval.
  pose proof (lru_Get_Peek _ (cache_key name v) (cache_key name v) Hok) as Hp.
  destruct (lru_Get _ _) as [c [i|]]; cbn in *.
  - intros [= <- <-]. cbn. by rewrite Hp.
  - destruct (lockClient s); cbn; [|done]. destruct (fetch rpc name v); [|done].
    intros [= <- <-]. cbn. split; [by apply lru_Add_ok|by apply lru_Add_same].
Qed.

Lemma getKey_hit s rpc name v info :
  lru_ok (keyCache s) → lru_Peek (keyCache s) (cache_key name v) = Some info →
  (getKey s rpc name v).2 = Ok info.
Proof.
  intros Hok Hp. unfold getKey. pose proof (lru_Get_value _ (cache_key name v) Hok) as Hv.
  destruct (lru_Get _ _) as [c o]. cbn in Hv. by rewrite Hv, Hp.
Qed.

(** A cached key is not asked for again: right after a successful encryption under
    a name, the next encryption under it uses the same version whatever the vault has
    become, rotated, sealed or unreachable. *)
Theorem cached_latest_is_kept s rpc name pt aad r s' ct ver rpc2 pt2 aad2 f :
  lru_ok (keyCache s) → Encrypt s rpc name pt aad r = (s', Ok (ct, ver)) →
  ∃ ct2, (Encrypt s' rpc2 name pt2 aad2 (Some f)).2 = Ok (ct2, ver).
Proof.
  intros Hok. unfold Encrypt at 1. destruct (getKey s rpc name 0) as [s1 [info|e]] eqn:Hg; [|done].
  destruct (getKey_cached _ _ _ _ _ _ Hok Hg) as [Hok1 Hp]. cbn.
  unfold encrypt_with at 1. destruct (newCipher info) as [c|] eqn:Hc; cbn; [|done].
  destruct (Aes.Encrypt c pt aad r); cbn; [|done]. intros [= <- <- <-].
  unfold Encrypt. pose proof (getKey_hit s1 rpc2 name 0 info Hok1 Hp) as Hh.
  destruct (getKey s1 rpc2 name 0) as [s2 k]. cbn in Hh. subst k. cbn [rbind snd].
  unfold encrypt_with. rewrite Hc. cbn [rbind]. unfold Aes.Encrypt.
  destruct (rand_Read Aes.NonceSize (Some f)) as [nonce|] eqn:Hn; [|done].
  apply rand_Read_length in Hn. rewrite Aes.EncryptWithNonce_ok by done. cbn [rbind]. eauto.
Qed.

(** Two keys can share a cache entry: once the latest version of the key whose name
    is [name ++ ":" ++ version] is cached, a request for that version of the key [name]
    is answered with the bytes of the other key, without asking the vault. *)
Theorem cache_key_collision s rpc name v s' info rpc2 :
  lru_ok (keyCache s) → 0 < v →
  getKey s rpc (name +:+ String ":"%char (Strconv.Itoa v)) 0 = (s', Ok info) →
  (getKey s' rpc2 name v).2 = Ok info.
Proof.
  intros Hok Hv Hg. destruct (getKey_cached _ _ _ _ _ _ Hok Hg) as [Hok1 Hp].
  apply getKey_hit; [done|]. rewrite <- Hp. f_equal. unfold cache_key. cbn.
  by rewrite (proj2 (Z.ltb_lt 0 v)).
Qed.
End properties.

(** ** Examples: AES-GCM, the concrete cache and the vault of [Lock] *)

#[local] Existing Instance ListLru.ListLru.
#[local] Existing Instance ListLru.ListLru_laws.

Definition demo_sys := (Lock.LockService * CryptoService (L := ListLru.ListLru) * list call)%type.

(** One stage of call [i], its RPC served by the vault; the arrival of requests. *)
Definition run1 (y : demo_sys) (i : nat) : demo_sys :=
  let '(st, s, cs) := y in
  match cs !! i with
  | Some c =>
      match req_key (c_req c) with
      | Ok (name, v) =>
          let (s', ph') := getKey_step s (Some st) name v (c_phase c) in
          (st, s', <[i := {| c_req := c_req c; c_phase := ph' |}]> cs)
      | Err _ => y
      end
  | None => y
  end.

Definition accept (y : demo_sys) (qs : list request) : demo_sys :=
  (y.1, y.2 ++ ((λ q, {| c_req := q; c_phase := Start |}) <$> qs)).

Lemma run1_rtc y i : rtc sys_step y (run1 y i).
Proof.
  destruct y as [[st s] cs]. unfold run1. destruct (cs !! i) as [[q ph]|] eqn:Hi; [|done]. cbn.
  destruct (req_key q) as [[n v]|] eqn:Hq; [|done].
  destruct (getKey_step s (Some st) n v ph) as [s' ph'] eqn:Hs. eapply rtc_once, sys_run; eauto.
Qed.

Lemma run_rtc y l : rtc sys_step y (List.fold_left run1 l y).
Proof.
  revert y. induction l as [|i l IH]; intros y; [done|]. cbn. etrans; [apply run1_rtc|apply IH].
Qed.

Lemma accept_rtc y qs : Forall (λ q, no_colon (req_name q)) qs → rtc sys_step y (accept y qs).
Proof. intros H. destruct y as [[st s] cs]. by eapply rtc_once, sys_accept. Qed.

Lemma narrow_dec s :
  bool_decide (map_Forall (λ _ p, Keyring.LatestVersion p < 2 ^ 31) (Keyring.policies (Lock.keyring s))) = true →
  narrow s.
Proof. intros H%bool_decide_eq_true n p Hp. by apply (H n p). Qed.

Definition demo_crypto : CryptoService (L := ListLru.ListLru) :=
  {| keyCache := {| ListLru.items := []; ListLru.cap := 10000 |} : @lru string KeyInfo ListLru.ListLru;
     lockClient := true |}.
Definition demo_nonce : entropy := Some (λ _, one).
Definition demo_enc : request := EncryptReq "k" (to_bytes "hi") (to_bytes "ctx") demo_nonce.

(** An encryption under key "k" runs to its end; then the vault rotates the key. *)
Definition demo_y1 : demo_sys :=
  List.fold_left run1 [0; 0; 0]%nat (accept (Lock.demo_vault, demo_crypto, []) [demo_enc]).
Definition demo_rotated : Lock.LockService :=
  (Lock.RotateKey Lock.demo_vault "k" (Some (λ _, zero)) (λ _, 8)).1.
Definition demo_y2 : demo_sys := (demo_rotated, demo_y1.1.2, demo_y1.2).
Definition demo_ct : string :=
  match demo_y1.2 !! 0%nat with
  | Some c => match encrypt_answer c with Some (Ok (ct, _)) => ct | _ => "" end
  | None => ""
  end.
Definition demo_y3 : demo_sys :=
  List.fold_left run1 [1; 1; 1]%nat (accept demo_y2 [DecryptReq "k" demo_ct (to_bytes "ctx")]).

Lemma demo_vault_ok : ks_ok Lock.demo_vault.
Proof.
  split; [|by apply narrow_dec; vm_compute].
  eapply Lock.rtc_inv; [apply Lock.demo_vault_reachable|apply Lock.NewLockService_inv].
Qed.

Lemma demo_rotates : ks_step Lock.demo_vault demo_rotated.
Proof.
  split; [apply (Lock.step_RotateKey _ "k" (Some (λ _, zero)) (λ _, 8))|].
  by apply narrow_dec; vm_compute.
Qed.

Lemma demo_y1_state : demo_y1 = (Lock.demo_vault, demo_y1.1.2, demo_y1.2).
Proof. vm_compute. reflexivity. Qed.

Lemma demo_run1 : rtc sys_step (Lock.demo_vault, demo_crypto, []) demo_y1.
Proof. etrans; [apply accept_rtc|apply run_rtc]. repeat constructor. Qed.

Lemma demo_run2 : rtc sys_step (Lock.demo_vault, demo_crypto, []) demo_y2.
Proof.
  eapply rtc_r; [apply demo_run1|]. rewrite demo_y1_state. apply sys_lock, demo_rotates.
Qed.

Lemma demo_run3 : rtc sys_step (Lock.demo_vault, demo_crypto, []) demo_y3.
Proof. etrans; [apply demo_run2|]. etrans; [apply accept_rtc|apply run_rtc]. repeat constructor. Qed.


Lemma crypto_available_witness :
  (Decrypt demo_y2.1.2 (Some demo_rotated) "k" demo_ct (to_bytes "ctx")).2 = Ok (to_bytes "hi", 1).
Proof.
  eapply (crypto_available Lock.demo_vault "lock:9094" (Ok tt) demo_crypto demo_rotated demo_y2.1.2
            demo_y2.2 0 _ "k" (to_bytes "hi") (to_bytes "ctx") demo_nonce demo_ct 1).
  1: apply demo_vault_ok.
  1: reflexivity.
  1: exact demo_run2.
  4: discriminate.
  all: [> vm_compute; reflexivity ..].
Defined.

Definition demo_items : list BatchItem :=
  [{| bi_Plaintext := to_bytes "a"; bi_Context := []; bi_Reference := "r1" |};
   {| bi_Plaintext := []; bi_Context := []; bi_Reference := "r2" |}].
Definition demo_batch := EncryptBatch demo_crypto (Some Lock.demo_vault) "k" demo_items (λ _, demo_nonce).
Definition demo_undo : list BatchDecryptItem := undo_items demo_items demo_batch.2.

(** The two workers run interleaved. *)
Definition demo_y4 : demo_sys :=
  List.fold_left run1 [0; 1; 1; 0; 1; 0]%nat (Lock.demo_vault, demo_batch.1, batch_calls "k" demo_undo).


Lemma demo_crypto_ok : lru_ok (keyCache demo_crypto).
Proof. cbn. unfold ListLru.ok. cbn. split_and!; [constructor|lia|vm_compute; discriminate]. Qed.

(** The vault is out of reach for the second encryption. *)
Lemma cached_latest_is_kept_witness :
  ∃ ct2, (Encrypt demo_y1.1.2 None "k" (to_bytes "x") [] demo_nonce).2 = Ok (ct2, 1).
Proof.
  apply (cached_latest_is_kept demo_crypto (Some Lock.demo_vault) "k" (to_bytes "hi") (to_bytes "ctx")
           demo_nonce demo_y1.1.2 demo_ct 1 None (to_bytes "x") [] (λ _, one) demo_crypto_ok).
  vm_compute. reflexivity.
Defined.

(** A vault with the keys "k" and "k:1". *)
Definition demo_two_keys : Lock.LockService :=
  (Lock.CreateKey Lock.demo_vault "k:1" Keyring.KeyTypeAES256GCM (Some (λ _, zero)) (λ _, 8)).1.

Lemma cache_key_collision_witness :
  ∃ s' info, getKey demo_crypto (Some demo_two_keys) "k:1" 0 = (s', Ok info) ∧
    (getKey s' (Some demo_two_keys) "k" 1).2 = Ok info ∧
    (getKey demo_crypto (Some demo_two_keys) "k" 1).2 ≠ Ok info.
Proof.
  eexists _, _. split; [vm_compute; reflexivity|]. split; [|vm_compute; discriminate].
  eapply (cache_key_collision demo_crypto (Some demo_two_keys) "k" 1);
    [apply demo_crypto_ok|reflexivity|vm_compute; reflexivity].
Defined.
End CryptoSvc.
