(* ===== verification/CryptoHandler.v ===== *)
(** * services/crypto/internal/handler: the gRPC face of the crypto service

    One definition per method of [CryptoHandler]: the checks on the request, the call
    of the service, and the gRPC status of each error. *)

From S2P Require Import Prelude GoStd Aead Aes Keyring Lock LockHandler KeyService Lru CryptoSvc.
Local Open Scope Z_scope.

Module CryptoHandler.
Import LockHandler KeyService CryptoSvc.

Record EncryptRequest := { eq_KeyName : string; eq_Plaintext : bytes; eq_Context : bytes }.
Record EncryptResponse := { ep_Ciphertext : string; ep_KeyVersion : Z }.
Record DecryptRequest := { dq_KeyName : string; dq_Ciphertext : string; dq_Context : bytes }.
Record DecryptResponse := { dp_Plaintext : bytes; dp_KeyVersion : Z }.
Record BatchEncryptResult := {
  be_Ciphertext : string; be_KeyVersion : Z; be_Reference : string; be_Error : string }.
Record BatchDecryptResult := {
  bdr_Plaintext : bytes; bdr_KeyVersion : Z; bdr_Reference : string; bdr_Error : string }.

Definition err_msg (e : option error) : string := match e with Some e => Error e | None => "" end.

Definition convert_enc (r : EncryptResult) : BatchEncryptResult :=
  {| be_Ciphertext := er_Ciphertext r; be_KeyVersion := int32 (er_KeyVersion r);
     be_Reference := er_Reference r; be_Error := err_msg (er_Error r) |}.

Definition convert_dec (r : DecryptResult) : BatchDecryptResult :=
  {| bdr_Plaintext := dr_Plaintext r; bdr_KeyVersion := int32 (dr_KeyVersion r);
     bdr_Reference := dr_Reference r; bdr_Error := err_msg (dr_Error r) |}.

Section handler.
Context {A : AEAD} {L : LRU string KeyInfo} {St : Type} {KS : KeyService St}.

Definition Encrypt (s : CryptoService) (rpc : option St) (req : EncryptRequest) (r : entropy)
    : CryptoService * result EncryptResponse :=
  if bool_decide (eq_KeyName req = "") then (s, Err (statusError InvalidArgument "key_name is required"))
  else if (length (eq_Plaintext req) =? 0)%nat then
    (s, Err (statusError InvalidArgument "plaintext is required"))
  else
    let (s', res) := CryptoSvc.Encrypt s rpc (eq_KeyName req) (eq_Plaintext req) (eq_Context req) r in
    (s', match res with
         | Err err =>
             if bool_decide (err = ErrKeyNotFound) then Err (statusError NotFound "key not found")
             else Err (statusError Internal "encryption failed")
         | Ok (ciphertext, version) =>
             Ok {| ep_Ciphertext := ciphertext; ep_KeyVersion := int32 version |}
         end).

Definition Decrypt (s : CryptoService) (rpc : option St) (req : DecryptRequest)
    : CryptoService * result DecryptResponse :=
  if bool_decide (dq_KeyName req = "") then (s, Err (statusError InvalidArgument "key_name is required"))
  else if bool_decide (dq_Ciphertext req = "") then
    (s, Err (statusError InvalidArgument "ciphertext is required"))
  else
    let (s', res) := CryptoSvc.Decrypt s rpc (dq_KeyName req) (dq_Ciphertext req) (dq_Context req) in
    (s', match res with
         | Err err =>
             if bool_decide (err = ErrKeyNotFound) then Err (statusError NotFound "key not found")
             else if bool_decide (err = ErrDecryptFailed) then
               Err (statusError InvalidArgument "decryption failed")
             else Err (statusError Internal "decryption failed")
         | Ok (plaintext, version) =>
             Ok {| dp_Plaintext := plaintext; dp_KeyVersion := int32 version |}
         end).

Definition EncryptBatch (s : CryptoService) (rpc : option St) (keyName : string) (items : list BatchItem)
    (rs : nat → entropy) : CryptoService * result (list BatchEncryptResult) :=
  if bool_decide (keyName = "") then (s, Err (statusError InvalidArgument "key_name is required"))
  else if (length items =? 0)%nat then (s, Err (statusError InvalidArgument "items is required"))
  else
    let (s', results) := CryptoSvc.EncryptBatch s rpc keyName items rs in
    (s', Ok (convert_enc <$> results)).

(** [results] is what the workers of the service's [DecryptBatch] have written. *)
Definition DecryptBatch (keyName : string) (items : list BatchDecryptItem) (results : list DecryptResult)
    : result (list BatchDecryptResult) :=
  if bool_decide (keyName = "") then Err (statusError InvalidArgument "key_name is required")
  else if (length items =? 0)%nat then Err (statusError InvalidArgument "items is required")
  else Ok (convert_dec <$> results).

Definition GenerateRandom (bytes : Z) (format : string) (r : entropy) : result string :=
  if bytes <=? 0 then Err (statusError InvalidArgument "bytes must be positive")
  else match CryptoSvc.GenerateRandom bytes format r with
       | Err err => Err (statusError Internal (Error err))
       | Ok data => Ok data
       end.

(** ** Lemmas *)

Lemma Error_not_empty_aes e c pt aad r :
  Aes.NewCipher c.1 c.2 = Err e ∨ (∃ ci, Aes.Encrypt ci pt aad r = Err e) → Error e ≠ "".
Proof.
  intros [H|[ci H]].
  - rewrite Aes.NewCipher_spec in H. destruct (valid_key_size _); [done|]. by injection H as <-.
  - unfold Aes.Encrypt in H. destruct (rand_Read _ r) as [n|]; [|by injection H as <-].
    unfold Aes.EncryptWithNonce in H. destruct (negb _); [|done]. by injection H as <-.
Qed.

Lemma getKey_error s rpc name v s' e :
  getKey s rpc name v = (s', Err e) → e = ErrKeyNotFound ∨ e = ErrLockServiceRequired.
Proof.
  unfold getKey. destruct (lru_Get _ _) as [c [i|]]; [done|].
  destruct (negb _); [intros [= _ <-]; by right|].
  unfold fetch. destruct rpc as [st|]; [|intros [= _ <-]; by left].
  destruct (ks_get _ _ _); [done|]. intros [= _ <-]. by left.
Qed.

(** ** Properties *)
Context {AL : AEADLaws A} {LL : LRULaws string KeyInfo} {KL : KeyServiceLaws St}.

(** The answer of [EncryptBatch] lines up with the request: one result per item,
    in the items' order and with their references, and a result carries a ciphertext
    and the key's version if and only if its error text is empty. *)
Theorem encrypt_batch_aligned s rpc keyName items rs s' results :
  EncryptBatch s rpc keyName items rs = (s', Ok results) →
  length results = length items ∧
  ∀ i itm res, items !! i = Some itm → results !! i = Some res →
    be_Reference res = bi_Reference itm ∧
    (be_Error res = "" ↔
     ∃ info ct, (getKey s rpc keyName 0).2 = Ok info ∧
       encrypt_with info (bi_Plaintext itm) (bi_Context itm) (rs i) = Ok ct ∧
       be_Ciphertext res = ct ∧ be_KeyVersion res = int32 (ki_Version info)).
Proof.
  unfold EncryptBatch. destruct (bool_decide _); [done|]. destruct (_ =? _)%nat; [done|].
  unfold CryptoSvc.EncryptBatch. destruct (getKey s rpc keyName 0) as [s1 k] eqn:Hg. intros [= <- <-].
  destruct k as [info|e]; (split; [by rewrite ?length_fmap, ?length_imap, ?length_fmap|]);
    intros i itm res Hi; rewrite list_lookup_fmap.
  - rewrite list_lookup_imap, Hi. cbn. intros [= <-]. cbn. unfold encrypt_item, encrypt_with.
    destruct (newCipher info) as [c|e] eqn:Hc; cbn.
    + destruct (Aes.Encrypt c _ _ _) as [ct|e] eqn:He; cbn; split; try done.
      * split; [|done]. intros _. exists info, ct. rewrite Hc. cbn. by rewrite He.
      * split.
        { intros H. by destruct (Error_not_empty_aes e ([], 0) (bi_Plaintext itm) (bi_Context itm) (rs i)); eauto. }
        { intros (info' & ct & [= <-] & H & _). rewrite Hc in H. cbn in H. by rewrite He in H. }
    + split; [done|]. split.
      { intros H. destruct (Error_not_empty_aes e (ki_Key info, ki_Version info) [] [] None); eauto. }
      { intros (info' & ct & [= <-] & H & _). by rewrite Hc in H. }
  - rewrite list_lookup_fmap, Hi. cbn. intros [= <-]. cbn. split; [done|]. split.
    + destruct (getKey_error _ _ _ _ _ _ Hg) as [->| ->]; done.
    + by intros (info & ct & ? & _).
Qed.

(** The version a service that just started answers with. *)
Lemma answered_version st address conn s req r s' resp :
  ks_ok st → NewCryptoService address conn = Ok s → Encrypt s (Some st) req r = (s', Ok resp) →
  0 < ep_KeyVersion resp < 2 ^ 31.
Proof.
  intros Hok Hnew. unfold Encrypt. case_bool_decide; [done|]. destruct (_ =? _)%nat; [done|].
  unfold CryptoSvc.Encrypt. destruct (getKey s (Some st) (eq_KeyName req) 0) as [s1 [info|e]] eqn:Hg; cbn; [|by case_match].
  destruct (encrypt_with info _ _ r) as [ct|e]; cbn; [|by case_match]. intros [= _ <-]. cbn.
  pose proof (first_version _ _ _ _ _ _ _ Hok Hnew Hg) as [Hr _].
  by rewrite int32_small by (unfold in_int32; lia).
Qed.

(** Handler-level round trip: when [Encrypt] answers a request of a service that
    just started, [Decrypt] of that answer's ciphertext with the same name and context
    answers the plaintext and the same key version, as long as the vault, however it
    evolved since, still serves that version. *)
Theorem handler_roundtrip st address conn s st' req r s' resp :
  ks_ok st → NewCryptoService address conn = Ok s →
  Encrypt s (Some st) req r = (s', Ok resp) →
  rtc ks_step st st' → is_Ok (ks_get st' (eq_KeyName req) (ep_KeyVersion resp)) = true →
  (Decrypt s' (Some st') {| dq_KeyName := eq_KeyName req; dq_Ciphertext := ep_Ciphertext resp;
                            dq_Context := eq_Context req |}).2 =
    Ok {| dp_Plaintext := eq_Plaintext req; dp_KeyVersion := ep_KeyVersion resp |}.
Proof.
  intros Hok Hnew Henc Hst Hserve. unfold Encrypt in Henc.
  destruct (bool_decide (eq_KeyName req = "")) eqn:Hname; [done|].
  destruct (Nat.eqb_spec (length (eq_Plaintext req)) 0) as [|Hpt]; [done|].
  unfold CryptoSvc.Encrypt in Henc.
  destruct (getKey s (Some st) (eq_KeyName req) 0) as [s1 k] eqn:Hg.
  destruct k as [info|e]; cbn in Henc; [|by case_match].
  destruct (encrypt_with info _ _ r) as [ct|e] eqn:He; cbn in Henc; [|by case_match].
  injection Henc as <- <-. cbn [ep_KeyVersion ep_Ciphertext] in *.
  assert (eq_Plaintext req ≠ []) as Hne by (intros E; by rewrite E in Hpt).
  pose proof (first_version _ _ _ _ _ _ _ Hok Hnew Hg) as [Hr Hlen].
  rewrite int32_small in Hserve |- * by (unfold in_int32; lia).
  destruct (encrypt_with_decrypts _ _ _ _ _ Hlen Hr Hne He) as [[d Hd] _].
  pose proof (fresh_roundtrip _ _ _ _ _ _ _ _ _ _ _ st' Hok Hnew Hg He Hne Hst Hserve) as Hdec.
  unfold Decrypt. cbn [dq_KeyName dq_Ciphertext dq_Context]. rewrite Hname.
  rewrite bool_decide_false by (intros ->; by vm_compute in Hd).
  destruct (CryptoSvc.Decrypt s1 _ _ ct _) as [s2 res]. cbn in Hdec. subst res. cbn.
  by rewrite int32_small by (unfold in_int32; lia).
Qed.

(** Every refusal of the vault looks like a missing key: with nothing cached for
    the name, an [Encrypt] whose call to the lock service fails for any reason (the
    vault is sealed, the call times out, the version is below the minimum) is answered
    NotFound "key not found". *)
Theorem vault_refusal_is_not_found s rpc req r :
  lru_ok (keyCache s) → lockClient s = true → eq_KeyName req ≠ "" → eq_Plaintext req ≠ [] →
  lru_Peek (keyCache s) (eq_KeyName req) = None →
  (rpc = None ∨ ∃ st e, rpc = Some st ∧ ks_get st (eq_KeyName req) 0 = Err e) →
  (Encrypt s rpc req r).2 = Err (statusError NotFound "key not found").
Proof.
  intros Hok Hl Hn Hp Hc Hr. unfold Encrypt. rewrite bool_decide_false by done.
  rewrite (proj2 (Nat.eqb_neq _ _)) by (by destruct (eq_Plaintext req)).
  unfold CryptoSvc.Encrypt, getKey. change (cache_key (eq_KeyName req) 0) with (eq_KeyName req).
  pose proof (lru_Get_value _ (eq_KeyName req) Hok) as Hv. rewrite Hc in Hv.
  destruct (lru_Get _ _) as [c o]. cbn in Hv. subst o. cbn. rewrite Hl. cbn.
  destruct Hr as [->|(st & e & -> & He)]; cbn; [done|]. change (int32 0) with 0. by rewrite He.
Qed.

(** [GenerateRandom]: exactly the sizes 1 to 1024 are served; the answer encodes
    that many bytes, two hexadecimal digits per byte or base64 that decodes to them;
    other positive sizes are answered Internal, and a size that is not positive
    InvalidArgument. *)
Theorem generate_random_sizes n format f :
  match GenerateRandom n format (Some f) with
  | Ok data =>
      1 ≤ n ≤ 1024 ∧
      (if bool_decide (format = "hex") then slen data = 2 * n
       else ∃ b, Base64.DecodeString Base64.StdEncoding data = Some b ∧ zlen b = n)
  | Err e =>
      (n ≤ 0 ∧ e = statusError InvalidArgument "bytes must be positive") ∨
      (1024 < n ∧ e = statusError Internal "invalid input")
  end.
Proof.
  unfold GenerateRandom. destruct (Z.leb_spec n 0) as [Hn|Hn]; [left; done|].
  unfold CryptoSvc.GenerateRandom. destruct (Z.leb_spec n 0) as [Hn'|_]; [lia|].
  destruct (Z.ltb_spec 1024 n) as [Hb|Hb]; cbn [orb]; [right; done|].
  destruct (rand_Read (Z.to_nat n) (Some f)) as [b|] eqn:Hr; [|done]. apply rand_Read_length in Hr.
  destruct (bool_decide (format = "hex")); (split; [lia|]).
  - unfold slen, Hex.EncodeToString. rewrite length_of_bytes, Hex.length_encode. lia.
  - exists b. split; [apply Base64.Decode_Encode|]. unfold zlen. lia.
Qed.
End handler.

(** ** Examples *)

#[local] Existing Instance ListLru.ListLru.
#[local] Existing Instance ListLru.ListLru_laws.

Definition demo_request : EncryptRequest :=
  {| eq_KeyName := "k"; eq_Plaintext := to_bytes "hi"; eq_Context := [] |}.

Lemma encrypt_batch_aligned_witness :
  ∃ s' results, EncryptBatch demo_crypto (Some Lock.demo_vault) "k" demo_items (λ _, demo_nonce) =
    (s', Ok results) ∧ length results = 2%nat.
Proof.
  eexists _, _. split; [vm_compute; reflexivity|].
  eapply (encrypt_batch_aligned demo_crypto (Some Lock.demo_vault) "k" demo_items (λ _, demo_nonce)).
  vm_compute. reflexivity.
Defined.

Lemma handler_roundtrip_witness :
  ∃ s' resp, Encrypt demo_crypto (Some Lock.demo_vault) demo_request demo_nonce = (s', Ok resp) ∧
    (Decrypt s' (Some demo_rotated) {| dq_KeyName := "k"; dq_Ciphertext := ep_Ciphertext resp;
                                       dq_Context := [] |}).2 =
      Ok {| dp_Plaintext := to_bytes "hi"; dp_KeyVersion := 1 |}.
Proof.
  eexists _, _. split; [vm_compute; reflexivity|].
  eapply (handler_roundtrip Lock.demo_vault "lock:9094" (Ok tt) demo_crypto demo_rotated demo_request
            demo_nonce).
  - apply demo_vault_ok.
  - reflexivity.
  - vm_compute. reflexivity.
  - apply rtc_once, demo_rotates.
  - vm_compute. reflexivity.
Defined.

Lemma vault_refusal_is_not_found_witness :
  (Encrypt demo_crypto (Some (Lock.Seal Lock.demo_vault).1) demo_request demo_nonce).2 =
    Err (statusError NotFound "key not found").
Proof.
  apply (vault_refusal_is_not_found demo_crypto (Some (Lock.Seal Lock.demo_vault).1) demo_request demo_nonce);
    [apply demo_crypto_ok|reflexivity|discriminate|discriminate|reflexivity|].
  right. eexists _, _. split; [reflexivity|]. vm_compute. reflexivity.
Defined.
End CryptoHandler.
