(* ===== verification/CircuitBreaker.v ===== *)
(** * services/gateway/internal/middleware/circuitbreaker.go

    [CircuitBreaker] is the Go struct without its mutex and its name, which only
    identifies it in the manager's map. The counters are [uint32], the ratio a
    [float64]. [beforeRequest] and [afterRequest] each hold the mutex, so they are the
    atomic steps of a concurrent run; the call they surround is not. An operation that
    reads the clock more than once takes the successive readings as [clk]. *)

From S2P Require Import Prelude GoStd.
Local Open Scope Z_scope.

Module CircuitBreaker.

Definition ErrCircuitOpen : error := sentinel "middleware" "ErrCircuitOpen" "circuit breaker is open".

Inductive State := StateClosed | StateHalfOpen | StateOpen.

#[export] Instance State_eq_dec : EqDecision State.
Proof. solve_decision. Defined.

Definition State_String (s : State) : string :=
  match s with StateClosed => "closed" | StateHalfOpen => "half-open" | StateOpen => "open" end.

Record Counts := {
  Requests : Z;
  TotalSuccesses : Z;
  TotalFailures : Z;
  ConsecutiveSuccesses : Z;
  ConsecutiveFailures : Z
}.

(** [Counts{}] *)
Definition no_counts : Counts :=
  {| Requests := 0; TotalSuccesses := 0; TotalFailures := 0; ConsecutiveSuccesses := 0;
     ConsecutiveFailures := 0 |}.

Record CircuitBreaker := {
  maxRequests : Z;
  interval : Z;
  timeout : Z;
  failureRatio : Float64.float64;
  state : State;
  counts : Counts;
  expiry : time;
  lastFailure : time
}.

Definition NewCircuitBreaker (maxRequests interval timeout : Z) (failureRatio : Float64.float64)
    : CircuitBreaker :=
  {| maxRequests := maxRequests; interval := interval; timeout := timeout;
     failureRatio := failureRatio; state := StateClosed; counts := no_counts; expiry := zeroTime;
     lastFailure := zeroTime |}.

Definition with_counts (c : Counts) (cb : CircuitBreaker) : CircuitBreaker :=
  {| maxRequests := maxRequests cb; interval := interval cb; timeout := timeout cb;
     failureRatio := failureRatio cb; state := state cb; counts := c; expiry := expiry cb;
     lastFailure := lastFailure cb |}.
Definition with_expiry (t : time) (cb : CircuitBreaker) : CircuitBreaker :=
  {| maxRequests := maxRequests cb; interval := interval cb; timeout := timeout cb;
     failureRatio := failureRatio cb; state := state cb; counts := counts cb; expiry := t;
     lastFailure := lastFailure cb |}.
Definition with_state (s : State) (cb : CircuitBreaker) : CircuitBreaker :=
  {| maxRequests := maxRequests cb; interval := interval cb; timeout := timeout cb;
     failureRatio := failureRatio cb; state := s; counts := counts cb; expiry := expiry cb;
     lastFailure := lastFailure cb |}.
Definition with_lastFailure (t : time) (cb : CircuitBreaker) : CircuitBreaker :=
  {| maxRequests := maxRequests cb; interval := interval cb; timeout := timeout cb;
     failureRatio := failureRatio cb; state := state cb; counts := counts cb; expiry := expiry cb;
     lastFailure := t |}.

(** [cb.state == state] *)
Definition State_eqb (a b : State) : bool :=
  match a, b with
  | StateClosed, StateClosed | StateHalfOpen, StateHalfOpen | StateOpen, StateOpen => true
  | _, _ => false
  end.

(** [now] is the reading of the clock in the branches that read it. *)
Definition setState (s : State) (now : time) (cb : CircuitBreaker) : CircuitBreaker :=
  if State_eqb (state cb) s then cb
  else
    let cb := with_state s cb in
    match s with
    | StateClosed => with_counts no_counts (with_expiry (now + interval cb) cb)
    | StateOpen => with_expiry (now + timeout cb) cb
    | StateHalfOpen => with_counts no_counts cb
    end.

Definition reset (now : time) (cb : CircuitBreaker) : CircuitBreaker :=
  with_expiry (now + interval cb) (with_counts no_counts cb).

(** [cb.counts.Requests++] *)
Definition count_request (cb : CircuitBreaker) : CircuitBreaker :=
  let c := counts cb in
  with_counts {| Requests := uint32 (Requests c + 1); TotalSuccesses := TotalSuccesses c;
                 TotalFailures := TotalFailures c; ConsecutiveSuccesses := ConsecutiveSuccesses c;
                 ConsecutiveFailures := ConsecutiveFailures c |} cb.

Definition beforeRequest (cb : CircuitBreaker) (clk : nat → time) : CircuitBreaker * option error :=
  let now := clk 0%nat in
  match state cb with
  | StateClosed =>
      let cb := if negb (IsZero (expiry cb)) && (expiry cb <? now) then reset (clk 1%nat) cb else cb in
      (count_request cb, None)
  | StateOpen =>
      if expiry cb <? now then (count_request (setState StateHalfOpen (clk 1%nat) cb), None)
      else (cb, Some ErrCircuitOpen)
  | StateHalfOpen =>
      if maxRequests cb <=? Requests (counts cb) then (cb, Some ErrCircuitOpen)
      else (count_request cb, None)
  end.

Definition shouldTrip (cb : CircuitBreaker) : bool :=
  if Requests (counts cb) <? maxRequests cb then false
  else
    let ratio := Float64.div (Float64.of_int (TotalFailures (counts cb)))
                             (Float64.of_int (Requests (counts cb))) in
    Float64.geb ratio (failureRatio cb).

Definition onSuccess (cb : CircuitBreaker) (now : time) : CircuitBreaker :=
  let c := counts cb in
  let cb := with_counts {| Requests := Requests c; TotalSuccesses := uint32 (TotalSuccesses c + 1);
                           TotalFailures := TotalFailures c;
                           ConsecutiveSuccesses := uint32 (ConsecutiveSuccesses c + 1);
                           ConsecutiveFailures := 0 |} cb in
  match state cb with
  | StateHalfOpen =>
      if maxRequests cb <=? ConsecutiveSuccesses (counts cb) then setState StateClosed now cb else cb
  | _ => cb
  end.

Definition onFailure (cb : CircuitBreaker) (clk : nat → time) : CircuitBreaker :=
  let c := counts cb in
  let cb := with_lastFailure (clk 0%nat)
              (with_counts {| Requests := Requests c; TotalSuccesses := TotalSuccesses c;
                              TotalFailures := uint32 (TotalFailures c + 1);
                              ConsecutiveSuccesses := 0;
                              ConsecutiveFailures := uint32 (ConsecutiveFailures c + 1) |} cb) in
  match state cb with
  | StateClosed => if shouldTrip cb then setState StateOpen (clk 1%nat) cb else cb
  | StateHalfOpen => setState StateOpen (clk 1%nat) cb
  | StateOpen => cb
  end.

Definition afterRequest (cb : CircuitBreaker) (err : option error) (clk : nat → time) : CircuitBreaker :=
  match err with
  | None => onSuccess cb (clk 0%nat)
  | Some _ => onFailure cb clk
  end.

(** [Execute] on its own: [fn] is what the protected call does. A panic of it passes
    through, and [afterRequest] does not run. *)
Definition Execute (cb : CircuitBreaker) (clk : nat → time) (fn : outcome (option error))
    (clk' : nat → time) : CircuitBreaker * outcome (option error) :=
  match beforeRequest cb clk with
  | (cb, Some err) => (cb, Ret (Some err))
  | (cb, None) =>
      match fn with
      | Ret err => (afterRequest cb err clk', Ret err)
      | Panic msg => (cb, Panic msg)
      end
  end.

(** ** The manager *)

Record CircuitBreakerConfig := {
  cfgMaxRequests : Z;
  cfgInterval : Z;
  cfgTimeout : Z;
  cfgFailureRatio : Float64.float64
}.

Record CircuitBreakerManager := { breakers : gmap string CircuitBreaker; config : CircuitBreakerConfig }.

Definition NewCircuitBreakerManager (cfg : CircuitBreakerConfig) : CircuitBreakerManager :=
  {| breakers := ∅; config := cfg |}.

Definition set_breaker (name : string) (cb : CircuitBreaker) (m : CircuitBreakerManager)
    : CircuitBreakerManager :=
  {| breakers := <[name := cb]> (breakers m); config := config m |}.

(** [Load], or [LoadOrStore] of a new breaker. *)
Definition GetBreaker (m : CircuitBreakerManager) (name : string) : CircuitBreakerManager * CircuitBreaker :=
  match breakers m !! name with
  | Some cb => (m, cb)
  | None =>
      let cb := NewCircuitBreaker (cfgMaxRequests (config m)) (cfgInterval (config m))
                  (cfgTimeout (config m)) (cfgFailureRatio (config m)) in
      (set_breaker name cb m, cb)
  end.

(** One intercepted call to [target]. *)
Definition UnaryClientInterceptor (m : CircuitBreakerManager) (target : string) (clk : nat → time)
    (invoker : outcome (option error)) (clk' : nat → time)
    : CircuitBreakerManager * outcome (option error) :=
  let (m, cb) := GetBreaker m target in
  let (cb', res) := Execute cb clk invoker clk' in
  (set_breaker target cb' m,
   match res with
   | Ret (Some err) =>
       if errors_Is err ErrCircuitOpen
       then Ret (Some (statusError Unavailable "service temporarily unavailable")) else Ret (Some err)
   | _ => res
   end).

(** ** Concurrent runs

    [stale] and [probes] count the calls in flight: those admitted since the breaker
    last became half-open are its probes. *)
Record sys := { cb : CircuitBreaker; stale : nat; probes : nat }.

Inductive step : sys → sys → Prop :=
  | step_admit y clk cb' :
      beforeRequest (cb y) clk = (cb', None) →
      step y match state (cb y) with
             | StateClosed => {| cb := cb'; stale := S (stale y); probes := probes y |}
             | StateHalfOpen => {| cb := cb'; stale := stale y; probes := S (probes y) |}
             | StateOpen => {| cb := cb'; stale := stale y + probes y; probes := 1 |}
             end
  | step_reject y clk cb' err :
      beforeRequest (cb y) clk = (cb', Some err) →
      step y {| cb := cb'; stale := stale y; probes := probes y |}
  | step_probe y err clk n :
      probes y = S n →
      step y {| cb := afterRequest (cb y) err clk; stale := stale y; probes := n |}
  | step_stale y err clk n :
      stale y = S n →
      step y {| cb := afterRequest (cb y) err clk; stale := n; probes := probes y |}.

Definition start (maxRequests interval timeout : Z) (ratio : Float64.float64) : sys :=
  {| cb := NewCircuitBreaker maxRequests interval timeout ratio; stale := 0; probes := 0 |}.

(** Calls one after the other, each with its two series of clock readings. *)
Definition execute_all (fn : outcome (option error)) (l : list ((nat → time) * (nat → time)))
    (cb : CircuitBreaker) : CircuitBreaker :=
  List.fold_left (λ cb clks, (Execute cb clks.1 fn clks.2).1) l cb.

(** ** Lemmas *)

Lemma uint32_small x : 0 ≤ x < 2 ^ 32 → uint32 x = x.
Proof. apply wrapu_small. Qed.

Lemma uint32_add_l x y : uint32 (uint32 x + y) = uint32 (x + y).
Proof. unfold wrapu. by rewrite Zplus_mod_idemp_l. Qed.

Lemma before_max b clk : maxRequests (beforeRequest b clk).1 = maxRequests b.
Proof.
  unfold beforeRequest. destruct (state b) eqn:Hs.
  - by destruct (_ && _).
  - by destruct (_ <=? _).
  - destruct (_ <? _); [|done]. unfold setState. by rewrite Hs.
Qed.

Lemma after_max b err clk : maxRequests (afterRequest b err clk) = maxRequests b.
Proof.
  destruct err; cbn; unfold onFailure, onSuccess, setState; cbn; destruct (state b) eqn:Hs; try done;
    rewrite ?Hs; cbn; repeat case_match; done.
Qed.

(** The invariant of the half-open state: the probes that did not answer yet make up
    for the successes that are missing. *)
Record inv (m : Z) (y : sys) : Prop := {
  inv_max : maxRequests (cb y) = m;
  inv_half : state (cb y) = StateHalfOpen →
    let c := counts (cb y) in
    1 ≤ Requests c ≤ Z.max 1 m ∧ 0 ≤ ConsecutiveSuccesses c < Z.max 1 m ∧
    Requests c ≤ ConsecutiveSuccesses c + Z.of_nat (probes y)
}.

Lemma admit_inv m y clk cb' :
  0 ≤ m < 2 ^ 32 → inv m y → beforeRequest (cb y) clk = (cb', None) →
  inv m match state (cb y) with
        | StateClosed => {| cb := cb'; stale := S (stale y); probes := probes y |}
        | StateHalfOpen => {| cb := cb'; stale := stale y; probes := S (probes y) |}
        | StateOpen => {| cb := cb'; stale := stale y + probes y; probes := 1 |}
        end.
Proof.
  intros Hm [Hmax Hhalf] H. pose proof (before_max (cb y) clk) as Hm'. rewrite H in Hm'. cbn in Hm'.
  unfold beforeRequest in H. destruct (state (cb y)) eqn:Hs.
  - injection H as <-. split; [cbn in *; congruence|]. cbn.
    destruct (_ && _); cbn; intros Hc; congruence.
  - destruct (Z.leb_spec (maxRequests (cb y)) (Requests (counts (cb y)))) as [|Hlt]; [done|].
    injection H as <-. split; [cbn in *; congruence|]. intros _. specialize (Hhalf eq_refl). cbn -[Z.pow] in *.
    rewrite uint32_small by lia. lia.
  - destruct (_ <? _); [|done]. injection H as <-. split; [cbn in *; congruence|]. intros _.
    unfold setState. rewrite Hs. cbn -[Z.max wrapu].
    change (uint32 (0 + 1)) with 1. lia.
Qed.

(** Completing a call: [p] and [p'] are the probes in flight before and after. *)
Lemma after_half m b err clk p p' :
  0 ≤ m < 2 ^ 32 → maxRequests b = m → (p ≤ S p')%nat →
  (state b = StateHalfOpen →
    1 ≤ Requests (counts b) ≤ Z.max 1 m ∧ 0 ≤ ConsecutiveSuccesses (counts b) < Z.max 1 m ∧
    Requests (counts b) ≤ ConsecutiveSuccesses (counts b) + Z.of_nat p) →
  state (afterRequest b err clk) = StateHalfOpen →
  let c := counts (afterRequest b err clk) in
  1 ≤ Requests c ≤ Z.max 1 m ∧ 0 ≤ ConsecutiveSuccesses c < Z.max 1 m ∧
  Requests c ≤ ConsecutiveSuccesses c + Z.of_nat p'.
Proof.
  intros Hm Hmax Hp Hhalf. destruct err as [e|]; cbn -[Z.pow]; unfold onFailure, onSuccess; cbn -[Z.pow].
  - destruct (state b) eqn:Hs; unfold setState; cbn -[Z.pow]; rewrite ?Hs; cbn -[Z.pow].
    + destruct (shouldTrip _); cbn -[Z.pow]; intros ?; congruence.
    + done.
    + intros ?; congruence.
  - destruct (state b) eqn:Hs; cbn -[Z.pow]; [intros ?; congruence| |intros ?; congruence]. specialize (Hhalf eq_refl).
    rewrite uint32_small by lia.
    destruct (Z.leb_spec (maxRequests b) (ConsecutiveSuccesses (counts b) + 1)) as [Hle|Hlt].
    + unfold setState. cbn -[Z.pow]. rewrite Hs. cbn. done.
    + cbn -[Z.pow]. intros _. lia.
Qed.

Lemma breaker_step_inv m y y' : 0 ≤ m < 2 ^ 32 → inv m y → step y y' → inv m y'.
Proof.
  intros Hm I H. destruct H as [y clk cb' H|y clk cb' err H|y err clk n Hn|y err clk n Hn].
  - by eapply admit_inv.
  - destruct I as [Hmax Hhalf]. assert (cb' = cb y) as ->; [|done].
    unfold beforeRequest in H. destruct (state (cb y)); [done| |].
    + destruct (_ <=? _); congruence.
    + destruct (_ <? _); congruence.
  - destruct I as [Hmax Hhalf]. split; cbn; [by rewrite after_max|].
    intros Hs. apply (after_half m (cb y) err clk (probes y) n); try done. lia.
  - destruct I as [Hmax Hhalf]. split; cbn; [by rewrite after_max|].
    intros Hs. apply (after_half m (cb y) err clk (probes y) (probes y)); try done. lia.
Qed.

Lemma rtc_breaker_inv m y y' : 0 ≤ m < 2 ^ 32 → rtc step y y' → inv m y → inv m y'.
Proof. intros Hm H. induction H; eauto using breaker_step_inv. Qed.

Lemma start_inv m i t r : inv m (start m i t r).
Proof. by split. Qed.

(** A call by a half-open breaker with room for it. *)
Lemma Execute_half b clk fn clk' :
  state b = StateHalfOpen → Requests (counts b) < maxRequests b →
  Execute b clk fn clk' =
    match fn with
    | Ret err => (afterRequest (count_request b) err clk', Ret err)
    | Panic msg => (count_request b, Panic msg)
    end.
Proof.
  intros Hs Hr. unfold Execute, beforeRequest. rewrite Hs.
  by rewrite (proj2 (Z.leb_gt _ _)) by done.
Qed.

(** The first call after the time of an open breaker is over. *)
Lemma Execute_open b clk fn clk' :
  state b = StateOpen → expiry b < clk 0%nat →
  Execute b clk fn clk' =
    let b1 := count_request (with_counts no_counts (with_state StateHalfOpen b)) in
    match fn with
    | Ret err => (afterRequest b1 err clk', Ret err)
    | Panic msg => (b1, Panic msg)
    end.
Proof.
  intros Hs He. unfold Execute, beforeRequest. rewrite Hs.
  rewrite (proj2 (Z.ltb_lt _ _)) by done. unfold setState. by rewrite Hs.
Qed.

(** Successful calls on a half-open breaker, all of whose probes succeeded so far. *)
Lemma execute_success l b k :
  state b = StateHalfOpen → Requests (counts b) = k → ConsecutiveSuccesses (counts b) = k →
  1 ≤ k < maxRequests b → maxRequests b < 2 ^ 32 → zlen l = maxRequests b - k →
  state (execute_all (Ret None) l b) = StateClosed ∧ counts (execute_all (Ret None) l b) = no_counts.
Proof.
  revert b k. induction l as [|[clk clk'] l IH]; intros b k Hs Hr Hc Hk Hm Hl;
    unfold zlen in Hl; cbn [length] in Hl; [lia|].
  cbn [execute_all List.fold_left fst snd]. rewrite Execute_half by (done || lia). cbn [fst].
  change (List.fold_left _ l ?x) with (execute_all (Ret None) l x).
  unfold afterRequest, onSuccess. cbn -[Z.pow execute_all]. rewrite Hs, Hr, Hc.
  rewrite !uint32_small by lia. destruct (Z.leb_spec (maxRequests b) (k + 1)) as [Hle|Hlt].
  - assert (l = []) as -> by (destruct l; [done|cbn in Hl; lia]).
    unfold setState. cbn. by rewrite Hs.
  - apply (IH _ (k + 1)); cbn -[Z.pow]; try done; [lia|]. unfold zlen. lia.
Qed.

(** Panicking calls on a half-open breaker fill its quota. *)
Lemma execute_panic msg l b k :
  state b = StateHalfOpen → Requests (counts b) = k → 1 ≤ k ≤ maxRequests b → maxRequests b < 2 ^ 32 →
  zlen l = maxRequests b - k →
  let b' := execute_all (Panic msg) l b in
  state b' = StateHalfOpen ∧ Requests (counts b') = maxRequests b ∧ maxRequests b' = maxRequests b.
Proof.
  revert b k. induction l as [|[clk clk'] l IH]; intros b k Hs Hr Hk Hm Hl;
    unfold zlen in Hl; cbn [length] in Hl.
  { cbn. split_and!; [done|lia|done]. }
  cbn [execute_all List.fold_left fst snd]. rewrite Execute_half by (done || lia). cbn [fst].
  change (List.fold_left _ l ?x) with (execute_all (Panic msg) l x).
  apply (IH (count_request b) (k + 1)); cbn -[Z.pow]; try done.
  - rewrite Hr. apply uint32_small. lia.
  - lia.
  - unfold zlen. lia.
Qed.

(** A breaker that never left the closed state: no deadline, and every request is
    accounted for. *)
Definition never_tripped (y : sys) : Prop :=
  state (cb y) = StateClosed ∧ expiry (cb y) = zeroTime ∧ probes y = 0%nat ∧
  Requests (counts (cb y)) =
    uint32 (TotalSuccesses (counts (cb y)) + TotalFailures (counts (cb y)) + Z.of_nat (stale y)).

Lemma uint32_move a b n : uint32 (uint32 (a + 1) + b + Z.of_nat n) = uint32 (a + b + Z.of_nat (S n)).
Proof.
  rewrite <- Z.add_assoc, uint32_add_l. f_equal. lia.
Qed.

Lemma never_tripped_step y y' :
  never_tripped y → step y y' → state (cb y') = StateClosed → never_tripped y'.
Proof.
  intros (Hs & He & Hp & Hr) H. destruct H as [y clk cb' H|y clk cb' err H|y err clk n Hn|y err clk n Hn].
  - unfold beforeRequest in H. rewrite Hs, He in H. cbn in H. injection H as <-. rewrite Hs.
    intros _. unfold never_tripped. cbn -[wrapu Z.of_nat]. rewrite Hr, uint32_add_l.
    split_and!; [done..|]. f_equal. lia.
  - unfold beforeRequest in H. by rewrite Hs in H.
  - congruence.
  - rewrite Hn in Hr. unfold never_tripped.
    destruct err as [e|]; cbn -[wrapu Z.of_nat]; unfold onFailure, onSuccess, setState;
      cbn -[wrapu Z.of_nat shouldTrip]; rewrite Hs; cbn -[wrapu Z.of_nat shouldTrip].
    + destruct (shouldTrip _); cbn -[wrapu Z.of_nat]; [done|]. intros _. split_and!; [done..|].
      rewrite Hr. rewrite (Z.add_comm (TotalSuccesses _)), (Z.add_comm _ (uint32 _)). by rewrite uint32_move.
    + intros _. split_and!; [done..|]. by rewrite Hr, uint32_move.
Qed.

(** ** Properties *)

(** C9. A half-open breaker is never stuck: in every state reached from a new breaker by
    any interleaving of requests and completions (no call panics), a half-open breaker
    has let in at most [max(1, maxRequests)] requests since it became half-open, and
    when it rejects a request, one of these is still in flight; its completion can
    therefore still close or open the breaker. *)
Theorem half_open_never_stuck m i t r y clk cb' err :
  0 ≤ m < 2 ^ 32 → rtc step (start m i t r) y → state (cb y) = StateHalfOpen →
  1 ≤ Requests (counts (cb y)) ≤ Z.max 1 m ∧
  (beforeRequest (cb y) clk = (cb', Some err) → (0 < probes y)%nat ∧ err = ErrCircuitOpen ∧ cb' = cb y).
Proof.
  intros Hm Hr Hs. pose proof (rtc_breaker_inv m _ _ Hm Hr (start_inv m i t r)) as [Hmax Hhalf].
  specialize (Hhalf Hs). cbn in Hhalf. split; [lia|]. unfold beforeRequest. rewrite Hs.
  destruct (Z.leb_spec (maxRequests (cb y)) (Requests (counts (cb y)))) as [Hle|]; [|done].
  intros [= <- <-]. split_and!; [|done|done]. lia.
Qed.

(** Tripping: a failure that opens a breaker at time [t] makes it reject every
    request up to and including [t + timeout] without changing, and the first request
    after that is let in as the only probe of a half-open breaker with fresh counts. *)
Theorem open_until_timeout b e clk clk' :
  state b ≠ StateOpen → let b' := afterRequest b (Some e) clk in state b' = StateOpen →
  (clk' 0%nat ≤ clk 1%nat + timeout b → beforeRequest b' clk' = (b', Some ErrCircuitOpen)) ∧
  (clk 1%nat + timeout b < clk' 0%nat →
    ∃ b'', beforeRequest b' clk' = (b'', None) ∧ state b'' = StateHalfOpen ∧
      Requests (counts b'') = 1 ∧ ConsecutiveSuccesses (counts b'') = 0).
Proof.
  intros Hs b' Hb'. assert (expiry b' = clk 1%nat + timeout b) as He.
  { subst b'. cbn in Hb' |- *. unfold onFailure, setState in *. cbn in *.
    destruct (state b) eqn:E; cbn in *; rewrite ?E in *; cbn in *; [|done|done].
    destruct (shouldTrip _); cbn in *; [done|congruence]. }
  clearbody b'. unfold beforeRequest. rewrite Hb', He. split; intros Ht.
  - by rewrite (proj2 (Z.ltb_ge _ _)).
  - rewrite (proj2 (Z.ltb_lt _ _)) by done. eexists. split; [done|].
    unfold setState. by rewrite Hb'.
Qed.

(** C35. The state changes of a breaker are the four of the pattern, each for its
    reason: closed to open on a failure once at least [maxRequests] requests are counted
    and the failure ratio is reached; open to half-open on the first request after the
    deadline; half-open to closed on the success that makes [maxRequests] in a row;
    half-open to open on a failure. *)
Theorem breaker_transitions b err clk :
  (state (beforeRequest b clk).1 ≠ state b →
     state b = StateOpen ∧ state (beforeRequest b clk).1 = StateHalfOpen ∧ expiry b < clk 0%nat) ∧
  (state (afterRequest b err clk) ≠ state b →
     (state b = StateClosed ∧ state (afterRequest b err clk) = StateOpen ∧ err ≠ None ∧
      maxRequests b ≤ Requests (counts b) ∧
      Float64.geb (Float64.div (Float64.of_int (uint32 (TotalFailures (counts b) + 1)))
                               (Float64.of_int (Requests (counts b)))) (failureRatio b) = true) ∨
     (state b = StateHalfOpen ∧ state (afterRequest b err clk) = StateClosed ∧ err = None ∧
      maxRequests b ≤ uint32 (ConsecutiveSuccesses (counts b) + 1)) ∨
     (state b = StateHalfOpen ∧ state (afterRequest b err clk) = StateOpen ∧ err ≠ None)).
Proof.
  split.
  - unfold beforeRequest. destruct (state b) eqn:Hs.
    + destruct (_ && _); cbn; congruence.
    + destruct (_ <=? _); cbn; congruence.
    + destruct (Z.ltb_spec (expiry b) (clk 0%nat)); cbn; [|congruence].
      unfold setState. rewrite Hs. cbn. done.
  - destruct err as [e|]; cbn -[Z.pow wrapu]; unfold onFailure, onSuccess, setState; cbn -[Z.pow wrapu].
    + destruct (state b) eqn:Hs; cbn -[Z.pow wrapu]; rewrite ?Hs; cbn -[Z.pow wrapu].
      * destruct (shouldTrip _) eqn:Ht; cbn; [|congruence]. intros _. left.
        unfold shouldTrip in Ht. cbn -[Z.pow wrapu] in Ht.
        destruct (Z.ltb_spec (Requests (counts b)) (maxRequests b)); [done|]. done.
      * intros _. right; right. done.
      * congruence.
    + destruct (state b) eqn:Hs; cbn -[Z.pow wrapu]; [congruence| |congruence].
      destruct (Z.leb_spec (maxRequests b) (uint32 (ConsecutiveSuccesses (counts b) + 1))); cbn; [|congruence].
      intros _. right; left. done.
Qed.

(** Recovery: once the time of an open breaker is over, [maxRequests] successful
    calls in a row (one if that is 0) close it, with all counters at zero. *)
Theorem breaker_recovers b clks l :
  state b = StateOpen → 0 ≤ maxRequests b < 2 ^ 32 → expiry b < clks.1 0%nat →
  zlen (clks :: l) = Z.max 1 (maxRequests b) →
  state (execute_all (Ret None) (clks :: l) b) = StateClosed ∧
  counts (execute_all (Ret None) (clks :: l) b) = no_counts.
Proof.
  intros Hs Hm He Hl. unfold zlen in Hl. cbn [length] in Hl. destruct clks as [clk clk'].
  cbn [execute_all List.fold_left fst snd] in *. rewrite Execute_open by done. cbn [fst].
  change (List.fold_left _ l ?x) with (execute_all (Ret None) l x).
  unfold afterRequest, onSuccess. cbn -[Z.pow execute_all].
  change (uint32 (0 + 1)) with 1. destruct (Z.leb_spec (maxRequests b) 1) as [Hle|Hlt].
  - assert (l = []) as -> by (destruct l; [done|cbn in Hl; lia]). done.
  - apply (execute_success l _ 1); cbn -[Z.pow]; try done.
    + lia.
    + unfold zlen. lia.
Qed.

(** A panicking call is never accounted for: when the first [maxRequests] calls after
    the time of an open breaker is over panic, the breaker stays half-open with its quota
    used up, and rejects every later request, at any time, with no call left in flight
    that could change it. *)
Theorem panics_wedge_breaker b clks l msg clk :
  state b = StateOpen → 1 ≤ maxRequests b < 2 ^ 32 → expiry b < clks.1 0%nat →
  zlen (clks :: l) = maxRequests b →
  let b' := execute_all (Panic msg) (clks :: l) b in
  state b' = StateHalfOpen ∧ beforeRequest b' clk = (b', Some ErrCircuitOpen).
Proof.
  intros Hs Hm He Hl. unfold zlen in Hl. cbn [length] in Hl. destruct clks as [clk1 clk2].
  cbn [execute_all List.fold_left fst snd] in *. rewrite Execute_open by done. cbn [fst].
  change (List.fold_left _ l ?x) with (execute_all (Panic msg) l x).
  set (b1 := count_request (with_counts no_counts (with_state StateHalfOpen b))).
  destruct (execute_panic msg l b1 1) as (H1 & H2 & H3);
    [done|done|change (maxRequests b1) with (maxRequests b); lia
    |change (maxRequests b1) with (maxRequests b); lia
    |change (maxRequests b1) with (maxRequests b); unfold zlen; lia|].
  split; [done|]. unfold beforeRequest. rewrite H1, H2, H3. by rewrite Z.leb_refl.
Qed.

(** A breaker that has not tripped yet ignores its interval: however much time
    passes, its deadline stays unset and its counters are never reset, every request it
    ever admitted being counted (modulo 2^32) as a success, a failure or a call in
    flight. *)
Theorem interval_ignored_before_trip m i t r y :
  rtc (λ y y', step y y' ∧ state (cb y') = StateClosed) (start m i t r) y →
  expiry (cb y) = zeroTime ∧ probes y = 0%nat ∧
  Requests (counts (cb y)) =
    uint32 (TotalSuccesses (counts (cb y)) + TotalFailures (counts (cb y)) + Z.of_nat (stale y)).
Proof.
  intros H. assert (never_tripped y) as (_ & ? & ? & ?); [|done].
  assert (never_tripped (start m i t r)) as H0 by done. revert H0.
  induction H as [|y0 y1 y2 [H Hs] _ IH]; [done|]. intros H0. apply IH. by eapply never_tripped_step.
Qed.

(** ** Examples: five requests, ratio one half, as the gateway is configured *)

Definition half : Float64.float64 := Float64.div (Float64.of_int 1) (Float64.of_int 2).
Definition at_time (t : time) : nat → time := λ _, t.
Definition boom : error := errorString "boom".
Definition demo : CircuitBreaker := NewCircuitBreaker 5 10 60 half.

(** Five failures in a row trip it at time 1. *)
Definition tripped : CircuitBreaker :=
  execute_all (Ret (Some boom)) (replicate 5 (at_time 1, at_time 1)) demo.

(** A call of a run that is not interleaved. *)
Lemma Execute_closed_run y clk err clk' :
  state (cb y) = StateClosed →
  rtc step y {| cb := (Execute (cb y) clk (Ret err) clk').1; stale := stale y; probes := probes y |}.
Proof.
  intros Hs. unfold Execute. destruct (beforeRequest (cb y) clk) as [b [e|]] eqn:Hb.
  { unfold beforeRequest in Hb. by rewrite Hs in Hb. }
  cbn. eapply rtc_l; [by eapply step_admit|]. rewrite Hs. apply rtc_once.
  by apply (step_stale {| cb := b; stale := S (stale y); probes := probes y |} err clk' (stale y)).
Qed.

Definition demo_half_open : sys :=
  {| cb := (beforeRequest tripped (at_time 62)).1; stale := 0; probes := 1 |}.

Lemma demo_tripped_run : rtc step (start 5 10 60 half) {| cb := tripped; stale := 0; probes := 0 |}.
Proof.
  do 5 (etrans; [apply (Execute_closed_run _ (at_time 1) (Some boom) (at_time 1)); vm_compute; reflexivity|]).
  vm_compute. constructor.
Qed.

Lemma demo_half_open_run : rtc step (start 5 10 60 half) demo_half_open.
Proof.
  eapply rtc_r; [apply demo_tripped_run|].
  apply (step_admit {| cb := tripped; stale := 0; probes := 0 |} (at_time 62)). vm_compute. reflexivity.
Qed.

Lemma half_open_never_stuck_witness : 1 ≤ Requests (counts (cb demo_half_open)) ≤ Z.max 1 5.
Proof.
  apply (half_open_never_stuck 5 10 60 half demo_half_open (at_time 63) demo boom);
    [lia|apply demo_half_open_run|vm_compute; reflexivity].
Defined.

Lemma open_until_timeout_witness :
  let b := execute_all (Ret (Some boom)) (replicate 4 (at_time 1, at_time 1)) demo in
  let b' := afterRequest (count_request b) (Some boom) (at_time 1) in
  beforeRequest b' (at_time 61) = (b', Some ErrCircuitOpen).
Proof.
  intros b b'. apply (open_until_timeout (count_request b) boom (at_time 1) (at_time 61));
    [vm_compute; discriminate|vm_compute; reflexivity|vm_compute; discriminate].
Defined.

Lemma breaker_transitions_witness :
  state tripped = StateOpen ∧ state (beforeRequest tripped (at_time 62)).1 = StateHalfOpen ∧
  expiry tripped < 62.
Proof.
  apply (proj1 (breaker_transitions tripped None (at_time 62))). vm_compute. discriminate.
Defined.

Lemma breaker_recovers_witness :
  state (execute_all (Ret None) (replicate 5 (at_time 62, at_time 62)) tripped) = StateClosed.
Proof.
  apply (breaker_recovers tripped (at_time 62, at_time 62) (replicate 4 (at_time 62, at_time 62)));
    [vm_compute; reflexivity|vm_compute; split; [discriminate|reflexivity]|vm_compute; reflexivity..].
Defined.

Lemma panics_wedge_breaker_witness :
  let b' := execute_all (Panic "nil") (replicate 5 (at_time 62, at_time 62)) tripped in
  beforeRequest b' (at_time 1000000) = (b', Some ErrCircuitOpen).
Proof.
  apply (panics_wedge_breaker tripped (at_time 62, at_time 62) (replicate 4 (at_time 62, at_time 62))
           "nil" (at_time 1000000));
    [vm_compute; reflexivity|vm_compute; split; [discriminate|reflexivity]|vm_compute; reflexivity..].
Defined.

(** A failure at time 1 and, a thousand intervals later, a request: both are counted. *)
Lemma interval_ignored_before_trip_witness :
  let b := (Execute demo (at_time 1) (Ret (Some boom)) (at_time 1)).1 in
  Requests (counts (beforeRequest b (at_time 10001)).1) = 2.
Proof.
  intros b.
  destruct (interval_ignored_before_trip 5 10 60 half
    {| cb := (beforeRequest b (at_time 10001)).1; stale := 1; probes := 0 |}) as (_ & _ & H);
    [|etransitivity; [exact H|reflexivity]].
  eapply rtc_l; [split; [apply (step_admit _ (at_time 1)); reflexivity|reflexivity]|].
  eapply rtc_l; [split; [apply (step_stale _ (Some boom) (at_time 1) 0); reflexivity|reflexivity]|].
  eapply rtc_once. split; [|reflexivity].
  apply (step_admit {| cb := b; stale := 0; probes := 0 |} (at_time 10001)). reflexivity.
Defined.
End CircuitBreaker.
