(* ===== verification/Policy.v ===== *)
(** * pkg/auth/policy: access control

    A [Capability] is a string. [Evaluator] is the map of policies; every operation
    holds its lock. [Evaluate] is the two nested loops of the source: [rule_verdict] is
    one round of the inner one, [None] when it goes on to the next rule. *)

From S2P Require Import Prelude GoStd.
Local Open Scope Z_scope.

Module Policy.

Abbreviation Capability := string (only parsing).
Definition CapabilityCreate : Capability := "create".
Definition CapabilityRead : Capability := "read".
Definition CapabilityUpdate : Capability := "update".
Definition CapabilityDelete : Capability := "delete".
Definition CapabilityList : Capability := "list".
Definition CapabilitySudo : Capability := "sudo".
Definition CapabilityDeny : Capability := "deny".

Definition ErrDenied : error := sentinel "policy" "ErrDenied" "permission denied".
Definition ErrPolicyNotFound : error := sentinel "policy" "ErrPolicyNotFound" "policy not found".

Record Rule := {
  Path : string;
  Capabilities : list Capability;
  Conditions : gmap string string
}.

Record Policy := { Name : string; Rules : list Rule; Description : string }.

Record Evaluator := { policies : gmap string Policy }.

Definition AddPolicy (e : Evaluator) (p : Policy) : Evaluator :=
  {| policies := <[Name p := p]> (policies e) |}.

Definition simple_rule (path : string) (c : Capability) : Rule :=
  {| Path := path; Capabilities := [c]; Conditions := ∅ |}.

Definition default_policy : Policy :=
  {| Name := "default"; Description := "Default policy with basic access";
     Rules := [simple_rule "auth/token/lookup-self" CapabilityRead;
               simple_rule "auth/token/renew-self" CapabilityUpdate;
               simple_rule "auth/token/revoke-self" CapabilityUpdate] |}.

Definition NewEvaluator : Evaluator := AddPolicy {| policies := ∅ |} default_policy.

Definition GetPolicy (e : Evaluator) (name : string) : result Policy :=
  match policies e !! name with Some p => Ok p | None => Err ErrPolicyNotFound end.

Definition RemovePolicy (e : Evaluator) (name : string) : Evaluator * option error :=
  match policies e !! name with
  | None => (e, Some ErrPolicyNotFound)
  | Some _ => ({| policies := delete name (policies e) |}, None)
  end.

(** In the order Go's map iteration happens to choose. *)
Definition ListPolicies (e : Evaluator) : list string := (map_to_list (policies e)).*1.

(** ** Paths *)

(** The loop over the segments of a pattern with a single star; the lengths agree. *)
Fixpoint segments_match (pattern target : list string) : bool :=
  match pattern, target with
  | p :: pattern', t :: target' =>
      if bool_decide (p = "*") then segments_match pattern' target'
      else if negb (bool_decide (p = t)) then false
      else segments_match pattern' target'
  | _, _ => true
  end.

Definition pathMatches (pattern target : string) : bool :=
  let pattern := Strings.Trim pattern "/"%char in
  let target := Strings.Trim target "/"%char in
  if Strings.HasSuffix pattern "**" then
    let prefix := Strings.TrimSuffix pattern "**" in
    let prefix := Strings.TrimSuffix prefix "/" in
    Strings.HasPrefix target prefix
  else if Strings.ContainsByte "*"%char pattern then
    let patternParts := Strings.Split "/"%char pattern in
    let targetParts := Strings.Split "/"%char target in
    if negb (length patternParts =? length targetParts)%nat then false
    else segments_match patternParts targetParts
  else if bool_decide (pattern = target) then true
  else Path.Match_starless pattern target.

Definition hasCapability (capabilities : list Capability) (target : Capability) : bool :=
  existsb (λ c, bool_decide (c = target)) capabilities.

(** Every condition is met by the context; the order of the map does not matter. *)
Definition checkConditions (conditions context : gmap string string) : bool :=
  forallb (λ kv : string * string, bool_decide (context !! kv.1 = Some kv.2)) (map_to_list conditions).

(** ** Evaluation *)

Record EvaluationResult := { Allowed : bool; MatchedRule : string; DenialReason : string }.

Definition allow (rule : Rule) : EvaluationResult :=
  {| Allowed := true; MatchedRule := Path rule; DenialReason := "" |}.

Definition rule_verdict (rule : Rule) (resourcePath : string) (capability : Capability)
    (context : gmap string string) : option EvaluationResult :=
  if negb (pathMatches (Path rule) resourcePath) then None
  else if hasCapability (Capabilities rule) CapabilityDeny then
    Some {| Allowed := false; MatchedRule := Path rule; DenialReason := "explicitly denied by policy" |}
  else if hasCapability (Capabilities rule) CapabilitySudo then Some (allow rule)
  else if hasCapability (Capabilities rule) capability then
    if (0 <? size (Conditions rule))%nat && negb (checkConditions (Conditions rule) context) then None
    else Some (allow rule)
  else None.

Fixpoint eval_rules (rules : list Rule) (resourcePath : string) (capability : Capability)
    (context : gmap string string) : option EvaluationResult :=
  match rules with
  | [] => None
  | rule :: rules' =>
      match rule_verdict rule resourcePath capability context with
      | Some r => Some r
      | None => eval_rules rules' resourcePath capability context
      end
  end.

Fixpoint eval_policies (e : Evaluator) (names : list string) (resourcePath : string)
    (capability : Capability) (context : gmap string string) : option EvaluationResult :=
  match names with
  | [] => None
  | name :: names' =>
      match policies e !! name with
      | None => eval_policies e names' resourcePath capability context
      | Some p =>
          match eval_rules (Rules p) resourcePath capability context with
          | Some r => Some r
          | None => eval_policies e names' resourcePath capability context
          end
      end
  end.

Definition Evaluate (e : Evaluator) (policyNames : list string) (resourcePath : string)
    (capability : Capability) (context : gmap string string) : EvaluationResult :=
  if (length policyNames =? 0)%nat then
    {| Allowed := false; MatchedRule := ""; DenialReason := "no policies attached" |}
  else match eval_policies e policyNames resourcePath capability context with
       | Some r => r
       | None => {| Allowed := false; MatchedRule := ""; DenialReason := "no matching policy rule found" |}
       end.

Definition Check_ (e : Evaluator) (policyNames : list string) (resourcePath : string)
    (capability : Capability) : bool :=
  Allowed (Evaluate e policyNames resourcePath capability ∅).

Definition ActionToCapability (action : string) : Capability :=
  let a := Strings.ToLower action in
  if bool_decide (a ∈ ["create"; "post"]) then CapabilityCreate
  else if bool_decide (a ∈ ["read"; "get"]) then CapabilityRead
  else if bool_decide (a ∈ ["update"; "put"; "patch"]) then CapabilityUpdate
  else if bool_decide (a = "delete") then CapabilityDelete
  else if bool_decide (a = "list") then CapabilityList
  else action.

(** ** The specification: the first rule that decides *)

(** The rules of the named policies, in order; unknown names contribute nothing. *)
Definition rules_of (e : Evaluator) (names : list string) : list Rule :=
  concat ((λ n, match policies e !! n with Some p => Rules p | None => [] end) <$> names).

(** A rule grants a capability: it names it and its conditions hold. *)
Definition grants (rule : Rule) (capability : Capability) (context : gmap string string) : Prop :=
  CapabilitySudo ∈ Capabilities rule ∨
  (capability ∈ Capabilities rule ∧ Conditions rule ⊆ context).

Definition denies (rule : Rule) : Prop := CapabilityDeny ∈ Capabilities rule.

(** A rule decides a request: its path matches, and it denies or grants. *)
Definition decides (rule : Rule) (path : string) (capability : Capability)
    (context : gmap string string) : Prop :=
  pathMatches (Path rule) path = true ∧ (denies rule ∨ grants rule capability context).

(** ** Lemmas *)

Lemma hasCapability_spec cs c : hasCapability cs c = true ↔ c ∈ cs.
Proof.
  unfold hasCapability. rewrite existsb_exists. setoid_rewrite bool_decide_eq_true.
  setoid_rewrite <- list_elem_of_In. naive_solver.
Qed.

Lemma hasCapability_false cs c : hasCapability cs c = false ↔ c ∉ cs.
Proof. rewrite <- hasCapability_spec. by destruct (hasCapability cs c). Qed.

Lemma checkConditions_spec conds ctx : checkConditions conds ctx = true ↔ conds ⊆ ctx.
Proof.
  unfold checkConditions. rewrite forallb_forall, map_subseteq_spec.
  setoid_rewrite <- list_elem_of_In. split.
  - intros H k v Hk. apply elem_of_map_to_list in Hk. specialize (H _ Hk).
    by apply bool_decide_eq_true in H.
  - intros H [k v] Hk. apply bool_decide_eq_true, H. by apply elem_of_map_to_list.
Qed.

(** No condition at all is the same as conditions that hold. *)
Lemma conditions_hold rule ctx :
  (0 <? size (Conditions rule))%nat && negb (checkConditions (Conditions rule) ctx) = false ↔
  Conditions rule ⊆ ctx.
Proof.
  rewrite <- checkConditions_spec. destruct (checkConditions (Conditions rule) ctx) eqn:Hc; cbn.
  - by rewrite andb_false_r.
  - rewrite andb_true_r. split; [|done]. destruct (size (Conditions rule)) eqn:E; [|done].
    apply map_size_empty_inv in E. rewrite E in Hc. by vm_compute in Hc.
Qed.

(** One round of the loop: a verdict exactly when the rule decides. *)
Lemma rule_verdict_spec rule path c ctx :
  match rule_verdict rule path c ctx with
  | Some r => decides rule path c ctx ∧ MatchedRule r = Path rule ∧
              (Allowed r = true ↔ ¬ denies rule ∧ grants rule c ctx)
  | None => ¬ decides rule path c ctx
  end.
Proof.
  unfold rule_verdict, decides, grants, denies.
  destruct (pathMatches (Path rule) path); cbn [negb]; [|naive_solver].
  destruct (hasCapability (Capabilities rule) CapabilityDeny) eqn:Hd.
  { apply hasCapability_spec in Hd. cbn. naive_solver. }
  apply hasCapability_false in Hd.
  destruct (hasCapability (Capabilities rule) CapabilitySudo) eqn:Hs.
  { apply hasCapability_spec in Hs. cbn. naive_solver. }
  apply hasCapability_false in Hs.
  destruct (hasCapability (Capabilities rule) c) eqn:Hc.
  - apply hasCapability_spec in Hc. destruct (_ && _) eqn:Hcond.
    + assert (¬ Conditions rule ⊆ ctx); [|naive_solver].
      intros H%conditions_hold. congruence.
    + apply conditions_hold in Hcond. cbn. naive_solver.
  - apply hasCapability_false in Hc. naive_solver.
Qed.

Lemma eval_rules_app l k path c ctx :
  eval_rules (l ++ k) path c ctx =
    match eval_rules l path c ctx with Some r => Some r | None => eval_rules k path c ctx end.
Proof. induction l as [|r l IH]; cbn; [done|]. by destruct (rule_verdict r path c ctx). Qed.

Lemma eval_policies_flat e names path c ctx :
  eval_policies e names path c ctx = eval_rules (rules_of e names) path c ctx.
Proof.
  unfold rules_of. induction names as [|n names IH]; cbn; [done|]. rewrite eval_rules_app.
  destruct (policies e !! n) as [p|]; cbn; [|done]. by destruct (eval_rules (Rules p) path c ctx).
Qed.

Lemma eval_rules_spec rules path c ctx :
  match eval_rules rules path c ctx with
  | Some r => ∃ l rule k, rules = l ++ rule :: k ∧ Forall (λ q, ¬ decides q path c ctx) l ∧
      decides rule path c ctx ∧ MatchedRule r = Path rule ∧
      (Allowed r = true ↔ ¬ denies rule ∧ grants rule c ctx)
  | None => Forall (λ q, ¬ decides q path c ctx) rules
  end.
Proof.
  induction rules as [|q rules IH]; cbn; [constructor|].
  pose proof (rule_verdict_spec q path c ctx) as Hq.
  destruct (rule_verdict q path c ctx) as [r|].
  - exists [], q, rules. split_and!; [done|constructor|apply Hq..].
  - destruct (eval_rules rules path c ctx) as [r|]; [|by constructor].
    destruct IH as (l & rule & k & -> & Hl & H). exists (q :: l), rule, k.
    split_and!; [done|by constructor|apply H..].
Qed.

Lemma segments_match_spec ps ts :
  length ps = length ts → segments_match ps ts = true ↔ Forall2 (λ p t, p = "*" ∨ p = t) ps ts.
Proof.
  revert ts. induction ps as [|p ps IH]; intros [|t ts] H; cbn in *; try done.
  injection H as H. rewrite Forall2_cons. case_bool_decide as E1.
  - rewrite IH by done. naive_solver.
  - case_bool_decide as E2; cbn; [|naive_solver]. rewrite IH by done. naive_solver.
Qed.

(** An allowed request is backed by a rule of a named policy. *)
Lemma allowed_rule e names path c ctx :
  Allowed (Evaluate e names path c ctx) = true →
  ∃ name p rule, name ∈ names ∧ policies e !! name = Some p ∧ rule ∈ Rules p ∧
    pathMatches (Path rule) path = true ∧ ¬ denies rule ∧ grants rule c ctx.
Proof.
  unfold Evaluate. destruct (_ =? _)%nat; [done|]. rewrite eval_policies_flat.
  pose proof (eval_rules_spec (rules_of e names) path c ctx) as H.
  destruct (eval_rules _ path c ctx) as [r|]; [|done]. intros Ha.
  destruct H as (l & rule & k & Hr & _ & [Hp _] & _ & Hiff). apply Hiff in Ha as [Hd Hg].
  assert (rule ∈ rules_of e names) as Hin by (rewrite Hr; set_solver).
  unfold rules_of in Hin. apply list_elem_of_In, in_concat in Hin as (rs & Hrs & Hin).
  apply list_elem_of_In, list_elem_of_fmap in Hrs as (n & -> & Hn).
  destruct (policies e !! n) as [p|] eqn:Hpol; [|done]. apply list_elem_of_In in Hin. eauto 10.
Qed.

(** ** Properties *)

(** C15. Evaluation is "the first rule that decides": among the rules of the named
    policies, in the order of the names and within a policy in the order of its rules,
    let the first one be taken whose path matches and which denies, carries sudo, or
    grants the capability under conditions the context meets. The request is allowed if
    and only if there is such a rule and it does not carry deny; that rule is reported.
    Policies that do not exist and rules that do not decide change nothing, and without
    a deciding rule the request is denied. *)
Theorem evaluate_first_decision e names path c ctx :
  let r := Evaluate e names path c ctx in
  (∃ l rule k, rules_of e names = l ++ rule :: k ∧ Forall (λ q, ¬ decides q path c ctx) l ∧
     decides rule path c ctx ∧ MatchedRule r = Path rule ∧
     (Allowed r = true ↔ ¬ denies rule ∧ grants rule c ctx)) ∨
  (Forall (λ q, ¬ decides q path c ctx) (rules_of e names) ∧ Allowed r = false ∧ MatchedRule r = "").
Proof.
  intros r. subst r. unfold Evaluate. destruct names as [|n names]; [right; cbn; by constructor|].
  change (length (n :: names) =? 0)%nat with false. cbn match. rewrite eval_policies_flat.
  pose proof (eval_rules_spec (rules_of e (n :: names)) path c ctx) as H.
  destruct (eval_rules _ path c ctx) as [r|]; [by left|by right].
Qed.

(** Soundness of access: an allowed request is backed by a rule of one of the named,
    existing policies whose path matches the resource, that does not deny, and that
    grants the capability itself, with its conditions met, or sudo. *)
Theorem access_is_granted e names path c ctx :
  Allowed (Evaluate e names path c ctx) = true →
  ∃ name p rule, name ∈ names ∧ policies e !! name = Some p ∧ rule ∈ Rules p ∧
    pathMatches (Path rule) path = true ∧ ¬ denies rule ∧ grants rule c ctx.
Proof. apply allowed_rule. Qed.

(** Deny does not override: a rule that denies has no effect when a rule before it
    grants the request, in the same policy or in one named earlier; only the order
    decides. *)
Theorem deny_after_grant_is_ignored e n1 n2 path c ctx :
  Allowed (Evaluate e n1 path c ctx) = true → Allowed (Evaluate e (n1 ++ n2) path c ctx) = true.
Proof.
  unfold Evaluate. destruct n1 as [|n n1]; [done|]. cbn [length app Nat.eqb].
  rewrite !eval_policies_flat. change (n :: n1 ++ n2) with ((n :: n1) ++ n2).
  unfold rules_of at 2. rewrite fmap_app, concat_app, eval_rules_app.
  change (concat _) with (rules_of e (n :: n1)) at 1.
  by destruct (eval_rules (rules_of e (n :: n1)) path c ctx).
Qed.

(** A pattern with single stars matches segment by segment: pattern and target,
    without slashes at their ends, have the same number of segments, and each segment of
    the pattern is [*] or equal to the target's. *)
Theorem star_matches_one_segment pattern target :
  let p := Strings.Trim pattern "/"%char in
  let t := Strings.Trim target "/"%char in
  Strings.HasSuffix p "**" = false → Strings.ContainsByte "*"%char p = true →
  pathMatches pattern target = true ↔
  Forall2 (λ a b, a = "*" ∨ a = b) (Strings.Split "/"%char p) (Strings.Split "/"%char t).
Proof.
  intros p t H1 H2. unfold pathMatches. fold p t. rewrite H1, H2.
  destruct (Nat.eqb_spec (length (Strings.Split "/"%char p)) (length (Strings.Split "/"%char t))) as [E|E]; cbn.
  - by apply segments_match_spec.
  - split; [done|]. intros H%Forall2_length. done.
Qed.

(** A pattern that ends in [/**] is a bare prefix test: besides the paths under its
    directory it matches every path that merely starts with the directory's name. *)
Theorem double_star_is_prefix dir rest :
  Strings.Trim (dir +:+ "/**") "/"%char = dir +:+ "/**" →
  Strings.Trim (dir +:+ rest) "/"%char = dir +:+ rest →
  pathMatches (dir +:+ "/**") (dir +:+ rest) = true.
Proof.
  intros H1 H2. unfold pathMatches. rewrite H1, H2.
  replace (dir +:+ "/**") with ((dir +:+ "/") +:+ "**") by by rewrite <- Strings.app_assoc_string.
  rewrite Strings.HasSuffix_app, Strings.TrimSuffix_app, Strings.TrimSuffix_app.
  apply Strings.HasPrefix_app.
Qed.

(** ** Examples *)

Definition demo_evaluator : Evaluator :=
  AddPolicy (AddPolicy NewEvaluator
    {| Name := "app"; Description := "";
       Rules := [{| Path := "secret/*/config"; Capabilities := ["read"]; Conditions := {["env" := "prod"]} |}] |})
    {| Name := "no"; Description := ""; Rules := [simple_rule "secret/**" "deny"] |}.

Lemma access_is_granted_witness :
  ∃ name p rule, name ∈ ["ghost"; "app"] ∧ policies demo_evaluator !! name = Some p ∧ rule ∈ Rules p ∧
    pathMatches (Path rule) "/secret/db/config" = true ∧ ¬ denies rule ∧
    grants rule "read" {["env" := "prod"]}.
Proof. apply (access_is_granted demo_evaluator). vm_compute. reflexivity. Defined.

Lemma deny_after_grant_is_ignored_witness :
  Allowed (Evaluate demo_evaluator (["app"] ++ ["no"]) "secret/db/config" "read" {["env" := "prod"]}) = true.
Proof. apply (deny_after_grant_is_ignored demo_evaluator ["app"] ["no"]). vm_compute. reflexivity. Defined.

Lemma star_matches_one_segment_witness :
  pathMatches "secret/*/config" "secret/db/config" = true ↔
  Forall2 (λ a b, a = "*" ∨ a = b) ["secret"; "*"; "config"] ["secret"; "db"; "config"].
Proof. apply (star_matches_one_segment "secret/*/config" "secret/db/config"); vm_compute; reflexivity. Defined.

Lemma double_star_is_prefix_witness : pathMatches "secret/**" "secretarial/notes" = true.
Proof. apply (double_star_is_prefix "secret" "arial/notes"); vm_compute; reflexivity. Defined.
End Policy.
