(* ===== verification/Fpe.v ===== *)
(** * pkg/crypto/fpe: format-preserving encryption

    The FF1 cipher is the third-party package [github.com/capitalone/fpe/ff1]: [FF1]
    lists its operations and [FF1Laws] what it documents. Its numeral strings are those
    of [math/big]: the digits of radix [r] are the first [r] characters of
    ["0-9a-zA-Z"]. [ShiftFF1] is a concrete cipher with these laws, used by the
    examples. The functions that convert between strings and numerals are not called by
    anything and are left out. *)

From S2P Require Import Prelude GoStd Aead.
Local Open Scope Z_scope.

(** ** The third-party cipher *)

(** A [nil] tweak and an empty one are the same to the package. *)
Class FF1 := {
  ff1 : Type;
  ff1_radix : ff1 → Z;
  ff1_NewCipher : Z → Z → bytes → bytes → result ff1;
  ff1_Encrypt : ff1 → string → result string;
  ff1_Decrypt : ff1 → string → result string
}.

Definition base62 : bytes :=
  to_bytes "0123456789abcdefghijklmnopqrstuvwxyzABCDEFGHIJKLMNOPQRSTUVWXYZ".

(** The digits of radix [r]. *)
Definition digits (r : Z) : bytes := take (Z.to_nat r) base62.

(** A numeral string of radix [r]. *)
Definition numerals (r : Z) (x : string) : Prop := Forall (λ b, b ∈ digits r) (to_bytes x).

(** The value [math/big] gives to a digit; letters have no case ([fold]) up to radix
    36. *)
Definition digit_value (fold : bool) (b : byte) : option Z :=
  let x := bval b in
  if (48 <=? x) && (x <=? 57) then Some (x - 48)
  else if (97 <=? x) && (x <=? 122) then Some (x - 87)
  else if (65 <=? x) && (x <=? 90) then Some (if fold then x - 55 else x - 29)
  else None.

(** A letter or digit that is no digit of radix [r]. *)
Definition beyond (r : Z) (b : byte) : bool :=
  match digit_value (r <=? 36) b with Some d => r <=? d | None => false end.

Class FF1Laws (F : FF1) : Prop := {
  ff1_New_radix r m key tweak c : ff1_NewCipher r m key tweak = Ok c → ff1_radix c = r;
  ff1_format c x y : ff1_Encrypt c x = Ok y →
    String.length y = String.length x ∧ numerals (ff1_radix c) y;
  ff1_inverse c x y : numerals (ff1_radix c) x → ff1_Encrypt c x = Ok y → ff1_Decrypt c y = Ok x;
  ff1_rejects c x b : b ∈ to_bytes x → beyond (ff1_radix c) b = true → ∃ e, ff1_Encrypt c x = Err e
}.

Module Fpe.

(** ** Alphabets and transformations *)

Definition AlphabetNumeric : string := "0123456789".
Definition AlphabetAlphaLower : string := "abcdefghijklmnopqrstuvwxyz".
Definition AlphabetAlphaUpper : string := "ABCDEFGHIJKLMNOPQRSTUVWXYZ".
Definition AlphabetAlphanumeric : string := AlphabetNumeric +:+ (AlphabetAlphaLower +:+ AlphabetAlphaUpper).

Definition ErrInvalidAlphabet : error :=
  sentinel "fpe" "ErrInvalidAlphabet" "invalid alphabet: must have at least 2 characters".
Definition ErrInvalidPlaintext : error :=
  sentinel "fpe" "ErrInvalidPlaintext" "plaintext contains characters not in alphabet".
Definition ErrPlaintextTooShort : error :=
  sentinel "fpe" "ErrPlaintextTooShort" "plaintext too short: minimum 2 characters".
Definition ErrInvalidKeySize : error :=
  sentinel "fpe" "ErrInvalidKeySize" "invalid key size: must be 16, 24, or 32 bytes".

Record Transformation := { Name : string; Alphabet : string; Pattern : string; Description : string }.

Definition transformation (name alphabet pattern description : string) : string * Transformation :=
  (name, {| Name := name; Alphabet := alphabet; Pattern := pattern; Description := description |}).

Definition BuiltInTransformations : gmap string Transformation := list_to_map [
  transformation "credit-card" AlphabetNumeric "^[0-9]{13,19}$" "Credit card numbers (13-19 digits)";
  transformation "ssn" AlphabetNumeric "^[0-9]{9}$" "Social Security Number (9 digits)";
  transformation "phone" AlphabetNumeric "^[0-9]{10,15}$" "Phone numbers (10-15 digits)";
  transformation "numeric" AlphabetNumeric "^[0-9]+$" "Any numeric string";
  transformation "alpha-lower" AlphabetAlphaLower "^[a-z]+$" "Lowercase letters only";
  transformation "alpha-upper" AlphabetAlphaUpper "^[A-Z]+$" "Uppercase letters only";
  transformation "alphanumeric" AlphabetAlphanumeric "^[a-zA-Z0-9]+$" "Letters and numbers"].

Definition GetTransformation (name : string) : option Transformation := BuiltInTransformations !! name.

(** In the order Go's map iteration happens to choose. *)
Definition ListTransformations : list string := (map_to_list BuiltInTransformations).*1.

(** ** Ciphers *)
Section fpe.
Context {F : FF1}.

Record Cipher := { key : bytes; alphabet : string; radix : Z; cipher : ff1 }.

Definition NewCipher (key : bytes) (alphabet : string) : result Cipher :=
  if negb (length key =? 16)%nat && negb (length key =? 24)%nat && negb (length key =? 32)%nat then
    Err ErrInvalidKeySize
  else if slen alphabet <? 2 then Err ErrInvalidAlphabet
  else match ff1_NewCipher (slen alphabet) 256 key [] with
       | Err e => Err e
       | Ok c => Ok {| key := key; alphabet := alphabet; radix := slen alphabet; cipher := c |}
       end.

Definition NewCipherWithTransformation (key : bytes) (transformationName : string) : result Cipher :=
  match BuiltInTransformations !! transformationName with
  | None => Err (errorString ("unknown transformation: " +:+ transformationName))
  | Some trans => NewCipher key (Alphabet trans)
  end.

Definition validateString (c : Cipher) (s : string) : bool :=
  forallb (Utf8.ContainsRune (alphabet c)) (Utf8.runes s).

(** The cipher for a tweak: a new one when there is a tweak. *)
Definition tweaked (c : Cipher) (tweak : option bytes) : result ff1 :=
  match tweak with
  | Some t => ff1_NewCipher (radix c) 256 (key c) t
  | None => Ok (cipher c)
  end.

Definition EncryptWithTweak (c : Cipher) (plaintext : string) (tweak : option bytes) : result string :=
  if slen plaintext <? 2 then Err ErrPlaintextTooShort
  else if negb (validateString c plaintext) then Err ErrInvalidPlaintext
  else let? ci := tweaked c tweak in ff1_Encrypt ci plaintext.

Definition Encrypt (c : Cipher) (plaintext : string) : result string := EncryptWithTweak c plaintext None.

Definition DecryptWithTweak (c : Cipher) (ciphertext : string) (tweak : option bytes) : result string :=
  if slen ciphertext <? 2 then Err ErrPlaintextTooShort
  else if negb (validateString c ciphertext) then Err ErrInvalidPlaintext
  else let? ci := tweaked c tweak in ff1_Decrypt ci ciphertext.

Definition Decrypt (c : Cipher) (ciphertext : string) : result string := DecryptWithTweak c ciphertext None.

(** ** Lemmas *)

(** The alphabet is exactly the digits of its length. *)
Definition digit_alphabet (a : string) : bool :=
  Utf8.is_ascii a && forallb (λ b, bool_decide (b ∈ digits (slen a))) (to_bytes a) &&
  forallb (λ b, bool_decide (b ∈ to_bytes a)) (digits (slen a)).

Lemma digit_alphabet_spec a :
  digit_alphabet a = true → Utf8.is_ascii a = true ∧ ∀ b, b ∈ to_bytes a ↔ b ∈ digits (slen a).
Proof.
  unfold digit_alphabet. rewrite !andb_true_iff, !forallb_forall. intros [[Ha H1] H2]. split; [done|].
  intros b. split; intros Hb; apply list_elem_of_In in Hb.
  - by apply H1, bool_decide_eq_true in Hb.
  - by apply H2, bool_decide_eq_true in Hb.
Qed.

(** For an ASCII alphabet, the test of the characters is one on bytes. *)
Lemma validateString_ascii c s :
  Utf8.is_ascii (alphabet c) = true →
  validateString c s = true ↔ Forall (λ b, b ∈ to_bytes (alphabet c)) (to_bytes s).
Proof.
  intros Ha. unfold validateString. rewrite forallb_forall. unfold Utf8.ContainsRune.
  setoid_rewrite bool_decide_eq_true. rewrite (Utf8.runes_ascii _ Ha).
  assert (Hrange : ∀ b, b ∈ to_bytes (alphabet c) → bval b < 128).
  { intros b Hb. unfold Utf8.is_ascii in Ha. rewrite forallb_forall in Ha.
    apply list_elem_of_In, Ha in Hb. lia. }
  split.
  - intros H. assert (Utf8.is_ascii s = true) as Hs.
    { apply (Utf8.runes_all_ascii (String.length s)); [done|]. apply Forall_forall. intros r Hr.
      apply list_elem_of_In, H, list_elem_of_fmap in Hr as (b & -> & Hb). by apply Hrange. }
    rewrite (Utf8.runes_ascii _ Hs) in H. apply Forall_forall. intros b Hb.
    assert (bval b ∈ bval <$> to_bytes (alphabet c)) as Hin.
    { apply H, list_elem_of_In, list_elem_of_fmap. eauto. }
    apply list_elem_of_fmap in Hin as (b' & E & Hb'). apply bval_inj in E as ->. done.
  - intros H r Hr. rewrite Forall_forall in H. assert (Utf8.is_ascii s = true) as Hs.
    { unfold Utf8.is_ascii. apply forallb_forall. intros b Hb. apply list_elem_of_In, H, Hrange in Hb. lia. }
    rewrite (Utf8.runes_ascii _ Hs) in Hr. apply list_elem_of_In, list_elem_of_fmap in Hr as (b & -> & Hb).
    apply list_elem_of_fmap. eauto.
Qed.

Lemma NewCipher_inv k a c :
  NewCipher k a = Ok c →
  valid_key_size (length k) = true ∧ 2 ≤ slen a ∧ key c = k ∧ alphabet c = a ∧ radix c = slen a ∧
  ff1_NewCipher (slen a) 256 k [] = Ok (cipher c).
Proof.
  unfold NewCipher, valid_key_size.
  destruct (length k =? 16)%nat, (length k =? 24)%nat, (length k =? 32)%nat; cbn; try done;
  destruct (Z.ltb_spec (slen a) 2); try done;
  destruct (ff1_NewCipher (slen a) 256 k []) as [ci|] eqn:E; try done; intros [= <-]; cbn; done.
Qed.

Context {FL : FF1Laws F}.

Lemma tweaked_radix k a c t ci : NewCipher k a = Ok c → tweaked c t = Ok ci → ff1_radix ci = slen a.
Proof.
  intros (_ & _ & Hk & _ & Hr & Hn)%NewCipher_inv. destruct t as [t|]; cbn.
  - intros H%ff1_New_radix. congruence.
  - intros [= <-]. by eapply ff1_New_radix.
Qed.

Lemma roundtrip_with_tweak k a c pt t ct :
  NewCipher k a = Ok c → digit_alphabet a = true → EncryptWithTweak c pt t = Ok ct →
  String.length ct = String.length pt ∧ validateString c ct = true ∧ DecryptWithTweak c ct t = Ok pt.
Proof.
  intros Hc [Ha Hd]%digit_alphabet_spec. pose proof (NewCipher_inv _ _ _ Hc) as (_ & _ & _ & Ea & _).
  unfold EncryptWithTweak. destruct (Z.ltb_spec (slen pt) 2) as [|Hl]; [done|].
  destruct (validateString c pt) eqn:Hv; cbn; [|done].
  destruct (tweaked c t) as [ci|] eqn:Ht; cbn; [|done]. intros He.
  pose proof (tweaked_radix _ _ _ _ _ Hc Ht) as Hr.
  pose proof (ff1_format _ _ _ He) as [Hlen Hnum]. rewrite Hr in Hnum.
  rewrite <- Ea in Ha. apply (validateString_ascii _ _ Ha) in Hv.
  assert (validateString c ct = true) as Hv'.
  { apply validateString_ascii; [done|]. eapply Forall_impl; [exact Hnum|]. intros b Hb.
    rewrite Ea. by apply Hd. }
  split_and!; [done|done|]. unfold DecryptWithTweak.
  rewrite (proj2 (Z.ltb_ge _ _)) by (unfold slen in *; lia). rewrite Hv'. cbn. rewrite Ht. cbn.
  apply (ff1_inverse _ pt); [|done]. rewrite Hr. unfold numerals.
  eapply Forall_impl; [exact Hv|]. intros b Hb. apply Hd. congruence.
Qed.
End fpe.

(** The alphabets of the seven transformations that are digit alphabets. *)
Lemma numeric_is_digits : digit_alphabet AlphabetNumeric = true.
Proof. vm_compute. reflexivity. Qed.

Lemma alphanumeric_is_digits : digit_alphabet AlphabetAlphanumeric = true.
Proof. vm_compute. reflexivity. Qed.

(** ** A concrete cipher: every digit is shifted by a number made from key and tweak *)
Section shift.

Record shift := { sh_radix : Z; sh_amount : Z }.

Definition sum_bytes (l : bytes) : Z := List.fold_left (λ a b, a + bval b) l 0.

Fixpoint index_of (b : byte) (l : bytes) (n : Z) : option Z :=
  match l with [] => None | x :: l' => if bool_decide (x = b) then Some n else index_of b l' (n + 1) end.

(** Digit [b] of radix [r] moved by [k] places, round the end. *)
Definition shift_digit (r k : Z) (b : byte) : option byte :=
  i ← index_of b (digits r) 0; digits r !! Z.to_nat ((i + k) mod r).

Definition shift_string (r k : Z) (x : string) : result string :=
  match mapM (shift_digit r k) (to_bytes x) with
  | Some l => Ok (of_bytes l)
  | None => Err (errorString "string is not within base/radix")
  end.

#[local] Instance ShiftFF1 : FF1 := {|
  ff1 := shift;
  ff1_radix := sh_radix;
  ff1_NewCipher := λ r m key tweak,
    if (2 <=? r) && (r <=? 62) && (zlen tweak <=? m)
    then Ok {| sh_radix := r; sh_amount := sum_bytes key + sum_bytes tweak |}
    else Err (errorString "invalid parameters");
  ff1_Encrypt := λ c x, if (2 <=? sh_radix c) && (sh_radix c <=? 62)
                        then shift_string (sh_radix c) (sh_amount c) x else Err (errorString "radix");
  ff1_Decrypt := λ c x, shift_string (sh_radix c) (- sh_amount c) x
|}.

Lemma index_of_Some b l n i :
  index_of b l n = Some i → n ≤ i ∧ l !! Z.to_nat (i - n) = Some b.
Proof.
  revert n. induction l as [|x l IH]; intros n H; [done|]. cbn in H. case_bool_decide as E.
  - injection H as <-. rewrite Z.sub_diag. by subst.
  - apply IH in H as [H1 H2]. split; [lia|].
    by replace (Z.to_nat (i - n)) with (S (Z.to_nat (i - (n + 1)))) by lia.
Qed.

Lemma index_of_lookup b l n j :
  NoDup l → l !! j = Some b → index_of b l n = Some (n + Z.of_nat j).
Proof.
  revert n j. induction l as [|x l IH]; intros n j Hn Hj; [done|]. apply NoDup_cons in Hn as [Hx Hn].
  destruct j as [|j]; cbn in *.
  - injection Hj as ->. rewrite bool_decide_true by done. f_equal. lia.
  - rewrite bool_decide_false.
    + rewrite (IH (n + 1) j) by done. f_equal. lia.
    + intros ->. apply Hx. by eapply list_elem_of_lookup_2.
Qed.

Lemma base62_NoDup : NoDup base62.
Proof. apply (bool_decide_unpack _). vm_compute. exact I. Qed.

Lemma digits_spec r : 0 ≤ r ≤ 62 → NoDup (digits r) ∧ zlen (digits r) = r.
Proof.
  intros Hr. unfold digits. split.
  - eapply sublist_NoDup; [apply base62_NoDup|apply sublist_take].
  - unfold zlen. rewrite length_take. change (length base62) with 62%nat. lia.
Qed.

Lemma shift_digit_inv r k b b' :
  2 ≤ r ≤ 62 → shift_digit r k b = Some b' → b' ∈ digits r ∧ shift_digit r (- k) b' = Some b.
Proof.
  intros Hr. destruct (digits_spec r) as [Hn Hl]; [lia|]. unfold shift_digit.
  destruct (index_of b (digits r) 0) as [i|] eqn:Hi; [|done]. cbn. intros Hb'.
  apply index_of_Some in Hi as [Hi0 Hi]. rewrite Z.sub_0_r in Hi.
  assert (0 ≤ i < r) as Hir.
  { apply lookup_lt_Some in Hi. unfold zlen in Hl. lia. }
  pose proof (Z.mod_pos_bound (i + k) r ltac:(lia)) as Hm.
  split; [by eapply list_elem_of_lookup_2|].
  rewrite (index_of_lookup _ _ _ _ Hn Hb'). cbn. rewrite Z2Nat.id by lia.
  replace ((0 + (i + k) mod r + - k) mod r) with i; [done|].
  rewrite Z.add_0_l, Z.add_mod_idemp_l by lia. replace (i + k + - k) with i by lia.
  symmetry. by apply Z.mod_small.
Qed.

Lemma shift_string_inv r k x y :
  2 ≤ r ≤ 62 → shift_string r k x = Ok y →
  String.length y = String.length x ∧ numerals r y ∧ shift_string r (- k) y = Ok x.
Proof.
  intros Hr. unfold shift_string. destruct (mapM (shift_digit r k) (to_bytes x)) as [l|] eqn:Hm; [|done].
  intros [= <-]. apply mapM_Some in Hm. split_and!.
  - rewrite length_of_bytes, <- (Forall2_length _ _ _ Hm). apply length_to_bytes.
  - unfold numerals. rewrite to_of_bytes. eapply Forall2_Forall_r; [exact Hm|].
    apply Forall_true. intros b b' H. by eapply shift_digit_inv.
  - rewrite to_of_bytes. assert (mapM (shift_digit r (- k)) l = Some (to_bytes x)) as ->.
    { apply mapM_Some. apply Forall2_flip. eapply Forall2_impl; [exact Hm|].
      intros b b' H. by eapply shift_digit_inv. }
    by rewrite of_to_bytes.
Qed.

(** The value of a digit is its place. *)
Lemma digit_value_fold j b : (j < 36)%nat → base62 !! j = Some b → digit_value true b = Some (Z.of_nat j).
Proof.
  intros Hj Hb. assert (forallb (λ j, bool_decide (base62 !! j ≫= digit_value true = Some (Z.of_nat j)))
    (seq 0 36) = true) as H by (vm_compute; reflexivity).
  rewrite forallb_forall in H. specialize (H j ltac:(apply in_seq; lia)).
  rewrite Hb in H. by apply bool_decide_eq_true in H.
Qed.

Lemma digit_value_case j b : base62 !! j = Some b → digit_value false b = Some (Z.of_nat j).
Proof.
  intros Hb. assert (forallb (λ j, bool_decide (base62 !! j ≫= digit_value false = Some (Z.of_nat j)))
    (seq 0 62) = true) as H by (vm_compute; reflexivity).
  pose proof (lookup_lt_Some _ _ _ Hb) as Hl. change (length base62) with 62%nat in Hl.
  rewrite forallb_forall in H. specialize (H j ltac:(apply in_seq; lia)).
  rewrite Hb in H. by apply bool_decide_eq_true in H.
Qed.

Lemma digits_not_beyond r b : 2 ≤ r ≤ 62 → b ∈ digits r → beyond r b = false.
Proof.
  intros Hr Hb. unfold digits in Hb. apply list_elem_of_lookup in Hb as [j Hj].
  apply lookup_take_Some in Hj as [Hj Hlt]. unfold beyond.
  destruct (Z.leb_spec r 36); [rewrite (digit_value_fold j) by (done || lia)|rewrite (digit_value_case j) by done];
    apply Z.leb_gt; lia.
Qed.

#[local] Instance ShiftFF1_laws : FF1Laws ShiftFF1.
Proof.
  split; cbn.
  - intros r m k t c. destruct (_ && _); [|done]. by intros [= <-].
  - intros c x y. destruct (Z.leb_spec 2 (sh_radix c)), (Z.leb_spec (sh_radix c) 62); cbn; try done.
    intros Hs. by destruct (shift_string_inv (sh_radix c) (sh_amount c) x y) as (? & ? & _).
  - intros c x y _. destruct (Z.leb_spec 2 (sh_radix c)), (Z.leb_spec (sh_radix c) 62); cbn; try done.
    intros Hs. by destruct (shift_string_inv (sh_radix c) (sh_amount c) x y) as (_ & _ & ?).
  - intros c x b Hb Hbe. destruct (Z.leb_spec 2 (sh_radix c)), (Z.leb_spec (sh_radix c) 62); cbn; eauto.
    destruct (shift_string (sh_radix c) (sh_amount c) x) as [y|e] eqn:Hs; [|eauto].
    exfalso. unfold shift_string in Hs.
    destruct (mapM _ (to_bytes x)) as [l|] eqn:Hm; [|done]. apply mapM_Some in Hm.
    apply list_elem_of_lookup in Hb as [j Hj].
    destruct (Forall2_lookup_l _ _ _ _ _ Hm Hj) as (b' & _ & Hd).
    unfold shift_digit in Hd. destruct (index_of b (digits (sh_radix c)) 0) as [i|] eqn:Hi; [|done].
    apply index_of_Some in Hi as [_ Hi]. rewrite digits_not_beyond in Hbe; [done|lia|].
    by eapply list_elem_of_lookup_2.
Qed.
End shift.

(** ** Properties *)

(** Format preservation and round trip: for a key of a valid size and an alphabet
    that consists of the digits of its own length (the alphabets of the credit-card,
    ssn, phone, numeric and alphanumeric transformations), a plaintext that is encrypted,
    with or without a tweak, gives a ciphertext of the same length over the same
    alphabet, and decrypting it with the same tweak gives the plaintext back. *)
Theorem fpe_roundtrip {F : FF1} {FL : FF1Laws F} k a c pt tweak ct :
  NewCipher k a = Ok c → digit_alphabet a = true → EncryptWithTweak c pt tweak = Ok ct →
  String.length ct = String.length pt ∧ validateString c ct = true ∧
  DecryptWithTweak c ct tweak = Ok pt.
Proof. apply roundtrip_with_tweak. Qed.

(** Two ciphers on the concrete FF1: digits, and lower-case letters. *)
Definition demo_digits : Cipher (F := ShiftFF1) :=
  {| key := replicate 32 one; alphabet := AlphabetNumeric; radix := 10;
     cipher := {| sh_radix := 10; sh_amount := 32 |} : @ff1 ShiftFF1 |}.
Definition demo_letters : Cipher (F := ShiftFF1) :=
  {| key := replicate 16 one; alphabet := AlphabetAlphaLower; radix := 26;
     cipher := {| sh_radix := 26; sh_amount := 16 |} : @ff1 ShiftFF1 |}.

Lemma fpe_roundtrip_witness :
  DecryptWithTweak demo_digits "7444444444444444" (Some [one]) = Ok "4111111111111111".
Proof.
  apply (fpe_roundtrip (F := ShiftFF1) (FL := ShiftFF1_laws) (replicate 32 one) AlphabetNumeric
           demo_digits "4111111111111111" (Some [one]) "7444444444444444");
    reflexivity.
Defined.

(** The letter alphabets do not work: with the alphabet [a-z] or [A-Z] (radix 26) a
    plaintext of letters of the alphabet that contains one of the last ten letters
    ([q] to [z], [Q] to [Z]) is always refused by the cipher, because the cipher reads
    it as a number in base 26, whose digits end at [p]. *)
Theorem letters_refused {F : FF1} {FL : FF1Laws F} k a c pt tweak b :
  NewCipher k a = Ok c → a = AlphabetAlphaLower ∨ a = AlphabetAlphaUpper →
  b ∈ to_bytes pt → 113 ≤ bval b ≤ 122 ∨ 81 ≤ bval b ≤ 90 →
  ∃ e, EncryptWithTweak c pt tweak = Err e.
Proof.
  intros Hc Ha Hb Hr. unfold EncryptWithTweak. destruct (_ <? _); [eauto|].
  destruct (validateString c pt); cbn; [|eauto].
  destruct (tweaked c tweak) as [ci|e] eqn:Ht; cbn; [|eauto].
  apply (ff1_rejects ci pt b Hb). rewrite (tweaked_radix _ _ _ _ _ Hc Ht).
  assert (slen a = 26) as -> by (destruct Ha; by subst).
  unfold beyond, digit_value. cbn zeta. change (26 <=? 36) with true. cbn match.
  destruct Hr as [Hr|Hr].
  - rewrite (proj2 (Z.leb_gt (bval b) 57)), andb_false_r by lia.
    rewrite (proj2 (Z.leb_le 97 (bval b))), (proj2 (Z.leb_le (bval b) 122)) by lia. cbn. lia.
  - rewrite (proj2 (Z.leb_gt (bval b) 57)), andb_false_r by lia.
    rewrite (proj2 (Z.leb_gt 97 (bval b))) by lia. cbn [andb].
    rewrite (proj2 (Z.leb_le 65 (bval b))), (proj2 (Z.leb_le (bval b) 90)) by lia. cbn. lia.
Qed.

Lemma letters_refused_witness :
  validateString demo_letters "quiz" = true ∧ ∃ e, EncryptWithTweak demo_letters "quiz" None = Err e.
Proof.
  split; [reflexivity|].
  apply (letters_refused (F := ShiftFF1) (FL := ShiftFF1_laws) (replicate 16 one) AlphabetAlphaLower
           demo_letters "quiz" None "q"%char).
  - reflexivity.
  - left. reflexivity.
  - apply list_elem_of_In. left. reflexivity.
  - left. vm_compute. split; discriminate.
Defined.
End Fpe.
