(* ===== verification/Tokenize.v ===== *)
(** * services/tokenize/internal/service: tokenisation

    [TokenizeService] keeps the key cache, whether it has a client of the lock service,
    and the custom transformations (a [sync.Map]). The FF1 cipher ([FF1]), the cache
    ([LRU]) and the lock service ([KeyService]) are interfaces. As in [CryptoSvc], the
    argument [rpc] of an operation is the vault that serves its call, if the call
    reaches it. A [nil] tweak is [None]. The workers of a batch share only the key, and
    each writes its own slot. *)

From S2P Require Import Prelude GoStd Aead Aes Keyring Lock LockHandler KeyService Lru CryptoSvc Fpe.
Local Open Scope Z_scope.

Module Tokenize.
Import LockHandler KeyService.

Definition ErrKeyNotFound : error := sentinel "tokenize" "ErrKeyNotFound" "key not found".
Definition ErrTransformationNotFound : error :=
  sentinel "tokenize" "ErrTransformationNotFound" "transformation not found".
Definition ErrInvalidInput : error := sentinel "tokenize" "ErrInvalidInput" "invalid input".
Definition ErrEncryptionFailed : error := sentinel "tokenize" "ErrEncryptionFailed" "FPE encryption failed".
Definition ErrDecryptionFailed : error := sentinel "tokenize" "ErrDecryptionFailed" "FPE decryption failed".
Definition ErrLockServiceRequired : error :=
  sentinel "tokenize" "ErrLockServiceRequired" "lock service connection required".

Record KeyInfo := { Key : bytes; Version : Z }.
Record FPEResult := { Value : string; KeyVersion : Z; Reference : string; Error_ : option error }.
Record FPEBatchItem := { bValue : string; bTweak : option bytes; bReference : string }.
Record Transformation := {
  Name : string; Alphabet : string; Pattern : string; Description : string; BuiltIn : bool }.

(** ** Masking *)

Fixpoint repeat_string (s : string) (n : nat) : string :=
  match n with O => "" | S n' => s +:+ repeat_string s n' end.

(** A slice out of range is a run-time panic. The two numbers are Go [int]s; the
    handler, the only caller, converts them from [int32], so their sum is exact. *)
Definition Mask (value : string) (preserveFirst preserveLast : Z) (maskChar : string)
    : outcome (result string) :=
  if slen value =? 0 then Ret (Err ErrInvalidInput)
  else
    let maskChar := if bool_decide (maskChar = "") then "*" else maskChar in
    let totalPreserve := preserveFirst + preserveLast in
    if slen value <=? totalPreserve then Ret (Ok value)
    else
      let! first :=
        if 0 <? preserveFirst then
          if slen value <? preserveFirst then Panic "slice bounds out of range"
          else Ret (Strings.take (Z.to_nat preserveFirst) value)
        else Ret "" in
      let maskLen := slen value - totalPreserve in
      let middle := repeat_string maskChar (Z.to_nat maskLen) in
      let! last :=
        if 0 <? preserveLast then
          if slen value - preserveLast <? 0 then Panic "slice bounds out of range"
          else Ret (Strings.drop (Z.to_nat (slen value - preserveLast)) value)
        else Ret "" in
      Ret (Ok (first +:+ (middle +:+ last))).

Section service.
Context {F : FF1} {L : LRU string KeyInfo} {St : Type} {KS : KeyService St}.

Record TokenizeService := {
  keyCache : lru string KeyInfo;
  lockClient : bool;
  customTransformations : gmap string Transformation
}.

Definition set_keyCache (c : lru string KeyInfo) (s : TokenizeService) : TokenizeService :=
  {| keyCache := c; lockClient := lockClient s; customTransformations := customTransformations s |}.
Definition set_custom (m : gmap string Transformation) (s : TokenizeService) : TokenizeService :=
  {| keyCache := keyCache s; lockClient := lockClient s; customTransformations := m |}.

(** [conn] is the outcome of [grpc.NewClient]. *)
Definition NewTokenizeService (address : string) (conn : result unit) : result TokenizeService :=
  match lru_New 10000 with
  | None => Err (wrapError "failed to create key cache" (errorString "must provide a positive size"))
  | Some c =>
      if bool_decide (address = "") then Err (errorString "lock service address is required")
      else match conn with
           | Err e => Err (wrapError "failed to connect to Lock service" e)
           | Ok _ => Ok {| keyCache := c; lockClient := true; customTransformations := ∅ |}
           end
  end.

Definition getKey (s : TokenizeService) (rpc : option St) (keyName : string)
    : TokenizeService * result KeyInfo :=
  let (c, cached) := lru_Get (keyCache s) keyName in
  let s := set_keyCache c s in
  match cached with
  | Some info => (s, Ok info)
  | None =>
      if negb (lockClient s) then (s, Err ErrLockServiceRequired)
      else match rpc with
           | None => (s, Err ErrKeyNotFound)
           | Some st =>
               match ks_get st keyName 0 with
               | Err _ => (s, Err ErrKeyNotFound)
               | Ok resp =>
                   let keyInfo := {| Key := ek_Key resp; Version := ek_Version resp |} in
                   (set_keyCache (lru_Add (keyCache s) keyName keyInfo).1 s, Ok keyInfo)
               end
           end
  end.

Definition InvalidateKey (s : TokenizeService) (keyName : string) : TokenizeService :=
  set_keyCache (lru_Remove (keyCache s) keyName).1 s.

Definition newCipher (keyInfo : KeyInfo) (alphabet : string) : result Fpe.Cipher :=
  Fpe.NewCipher (Key keyInfo) alphabet.

Definition getAlphabet (s : TokenizeService) (transformation customAlphabet : string) : result string :=
  if negb (bool_decide (customAlphabet = "")) then Ok customAlphabet
  else if negb (bool_decide (transformation = "")) then
    match Fpe.GetTransformation transformation with
    | Some trans => Ok (Fpe.Alphabet trans)
    | None =>
        match customTransformations s !! transformation with
        | Some trans => Ok (Alphabet trans)
        | None => Err ErrTransformationNotFound
        end
    end
  else Ok Fpe.AlphabetNumeric.

(** [if tweak != nil { EncryptWithTweak } else { Encrypt }] *)
Definition fpe_encrypt (c : Fpe.Cipher) (plaintext : string) (tweak : option bytes) : result string :=
  match tweak with
  | Some t => Fpe.EncryptWithTweak c plaintext (Some t)
  | None => Fpe.Encrypt c plaintext
  end.

Definition fpe_decrypt (c : Fpe.Cipher) (ciphertext : string) (tweak : option bytes) : result string :=
  match tweak with
  | Some t => Fpe.DecryptWithTweak c ciphertext (Some t)
  | None => Fpe.Decrypt c ciphertext
  end.

(** The common shape of [FPEEncrypt] and [FPEDecrypt]: key, alphabet, cipher, then the
    operation [op], whose errors are all reported as [failed]. *)
Definition with_cipher (op : Fpe.Cipher → string → option bytes → result string) (failed : error)
    (s : TokenizeService) (rpc : option St) (keyName text transformation customAlphabet : string)
    (tweak : option bytes) : TokenizeService * result (string * Z) :=
  let (s', k) := getKey s rpc keyName in
  (s', let? keyInfo := k in
       let? alphabet := getAlphabet s' transformation customAlphabet in
       let? cipher := newCipher keyInfo alphabet in
       match op cipher text tweak with
       | Err _ => Err failed
       | Ok out => Ok (out, Version keyInfo)
       end).

Definition FPEEncrypt := with_cipher fpe_encrypt ErrEncryptionFailed.
Definition FPEDecrypt := with_cipher fpe_decrypt ErrDecryptionFailed.

(** The common shape of the two batch operations. *)
Definition batch_item (op : Fpe.Cipher → string → option bytes → result string) (keyInfo : KeyInfo)
    (alphabet : string) (itm : FPEBatchItem) : FPEResult :=
  match newCipher keyInfo alphabet with
  | Err cipherErr =>
      {| Value := ""; KeyVersion := 0; Reference := bReference itm; Error_ := Some cipherErr |}
  | Ok cipher =>
      let res := op cipher (bValue itm) (bTweak itm) in
      {| Value := match res with Ok v => v | Err _ => "" end; KeyVersion := Version keyInfo;
         Reference := bReference itm; Error_ := match res with Ok _ => None | Err e => Some e end |}
  end.

Definition with_cipher_batch (op : Fpe.Cipher → string → option bytes → result string)
    (s : TokenizeService) (rpc : option St) (keyName transformation customAlphabet : string)
    (items : list FPEBatchItem) : TokenizeService * list FPEResult :=
  let failed err := (λ itm, {| Value := ""; KeyVersion := 0; Reference := bReference itm;
                               Error_ := Some err |}) <$> items in
  let (s', k) := getKey s rpc keyName in
  (s', match k with
       | Err err => failed err
       | Ok keyInfo =>
           match getAlphabet s' transformation customAlphabet with
           | Err err => failed err
           | Ok alphabet => batch_item op keyInfo alphabet <$> items
           end
       end).

Definition FPEEncryptBatch := with_cipher_batch fpe_encrypt.
Definition FPEDecryptBatch := with_cipher_batch fpe_decrypt.

(** ** Transformations *)

Definition built_in (name : string) (trans : Fpe.Transformation) : Transformation :=
  {| Name := name; Alphabet := Fpe.Alphabet trans; Pattern := Fpe.Pattern trans;
     Description := Fpe.Description trans; BuiltIn := true |}.

(** Built-in first, then custom; each in the order its map happens to be walked. *)
Definition ListTransformations (s : TokenizeService) : list Transformation :=
  ((λ nt : string * Fpe.Transformation, built_in nt.1 nt.2) <$> map_to_list Fpe.BuiltInTransformations) ++
  (map_to_list (customTransformations s)).*2.

Definition CreateTransformation (s : TokenizeService) (name alphabet pattern description : string)
    : TokenizeService * result Transformation :=
  if bool_decide (name = "") || bool_decide (alphabet = "") then (s, Err ErrInvalidInput)
  else match Fpe.GetTransformation name with
  | Some _ => (s, Err (errorString "cannot override built-in transformation"))
  | None =>
      let trans := {| Name := name; Alphabet := alphabet; Pattern := pattern;
                      Description := description; BuiltIn := false |} in
      (set_custom (<[name := trans]> (customTransformations s)) s, Ok trans)
  end.

Definition GetTransformation (s : TokenizeService) (name : string) : result Transformation :=
  match Fpe.GetTransformation name with
  | Some trans => Ok (built_in name trans)
  | None =>
      match customTransformations s !! name with
      | Some trans => Ok trans
      | None => Err ErrTransformationNotFound
      end
  end.

Definition DeleteTransformation (s : TokenizeService) (name : string) : TokenizeService * option error :=
  match Fpe.GetTransformation name with
  | Some _ => (s, Some (errorString "cannot delete built-in transformation"))
  | None =>
      match customTransformations s !! name with
      | None => (s, Some ErrTransformationNotFound)
      | Some _ => (set_custom (delete name (customTransformations s)) s, None)
      end
  end.

(** ** Lemmas *)

Lemma fpe_encrypt_tweak c x t : fpe_encrypt c x t = Fpe.EncryptWithTweak c x t.
Proof. by destruct t. Qed.

Lemma fpe_decrypt_tweak c x t : fpe_decrypt c x t = Fpe.DecryptWithTweak c x t.
Proof. by destruct t. Qed.

Lemma getKey_custom s rpc name :
  customTransformations (getKey s rpc name).1 = customTransformations s ∧
  lockClient (getKey s rpc name).1 = lockClient s.
Proof.
  unfold getKey. destruct (lru_Get _ _) as [c [i|]]; cbn; [done|].
  destruct (negb (lockClient s)); [done|]. destruct rpc as [st|]; [|done].
  by destruct (ks_get st name 0).
Qed.

Lemma getAlphabet_custom s s' tr al :
  customTransformations s' = customTransformations s → getAlphabet s' tr al = getAlphabet s tr al.
Proof. intros E. unfold getAlphabet. by rewrite E. Qed.

Context {LL : LRULaws string KeyInfo}.

(** A key that was just obtained is cached, so the next call gets it again. *)
Lemma getKey_again s rpc name s' info rpc2 :
  lru_ok (keyCache s) → getKey s rpc name = (s', Ok info) →
  lru_ok (keyCache s') ∧ (getKey s' rpc2 name).2 = Ok info.
Proof.
  intros Hok Hg. assert (lru_ok (keyCache s') ∧ lru_Peek (keyCache s') name = Some info) as [Hok' Hp].
  { unfold getKey in Hg. pose proof (lru_Get_ok _ name Hok) as [Hok1 _].
    pose proof (lru_Get_value _ name Hok) as Hv. pose proof (lru_Get_Peek _ name name Hok) as Hp.
    destruct (lru_Get _ _) as [c [i|]]; cbn in *.
    - injection Hg as <- <-. cbn. by rewrite Hp.
    - destruct (lockClient s); cbn in Hg; [|done]. destruct rpc as [st|]; [|done].
      destruct (ks_get st name 0); [|done]. injection Hg as <- <-. cbn.
      split; [by apply lru_Add_ok|by apply lru_Add_same]. }
  split; [done|]. unfold getKey. pose proof (lru_Get_value _ name Hok') as Hv. rewrite Hp in Hv.
  destruct (lru_Get (keyCache s') name) as [c o]. cbn in Hv. by subst o.
Qed.

Context {FL : FF1Laws F}.

(** What a successful encryption has used. *)
Lemma with_cipher_inv op failed s rpc name text tr al tw s' out v :
  with_cipher op failed s rpc name text tr al tw = (s', Ok (out, v)) →
  ∃ info a c, getKey s rpc name = (s', Ok info) ∧ getAlphabet s tr al = Ok a ∧
    newCipher info a = Ok c ∧ op c text tw = Ok out ∧ v = Version info.
Proof.
  unfold with_cipher. pose proof (getKey_custom s rpc name) as [Hcu _].
  destruct (getKey s rpc name) as [s1 [info|e]]; cbn in *; [|done].
  rewrite (getAlphabet_custom s s1) by done.
  destruct (getAlphabet s tr al) as [a|]; cbn; [|done].
  destruct (newCipher info a) as [c|] eqn:Hc; cbn; [|done].
  destruct (op c text tw) as [o|] eqn:Ho; [|done]. intros [= <- <- <-]. by exists info, a, c.
Qed.

(** The alphabet that a request selects. *)
Definition digit_request (s : TokenizeService) (transformation customAlphabet : string) : bool :=
  match getAlphabet s transformation customAlphabet with
  | Ok a => Fpe.digit_alphabet a
  | Err _ => false
  end.

(** ** Properties *)

(** C14. Tokenisation round trip: when a value is encrypted under a transformation over
    digits (credit-card, ssn, phone, numeric, alphanumeric, the default, or a custom
    alphabet made of the digits of its length), the token has the length of the value,
    and decrypting it with the same request by the service in the state encryption left
    returns the value and the same key version, whatever the vault has become. *)
Theorem token_roundtrip s rpc name pt tr al tw s' ct v rpc2 :
  lru_ok (keyCache s) → digit_request s tr al = true →
  FPEEncrypt s rpc name pt tr al tw = (s', Ok (ct, v)) →
  String.length ct = String.length pt ∧
  (FPEDecrypt s' rpc2 name ct tr al tw).2 = Ok (pt, v).
Proof.
  intros Hok Hd He. apply with_cipher_inv in He as (info & a & c & Hg & Ha & Hc & Ho & ->).
  unfold digit_request in Hd. rewrite Ha in Hd. rewrite fpe_encrypt_tweak in Ho.
  destruct (Fpe.roundtrip_with_tweak _ _ _ _ _ _ Hc Hd Ho) as (Hl & _ & Hdec). split; [done|].
  destruct (getKey_again _ _ _ _ _ rpc2 Hok Hg) as [_ Hg2].
  unfold FPEDecrypt, with_cipher. pose proof (getKey_custom s' rpc2 name) as [Hcu2 _].
  pose proof (getKey_custom s rpc name) as [Hcu _]. rewrite Hg in Hcu. cbn in Hcu.
  destruct (getKey s' rpc2 name) as [s2 k]. cbn in *. subst k. cbn.
  rewrite (getAlphabet_custom s s2), Ha by congruence. cbn. rewrite Hc. cbn.
  by rewrite fpe_decrypt_tweak, Hdec.
Qed.

(** Tokens do not survive a key change: after [InvalidateKey], which is meant for
    rotations, or when the cache has dropped the key, decryption uses whatever version
    the vault calls latest then. If that is another version than the one the token was
    made with, the service decrypts with another key and reports that version, without
    an error of its own. *)
Theorem tokens_follow_latest_key s st name ct tr al tw r :
  lru_ok (keyCache s) → lockClient s = true → ks_get st name 0 = Ok r →
  (FPEDecrypt (InvalidateKey s name) (Some st) name ct tr al tw).2 =
    let? alphabet := getAlphabet s tr al in
    let? cipher := Fpe.NewCipher (ek_Key r) alphabet in
    match fpe_decrypt cipher ct tw with
    | Err _ => Err ErrDecryptionFailed
    | Ok out => Ok (out, ek_Version r)
    end.
Proof.
  intros Hok Hl Hr. unfold FPEDecrypt, with_cipher, getKey, InvalidateKey.
  pose proof (lru_Remove_ok _ name Hok) as [Hok' _].
  pose proof (lru_Remove_Peek _ name name Hok) as Hp. rewrite bool_decide_true in Hp by done.
  cbn [keyCache set_keyCache]. pose proof (lru_Get_value _ name Hok') as Hv. rewrite Hp in Hv.
  destruct (lru_Get _ name) as [c o]. cbn in Hv. subst o. cbn. rewrite Hl. cbn. rewrite Hr. cbn.
  by erewrite (getAlphabet_custom s).
Qed.

(** A batch is the single operation on each item, with one key for all: the results
    are in the order of the items, with their references, and an item succeeds with a
    token exactly when [FPEEncrypt] of that item does, with the same token and version. *)
Theorem batch_is_pointwise s rpc name tr al items s' results :
  FPEEncryptBatch s rpc name tr al items = (s', results) →
  length results = length items ∧
  ∀ i itm res, items !! i = Some itm → results !! i = Some res →
    Reference res = bReference itm ∧
    (FPEEncrypt s rpc name (bValue itm) tr al (bTweak itm)).1 = s' ∧
    ∀ ct v, (Error_ res = None ∧ Value res = ct ∧ KeyVersion res = v) ↔
            (FPEEncrypt s rpc name (bValue itm) tr al (bTweak itm)).2 = Ok (ct, v).
Proof.
  unfold FPEEncryptBatch, with_cipher_batch, FPEEncrypt, with_cipher.
  destruct (getKey s rpc name) as [s1 [info|e]]; intros [= <- <-]; cbn.
  2:{ rewrite length_fmap. split; [done|]. intros i itm res Hi. rewrite list_lookup_fmap, Hi. cbn.
      intros [= <-]. cbn. naive_solver. }
  destruct (getAlphabet s1 tr al) as [a|e]; rewrite length_fmap; (split; [done|]);
    intros i itm res Hi; rewrite list_lookup_fmap, Hi; cbn; intros [= <-]; [|cbn; naive_solver].
  unfold batch_item. destruct (newCipher info a) as [c|e]; cbn; [|naive_solver].
  destruct (fpe_encrypt c (bValue itm) (bTweak itm)); cbn; naive_solver.
Qed.

(** Built-in transformations are fixed: no creation or deletion changes what any of
    their names stands for; and a custom one can be read back as it was created and is
    gone after it is deleted, without effect on other names. *)
Theorem transformation_lifecycle s name al pat descr s' trans :
  CreateTransformation s name al pat descr = (s', Ok trans) →
  Fpe.GetTransformation name = None ∧ trans = Build_Transformation name al pat descr false ∧
  GetTransformation s' name = Ok trans ∧ getAlphabet s' name "" = Ok al ∧
  (∀ other, other ≠ name → GetTransformation s' other = GetTransformation s other) ∧
  ∃ s'', DeleteTransformation s' name = (s'', None) ∧
    GetTransformation s'' name = Err ErrTransformationNotFound ∧
    ∀ other, other ≠ name → GetTransformation s'' other = GetTransformation s other.
Proof.
  unfold CreateTransformation. destruct (bool_decide (name = "")) eqn:Hn; [done|].
  destruct (bool_decide (al = "")); [done|]. cbn.
  destruct (Fpe.GetTransformation name) eqn:Hb; [done|]. intros [= <- <-].
  unfold GetTransformation, DeleteTransformation, getAlphabet. cbn. rewrite Hb, Hn. cbn.
  rewrite lookup_insert_eq. split_and!; [done..| |].
  - intros o Ho. destruct (Fpe.GetTransformation o); [done|]. by rewrite lookup_insert_ne.
  - eexists. split; [done|]. cbn. rewrite lookup_delete_eq. split; [done|]. intros o Ho.
    destruct (Fpe.GetTransformation o); [done|]. by rewrite lookup_delete_ne, lookup_insert_ne.
Qed.
End service.

(** ** Masking *)

Lemma repeat_string_bytes b n : to_bytes (repeat_string (String b "") n) = replicate n b.
Proof. induction n as [|n IH]; [done|]. cbn [repeat_string]. by rewrite to_bytes_app, IH. Qed.

(** Masking: for a non-empty value, numbers of characters to keep that are not
    negative, and a mask of one byte, [Mask] keeps the value as it is when there is
    nothing left to mask, and otherwise returns the first [first] bytes, the mask byte
    in place of every byte between, and the last [last] bytes: as many bytes as the value
    has, and it never panics. *)
Theorem mask_keeps_ends value first last b :
  value ≠ "" → 0 ≤ first → 0 ≤ last →
  if slen value <=? first + last then Mask value first last (String b "") = Ret (Ok value)
  else ∃ out, Mask value first last (String b "") = Ret (Ok out) ∧ slen out = slen value ∧
    to_bytes out = take (Z.to_nat first) (to_bytes value) ++
                   replicate (Z.to_nat (slen value - first - last)) b ++
                   drop (Z.to_nat (slen value - last)) (to_bytes value).
Proof.
  intros Hv Hf Hl. unfold Mask. assert (0 < slen value) as Hpos.
  { destruct value; [done|]. unfold slen. cbn. lia. }
  rewrite (proj2 (Z.eqb_neq (slen value) 0)) by lia. rewrite bool_decide_false by done.
  destruct (Z.leb_spec (slen value) (first + last)) as [|Hlt]; [done|].
  assert (∀ f l : string, to_bytes f = take (Z.to_nat first) (to_bytes value) →
    to_bytes l = drop (Z.to_nat (slen value - last)) (to_bytes value) →
    let out := f +:+ (repeat_string (String b "") (Z.to_nat (slen value - (first + last))) +:+ l) in
    slen out = slen value ∧
    to_bytes out = take (Z.to_nat first) (to_bytes value) ++
                   replicate (Z.to_nat (slen value - first - last)) b ++
                   drop (Z.to_nat (slen value - last)) (to_bytes value)) as Hout.
  { intros f l E1 E2 out.
    assert (to_bytes out = take (Z.to_nat first) (to_bytes value) ++
              replicate (Z.to_nat (slen value - first - last)) b ++
              drop (Z.to_nat (slen value - last)) (to_bytes value)) as E.
    { subst out. rewrite !to_bytes_app, E1, E2, repeat_string_bytes.
      by replace (slen value - (first + last)) with (slen value - first - last) by lia. }
    split; [|done]. unfold slen in *. rewrite <- (length_to_bytes out), E, !length_app, length_take,
      length_replicate, length_drop, length_to_bytes. lia. }
  destruct (Z.ltb_spec 0 first) as [Hf0|Hf0]; destruct (Z.ltb_spec 0 last) as [Hl0|Hl0];
    rewrite ?(proj2 (Z.ltb_ge (slen value) first)) by lia; cbn [obind];
    rewrite ?(proj2 (Z.ltb_ge (slen value - last) 0)) by lia; cbn [obind];
    (eexists; split; [reflexivity|]); apply Hout;
    rewrite ?Strings.to_bytes_take, ?Strings.to_bytes_drop; try done.
  - rewrite drop_ge; [done|]. rewrite length_to_bytes. unfold slen in *. lia.
  - by replace first with 0 by lia.
  - by replace first with 0 by lia.
  - rewrite drop_ge; [done|]. rewrite length_to_bytes. unfold slen in *. lia.
Qed.

(** Panics and errors of [Mask], for its callers too. *)
Lemma mask_panic_bounds value first last m :
  (∃ msg, Mask value first last m = Panic msg) ↔
  value ≠ "" ∧ first + last < slen value ∧ (slen value < first ∨ slen value < last).
Proof.
  unfold Mask. destruct (Z.eqb_spec (slen value) 0) as [Hz|Hz].
  { destruct value; [|unfold slen in Hz; cbn in Hz; lia]. naive_solver. }
  assert (value ≠ "") as Hv by (by intros ->).
  assert (0 ≤ slen value) as Hpos by (unfold slen; lia).
  destruct (Z.leb_spec (slen value) (first + last)) as [|Hlt]; [split; [naive_solver|lia]|].
  destruct (Z.ltb_spec 0 first), (Z.ltb_spec 0 last), (Z.ltb_spec (slen value) first),
    (Z.ltb_spec (slen value - last) 0); cbn; split; try lia; naive_solver lia.
Qed.

Lemma mask_error value first last m e : Mask value first last m = Ret (Err e) → e = ErrInvalidInput.
Proof.
  unfold Mask. destruct (slen value =? 0); [by intros [= <-]|].
  destruct (_ <=? _); [done|]. destruct (0 <? first), (0 <? last); cbn; repeat case_match; try done.
Qed.

(** The panics of [Mask], exactly: a non-empty value with something left to mask,
    and one of the two numbers larger than the value's length, which takes a negative
    number for the other one. *)
Theorem mask_panics value first last m :
  (∃ msg, Mask value first last m = Panic msg) ↔
  value ≠ "" ∧ first + last < slen value ∧ (slen value < first ∨ slen value < last).
Proof. apply mask_panic_bounds. Qed.

(** ** Examples *)

#[local] Existing Instance ListLru.ListLru.
#[local] Existing Instance ListLru.ListLru_laws.
#[local] Existing Instance Fpe.ShiftFF1.
#[local] Existing Instance Fpe.ShiftFF1_laws.

Definition demo_tokenize : TokenizeService (L := ListLru.ListLru) :=
  {| keyCache := {| ListLru.items := []; ListLru.cap := 10000 |} : @lru string KeyInfo ListLru.ListLru;
     lockClient := true; customTransformations := ∅ |}.

Lemma demo_tokenize_ok : lru_ok (keyCache demo_tokenize).
Proof. cbn. unfold ListLru.ok. cbn. split_and!; [constructor|lia|vm_compute; discriminate]. Qed.

Definition demo_tokenized := FPEEncrypt demo_tokenize (Some Lock.demo_vault) "k" "4111111111111111"
  "credit-card" "" None.
Definition demo_token : string := match demo_tokenized.2 with Ok (t, _) => t | Err _ => "" end.

Lemma token_roundtrip_witness :
  (FPEDecrypt demo_tokenized.1 None "k" demo_token "credit-card" "" None).2 = Ok ("4111111111111111", 1).
Proof.
  apply (token_roundtrip demo_tokenize (Some Lock.demo_vault) "k" "4111111111111111" "credit-card" "" None
           demo_tokenized.1 demo_token 1 None); [apply demo_tokenize_ok|reflexivity|reflexivity].
Defined.

(** After a rotation the same token decrypts, without error, to another number. *)
Lemma tokens_follow_latest_key_witness :
  ∃ other, (FPEDecrypt (InvalidateKey demo_tokenized.1 "k") (Some CryptoSvc.demo_rotated) "k" demo_token
              "credit-card" "" None).2 = Ok (other, 2) ∧ other ≠ "4111111111111111".
Proof.
  assert (lru_ok (keyCache demo_tokenized.1)) as Hok.
  { apply (bool_decide_unpack (NoDup _ ∧ _ < _ ∧ _ ≤ _)). vm_compute. exact I. }
  eexists. rewrite (tokens_follow_latest_key demo_tokenized.1 CryptoSvc.demo_rotated "k" demo_token
    "credit-card" "" None {| ek_Key := replicate 32 zero; ek_Version := 2; ek_Type := KEY_TYPE_AES256_GCM |}
    Hok); [split; [reflexivity|discriminate]|reflexivity|vm_compute; reflexivity].
Defined.

Definition demo_batch : list FPEBatchItem :=
  [{| bValue := "12"; bTweak := None; bReference := "a" |};
   {| bValue := "x"; bTweak := Some [one]; bReference := "b" |}].

Lemma batch_is_pointwise_witness :
  length (FPEEncryptBatch demo_tokenize (Some Lock.demo_vault) "k" "ssn" "" demo_batch).2 = 2%nat.
Proof.
  apply (batch_is_pointwise demo_tokenize (Some Lock.demo_vault) "k" "ssn" "" demo_batch
    (FPEEncryptBatch demo_tokenize (Some Lock.demo_vault) "k" "ssn" "" demo_batch).1). reflexivity.
Defined.

Lemma transformation_lifecycle_witness :
  let s' := (CreateTransformation demo_tokenize "hex" "0123456789abcdef" "" "").1 in
  getAlphabet s' "hex" "" = Ok "0123456789abcdef".
Proof.
  apply (transformation_lifecycle demo_tokenize "hex" "0123456789abcdef" "" ""
    (CreateTransformation demo_tokenize "hex" "0123456789abcdef" "" "").1
    {| Name := "hex"; Alphabet := "0123456789abcdef"; Pattern := ""; Description := ""; BuiltIn := false |}).
  reflexivity.
Defined.

Lemma mask_keeps_ends_witness : ∃ out, Mask "4111111111111111" 0 4 "*" = Ret (Ok out) ∧ slen out = 16.
Proof.
  destruct (mask_keeps_ends "4111111111111111" 0 4 "*"%char ltac:(discriminate) ltac:(lia) ltac:(lia))
    as (out & H1 & H2 & _).
  exists out. split; [exact H1|exact H2].
Defined.
End Tokenize.
