(* ===== verification/TokenizeHandler.v ===== *)
(** * services/tokenize/internal/handler: the gRPC face of the tokenize service

    One definition per method of [TokenizeHandler]. A message is a record of the fields
    the handler touches; [Pattern] of a mask request is a pointer, so an [option]. *)

From S2P Require Import Prelude GoStd Aead Aes Keyring Lock LockHandler KeyService Lru CryptoSvc Fpe Tokenize.
Local Open Scope Z_scope.

Module TokenizeHandler.
Import KeyService Tokenize.

(** [fq_Text] is the plaintext of an encryption request, the ciphertext of a decryption. *)
Record FPERequest := {
  fq_KeyName : string;
  fq_Text : string;
  fq_Transformation : string;
  fq_Alphabet : string;
  fq_Tweak : option bytes
}.
Record FPEResponse := { fp_Text : string; fp_KeyVersion : Z }.
Record FPEBatchResult := { fr_Value : string; fr_KeyVersion : Z; fr_Reference : string; fr_Error : string }.
Record MaskPattern := { PreserveFirst : Z; PreserveLast : Z; MaskChar : string }.
Record MaskBatchItem := { mi_Value : string; mi_Reference : string }.
Record MaskBatchResult := { mr_MaskedValue : string; mr_Reference : string; mr_Error : string }.
Record ProtoTransformation := { pt_Name : string; pt_Alphabet : string; pt_Pattern : string; pt_Description : string }.

Definition to_proto (t : Transformation) : ProtoTransformation :=
  {| pt_Name := Name t; pt_Alphabet := Alphabet t; pt_Pattern := Pattern t; pt_Description := Description t |}.

Definition err_msg (e : option error) : string := match e with Some e => Error e | None => "" end.

Definition convert (r : FPEResult) : FPEBatchResult :=
  {| fr_Value := Value r; fr_KeyVersion := int32 (KeyVersion r); fr_Reference := Reference r;
     fr_Error := err_msg (Error_ r) |}.

(** The pattern of a request, with the mask character's default. *)
Definition pattern_of (p : option MaskPattern) : Z * Z * string :=
  match p with
  | None => (0, 0, "*")
  | Some p => (PreserveFirst p, PreserveLast p,
               if bool_decide (MaskChar p = "") then "*" else MaskChar p)
  end.

Definition Mask (value : string) (pattern : option MaskPattern) : outcome (result string) :=
  if bool_decide (value = "") then Ret (Err (statusError InvalidArgument "value is required"))
  else
    let '(first, last, maskChar) := pattern_of pattern in
    let! res := Tokenize.Mask value first last maskChar in
    Ret match res with
        | Err err => Err (statusError Internal (Error err))
        | Ok masked => Ok masked
        end.

(** The loop over the items; a panic of one item ends the whole call. *)
Fixpoint mask_items (items : list MaskBatchItem) (first last : Z) (maskChar : string)
    : outcome (list MaskBatchResult) :=
  match items with
  | [] => Ret []
  | item :: items' =>
      let! res := Tokenize.Mask (mi_Value item) first last maskChar in
      let r := match res with
               | Ok masked => {| mr_MaskedValue := masked; mr_Reference := mi_Reference item; mr_Error := "" |}
               | Err err => {| mr_MaskedValue := ""; mr_Reference := mi_Reference item; mr_Error := Error err |}
               end in
      let! rest := mask_items items' first last maskChar in
      Ret (r :: rest)
  end.

Definition MaskBatch (items : list MaskBatchItem) (pattern : option MaskPattern)
    : outcome (result (list MaskBatchResult)) :=
  if (length items =? 0)%nat then Ret (Err (statusError InvalidArgument "items is required"))
  else
    let '(first, last, maskChar) := pattern_of pattern in
    let! results := mask_items items first last maskChar in
    Ret (Ok results).

Section handler.
Context {F : FF1} {L : LRU string KeyInfo} {St : Type} {KS : KeyService St}.

(** The error mapping of the two operations; [msg] is the text of the last case. *)
Definition fpe_error (err : error) (msg : string) : error :=
  if bool_decide (err = ErrKeyNotFound) then statusError NotFound "key not found"
  else if bool_decide (err = ErrTransformationNotFound) then statusError NotFound "transformation not found"
  else statusError Internal msg.

Definition FPEEncrypt (s : TokenizeService) (rpc : option St) (req : FPERequest)
    : TokenizeService * result FPEResponse :=
  if bool_decide (fq_KeyName req = "") then (s, Err (statusError InvalidArgument "key_name is required"))
  else if bool_decide (fq_Text req = "") then (s, Err (statusError InvalidArgument "plaintext is required"))
  else
    let (s', res) := Tokenize.FPEEncrypt s rpc (fq_KeyName req) (fq_Text req) (fq_Transformation req)
                       (fq_Alphabet req) (fq_Tweak req) in
    (s', match res with
         | Err err => Err (fpe_error err "encryption failed")
         | Ok (ciphertext, version) => Ok {| fp_Text := ciphertext; fp_KeyVersion := int32 version |}
         end).

Definition FPEDecrypt (s : TokenizeService) (rpc : option St) (req : FPERequest)
    : TokenizeService * result FPEResponse :=
  if bool_decide (fq_KeyName req = "") then (s, Err (statusError InvalidArgument "key_name is required"))
  else if bool_decide (fq_Text req = "") then (s, Err (statusError InvalidArgument "ciphertext is required"))
  else
    let (s', res) := Tokenize.FPEDecrypt s rpc (fq_KeyName req) (fq_Text req) (fq_Transformation req)
                       (fq_Alphabet req) (fq_Tweak req) in
    (s', match res with
         | Err err => Err (fpe_error err "decryption failed")
         | Ok (plaintext, version) => Ok {| fp_Text := plaintext; fp_KeyVersion := int32 version |}
         end).

Definition FPEEncryptBatch (s : TokenizeService) (rpc : option St)
    (keyName transformation alphabet : string) (items : list FPEBatchItem)
    : TokenizeService * result (list FPEBatchResult) :=
  if bool_decide (keyName = "") then (s, Err (statusError InvalidArgument "key_name is required"))
  else if (length items =? 0)%nat then (s, Err (statusError InvalidArgument "items is required"))
  else let (s', results) := Tokenize.FPEEncryptBatch s rpc keyName transformation alphabet items in
       (s', Ok (convert <$> results)).

Definition FPEDecryptBatch (s : TokenizeService) (rpc : option St)
    (keyName transformation alphabet : string) (items : list FPEBatchItem)
    : TokenizeService * result (list FPEBatchResult) :=
  if bool_decide (keyName = "") then (s, Err (statusError InvalidArgument "key_name is required"))
  else if (length items =? 0)%nat then (s, Err (statusError InvalidArgument "items is required"))
  else let (s', results) := Tokenize.FPEDecryptBatch s rpc keyName transformation alphabet items in
       (s', Ok (convert <$> results)).

Definition ListTransformations (s : TokenizeService) : list ProtoTransformation :=
  to_proto <$> Tokenize.ListTransformations s.

Definition GetTransformation (s : TokenizeService) (name : string) : result ProtoTransformation :=
  if bool_decide (name = "") then Err (statusError InvalidArgument "name is required")
  else match Tokenize.GetTransformation s name with
       | Err err =>
           if bool_decide (err = ErrTransformationNotFound)
           then Err (statusError NotFound "transformation not found")
           else Err (statusError Internal (Error err))
       | Ok t => Ok (to_proto t)
       end.

Definition CreateTransformation (s : TokenizeService) (name alphabet pattern description : string)
    : TokenizeService * result ProtoTransformation :=
  if bool_decide (name = "") then (s, Err (statusError InvalidArgument "name is required"))
  else let (s', res) := Tokenize.CreateTransformation s name alphabet pattern description in
       (s', match res with
            | Err err => Err (statusError Internal (Error err))
            | Ok trans => Ok (to_proto trans)
            end).

Definition DeleteTransformation (s : TokenizeService) (name : string) : TokenizeService * result bool :=
  if bool_decide (name = "") then (s, Err (statusError InvalidArgument "name is required"))
  else let (s', err) := Tokenize.DeleteTransformation s name in
       (s', match err with
            | Some err =>
                if bool_decide (err = ErrTransformationNotFound)
                then Err (statusError NotFound "transformation not found")
                else Err (statusError Internal (Error err))
            | None => Ok true
            end).
End handler.

(** ** Properties *)

(** [MaskBatch] is [Mask] on every item: with a pattern whose numbers are not
    negative it never panics, gives one result per item in order and with the item's
    reference, and each result is what the service's [Mask] answers for the item, an
    empty value being an error of that item only. *)
Theorem mask_batch_pointwise items pattern :
  items ≠ [] → 0 ≤ (pattern_of pattern).1.1 → 0 ≤ (pattern_of pattern).1.2 →
  let '(first, last, m) := pattern_of pattern in
  ∃ results, MaskBatch items pattern = Ret (Ok results) ∧
    Forall2 (λ item r, mr_Reference r = mi_Reference item ∧
      Tokenize.Mask (mi_Value item) first last m =
        Ret (if bool_decide (mr_Error r = "") then Ok (mr_MaskedValue r) else Err ErrInvalidInput))
      items results.
Proof.
  destruct (pattern_of pattern) as [[first last] m] eqn:Hp. cbn. intros Hne Hf Hl.
  unfold MaskBatch. rewrite Hp. destruct items as [|it0 its]; [done|]. cbn [length Nat.eqb].
  generalize (it0 :: its). intros items. clear Hne.
  assert (∃ results, mask_items items first last m = Ret results ∧
    Forall2 (λ item r, mr_Reference r = mi_Reference item ∧
      Tokenize.Mask (mi_Value item) first last m =
        Ret (if bool_decide (mr_Error r = "") then Ok (mr_MaskedValue r) else Err ErrInvalidInput))
      items results) as (results & -> & H); [|by exists results].
  induction items as [|item items IH]; [by exists []|].
  destruct IH as (rest & Hr & HF). cbn [mask_items].
  destruct (Tokenize.Mask (mi_Value item) first last m) as [res|msg] eqn:Hm.
  2:{ exfalso. assert (∃ msg, Tokenize.Mask (mi_Value item) first last m = Panic msg) as Hpan by eauto.
      apply mask_panic_bounds in Hpan. lia. }
  cbn [obind]. rewrite Hr. cbn. eexists. split; [done|]. constructor; [|done].
  destruct res as [masked|e]; cbn; [by rewrite Hm|].
  apply mask_error in Hm as Ee. subst e. cbn. by rewrite Hm.
Qed.

Lemma mask_batch_pointwise_witness :
  ∃ results, MaskBatch [{| mi_Value := "secret"; mi_Reference := "a" |}; {| mi_Value := ""; mi_Reference := "b" |}]
      (Some {| PreserveFirst := 1; PreserveLast := 1; MaskChar := "#" |}) = Ret (Ok results) ∧
    length results = 2%nat.
Proof.
  destruct (mask_batch_pointwise
    [{| mi_Value := "secret"; mi_Reference := "a" |}; {| mi_Value := ""; mi_Reference := "b" |}]
    (Some {| PreserveFirst := 1; PreserveLast := 1; MaskChar := "#" |})) as (results & H1 & H2);
    [discriminate|cbn; lia|cbn; lia|].
  exists results. split; [exact H1|]. symmetry. exact (Forall2_length _ _ _ H2).
Defined.
End TokenizeHandler.
