(* ===== verification/Sha256.v ===== *)
(** * crypto/sha256

    [Sum256] of Go's standard library, on lists of bytes: the padded message is cut
    into blocks of sixteen 32-bit words, and each block is compressed in 64 rounds. *)

From S2P Require Import Prelude GoStd.
Local Open Scope Z_scope.

Module Sha256.

Definition add32 (x y : Z) : Z := uint32 (x + y).
Definition rotr (x n : Z) : Z := Z.lor (Z.shiftr x n) (uint32 (Z.shiftl x (32 - n))).
Definition not32 (x : Z) : Z := 4294967295 - x.

Definition round_constants : list Z :=
  [1116352408; 1899447441; 3049323471; 3921009573; 961987163; 1508970993; 2453635748; 2870763221;
   3624381080; 310598401; 607225278; 1426881987; 1925078388; 2162078206; 2614888103; 3248222580;
   3835390401; 4022224774; 264347078; 604807628; 770255983; 1249150122; 1555081692; 1996064986;
   2554220882; 2821834349; 2952996808; 3210313671; 3336571891; 3584528711; 113926993; 338241895;
   666307205; 773529912; 1294757372; 1396182291; 1695183700; 1986661051; 2177026350; 2456956037;
   2730485921; 2820302411; 3259730800; 3345764771; 3516065817; 3600352804; 4094571909; 275423344;
   430227734; 506948616; 659060556; 883997877; 958139571; 1322822218; 1537002063; 1747873779;
   1955562222; 2024104815; 2227730452; 2361852424; 2428436474; 2756734187; 3204031479; 3329325298].

Definition initial_state : list Z :=
  [1779033703; 3144134277; 1013904242; 2773480762; 1359893119; 2600822924; 528734635; 1541459225].

Definition be32 (n : Z) : bytes := [zbyte (n / 16777216); zbyte (n / 65536); zbyte (n / 256); zbyte n].
Definition be64 (n : Z) : bytes := be32 (n / 4294967296) ++ be32 n.

(** A one bit, zeros, and the length of the message in bits. *)
Definition padding (len : nat) : bytes :=
  zbyte 128 :: replicate ((119 - len mod 64) mod 64) (zbyte 0) ++ be64 (8 * Z.of_nat len).

Fixpoint words (l : bytes) : list Z :=
  match l with
  | a :: b :: c :: d :: r => (((bval a * 256 + bval b) * 256 + bval c) * 256 + bval d) :: words r
  | _ => []
  end.

(** The 64 words of the schedule, the last one first: [w] starts with the previous 16. *)
Fixpoint schedule (n : nat) (w : list Z) : list Z :=
  match n with
  | O => w
  | S n' =>
      let at_ i := List.nth i w 0 in
      let s0 x := Z.lxor (Z.lxor (rotr x 7) (rotr x 18)) (Z.shiftr x 3) in
      let s1 x := Z.lxor (Z.lxor (rotr x 17) (rotr x 19)) (Z.shiftr x 10) in
      schedule n' (add32 (add32 (s1 (at_ 1%nat)) (at_ 6%nat)) (add32 (s0 (at_ 14%nat)) (at_ 15%nat)) :: w)
  end.

Definition round (s : list Z) (kw : Z * Z) : list Z :=
  match s with
  | [a; b; c; d; e; f; g; h] =>
      let S1 := Z.lxor (Z.lxor (rotr e 6) (rotr e 11)) (rotr e 25) in
      let ch := Z.lxor (Z.land e f) (Z.land (not32 e) g) in
      let t1 := add32 (add32 (add32 h S1) ch) (add32 kw.1 kw.2) in
      let S0 := Z.lxor (Z.lxor (rotr a 2) (rotr a 13)) (rotr a 22) in
      let maj := Z.lxor (Z.lxor (Z.land a b) (Z.land a c)) (Z.land b c) in
      let t2 := add32 S0 maj in
      [add32 t1 t2; a; b; c; add32 d t1; e; f; g]
  | _ => s
  end.

Definition compress (state : list Z) (block : bytes) : list Z :=
  let w := rev (schedule 48 (rev (words block))) in
  zip_with add32 state (List.fold_left round (zip round_constants w) state).

(** The blocks of a message whose length is a multiple of 64. *)
Fixpoint blocks (n : nat) (l : bytes) : list bytes :=
  match n with O => [] | S n' => take 64 l :: blocks n' (drop 64 l) end.

Definition Sum256 (msg : bytes) : bytes :=
  let padded := msg ++ padding (length msg) in
  concat (be32 <$> List.fold_left compress (blocks (length padded / 64) padded) initial_state).

(** ** Lemmas *)

Lemma padded_length n : ((n + length (padding n)) mod 64 = 0)%nat.
Proof.
  unfold padding. rewrite length_cons, length_app, length_replicate. unfold be64, be32. cbn [length app].
  pose proof (Nat.div_mod_eq n 64). pose proof (Nat.mod_upper_bound n 64 ltac:(lia)).
  set (k := (n mod 64)%nat) in *. set (q := (n / 64)%nat) in *.
  destruct (decide (k ≤ 55)%nat).
  - replace ((119 - k) mod 64)%nat with (55 - k)%nat.
    2:{ apply (Nat.mod_unique _ _ 1); lia. }
    symmetry. apply (Nat.mod_unique _ _ (q + 1)); lia.
  - replace ((119 - k) mod 64)%nat with (119 - k)%nat by (symmetry; apply Nat.mod_small; lia).
    symmetry. apply (Nat.mod_unique _ _ (q + 2)); lia.
Qed.

Lemma length_round s kw : length (round s kw) = length s.
Proof. unfold round. do 9 (destruct s as [|? s]; [done|]). done. Qed.

Lemma length_rounds l s : length (List.fold_left round l s) = length s.
Proof. revert s. induction l as [|x l IH]; intros s; cbn; [done|]. by rewrite IH, length_round. Qed.

Lemma length_compress s b : length (compress s b) = length s.
Proof. unfold compress. rewrite length_zip_with, length_rounds. lia. Qed.

(** The sum has 32 bytes. *)
Lemma length_Sum256 msg : length (Sum256 msg) = 32%nat.
Proof.
  unfold Sum256.
  assert (∀ bs s, length s = 8%nat → length (List.fold_left compress bs s) = 8%nat) as H.
  { induction bs as [|b bs IH]; intros s Hs; cbn; [done|]. apply IH. by rewrite length_compress. }
  pose proof (H (blocks (length (msg ++ padding (length msg)) / 64) (msg ++ padding (length msg)))
    initial_state eq_refl) as H8.
  revert H8. generalize (List.fold_left compress (blocks (length (msg ++ padding (length msg)) / 64)
    (msg ++ padding (length msg))) initial_state). intros l Hl.
  assert (∀ k, length (concat (be32 <$> k)) = (4 * length k)%nat) as Hc.
  { intros k. induction k as [|x k IH]; [done|]. rewrite fmap_cons. cbn [concat].
    rewrite length_app, IH. cbn. lia. }
  rewrite Hc. lia.
Qed.

(** The test vectors of FIPS 180. *)
Example sum_abc : Hex.EncodeToString (Sum256 (to_bytes "abc")) =
  "ba7816bf8f01cfea414140de5dae2223b00361a396177a9cb410ff61f20015ad".
Proof. vm_compute. reflexivity. Qed.

Example sum_two_blocks :
  Hex.EncodeToString (Sum256 (to_bytes "abcdbcdecdefdefgefghfghighijhijkijkljklmklmnlmnomnopnopq")) =
  "248d6a61d20638b8e5c026930c3e6039a33ce45964ff2167f6ecedd419db06c1".
Proof. vm_compute. reflexivity. Qed.
End Sha256.
