(* ===== verification/Jwt.v ===== *)
(** * pkg/auth/jwt: signed tokens

    The package wraps github.com/golang-jwt/jwt/v5, which is not code of this
    repository: [JWT] lists what the manager calls and [JWTLaws] the documented
    behaviour. [CodecJWT] is a concrete implementation of the interface, for the
    examples. A pointer to a [NumericDate] is an [option time]. Times are nanoseconds;
    the clock readings, the random bytes and the identifier [uuid.New] returns are
    arguments. A [nil] map of metadata and an empty one are the same. *)

From S2P Require Import Prelude GoStd.
Local Open Scope Z_scope.

Module Jwt.

Definition ErrInvalidToken : error := sentinel "jwt" "ErrInvalidToken" "invalid token".
Definition ErrExpiredToken : error := sentinel "jwt" "ErrExpiredToken" "token has expired".
Definition ErrInvalidSignature : error := sentinel "jwt" "ErrInvalidSignature" "invalid signature".
Definition ErrInvalidClaims : error := sentinel "jwt" "ErrInvalidClaims" "invalid claims".

Record RegisteredClaims := {
  Issuer : string;
  Subject : string;
  Audience : list string;
  ExpiresAt : option time;
  NotBefore : option time;
  IssuedAt : option time;
  ID : string
}.

Record Claims := {
  Registered : RegisteredClaims;
  Identity : string;
  TokenID : string;
  Policies : list string;
  Metadata : gmap string string
}.

(** ** The library *)

(** The kinds of [token.Method], by their Go types. *)
Inductive SigningMethod :=
  | SigningMethodECDSA | SigningMethodHMAC | SigningMethodRSA | SigningMethodRSAPSS
  | SigningMethodEd25519 | SigningMethodNone.

(** [jwt.ErrTokenExpired] of the library. *)
Definition lib_ErrTokenExpired : error := sentinel "jwt/v5" "ErrTokenExpired" "token is expired".

(** [SignedString] is [jwt.NewWithClaims(jwt.SigningMethodES256, claims).SignedString];
    [ParseWithClaims] takes the key function and the time at which it checks the
    claims, and answers with the claims and [token.Valid]. [token_method] and
    [verifies] are the method a token names and the check of its signature. *)
Class JWT := {
  PrivateKey : Type;
  PublicKey : Type;
  public_of : PrivateKey → PublicKey;
  GenerateKey : entropy → result PrivateKey;
  NewNumericDate : time → option time;
  SignedString : PrivateKey → Claims → entropy → result string;
  token_method : string → option SigningMethod;
  verifies : PublicKey → string → bool;
  ParseWithClaims : string → (SigningMethod → result PublicKey) → time → result (Claims * bool);
  lib_ParseUnverified : string → result Claims
}.

(** What is left of claims on the way through JSON: both [RegisteredClaims.ID] and
    [TokenID] are named ["jti"], and encoding/json uses the outer field only. *)
Definition wire (c : Claims) : Claims :=
  let r := Registered c in
  {| Registered := {| Issuer := Issuer r; Subject := Subject r; Audience := Audience r;
                      ExpiresAt := ExpiresAt r; NotBefore := NotBefore r;
                      IssuedAt := IssuedAt r; ID := "" |};
     Identity := Identity c; TokenID := TokenID c; Policies := Policies c; Metadata := Metadata c |}.

(** Claims that JSON carries unchanged: texts are valid UTF-8, and dates are whole
    seconds that a [float64] represents. *)
Definition date_ok (d : option time) : bool :=
  match d with None => true | Some t => (t mod Second =? 0) && (Z.abs (Unix t) <? 2 ^ 53) end.

Definition texts_ok (identity tokenID : string) (policies : list string)
    (metadata : gmap string string) : bool :=
  forallb Utf8.ValidString (identity :: tokenID :: policies) &&
  forallb (λ kv : string * string, Utf8.ValidString kv.1 && Utf8.ValidString kv.2) (map_to_list metadata).

Definition carried (c : Claims) : bool :=
  let r := Registered c in
  texts_ok (Identity c) (TokenID c) (Policies c) (Metadata c) &&
  forallb Utf8.ValidString (Issuer r :: Subject r :: Audience r) &&
  forallb date_ok [ExpiresAt r; NotBefore r; IssuedAt r].

Definition is_expired (c : Claims) (now : time) : bool :=
  match ExpiresAt (Registered c) with None => false | Some e => e <=? now end.
Definition is_premature (c : Claims) (now : time) : bool :=
  match NotBefore (Registered c) with None => false | Some b => now <? b end.

(** [NewNumericDate] cuts to whole seconds. *)
Class JWTLaws (J : JWT) : Prop := {
  numeric_date t : NewNumericDate t = Some (t - t mod Second);
  parse_signed sk c r tok keyFunc now :
    SignedString sk c r = Ok tok → carried c = true →
    keyFunc SigningMethodECDSA = Ok (public_of sk) →
    if is_expired c now
    then ∃ e, ParseWithClaims tok keyFunc now = Err e ∧ errors_Is e lib_ErrTokenExpired = true
    else if is_premature c now
    then ∃ e, ParseWithClaims tok keyFunc now = Err e ∧ errors_Is e lib_ErrTokenExpired = false
    else ParseWithClaims tok keyFunc now = Ok (wire c, true);
  parse_sound tok keyFunc now c valid :
    ParseWithClaims tok keyFunc now = Ok (c, valid) →
    valid = true ∧ lib_ParseUnverified tok = Ok c ∧ is_expired c now = false ∧ is_premature c now = false ∧
    ∃ m pk, token_method tok = Some m ∧ keyFunc m = Ok pk ∧ verifies pk tok = true;
  parse_unverified sk c r tok :
    SignedString sk c r = Ok tok → carried c = true → lib_ParseUnverified tok = Ok (wire c)
}.

Definition Hour : Z := 3600 * Second.

(** ** The manager *)
Section manager.
Context {J : JWT}.

Record Manager := {
  privateKey : PrivateKey;
  publicKey : PublicKey;
  issuer : string;
  audience : string;
  defaultTTL : Z;
  maxTTL : Z
}.

Record Config := {
  cfg_PrivateKey : option PrivateKey;
  cfg_Issuer : string;
  cfg_Audience : string;
  cfg_DefaultTTL : Z;
  cfg_MaxTTL : Z
}.

Definition NewManager (cfg : Config) (r : entropy) : result Manager :=
  let? key := match cfg_PrivateKey cfg with Some k => Ok k | None => GenerateKey r end in
  Ok {| privateKey := key;
        publicKey := public_of key;
        issuer := if bool_decide (cfg_Issuer cfg = "") then "vault-auth" else cfg_Issuer cfg;
        audience := if bool_decide (cfg_Audience cfg = "") then "vault-platform" else cfg_Audience cfg;
        defaultTTL := if cfg_DefaultTTL cfg =? 0 then Hour else cfg_DefaultTTL cfg;
        maxTTL := if cfg_MaxTTL cfg =? 0 then 24 * Hour else cfg_MaxTTL cfg |}.

Definition adjust_ttl (m : Manager) (ttl : Z) : Z :=
  let ttl := if ttl <=? 0 then defaultTTL m else ttl in
  if maxTTL m <? ttl then maxTTL m else ttl.

Definition new_claims (m : Manager) (identity : string) (policies : list string)
    (metadata : gmap string string) (tokenID : string) (now expiresAt : time) : Claims :=
  {| Registered := {| Issuer := issuer m; Audience := [audience m]; Subject := identity;
                      ExpiresAt := NewNumericDate expiresAt; IssuedAt := NewNumericDate now;
                      NotBefore := NewNumericDate now; ID := tokenID |};
     Identity := identity; TokenID := tokenID; Policies := policies; Metadata := metadata |}.

(** The answer is the token, its identifier and the time it expires. *)
Definition CreateToken (m : Manager) (identity : string) (policies : list string) (ttl : Z)
    (metadata : gmap string string) (now : time) (tokenID : string) (r : entropy)
    : result (string * string * time) :=
  let expiresAt := now + adjust_ttl m ttl in
  let? tokenString := SignedString (privateKey m)
                        (new_claims m identity policies metadata tokenID now expiresAt) r in
  Ok (tokenString, tokenID, expiresAt).

(** The function that gives the library the key: only for ECDSA tokens. *)
Definition keyFunc (m : Manager) (method : SigningMethod) : result PublicKey :=
  match method with SigningMethodECDSA => Ok (publicKey m) | _ => Err ErrInvalidSignature end.

Definition ValidateToken (m : Manager) (tokenString : string) (now : time) : result Claims :=
  match ParseWithClaims tokenString (keyFunc m) now with
  | Err err => if errors_Is err lib_ErrTokenExpired then Err ErrExpiredToken else Err ErrInvalidToken
  | Ok (claims, valid) => if negb valid then Err ErrInvalidClaims else Ok claims
  end.

(** [claims] is [nil] after any error, an expired token's included: reading its
    fields panics. [now] and [now'] are the two readings of the clock. *)
Definition RefreshToken (m : Manager) (tokenString : string) (newTTL : Z) (now now' : time)
    (tokenID : string) (r : entropy) : outcome (result (string * string * time)) :=
  match ValidateToken m tokenString now with
  | Err err =>
      if negb (errors_Is err ErrExpiredToken) then Ret (Err err)
      else Panic "invalid memory address or nil pointer dereference"
  | Ok claims =>
      Ret (CreateToken m (Identity claims) (Policies claims) newTTL (Metadata claims) now' tokenID r)
  end.

Definition GetPublicKey (m : Manager) : PublicKey := publicKey m.

Definition ParseUnverified (tokenString : string) : result Claims := lib_ParseUnverified tokenString.

(** ** Lemmas *)
Context {JL : JWTLaws J}.

(** A manager as [NewManager] makes it: it verifies with the key it signs with. *)
Definition manager_ok (m : Manager) : Prop :=
  publicKey m = public_of (privateKey m) ∧
  Utf8.ValidString (issuer m) = true ∧ Utf8.ValidString (audience m) = true.

(** Times at which the dates of a token are exact in JSON. *)
Definition clock_ok (t : time) : Prop := 0 ≤ Unix t < 2 ^ 53 - 1.

Lemma trunc_second t : t - t mod Second = Second * (t / Second).
Proof. pose proof (Z.div_mod t Second). unfold Second in *. lia. Qed.

Lemma Unix_trunc t : Unix (t - t mod Second) = Unix t.
Proof. unfold Unix. rewrite trunc_second, Z.mul_comm, Z.div_mul by (unfold Second; lia). done. Qed.

Lemma date_ok_new t : clock_ok t → date_ok (NewNumericDate t) = true.
Proof.
  intros H. rewrite numeric_date. unfold date_ok. rewrite Unix_trunc. unfold clock_ok in H.
  rewrite trunc_second, Z.mul_comm, Z.mod_mul by (unfold Second; lia). cbn. lia.
Qed.

Lemma carried_new m identity policies metadata tokenID now expiresAt :
  manager_ok m → clock_ok now → clock_ok expiresAt →
  texts_ok identity tokenID policies metadata = true →
  carried (new_claims m identity policies metadata tokenID now expiresAt) = true.
Proof.
  intros (_ & Hi & Ha) Hn He Ht. unfold carried.
  cbn [Registered new_claims Identity TokenID Policies Metadata Issuer Subject Audience ExpiresAt NotBefore IssuedAt].
  rewrite Ht. cbn [forallb andb]. rewrite Hi, Ha, !date_ok_new by done.
  unfold texts_ok in Ht. cbn in Ht. destruct (Utf8.ValidString identity); [done|]. cbn in Ht. done.
Qed.

Lemma created_inv m identity policies ttl metadata now tokenID r tok id exp :
  CreateToken m identity policies ttl metadata now tokenID r = Ok (tok, id, exp) →
  id = tokenID ∧ exp = now + adjust_ttl m ttl ∧
  SignedString (privateKey m) (new_claims m identity policies metadata tokenID now exp) r = Ok tok.
Proof.
  unfold CreateToken. destruct (SignedString _ _ r) as [t|e] eqn:Hs; cbn; [|done].
  intros [= <- <- <-]. done.
Qed.

(** Validation of a token the manager made, at any time. *)
Lemma validate_created m identity policies ttl metadata now tokenID r tok id exp now' :
  manager_ok m → clock_ok now → clock_ok exp → texts_ok identity tokenID policies metadata = true →
  CreateToken m identity policies ttl metadata now tokenID r = Ok (tok, id, exp) →
  ValidateToken m tok now' =
    if exp - exp mod Second <=? now' then Err ErrExpiredToken
    else if now' <? now - now mod Second then Err ErrInvalidToken
    else Ok (wire (new_claims m identity policies metadata tokenID now exp)).
Proof.
  intros Hm Hn He Ht (_ & _ & Hs)%created_inv.
  pose proof (parse_signed _ _ _ _ (keyFunc m) now' Hs
    (carried_new m identity policies metadata tokenID now exp Hm Hn He Ht)) as H.
  cbn [keyFunc] in H. rewrite (proj1 Hm) in H. specialize (H eq_refl).
  unfold is_expired, is_premature in H. cbn [Registered ExpiresAt NotBefore new_claims] in H. rewrite !numeric_date in H.
  unfold ValidateToken. destruct (_ <=? now').
  - destruct H as (e & -> & ->). done.
  - destruct (now' <? _).
    + destruct H as (e & -> & ->). done.
    + rewrite H. done.
Qed.

(** A valid token was checked with the manager's own key, under ECDSA, in time. *)
Lemma validate_sound m tok now c :
  ValidateToken m tok now = Ok c →
  token_method tok = Some SigningMethodECDSA ∧ verifies (publicKey m) tok = true ∧
  is_expired c now = false ∧ is_premature c now = false ∧ lib_ParseUnverified tok = Ok c.
Proof.
  unfold ValidateToken. destruct (ParseWithClaims tok (keyFunc m) now) as [[c' v]|e] eqn:Hp; [|by destruct (errors_Is _ _)].
  apply parse_sound in Hp as (-> & Hu & He & Hb & me & pk & Hm & Hk & Hv). cbn. intros [= <-].
  destruct me; cbn in Hk; try done. injection Hk as <-. done.
Qed.

(** ** Properties *)

(** C29. Tokens round trip, within their lifetime only: a token the manager creates for an
    identity, policies, metadata and an identifier that are valid UTF-8, as its issuer and
    audience are (JSON replaces other bytes), with dates after 1970 whose seconds a [float64]
    holds exactly, is accepted from the second it was made to the second it expires, with
    exactly the identity, policies, metadata and identifier it was made for, and refused as
    expired from then on. Its lifetime is the requested one, the default when none was
    requested, and never more than the maximum. *)
Theorem jwt_roundtrip m identity policies ttl metadata now tokenID r tok id exp now' :
  manager_ok m → clock_ok now → clock_ok exp → texts_ok identity tokenID policies metadata = true →
  CreateToken m identity policies ttl metadata now tokenID r = Ok (tok, id, exp) →
  now - now mod Second ≤ now' →
  id = tokenID ∧ exp - now = Z.min (if ttl <=? 0 then defaultTTL m else ttl) (maxTTL m) ∧
  (now' < exp - exp mod Second →
   ∃ c, ValidateToken m tok now' = Ok c ∧ Identity c = identity ∧ Policies c = policies ∧
        Metadata c = metadata ∧ TokenID c = tokenID) ∧
  (exp - exp mod Second ≤ now' → ValidateToken m tok now' = Err ErrExpiredToken).
Proof.
  intros Hm Hn He Ht Hc Hn'. pose proof (validate_created _ _ _ _ _ _ _ _ _ _ _ now' Hm Hn He Ht Hc) as Hv.
  apply created_inv in Hc as (-> & Hexp & _). split; [done|]. split.
  { rewrite Hexp. unfold adjust_ttl. cbn zeta. destruct (Z.ltb_spec (maxTTL m) (if ttl <=? 0 then defaultTTL m else ttl)); lia. }
  rewrite Hv. rewrite (proj2 (Z.ltb_ge now' _)) by lia. split; intros H.
  - rewrite (proj2 (Z.leb_gt _ now')) by lia. by eexists.
  - by rewrite (proj2 (Z.leb_le _ now')) by lia.
Qed.

(** C33. Soundness of validation: whatever the text of a token, it is accepted only when
    it names an ECDSA method, its signature verifies under the manager's own public key,
    the time lies between the dates it carries, and the claims are the ones it carries;
    a token that names another method (an HMAC or no signature at all) is refused, whatever
    its signature is. *)
Theorem jwt_sound m tok now :
  match ValidateToken m tok now with
  | Ok c => token_method tok = Some SigningMethodECDSA ∧ verifies (publicKey m) tok = true ∧
            is_expired c now = false ∧ is_premature c now = false ∧ ParseUnverified tok = Ok c
  | Err e => e = ErrExpiredToken ∨ e = ErrInvalidToken
  end.
Proof.
  destruct (ValidateToken m tok now) as [c|e] eqn:Hv; [by apply validate_sound|].
  unfold ValidateToken in Hv. destruct (ParseWithClaims tok (keyFunc m) now) as [[c v]|e'] eqn:Hp.
  - apply parse_sound in Hp as (-> & _). done.
  - destruct (errors_Is e' _); injection Hv as <-; auto.
Qed.

(** Refreshing an expired token crashes: [RefreshToken] is written to accept expired
    tokens, but validation returns no claims for them, and reading the claims panics.
    A token made by the manager can be refreshed up to the second it expires, and
    every later attempt panics. *)
Theorem refresh_expired_panics m identity policies ttl metadata now tokenID r tok id exp now' now'' ttl' id' r' :
  manager_ok m → clock_ok now → clock_ok exp → texts_ok identity tokenID policies metadata = true →
  CreateToken m identity policies ttl metadata now tokenID r = Ok (tok, id, exp) →
  now - now mod Second ≤ now' →
  RefreshToken m tok ttl' now' now'' id' r' =
    if now' <? exp - exp mod Second
    then Ret (CreateToken m identity policies ttl' metadata now'' id' r')
    else Panic "invalid memory address or nil pointer dereference".
Proof.
  intros Hm Hn He Ht Hc Hn'. pose proof (validate_created _ _ _ _ _ _ _ _ _ _ _ now' Hm Hn He Ht Hc) as Hv.
  unfold RefreshToken. rewrite Hv, (proj2 (Z.ltb_ge now' (now - now mod Second))) by lia.
  destruct (Z.leb_spec (exp - exp mod Second) now'), (Z.ltb_spec now' (exp - exp mod Second)); [lia|done|done|lia].
Qed.
End manager.

(** ** A concrete implementation

    A token is the binary text of an encoding of the claims, with the name of the key
    that signed it; the key's name stands for the signature. *)
Module CodecJWT.

Fixpoint bits (p : positive) : string :=
  match p with
  | xH => ""
  | xO q => String "0"%char (bits q)
  | xI q => String "1"%char (bits q)
  end.

Fixpoint unbits (s : string) : positive :=
  match s with
  | EmptyString => xH
  | String a s' => if Ascii.eqb a "0"%char then xO (unbits s') else xI (unbits s')
  end.

Lemma unbits_bits p : unbits (bits p) = p.
Proof. induction p; cbn; congruence. Qed.

Definition pack (key : string) (c : Claims) : list (list string) * list (option Z) :=
  let r := Registered c in
  ([[key; Issuer r; Subject r; Identity c; TokenID c]; Audience r; Policies c;
    (map_to_list (Metadata c)).*1; (map_to_list (Metadata c)).*2],
   [ExpiresAt r; NotBefore r; IssuedAt r]).

Definition unpack (x : list (list string) * list (option Z)) : option (string * Claims) :=
  match x with
  | ([[key; iss; sub; ident; tid]; aud; pol; ks; vs], [exp; nbf; iat]) =>
      Some (key, {| Registered := {| Issuer := iss; Subject := sub; Audience := aud; ExpiresAt := exp;
                                     NotBefore := nbf; IssuedAt := iat; ID := "" |};
                    Identity := ident; TokenID := tid; Policies := pol;
                    Metadata := list_to_map (zip ks vs) |})
  | _ => None
  end.

Lemma unpack_pack key c : unpack (pack key c) = Some (key, wire c).
Proof.
  destruct c as [[] ident tid pol md]. cbn. rewrite zip_fst_snd, list_to_map_to_list. done.
Qed.

Definition encode_token (key : string) (c : Claims) : string := bits (encode (pack key c)).
Definition decode_token (s : string) : option (string * Claims) := decode (unbits s) ≫= unpack.

Lemma decode_encode_token key c : decode_token (encode_token key c) = Some (key, wire c).
Proof. unfold decode_token, encode_token. rewrite unbits_bits, decode_encode. cbn. apply unpack_pack. Qed.

Definition parse (s : string) (kf : SigningMethod → result string) (now : time) : result (Claims * bool) :=
  match decode_token s with
  | None => Err (errorString "token is malformed")
  | Some (key, c) =>
      match kf SigningMethodECDSA with
      | Err e => Err (wrapError "token is unverifiable" e)
      | Ok pk =>
          if negb (bool_decide (key = pk)) then Err (errorString "signature is invalid")
          else if is_expired c now then Err (wrapError "token has invalid claims" lib_ErrTokenExpired)
          else if is_premature c now then Err (errorString "token is not valid yet")
          else Ok (c, true)
      end
  end.

#[export] Instance CodecJWT : JWT := {
  PrivateKey := string;
  PublicKey := string;
  public_of k := k;
  GenerateKey r := match rand_Read 4 r with Some b => Ok (of_bytes b) | None => Err (errorString "rand") end;
  NewNumericDate t := Some (t - t mod Second);
  SignedString k c r := match r with Some _ => Ok (encode_token k c) | None => Err (errorString "rand") end;
  token_method s := match decode_token s with Some _ => Some SigningMethodECDSA | None => None end;
  verifies pk s := match decode_token s with Some (k, _) => bool_decide (k = pk) | None => false end;
  ParseWithClaims := parse;
  lib_ParseUnverified s :=
    match decode_token s with Some (_, c) => Ok c | None => Err (errorString "token is malformed") end
}.

#[export] Instance CodecJWT_laws : JWTLaws CodecJWT.
Proof.
  split; cbn.
  - done.
  - intros sk c [r|] tok kf now; [|done]. intros [= <-] _ Hk. unfold parse.
    rewrite decode_encode_token, Hk. cbn. rewrite bool_decide_true by done. cbn.
    change (is_expired (wire c) now) with (is_expired c now).
    change (is_premature (wire c) now) with (is_premature c now).
    destruct (is_expired c now); [eauto|]. destruct (is_premature c now); eauto.
  - intros tok kf now c v. unfold parse. destruct (decode_token tok) as [[k c']|]; [|done].
    destruct (kf SigningMethodECDSA) as [pk|] eqn:Hk; [|done].
    case_bool_decide; cbn; [|done]. destruct (is_expired c' now) eqn:He; [done|].
    destruct (is_premature c' now) eqn:Hb; [done|]. intros [= <- <-].
    split_and!; [done..|]. exists SigningMethodECDSA, pk. split_and!; [done..|].
    by apply bool_decide_eq_true.
  - intros sk c [r|] tok; [|done]. intros [= <-] _. by rewrite decode_encode_token.
Qed.
End CodecJWT.

(** ** Examples *)

#[local] Existing Instance CodecJWT.CodecJWT.
#[local] Existing Instance CodecJWT.CodecJWT_laws.

(** The year 2024, in nanoseconds since Go's zero time. *)
Definition demo_time : time := (62135596800 + 1704067200) * Second.
Definition demo_manager : Manager :=
  {| privateKey := "key" : @PrivateKey CodecJWT.CodecJWT; publicKey := "key" : @PublicKey CodecJWT.CodecJWT;
     issuer := "vault-auth"; audience := "vault-platform"; defaultTTL := Hour; maxTTL := 24 * Hour |}.
Definition demo_entropy : entropy := Some (λ _, "0"%char).
Definition demo_claims (exp : time) : Claims :=
  new_claims demo_manager "alice" ["default"] {["env" := "prod"]} "t1" demo_time exp.

Lemma demo_manager_ok : manager_ok demo_manager.
Proof. split_and!; reflexivity. Qed.


Lemma jwt_roundtrip_witness :
  let exp := demo_time + 24 * Hour in
  let tok := CodecJWT.encode_token "key" (demo_claims exp) in
  ValidateToken demo_manager tok (demo_time + 3) = Ok (wire (demo_claims exp)) ∧
  ValidateToken demo_manager tok exp = Err ErrExpiredToken.
Proof.
  intros exp tok. split; [vm_compute; reflexivity|].
  apply (jwt_roundtrip demo_manager "alice" ["default"] (48 * Hour) {["env" := "prod"]} demo_time "t1"
           demo_entropy tok "t1" exp exp demo_manager_ok);
    try (vm_compute; reflexivity); vm_compute; (split; [discriminate|reflexivity]) || discriminate.
Defined.

Lemma jwt_sound_witness :
  let tok := CodecJWT.encode_token "key" (demo_claims (demo_time + Hour)) in
  token_method tok = Some SigningMethodECDSA ∧ verifies (publicKey demo_manager) tok = true ∧
  is_expired (wire (demo_claims (demo_time + Hour))) demo_time = false ∧
  is_premature (wire (demo_claims (demo_time + Hour))) demo_time = false ∧
  ParseUnverified tok = Ok (wire (demo_claims (demo_time + Hour))).
Proof.
  intros tok. pose proof (jwt_sound demo_manager tok demo_time) as H.
  assert (ValidateToken demo_manager tok demo_time = Ok (wire (demo_claims (demo_time + Hour)))) as E
    by (vm_compute; reflexivity).
  rewrite E in H. exact H.
Defined.

Lemma refresh_expired_panics_witness :
  let exp := demo_time + Hour in
  RefreshToken demo_manager (CodecJWT.encode_token "key" (demo_claims exp)) 0 exp exp "t2" demo_entropy
  = Panic "invalid memory address or nil pointer dereference".
Proof.
  intros exp.
  refine (refresh_expired_panics demo_manager "alice" ["default"] 0 {["env" := "prod"]} demo_time "t1"
           demo_entropy (CodecJWT.encode_token "key" (demo_claims exp)) "t1" exp exp exp 0 "t2"
           demo_entropy demo_manager_ok _ _ _ _ _);
    try (vm_compute; reflexivity); vm_compute; (split; [discriminate|reflexivity]) || discriminate.
Defined.
End Jwt.
