(* ===== verification/TokenRepo.v ===== *)
(** * services/auth/internal/repository/token_repository.go: the token records

    [MemoryTokenRepository] is the map of records; every operation holds its lock, so
    it is one function of the map. The map holds pointers, which only the repository
    writes through: the records are the values. Go visits a map in an order of its own
    choice: an operation that ranges over the map takes that order, a permutation of
    the map's contents, as an argument. *)

From S2P Require Import Prelude GoStd.
Local Open Scope Z_scope.

Module TokenRepo.

Definition ErrTokenNotFound : error := sentinel "repository" "ErrTokenNotFound" "token not found".
Definition ErrTokenRevoked : error := sentinel "repository" "ErrTokenRevoked" "token has been revoked".

Record Token := {
  ID : string;
  Identity : string;
  Policies : list string;
  Metadata : gmap string string;
  CreatedAt : time;
  ExpiresAt : time;
  RevokedAt : option time;
  LastUsedAt : option time
}.

Record MemoryTokenRepository := { tokens : gmap string Token }.

Definition NewMemoryTokenRepository : MemoryTokenRepository := {| tokens := ∅ |}.

Definition Create (r : MemoryTokenRepository) (token : Token) : MemoryTokenRepository :=
  {| tokens := <[ID token := token]> (tokens r) |}.

Definition Get (r : MemoryTokenRepository) (id : string) (now : time) : result Token :=
  match tokens r !! id with
  | None => Err ErrTokenNotFound
  | Some token =>
      if bool_decide (RevokedAt token ≠ None) then Err ErrTokenRevoked
      else if ExpiresAt token <? now then Err ErrTokenNotFound
      else Ok token
  end.

Definition revoke_record (now : time) (t : Token) : Token :=
  {| ID := ID t; Identity := Identity t; Policies := Policies t; Metadata := Metadata t;
     CreatedAt := CreatedAt t; ExpiresAt := ExpiresAt t; RevokedAt := Some now;
     LastUsedAt := LastUsedAt t |}.

Definition touch_record (now : time) (t : Token) : Token :=
  {| ID := ID t; Identity := Identity t; Policies := Policies t; Metadata := Metadata t;
     CreatedAt := CreatedAt t; ExpiresAt := ExpiresAt t; RevokedAt := RevokedAt t;
     LastUsedAt := Some now |}.

(** Writing through the pointer [r.tokens[id]]. *)
Definition update (r : MemoryTokenRepository) (id : string) (f : Token → Token)
    : MemoryTokenRepository * option error :=
  match tokens r !! id with
  | None => (r, Some ErrTokenNotFound)
  | Some token => ({| tokens := <[id := f token]> (tokens r) |}, None)
  end.

Definition Revoke (r : MemoryTokenRepository) (id : string) (now : time)
    : MemoryTokenRepository * option error := update r id (revoke_record now).

Definition UpdateLastUsed (r : MemoryTokenRepository) (id : string) (now : time)
    : MemoryTokenRepository * option error := update r id (touch_record now).

(** The common end of the three listing operations: one page of the records found,
    and their number. [offset + limit] is an [int]. *)
Definition page {A} (filtered : list A) (limit offset : Z) : outcome (list A * Z) :=
  let total := zlen filtered in
  if total <=? offset then Ret ([], total)
  else
    let end_ := int64 (offset + limit) in
    let end_ := if total <? end_ then total else end_ in
    let! p := Slices.slice filtered offset end_ in
    Ret (p, total).

Definition listed (identity : string) (t : Token) : bool :=
  bool_decide (Identity t = identity) && bool_decide (RevokedAt t = None).

Definition ListByIdentity (order : list (string * Token)) (identity : string) (limit offset : Z)
    : outcome (list Token * Z) :=
  page (List.filter (listed identity) order.*2) limit offset.

(** One round of the loop that deletes from the map while ranging over it. *)
Definition expire_one (now : time) (acc : MemoryTokenRepository * Z) (kv : string * Token)
    : MemoryTokenRepository * Z :=
  if ExpiresAt kv.2 <? now
  then ({| tokens := delete kv.1 (tokens acc.1) |}, acc.2 + 1) else acc.

Definition DeleteExpired (r : MemoryTokenRepository) (order : list (string * Token)) (now : time)
    : MemoryTokenRepository * Z :=
  List.fold_left (expire_one now) order (r, 0).

(** ** Lemmas *)

Lemma update_lookup r id f id' :
  tokens (update r id f).1 !! id' =
    if bool_decide (id' = id) then f <$> tokens r !! id' else tokens r !! id'.
Proof.
  unfold update. destruct (tokens r !! id) as [t|] eqn:Ht; cbn.
  - case_bool_decide as Hid; [subst; by rewrite lookup_insert_eq, Ht|].
    by rewrite lookup_insert_ne.
  - case_bool_decide as Hid; [subst; by rewrite Ht|done].
Qed.

(** The record of a token counts as revoked. *)
Definition revoked (r : MemoryTokenRepository) (id : string) : bool :=
  match tokens r !! id with Some t => bool_decide (RevokedAt t ≠ None) | None => false end.

Lemma Get_revoked r id now : Get r id now = Err ErrTokenRevoked ↔ revoked r id = true.
Proof.
  unfold Get, revoked. destruct (tokens r !! id) as [t|]; [|done].
  case_bool_decide; [done|]. by destruct (_ <? _).
Qed.

Lemma revoked_Revoke r id now r' :
  Revoke r id now = (r', None) → revoked r' id = true.
Proof.
  unfold Revoke, update, revoked. destruct (tokens r !! id); [|done]. intros [= <-]. cbn.
  by rewrite lookup_insert_eq.
Qed.

Lemma revoked_Revoke_other r id id' now :
  id' ≠ id → revoked (Revoke r id now).1 id' = revoked r id'.
Proof. intros H. unfold Revoke, revoked. rewrite update_lookup. by rewrite bool_decide_false. Qed.

Lemma revoked_Revoke_mono r id id' now :
  revoked r id' = true → revoked (Revoke r id now).1 id' = true.
Proof.
  unfold Revoke, revoked. rewrite update_lookup. case_bool_decide; [|done].
  by destruct (tokens r !! id').
Qed.

Lemma revoked_touch r id id' now : revoked (UpdateLastUsed r id now).1 id' = revoked r id'.
Proof.
  unfold UpdateLastUsed, revoked. rewrite update_lookup. case_bool_decide; [|done].
  by destruct (tokens r !! id').
Qed.

Lemma revoked_Create r t id : ID t ≠ id → revoked (Create r t) id = revoked r id.
Proof. intros H. unfold revoked, Create. cbn. by rewrite lookup_insert_ne. Qed.

Lemma page_in_range {A} (l : list A) limit offset :
  0 ≤ offset → 0 ≤ limit → offset + limit < 2 ^ 63 →
  page l limit offset = Ret (take (Z.to_nat limit) (drop (Z.to_nat offset) l), zlen l).
Proof.
  intros Ho Hl Hb. unfold page. destruct (Z.leb_spec (zlen l) offset) as [Hle|Hlt].
  { rewrite drop_ge, take_nil; [done|]. unfold zlen in Hle. lia. }
  rewrite wraps_small by lia. destruct (Z.ltb_spec (zlen l) (offset + limit)) as [H|H];
    rewrite Slices.slice_ok by lia; cbn; do 2 f_equal.
  - rewrite !take_ge; [done| |]; rewrite length_drop; unfold zlen in *; lia.
  - f_equal. lia.
Qed.

(** The loop of [DeleteExpired], on the part [l] of the map it has still to visit. *)
Lemma expire_fold now l : ∀ acc : MemoryTokenRepository * Z,
  NoDup l.*1 → (∀ kv, kv ∈ l → tokens acc.1 !! kv.1 = Some kv.2) →
  let '(r', c) := List.fold_left (expire_one now) l acc in
  (∀ id, tokens r' !! id =
     t ← tokens acc.1 !! id; if (ExpiresAt t <? now) && bool_decide (id ∈ l.*1) then None else Some t) ∧
  c = acc.2 + Z.of_nat (size (tokens acc.1)) - Z.of_nat (size (tokens r')).
Proof.
  induction l as [|[id t] l IH]; intros [a n] Hnd Hl; cbn [List.fold_left].
  { split; [|cbn; lia]. intros id. cbn. destruct (tokens a !! id) as [t|]; [|done]. cbn.
    rewrite bool_decide_false by (apply not_elem_of_nil). by rewrite andb_false_r. }
  apply NoDup_cons in Hnd as [Hni Hnd].
  pose proof (Hl (id, t) ltac:(left)) as Hid. cbn in Hid.
  assert (∀ id', id' ≠ id → bool_decide (id' ∈ id :: l.*1) = bool_decide (id' ∈ l.*1)) as Hbd.
  { intros id' Hne. apply bool_decide_ext. rewrite elem_of_cons. naive_solver. }
  pose proof (IH (expire_one now (a, n) (id, t)) Hnd) as H.
  destruct (List.fold_left (expire_one now) l _) as [r' c].
  unfold expire_one in H. cbn [fst snd] in H. destruct (ExpiresAt t <? now) eqn:He; destruct H as [Hlk Hc].
  - intros kv Hkv. cbn. rewrite lookup_delete_ne; [apply Hl; by right|].
    intros ->. apply Hni. apply list_elem_of_fmap. by exists kv.
  - cbn in Hlk, Hc. split.
    + intros id'. rewrite Hlk. cbn [fst]. destruct (decide (id' = id)) as [->|Hne].
      { rewrite lookup_delete_eq, Hid. cbn. rewrite He, bool_decide_true by (cbn; left). done. }
      rewrite lookup_delete_ne by done. destruct (tokens a !! id') as [t'|]; [|done]. cbn. by rewrite Hbd.
    + rewrite Hc, map_size_delete_Some by done.
      assert (size (tokens a) ≠ 0%nat) by (intros E%map_size_empty_inv; by rewrite E in Hid).
      cbn in *. lia.
  - intros kv Hkv. apply Hl. by right.
  - cbn in Hlk, Hc. split; [|done]. intros id'. rewrite Hlk. cbn [fst].
    destruct (decide (id' = id)) as [->|Hne].
    { rewrite Hid. cbn. by rewrite He. }
    destruct (tokens a !! id') as [t'|]; [|done]. cbn. by rewrite Hbd.
Qed.

(** ** Properties *)

(** Listings: for any order in which the map is visited, limits and offsets that
    are not negative give the page of that size at that position among the live tokens
    of the identity, and their total number; a negative offset, or a negative limit
    that moves the end before the offset, panics unless the offset is past the end. *)
Theorem list_tokens_page (r : MemoryTokenRepository) order identity limit offset :
  order ≡ₚ map_to_list (tokens r) → in_int64 (offset + limit) →
  let live := List.filter (listed identity) order.*2 in
  (∀ t, t ∈ live ↔ ∃ id, tokens r !! id = Some t ∧ Identity t = identity ∧ RevokedAt t = None) ∧
  ListByIdentity order identity limit offset =
    if zlen live <=? offset then Ret ([], zlen live)
    else if (0 <=? offset) && (0 <=? limit)
    then Ret (take (Z.to_nat limit) (drop (Z.to_nat offset) live), zlen live)
    else Panic "slice bounds out of range".
Proof.
  intros Ho Hb live. split.
  - intros t. subst live. rewrite list_elem_of_In, filter_In, <- list_elem_of_In. unfold listed.
    rewrite andb_true_iff, !bool_decide_eq_true. rewrite list_elem_of_fmap. split.
    + intros [([id t'] & -> & Hin) [H1 H2]]. exists id. rewrite Ho, elem_of_map_to_list in Hin. done.
    + intros (id & Hin & H1 & H2). split; [|done]. exists (id, t). split; [done|].
      by rewrite Ho, elem_of_map_to_list.
  - unfold ListByIdentity. fold live. destruct (Z.leb_spec (zlen live) offset) as [H|H].
    { unfold page. by rewrite (proj2 (Z.leb_le _ _)). }
    destruct (Z.leb_spec 0 offset) as [H0|H0], (Z.leb_spec 0 limit) as [H1|H1]; cbn [andb];
      unfold in_int64 in Hb.
    + apply page_in_range; lia.
    + unfold page. rewrite (proj2 (Z.leb_gt _ _)), wraps_small by lia. unfold Slices.slice.
      rewrite (proj2 (Z.ltb_ge (zlen live) (offset + limit))) by lia.
      rewrite (proj2 (Z.ltb_lt (offset + limit) offset)) by lia. by rewrite orb_true_r.
    + unfold page. rewrite (proj2 (Z.leb_gt _ _)) by lia. unfold Slices.slice.
      by rewrite (proj2 (Z.ltb_lt offset 0)) by lia.
    + unfold page. rewrite (proj2 (Z.leb_gt _ _)) by lia. unfold Slices.slice.
      by rewrite (proj2 (Z.ltb_lt offset 0)) by lia.
Qed.

(** [DeleteExpired] removes exactly the records that have expired, revoked or not,
    whatever order it visits them in, and counts them. *)
Theorem delete_expired_exact r order now :
  order ≡ₚ map_to_list (tokens r) →
  let '(r', count) := DeleteExpired r order now in
  (∀ id, tokens r' !! id = t ← tokens r !! id; if ExpiresAt t <? now then None else Some t) ∧
  count = Z.of_nat (size (tokens r)) - Z.of_nat (size (tokens r')).
Proof.
  intros Ho. unfold DeleteExpired. pose proof (expire_fold now order (r, 0)) as H.
  destruct (List.fold_left _ order _) as [r' c]. cbn in H. destruct H as [Hlk Hc].
  { rewrite Ho. apply NoDup_fst_map_to_list. }
  { intros [id t] Hin. cbn. rewrite Ho, elem_of_map_to_list in Hin. done. }
  split; [|lia]. intros id. rewrite Hlk. destruct (tokens r !! id) as [t|] eqn:Ht; [|done]. cbn.
  rewrite bool_decide_true, andb_true_r; [done|]. rewrite Ho.
  apply list_elem_of_fmap. exists (id, t). split; [done|]. by apply elem_of_map_to_list.
Qed.

(** ** Examples *)

Definition demo_token (id : string) (expires : time) (revoked : option time) : Token :=
  {| ID := id; Identity := "alice"; Policies := []; Metadata := ∅; CreatedAt := 0; ExpiresAt := expires;
     RevokedAt := revoked; LastUsedAt := None |}.
Definition demo_repo : MemoryTokenRepository :=
  Create (Create (Create NewMemoryTokenRepository (demo_token "a" 5 None)) (demo_token "b" 9 (Some 1)))
    (demo_token "c" 9 None).
Definition demo_order : list (string * Token) := map_to_list (tokens demo_repo).

Lemma list_tokens_page_witness :
  ListByIdentity demo_order "alice" 1 1 =
    Ret (take 1 (drop 1 (List.filter (listed "alice") demo_order.*2)), 2) ∧
  ListByIdentity demo_order "alice" 1 (-1) = Panic "slice bounds out of range".
Proof.
  split.
  - apply (list_tokens_page demo_repo demo_order "alice" 1 1); [reflexivity|vm_compute; split; [discriminate|reflexivity]].
  - apply (list_tokens_page demo_repo demo_order "alice" 1 (-1)); [reflexivity|vm_compute; split; [discriminate|reflexivity]].
Defined.

Lemma delete_expired_exact_witness :
  let '(r, count) := DeleteExpired demo_repo demo_order 6 in
  (tokens r !! "a" = None ∧ tokens r !! "c" = Some (demo_token "c" 9 None)) ∧
  count = Z.of_nat (size (tokens demo_repo)) - Z.of_nat (size (tokens r)).
Proof.
  pose proof (delete_expired_exact demo_repo demo_order 6 ltac:(reflexivity)) as H.
  destruct (DeleteExpired demo_repo demo_order 6) as [r count]. destruct H as [H1 H2].
  split; [|exact H2]. rewrite !H1. split; vm_compute; reflexivity.
Defined.
End TokenRepo.
