(* ===== verification/ApiKeyRepo.v ===== *)
(** * services/auth/internal/repository/apikey_repository.go: the API keys

    [MemoryAPIKeyRepository] keeps the keys by identifier and the identifiers by hash.
    Every operation holds the lock, so it is one function of the two maps; [nil] in
    [keys] is a missing key, and using it a panic. *)

From S2P Require Import Prelude GoStd Sha256 TokenRepo.
Local Open Scope Z_scope.

Module ApiKeyRepo.

Definition ErrAPIKeyNotFound : error := sentinel "repository" "ErrAPIKeyNotFound" "API key not found".
Definition ErrAPIKeyRevoked : error := sentinel "repository" "ErrAPIKeyRevoked" "API key has been revoked".

Record APIKey := {
  ID : string;
  Name : string;
  KeyHash : string;
  Identity : string;
  Policies : list string;
  Metadata : gmap string string;
  CreatedAt : time;
  ExpiresAt : option time;
  RevokedAt : option time;
  LastUsedAt : option time
}.

Record MemoryAPIKeyRepository := { keys : gmap string APIKey; byHash : gmap string string }.

Definition NewMemoryAPIKeyRepository : MemoryAPIKeyRepository := {| keys := ∅; byHash := ∅ |}.

Definition Create (r : MemoryAPIKeyRepository) (apiKey : APIKey) : MemoryAPIKeyRepository :=
  {| keys := <[ID apiKey := apiKey]> (keys r); byHash := <[KeyHash apiKey := ID apiKey]> (byHash r) |}.

Definition past (now : time) (t : option time) : bool :=
  match t with Some e => e <? now | None => false end.

Definition GetByHash (r : MemoryAPIKeyRepository) (keyHash : string) (now : time)
    : outcome (result APIKey) :=
  match byHash r !! keyHash with
  | None => Ret (Err ErrAPIKeyNotFound)
  | Some id =>
      match keys r !! id with
      | None => Panic "invalid memory address or nil pointer dereference"
      | Some apiKey =>
          Ret (if bool_decide (RevokedAt apiKey ≠ None) then Err ErrAPIKeyRevoked
               else if past now (ExpiresAt apiKey) then Err ErrAPIKeyNotFound
               else Ok apiKey)
      end
  end.

Definition GetByID (r : MemoryAPIKeyRepository) (id : string) : result APIKey :=
  match keys r !! id with Some k => Ok k | None => Err ErrAPIKeyNotFound end.

Definition revoke_key (now : time) (k : APIKey) : APIKey :=
  {| ID := ID k; Name := Name k; KeyHash := KeyHash k; Identity := Identity k; Policies := Policies k;
     Metadata := Metadata k; CreatedAt := CreatedAt k; ExpiresAt := ExpiresAt k; RevokedAt := Some now;
     LastUsedAt := LastUsedAt k |}.

Definition touch_key (now : time) (k : APIKey) : APIKey :=
  {| ID := ID k; Name := Name k; KeyHash := KeyHash k; Identity := Identity k; Policies := Policies k;
     Metadata := Metadata k; CreatedAt := CreatedAt k; ExpiresAt := ExpiresAt k; RevokedAt := RevokedAt k;
     LastUsedAt := Some now |}.

(** Writing through the pointer [r.keys[id]]. *)
Definition update (r : MemoryAPIKeyRepository) (id : string) (f : APIKey → APIKey)
    : MemoryAPIKeyRepository * option error :=
  match keys r !! id with
  | None => (r, Some ErrAPIKeyNotFound)
  | Some apiKey => ({| keys := <[id := f apiKey]> (keys r); byHash := byHash r |}, None)
  end.

Definition Revoke (r : MemoryAPIKeyRepository) (id : string) (now : time)
    : MemoryAPIKeyRepository * option error := update r id (revoke_key now).

Definition UpdateLastUsed (r : MemoryAPIKeyRepository) (id : string) (now : time)
    : MemoryAPIKeyRepository * option error := update r id (touch_key now).

Definition listed (identity : string) (k : APIKey) : bool :=
  bool_decide (Identity k = identity) && bool_decide (RevokedAt k = None).

(** [order] is the order in which the map is visited. *)
Definition ListByIdentity (order : list (string * APIKey)) (identity : string) (limit offset : Z)
    : outcome (list APIKey * Z) :=
  TokenRepo.page (List.filter (listed identity) order.*2) limit offset.

Definition HashAPIKey (key : string) : string := Hex.EncodeToString (Sha256.Sum256 (to_bytes key)).

(** ** The invariant

    Every indexed identifier has a key, so that a look-up by hash never panics, and
    every key is stored under its identifier. *)
Record wf (r : MemoryAPIKeyRepository) : Prop := {
  wf_index h id : byHash r !! h = Some id → is_Some (keys r !! id);
  wf_id id k : keys r !! id = Some k → ID k = id
}.

Lemma apikeys_wf_new : wf NewMemoryAPIKeyRepository.
Proof. split; cbn; intros ? ? H; by rewrite lookup_empty in H. Qed.

Lemma apikeys_wf_Create r k : wf r → wf (Create r k).
Proof.
  intros [H1 H2]. split; cbn; intros h id.
  - rewrite lookup_insert_Some. intros [[<- <-]|[_ H]]; rewrite lookup_insert_is_Some; [auto|].
    destruct (decide (ID k = id)); eauto.
  - rewrite lookup_insert_Some. naive_solver.
Qed.

Lemma apikeys_update_lookup r id f id' :
  keys (update r id f).1 !! id' = if bool_decide (id' = id) then f <$> keys r !! id' else keys r !! id'.
Proof.
  unfold update. destruct (keys r !! id) as [k|] eqn:Hk; cbn.
  - case_bool_decide as Hid; [subst; by rewrite lookup_insert_eq, Hk|]. by rewrite lookup_insert_ne.
  - case_bool_decide as Hid; [subst; by rewrite Hk|done].
Qed.

Lemma update_byHash r id f : byHash (update r id f).1 = byHash r.
Proof. unfold update. by destruct (keys r !! id). Qed.

Lemma apikeys_wf_update r id f : (∀ k, ID (f k) = ID k) → wf r → wf (update r id f).1.
Proof.
  intros Hf [H1 H2]. split.
  - intros h id'. rewrite update_byHash, apikeys_update_lookup. intros H%H1.
    case_bool_decide; [|done]. by apply fmap_is_Some.
  - intros id' k. rewrite apikeys_update_lookup. case_bool_decide; [|apply H2].
    intros (k' & Hk & ->)%fmap_Some. rewrite Hf. eauto.
Qed.

Lemma GetByHash_total r h now : wf r → ∃ res, GetByHash r h now = Ret res.
Proof.
  intros [H _]. unfold GetByHash. destruct (byHash r !! h) as [id|] eqn:Hh; [|eauto].
  destruct (H _ _ Hh) as [k ->]. eauto.
Qed.
End ApiKeyRepo.
