(* ===== verification/PolicyRepo.v ===== *)
(** * services/auth/internal/repository/policy_repository.go: the stored policies

    [MemoryPolicyRepository] is the map of stored policies; every operation holds the
    lock. The rules are the policy engine's. *)

From S2P Require Import Prelude GoStd Policy TokenRepo.
Local Open Scope Z_scope.

Module PolicyRepo.

Definition ErrPolicyNotFound : error := sentinel "repository" "ErrPolicyNotFound" "policy not found".
Definition ErrPolicyExists : error := sentinel "repository" "ErrPolicyExists" "policy already exists".

Record StoredPolicy := {
  Name : string;
  Description : string;
  Rules : list Policy.Rule;
  CreatedAt : time;
  UpdatedAt : time
}.

Record MemoryPolicyRepository := { policies : gmap string StoredPolicy }.

Definition simple_rule (path : string) (c : string) : Policy.Rule :=
  {| Policy.Path := path; Policy.Capabilities := [c]; Policy.Conditions := ∅ |}.

Definition default_stored (now : time) : StoredPolicy :=
  {| Name := "default"; Description := "Default policy with basic self-service access";
     Rules := [simple_rule "auth/token/lookup-self" Policy.CapabilityRead;
               simple_rule "auth/token/renew-self" Policy.CapabilityUpdate;
               simple_rule "auth/token/revoke-self" Policy.CapabilityUpdate];
     CreatedAt := now; UpdatedAt := now |}.

Definition admin_stored (now : time) : StoredPolicy :=
  {| Name := "admin"; Description := "Full administrative access";
     Rules := [simple_rule "**" Policy.CapabilitySudo]; CreatedAt := now; UpdatedAt := now |}.

Definition NewMemoryPolicyRepository (now : time) : MemoryPolicyRepository :=
  {| policies := <["admin" := admin_stored now]> (<["default" := default_stored now]> ∅) |}.

Definition Create (r : MemoryPolicyRepository) (p : StoredPolicy) (now : time)
    : MemoryPolicyRepository * option error :=
  match policies r !! Name p with
  | Some _ => (r, Some ErrPolicyExists)
  | None =>
      let p := {| Name := Name p; Description := Description p; Rules := Rules p;
                  CreatedAt := now; UpdatedAt := now |} in
      ({| policies := <[Name p := p]> (policies r) |}, None)
  end.

Definition Get (r : MemoryPolicyRepository) (name : string) : result StoredPolicy :=
  match policies r !! name with Some p => Ok p | None => Err ErrPolicyNotFound end.

(** The caller's policy replaces the stored one, its [CreatedAt] included. *)
Definition Update (r : MemoryPolicyRepository) (p : StoredPolicy) (now : time)
    : MemoryPolicyRepository * option error :=
  match policies r !! Name p with
  | None => (r, Some ErrPolicyNotFound)
  | Some _ =>
      let p := {| Name := Name p; Description := Description p; Rules := Rules p;
                  CreatedAt := CreatedAt p; UpdatedAt := now |} in
      ({| policies := <[Name p := p]> (policies r) |}, None)
  end.

Definition Delete (r : MemoryPolicyRepository) (name : string) : MemoryPolicyRepository * option error :=
  match policies r !! name with
  | None => (r, Some ErrPolicyNotFound)
  | Some _ =>
      if bool_decide (name = "default") || bool_decide (name = "admin")
      then (r, Some (errorString "cannot delete built-in policy"))
      else ({| policies := delete name (policies r) |}, None)
  end.

(** [order] is the order in which the map is visited. *)
Definition List_ (order : list (string * StoredPolicy)) (limit offset : Z)
    : outcome (list StoredPolicy * Z) :=
  TokenRepo.page order.*2 limit offset.

(** ** The invariant: policies are stored under their names, and the built-in ones are
    always there. *)
Record wf (r : MemoryPolicyRepository) : Prop := {
  wf_name n p : policies r !! n = Some p → Name p = n;
  wf_default : is_Some (policies r !! "default");
  wf_admin : is_Some (policies r !! "admin")
}.

Lemma stored_wf_new now : wf (NewMemoryPolicyRepository now).
Proof.
  split; cbn.
  - intros n p. rewrite !lookup_insert_Some, lookup_empty. naive_solver.
  - rewrite lookup_insert_ne by done. rewrite lookup_insert_eq. eauto.
  - rewrite lookup_insert_eq. eauto.
Qed.

Lemma stored_wf_insert r n p : Name p = n → wf r → wf {| policies := <[n := p]> (policies r) |}.
Proof.
  intros Hn [H1 H2 H3]. split; cbn; [|rewrite lookup_insert_is_Some..].
  - intros n' p'. rewrite lookup_insert_Some. naive_solver.
  - destruct (decide (n = "default")); auto.
  - destruct (decide (n = "admin")); auto.
Qed.

Lemma stored_wf_Create r p now : wf r → wf (Create r p now).1.
Proof. intros H. unfold Create. destruct (policies r !! Name p); [done|]. by apply stored_wf_insert. Qed.

Lemma stored_wf_Update r p now : wf r → wf (Update r p now).1.
Proof. intros H. unfold Update. destruct (policies r !! Name p); [|done]. by apply stored_wf_insert. Qed.

Lemma stored_wf_Delete r n : wf r → wf (Delete r n).1.
Proof.
  intros H. unfold Delete. destruct (policies r !! n); [|done].
  case_bool_decide as Hd; [done|]. case_bool_decide as Ha; [done|]. destruct H as [H1 H2 H3].
  split; cbn; [|by rewrite lookup_delete_ne..].
  intros n' p'. rewrite lookup_delete_Some. naive_solver.
Qed.
End PolicyRepo.
