(* ===== verification/Auth.v ===== *)
(** * services/auth/internal/service: tokens, API keys and policies

    [AuthService] is the Go struct: the token manager, the three repositories, the two
    caches and the policy evaluator. The manager is written against [JWT], the caches
    against [LRU]. [now i] is the [i]-th time an operation reads the clock. A goroutine
    that an operation starts is a task in [background], which [op_Background] runs at
    any later time; operations are otherwise executed one at a time. *)

From S2P Require Import Prelude GoStd Lru Cache Sha256 Jwt Policy TokenRepo ApiKeyRepo PolicyRepo.
Local Open Scope Z_scope.

Module Auth.
Import Jwt.

Definition ErrInvalidToken : error := sentinel "service" "ErrInvalidToken" "invalid token".
Definition ErrTokenExpired : error := sentinel "service" "ErrTokenExpired" "token expired".
Definition ErrInvalidAPIKey : error := sentinel "service" "ErrInvalidAPIKey" "invalid API key".
Definition ErrPolicyNotFound : error := sentinel "service" "ErrPolicyNotFound" "policy not found".
Definition ErrPermissionDenied : error := sentinel "service" "ErrPermissionDenied" "permission denied".

Inductive task :=
  | TouchToken (id : string)
  | TouchAPIKey (id : string).

(** The fields of the configuration the service reads. *)
Record Config := {
  cfg_Issuer : string;
  cfg_Audience : string;
  cfg_DefaultTTL : Z;
  cfg_MaxTTL : Z;
  cfg_L1Size : Z;
  cfg_L2TTL : Z
}.

Definition Minute : Z := 60 * Second.

(** The policy the evaluator holds for a stored one. *)
Definition to_policy (p : PolicyRepo.StoredPolicy) : Policy.Policy :=
  {| Policy.Name := PolicyRepo.Name p; Policy.Rules := PolicyRepo.Rules p; Policy.Description := "" |}.

Definition with_default (policies : list string) : list string :=
  if existsb (λ p, bool_decide (p = "default")) policies then policies else policies ++ ["default"].

Section service.
Context {J : JWT} {LT : LRU string (Cache.cacheEntry Claims)} {LP : LRU string (Cache.cacheEntry Policy.Policy)}.

Record AuthService := {
  jwtManager : Manager;
  tokenRepo : TokenRepo.MemoryTokenRepository;
  apiKeyRepo : ApiKeyRepo.MemoryAPIKeyRepository;
  policyRepo : PolicyRepo.MemoryPolicyRepository;
  tokenCache : Cache.LRUCache (K := string) (V := Claims);
  policyCache : Cache.LRUCache (K := string) (V := Policy.Policy);
  policyEvaluator : Policy.Evaluator;
  background : list task
}.

Definition set_tokenRepo (r : TokenRepo.MemoryTokenRepository) (s : AuthService) : AuthService :=
  {| jwtManager := jwtManager s; tokenRepo := r; apiKeyRepo := apiKeyRepo s; policyRepo := policyRepo s;
     tokenCache := tokenCache s; policyCache := policyCache s; policyEvaluator := policyEvaluator s;
     background := background s |}.

Definition set_apiKeyRepo (r : ApiKeyRepo.MemoryAPIKeyRepository) (s : AuthService) : AuthService :=
  {| jwtManager := jwtManager s; tokenRepo := tokenRepo s; apiKeyRepo := r; policyRepo := policyRepo s;
     tokenCache := tokenCache s; policyCache := policyCache s; policyEvaluator := policyEvaluator s;
     background := background s |}.

Definition set_tokenCache (c : Cache.LRUCache (K := string) (V := Claims)) (s : AuthService) : AuthService :=
  {| jwtManager := jwtManager s; tokenRepo := tokenRepo s; apiKeyRepo := apiKeyRepo s;
     policyRepo := policyRepo s; tokenCache := c; policyCache := policyCache s;
     policyEvaluator := policyEvaluator s; background := background s |}.

(** A new policy repository and evaluator, with the name dropped from the policy cache. *)
Definition set_policies (r : PolicyRepo.MemoryPolicyRepository) (e : Policy.Evaluator) (name : string)
    (s : AuthService) : AuthService :=
  {| jwtManager := jwtManager s; tokenRepo := tokenRepo s; apiKeyRepo := apiKeyRepo s; policyRepo := r;
     tokenCache := tokenCache s; policyCache := (Cache.Delete (policyCache s) name).1;
     policyEvaluator := e; background := background s |}.

Definition set_background (ts : list task) (s : AuthService) : AuthService :=
  {| jwtManager := jwtManager s; tokenRepo := tokenRepo s; apiKeyRepo := apiKeyRepo s;
     policyRepo := policyRepo s; tokenCache := tokenCache s; policyCache := policyCache s;
     policyEvaluator := policyEvaluator s; background := ts |}.

(** [go f()] *)
Definition spawn (t : task) (s : AuthService) : AuthService := set_background (background s ++ [t]) s.

Definition new_cache {V} {L : LRU string (Cache.cacheEntry V)} (size ttl : Z)
    : result (Cache.LRUCache (K := string) (V := V)) :=
  match Cache.NewLRUCacheWithTTL size ttl with
  | Some c => Ok c
  | None => Err (errorString "must provide a positive size")
  end.

Definition load_policies (e : Policy.Evaluator) (ps : list PolicyRepo.StoredPolicy) : Policy.Evaluator :=
  List.fold_left (λ e p, Policy.AddPolicy e (to_policy p)) ps e.

(** [order] is the order in which the policy repository is visited. *)
Definition NewAuthService (cfg : Config) (tokenRepo : TokenRepo.MemoryTokenRepository)
    (apiKeyRepo : ApiKeyRepo.MemoryAPIKeyRepository) (policyRepo : PolicyRepo.MemoryPolicyRepository)
    (order : list (string * PolicyRepo.StoredPolicy)) (r : entropy) : outcome (result AuthService) :=
  match
    let? jwtManager := NewManager {| cfg_PrivateKey := None; Jwt.cfg_Issuer := cfg_Issuer cfg;
                          Jwt.cfg_Audience := cfg_Audience cfg; Jwt.cfg_DefaultTTL := cfg_DefaultTTL cfg;
                          Jwt.cfg_MaxTTL := cfg_MaxTTL cfg |} r in
    let? tokenCache := new_cache (cfg_L1Size cfg) (cfg_L2TTL cfg) in
    let? policyCache := new_cache 1000 (5 * Minute) in
    Ok (jwtManager, tokenCache, policyCache)
  with
  | Err err => Ret (Err err)
  | Ok (jwtManager, tokenCache, policyCache) =>
      let! listed := PolicyRepo.List_ order 1000 0 in
      Ret (Ok {| jwtManager := jwtManager; tokenRepo := tokenRepo; apiKeyRepo := apiKeyRepo;
                 policyRepo := policyRepo; tokenCache := tokenCache; policyCache := policyCache;
                 policyEvaluator := load_policies Policy.NewEvaluator listed.1; background := [] |})
  end.

(** ** Tokens *)

Definition CreateToken (s : AuthService) (identity : string) (policies : list string) (ttl : Z)
    (metadata : gmap string string) (now : nat → time) (uuid : string) (r : entropy)
    : AuthService * result (string * string * time) :=
  let policies := with_default policies in
  match Jwt.CreateToken (jwtManager s) identity policies ttl metadata (now 0%nat) uuid r with
  | Err err => (s, Err err)
  | Ok (token, tokenID, expiresAt) =>
      (set_tokenRepo (TokenRepo.Create (tokenRepo s)
         {| TokenRepo.ID := tokenID; TokenRepo.Identity := identity; TokenRepo.Policies := policies;
            TokenRepo.Metadata := metadata; TokenRepo.CreatedAt := now 1%nat;
            TokenRepo.ExpiresAt := expiresAt; TokenRepo.RevokedAt := None;
            TokenRepo.LastUsedAt := None |}) s,
       Ok (token, tokenID, expiresAt))
  end.

(** The end of [ValidateToken] for a token that is accepted. *)
Definition accept (s : AuthService) (tokenString : string) (claims : Claims) (now : time) : AuthService :=
  set_tokenCache (Cache.Set_ (tokenCache s) tokenString claims now)
    (spawn (TouchToken (TokenID claims)) s).

Definition ValidateToken (s : AuthService) (tokenString : string) (now : nat → time)
    : AuthService * result Claims :=
  let (c, hit) := Cache.Get (tokenCache s) tokenString (now 0%nat) in
  let s := set_tokenCache c s in
  match hit with
  | Some claims => (s, Ok claims)
  | None =>
      match Jwt.ValidateToken (jwtManager s) tokenString (now 1%nat) with
      | Err err =>
          (s, Err (if errors_Is err ErrExpiredToken then ErrTokenExpired else ErrInvalidToken))
      | Ok claims =>
          match TokenRepo.Get (tokenRepo s) (TokenID claims) (now 2%nat) with
          | Err err =>
              if errors_Is err TokenRepo.ErrTokenRevoked then (s, Err ErrInvalidToken)
              else (accept s tokenString claims (now 3%nat), Ok claims)
          | Ok _ => (accept s tokenString claims (now 3%nat), Ok claims)
          end
      end
  end.

Definition ValidateTokenWithPolicy (s : AuthService) (tokenString resource action : string)
    (now : nat → time) : AuthService * result Claims :=
  let (s, res) := ValidateToken s tokenString now in
  match res with
  | Err err => (s, Err err)
  | Ok claims =>
      let capability := Policy.ActionToCapability action in
      if negb (Policy.Check_ (policyEvaluator s) (Policies claims) resource capability)
      then (s, Err ErrPermissionDenied)
      else (s, Ok claims)
  end.

Definition RevokeToken (s : AuthService) (tokenID : string) (now : time) : AuthService * option error :=
  let (r, err) := TokenRepo.Revoke (tokenRepo s) tokenID now in
  (set_tokenRepo r s, err).

(** ** API keys *)

(** [r] fills the key; [idBytes] is the buffer of the identifier after the second
    [rand.Read], whose error is ignored. *)
Definition CreateAPIKey (s : AuthService) (name identity : string) (policies : list string) (ttl : Z)
    (metadata : gmap string string) (r : entropy) (idBytes : bytes) (now : nat → time)
    : AuthService * result (string * string) :=
  match rand_Read 32 r with
  | None => (s, Err (errorString "crypto/rand"))
  | Some keyBytes =>
      let apiKey := "vk_" +:+ Base64.EncodeToString Base64.URLEncoding keyBytes in
      let keyHash := ApiKeyRepo.HashAPIKey apiKey in
      let expiresAt := if 0 <? ttl then Some (now 0%nat + ttl) else None in
      let keyID := Base64.EncodeToString Base64.URLEncoding idBytes in
      (set_apiKeyRepo (ApiKeyRepo.Create (apiKeyRepo s)
         {| ApiKeyRepo.ID := keyID; ApiKeyRepo.Name := name; ApiKeyRepo.KeyHash := keyHash;
            ApiKeyRepo.Identity := identity; ApiKeyRepo.Policies := policies;
            ApiKeyRepo.Metadata := metadata; ApiKeyRepo.CreatedAt := now 1%nat;
            ApiKeyRepo.ExpiresAt := expiresAt; ApiKeyRepo.RevokedAt := None;
            ApiKeyRepo.LastUsedAt := None |}) s,
       Ok (apiKey, keyID))
  end.

Definition ValidateAPIKey (s : AuthService) (apiKey : string) (now : time)
    : outcome (AuthService * result ApiKeyRepo.APIKey) :=
  let! res := ApiKeyRepo.GetByHash (apiKeyRepo s) (ApiKeyRepo.HashAPIKey apiKey) now in
  Ret match res with
      | Err _ => (s, Err ErrInvalidAPIKey)
      | Ok key => (spawn (TouchAPIKey (ApiKeyRepo.ID key)) s, Ok key)
      end.

Definition RevokeAPIKey (s : AuthService) (keyID : string) (now : time) : AuthService * option error :=
  let (r, err) := ApiKeyRepo.Revoke (apiKeyRepo s) keyID now in
  (set_apiKeyRepo r s, err).

(** ** Policies *)

Definition new_stored (name description : string) (rules : list Policy.Rule) : PolicyRepo.StoredPolicy :=
  {| PolicyRepo.Name := name; PolicyRepo.Description := description; PolicyRepo.Rules := rules;
     PolicyRepo.CreatedAt := zeroTime; PolicyRepo.UpdatedAt := zeroTime |}.

Definition new_policy (name : string) (rules : list Policy.Rule) : Policy.Policy :=
  {| Policy.Name := name; Policy.Rules := rules; Policy.Description := "" |}.

Definition CreatePolicy (s : AuthService) (name description : string) (rules : list Policy.Rule)
    (now : time) : AuthService * option error :=
  match PolicyRepo.Create (policyRepo s) (new_stored name description rules) now with
  | (_, Some err) => (s, Some err)
  | (r, None) =>
      (set_policies r (Policy.AddPolicy (policyEvaluator s) (new_policy name rules)) name s, None)
  end.

Definition GetPolicy (s : AuthService) (name : string) : result PolicyRepo.StoredPolicy :=
  PolicyRepo.Get (policyRepo s) name.

Definition UpdatePolicy (s : AuthService) (name description : string) (rules : list Policy.Rule)
    (now : time) : AuthService * option error :=
  match PolicyRepo.Update (policyRepo s) (new_stored name description rules) now with
  | (_, Some err) => (s, Some err)
  | (r, None) =>
      (set_policies r (Policy.AddPolicy (policyEvaluator s) (new_policy name rules)) name s, None)
  end.

Definition DeletePolicy (s : AuthService) (name : string) : AuthService * option error :=
  match PolicyRepo.Delete (policyRepo s) name with
  | (_, Some err) => (s, Some err)
  | (r, None) => (set_policies r (Policy.RemovePolicy (policyEvaluator s) name).1 name s, None)
  end.

Definition ListPolicies (order : list (string * PolicyRepo.StoredPolicy)) (limit offset : Z)
    : outcome (list PolicyRepo.StoredPolicy * Z) := PolicyRepo.List_ order limit offset.

Definition EvaluatePolicy (s : AuthService) (policies : list string) (resource action : string)
    (context : gmap string string) : Policy.EvaluationResult :=
  Policy.Evaluate (policyEvaluator s) policies resource (Policy.ActionToCapability action) context.

Definition ListTokens (order : list (string * TokenRepo.Token)) (identity : string) (limit offset : Z)
    : outcome (list TokenRepo.Token * Z) := TokenRepo.ListByIdentity order identity limit offset.

Definition ListAPIKeys (order : list (string * ApiKeyRepo.APIKey)) (identity : string) (limit offset : Z)
    : outcome (list ApiKeyRepo.APIKey * Z) := ApiKeyRepo.ListByIdentity order identity limit offset.

(** A goroutine that was started by a validation; its result is dropped. *)
Definition run_task (s : AuthService) (t : task) (now : time) : AuthService :=
  match t with
  | TouchToken id => set_tokenRepo (TokenRepo.UpdateLastUsed (tokenRepo s) id now).1 s
  | TouchAPIKey id => set_apiKeyRepo (ApiKeyRepo.UpdateLastUsed (apiKeyRepo s) id now).1 s
  end.

(** ** Runs *)

Inductive op :=
  | op_CreateToken (identity : string) (policies : list string) (ttl : Z)
      (metadata : gmap string string) (now : nat → time) (uuid : string) (r : entropy)
  | op_ValidateToken (tokenString : string) (now : nat → time)
  | op_ValidateTokenWithPolicy (tokenString resource action : string) (now : nat → time)
  | op_RevokeToken (tokenID : string) (now : time)
  | op_CreateAPIKey (name identity : string) (policies : list string) (ttl : Z)
      (metadata : gmap string string) (r : entropy) (idBytes : bytes) (now : nat → time)
  | op_ValidateAPIKey (apiKey : string) (now : time)
  | op_RevokeAPIKey (keyID : string) (now : time)
  | op_CreatePolicy (name description : string) (rules : list Policy.Rule) (now : time)
  | op_UpdatePolicy (name description : string) (rules : list Policy.Rule) (now : time)
  | op_DeletePolicy (name : string)
  | op_Background (i : nat) (now : time).

(** A call that panics leaves the service as it was. *)
Definition exec (s : AuthService) (o : op) : AuthService :=
  match o with
  | op_CreateToken i p t m now u r => (CreateToken s i p t m now u r).1
  | op_ValidateToken tok now => (ValidateToken s tok now).1
  | op_ValidateTokenWithPolicy tok res act now => (ValidateTokenWithPolicy s tok res act now).1
  | op_RevokeToken id now => (RevokeToken s id now).1
  | op_CreateAPIKey n i p t m r b now => (CreateAPIKey s n i p t m r b now).1
  | op_ValidateAPIKey k now => match ValidateAPIKey s k now with Ret (s', _) => s' | Panic _ => s end
  | op_RevokeAPIKey id now => (RevokeAPIKey s id now).1
  | op_CreatePolicy n d rs now => (CreatePolicy s n d rs now).1
  | op_UpdatePolicy n d rs now => (UpdatePolicy s n d rs now).1
  | op_DeletePolicy n => (DeletePolicy s n).1
  | op_Background i now =>
      match background s !! i with
      | Some t => run_task (set_background (delete i (background s)) s) t now
      | None => s
      end
  end.

Definition exec_all (s : AuthService) (ops : list op) : AuthService := List.fold_left exec ops s.

(** ** The invariant

    Every cached token was valid when it entered the cache; the API keys and the
    policies are well formed; and the evaluator decides by exactly the stored policies. *)
Record auth_ok (s : AuthService) : Prop := {
  ok_cache : lru_ok (Cache.cache (tokenCache s));
  ok_cached tok e : lru_Peek (Cache.cache (tokenCache s)) tok = Some e →
    ∃ t, Jwt.ValidateToken (jwtManager s) tok t = Ok (Cache.value e);
  ok_apikeys : ApiKeyRepo.wf (apiKeyRepo s);
  ok_policies : PolicyRepo.wf (policyRepo s);
  ok_sync : Policy.policies (policyEvaluator s) = to_policy <$> PolicyRepo.policies (policyRepo s)
}.

Context {JL : JWTLaws J} {LTL : LRULaws string (Cache.cacheEntry Claims)}.

(** *** The evaluator follows the repository *)

Lemma load_lookup e ps n :
  Policy.policies (load_policies e ps) !! n =
    match List.find (λ p, bool_decide (PolicyRepo.Name p = n)) (rev ps) with
    | Some p => Some (to_policy p)
    | None => Policy.policies e !! n
    end.
Proof.
  unfold load_policies. revert e. induction ps as [|p ps IH] using rev_ind; intros e; [done|].
  rewrite fold_left_app, rev_app_distr. cbn. case_bool_decide as Hn.
  - subst n. by rewrite lookup_insert_eq.
  - rewrite lookup_insert_ne by done. apply IH.
Qed.

Lemma load_sync r order :
  PolicyRepo.wf r → order ≡ₚ map_to_list (PolicyRepo.policies r) →
  Policy.policies (load_policies Policy.NewEvaluator order.*2) = to_policy <$> PolicyRepo.policies r.
Proof.
  intros [Hn Hd _] Ho. apply map_eq. intros n. rewrite load_lookup, lookup_fmap.
  assert (∀ p, p ∈ rev order.*2 ↔ ∃ m, PolicyRepo.policies r !! m = Some p) as Hin.
  { intros p. rewrite list_elem_of_In, <- in_rev, <- list_elem_of_In, list_elem_of_fmap.
    split; [intros ([m q] & -> & H)|intros [m H]; exists (m, p)].
    - exists m. by rewrite Ho, elem_of_map_to_list in H.
    - by rewrite Ho, elem_of_map_to_list. }
  destruct (List.find _ (rev order.*2)) as [p|] eqn:Hf.
  - apply find_some in Hf as [Hp%list_elem_of_In Hname%bool_decide_eq_true].
    apply Hin in Hp as [m Hm]. pose proof (Hn _ _ Hm) as E. rewrite <- Hname, E, Hm. done.
  - destruct (PolicyRepo.policies r !! n) as [p|] eqn:Hp; cbn.
    + exfalso. assert (p ∈ rev order.*2) as Hi by (apply Hin; eauto).
      pose proof (find_not_in _ _ _ Hf Hi) as Hb. cbn in Hb.
      apply bool_decide_eq_false in Hb. by apply Hb, Hn.
    + apply lookup_insert_None. split; [by rewrite lookup_empty|]. intros <-. cbn in Hp.
      rewrite Hp in Hd. by destruct Hd.
Qed.

Lemma sync_add (e : Policy.Evaluator) (m : gmap string PolicyRepo.StoredPolicy) p :
  Policy.policies e = to_policy <$> m →
  Policy.policies (Policy.AddPolicy e (to_policy p)) = to_policy <$> <[PolicyRepo.Name p := p]> m.
Proof. intros H. cbn. by rewrite H, fmap_insert. Qed.

Lemma sync_remove (e : Policy.Evaluator) (m : gmap string PolicyRepo.StoredPolicy) n :
  Policy.policies e = to_policy <$> m →
  Policy.policies (Policy.RemovePolicy e n).1 = to_policy <$> delete n m.
Proof.
  intros H. unfold Policy.RemovePolicy. rewrite H, fmap_delete.
  destruct ((to_policy <$> m) !! n) eqn:Hn; cbn; [done|]. by rewrite delete_id.
Qed.

(** *** Validation, by cases *)

Inductive validation (s : AuthService) (tok : string) (now : nat → time) : AuthService → result Claims → Prop :=
  | from_cache e c :
      lru_Peek (Cache.cache (tokenCache s)) tok = Some e →
      Cache.expired (tokenCache s) e (now 0%nat) = false →
      c = (Cache.Get (tokenCache s) tok (now 0%nat)).1 →
      validation s tok now (set_tokenCache c s) (Ok (Cache.value e))
  | refused err c :
      Cache.Contains (tokenCache s) tok (now 0%nat) = false →
      c = (Cache.Get (tokenCache s) tok (now 0%nat)).1 →
      err = ErrTokenExpired ∨ err = ErrInvalidToken →
      (∀ claims, Jwt.ValidateToken (jwtManager s) tok (now 1%nat) = Ok claims →
                 TokenRepo.revoked (tokenRepo s) (TokenID claims) = true) →
      validation s tok now (set_tokenCache c s) (Err err)
  | accepted claims c :
      Cache.Contains (tokenCache s) tok (now 0%nat) = false →
      c = (Cache.Get (tokenCache s) tok (now 0%nat)).1 →
      Jwt.ValidateToken (jwtManager s) tok (now 1%nat) = Ok claims →
      TokenRepo.revoked (tokenRepo s) (TokenID claims) = false →
      validation s tok now (accept (set_tokenCache c s) tok claims (now 3%nat)) (Ok claims).

Lemma revoked_Get r id now :
  match TokenRepo.Get r id now with
  | Err e => errors_Is e TokenRepo.ErrTokenRevoked
  | Ok _ => false
  end = TokenRepo.revoked r id.
Proof.
  unfold TokenRepo.Get, TokenRepo.revoked. destruct (TokenRepo.tokens r !! id) as [t|]; [|done].
  case_bool_decide; [done|]. by destruct (_ <? _).
Qed.

Lemma ValidateToken_cases s tok now :
  lru_ok (Cache.cache (tokenCache s)) →
  validation s tok now (ValidateToken s tok now).1 (ValidateToken s tok now).2.
Proof.
  intros Hok. unfold ValidateToken.
  pose proof (Cache.Get_spec (tokenCache s) tok (now 0%nat) Hok) as [Hg _].
  destruct (Cache.Get (tokenCache s) tok (now 0%nat)) as [c hit] eqn:Hget. cbn in Hg.
  destruct (Cache.Contains (tokenCache s) tok (now 0%nat)) eqn:Hc.
  - unfold Cache.Contains in Hc. destruct (lru_Peek _ tok) as [e|] eqn:Hp; [|done].
    subst hit. cbn. apply from_cache; [done|by apply negb_true_iff|by rewrite Hget].
  - subst hit. cbn [jwtManager set_tokenCache tokenRepo].
    destruct (Jwt.ValidateToken (jwtManager s) tok (now 1%nat)) as [claims|err] eqn:Hj.
    + pose proof (revoked_Get (tokenRepo s) (TokenID claims) (now 2%nat)) as Hr.
      destruct (TokenRepo.Get (tokenRepo s) (TokenID claims) (now 2%nat)) as [t|err].
      * cbn. apply accepted; [done|by rewrite Hget|done|done].
      * destruct (errors_Is err TokenRepo.ErrTokenRevoked).
        -- apply refused; [done|by rewrite Hget|auto|]. intros cl Hcl. rewrite Hj in Hcl. by injection Hcl as <-.
        -- apply accepted; [done|by rewrite Hget|done|done].
    + apply refused; [done|by rewrite Hget|by destruct (errors_Is err ErrExpiredToken); auto|congruence].
Qed.

(** What a validation leaves alone. *)
Lemma ValidateToken_frame s tok now :
  let s' := (ValidateToken s tok now).1 in
  jwtManager s' = jwtManager s ∧ tokenRepo s' = tokenRepo s ∧ apiKeyRepo s' = apiKeyRepo s ∧
  policyRepo s' = policyRepo s ∧ policyEvaluator s' = policyEvaluator s ∧
  Cache.ttl (tokenCache s') = Cache.ttl (tokenCache s).
Proof.
  cbn. unfold ValidateToken. pose proof (Cache.exec_ttl (tokenCache s) (Cache.op_Get tok (now 0%nat))) as Ht.
  cbn in Ht. destruct (Cache.Get (tokenCache s) tok (now 0%nat)) as [c [claims|]]; [by cbn in *|].
  cbn [jwtManager set_tokenCache tokenRepo].
  pose proof (λ cl, Cache.exec_ttl c (Cache.op_Set tok cl (now 3%nat))) as Hs. cbn in Hs, Ht.
  destruct (Jwt.ValidateToken _ tok _) as [claims|]; [|done].
  destruct (TokenRepo.Get _ _ _) as [t|err]; [|destruct (errors_Is err TokenRepo.ErrTokenRevoked); [done|]];
    cbn; (split_and!; [done..|]); by rewrite Hs.
Qed.

Lemma WithPolicy_state s tok res act now :
  (ValidateTokenWithPolicy s tok res act now).1 = (ValidateToken s tok now).1.
Proof.
  unfold ValidateTokenWithPolicy. destruct (ValidateToken s tok now) as [s' [c|e]]; [|done].
  by destruct (negb _).
Qed.

Lemma ok_token_part s s' :
  auth_ok s → apiKeyRepo s' = apiKeyRepo s → policyRepo s' = policyRepo s →
  policyEvaluator s' = policyEvaluator s → lru_ok (Cache.cache (tokenCache s')) →
  (∀ tok e, lru_Peek (Cache.cache (tokenCache s')) tok = Some e →
     ∃ t, Jwt.ValidateToken (jwtManager s') tok t = Ok (Cache.value e)) → auth_ok s'.
Proof. intros [] E1 E2 E3 Hok Hc. split; rewrite ?E1, ?E2, ?E3; done. Qed.

Lemma ok_get s tok t : auth_ok s → auth_ok (set_tokenCache (Cache.Get (tokenCache s) tok t).1 s).
Proof.
  intros H. pose proof (Cache.Get_spec (tokenCache s) tok t (ok_cache _ H)) as (_ & Hok & Hsub).
  apply (ok_token_part s); [done..|]. intros tok' e He. by apply (ok_cached _ H), Hsub.
Qed.

Lemma ok_accept s tok claims t t' :
  auth_ok s → Jwt.ValidateToken (jwtManager s) tok t = Ok claims → auth_ok (accept s tok claims t').
Proof.
  intros H Hv. pose proof (ok_cache _ H) as Hok.
  apply (ok_token_part s); [done..| |].
  - by apply (Cache.exec_ok (tokenCache s) (Cache.op_Set tok claims t')).
  - intros tok' e. cbn. unfold Cache.Set_. rewrite Cache.add_entry_cache.
    intros [[-> ->]|[_ He]]%lru_Add_inv; [by exists t|by apply (ok_cached _ H)|done].
Qed.

Lemma ok_ValidateToken s tok now : auth_ok s → auth_ok (ValidateToken s tok now).1.
Proof.
  intros H. pose proof (ok_get s tok (now 0%nat) H) as Hg.
  destruct (ValidateToken_cases s tok now (ok_cache _ H)) as [| |claims c Hc -> Hv Hr]; subst; try done.
  eapply ok_accept; [done|]. exact Hv.
Qed.

Lemma ok_exec s o : auth_ok s → auth_ok (exec s o).
Proof.
  intros H. destruct o; cbn.
  - unfold CreateToken. destruct (Jwt.CreateToken _ _ _ _ _ _ _ _) as [[[] ]|]; [|done]. by destruct H.
  - by apply ok_ValidateToken.
  - rewrite WithPolicy_state. by apply ok_ValidateToken.
  - unfold RevokeToken. destruct (TokenRepo.Revoke _ _ _). by destruct H.
  - unfold CreateAPIKey. destruct (rand_Read 32 r); [|done]. destruct H. split; try done. by apply ApiKeyRepo.apikeys_wf_Create.
  - unfold ValidateAPIKey. destruct (ApiKeyRepo.GetByHash _ _ _) as [[k|e]|]; cbn; [|done..].
    by destruct H.
  - unfold RevokeAPIKey. destruct H as [? ? Hk ? ?].
    pose proof (ApiKeyRepo.apikeys_wf_update _ keyID (ApiKeyRepo.revoke_key now) ltac:(done) Hk) as Hk'.
    unfold ApiKeyRepo.Revoke. destruct (ApiKeyRepo.update _ _ _). by split.
  - unfold CreatePolicy. destruct H as [? ? ? Hp Hs].
    pose proof (PolicyRepo.stored_wf_Create _ (new_stored name description rules) now Hp) as Hp'.
    unfold PolicyRepo.Create in *. destruct (PolicyRepo.policies (policyRepo s) !! _); [done|].
    split; cbn; try done. by rewrite Hs, fmap_insert.
  - unfold UpdatePolicy. destruct H as [? ? ? Hp Hs].
    pose proof (PolicyRepo.stored_wf_Update _ (new_stored name description rules) now Hp) as Hp'.
    unfold PolicyRepo.Update in *. destruct (PolicyRepo.policies (policyRepo s) !! _); [|done].
    split; cbn; try done. by rewrite Hs, fmap_insert.
  - unfold DeletePolicy. destruct H as [? ? ? Hp Hs].
    pose proof (PolicyRepo.stored_wf_Delete _ name Hp) as Hp'.
    unfold PolicyRepo.Delete in *. destruct (PolicyRepo.policies (policyRepo s) !! _); [|done].
    destruct (_ || _); [done|]. split; try done. by apply sync_remove.
  - destruct (background s !! i) as [[id|id]|]; [| |done]; destruct H as [? ? Hk ? ?]; [by split|].
    pose proof (ApiKeyRepo.apikeys_wf_update _ id (ApiKeyRepo.touch_key now) ltac:(done) Hk) as Hk'. by split.
Qed.

Lemma ok_exec_all s ops : auth_ok s → auth_ok (exec_all s ops).
Proof. revert s. unfold exec_all. induction ops as [|o ops IH]; intros s H; cbn; [done|]. by apply IH, ok_exec. Qed.

Lemma new_ok cfg tr ar pr order r s :
  ApiKeyRepo.wf ar → PolicyRepo.wf pr → order ≡ₚ map_to_list (PolicyRepo.policies pr) →
  (length order ≤ 1000)%nat → NewAuthService cfg tr ar pr order r = Ret (Ok s) → auth_ok s.
Proof.
  intros Ha Hp Ho Hl. unfold NewAuthService, PolicyRepo.List_.
  destruct (NewManager _ r) as [m|]; [cbn|done].
  unfold new_cache. destruct (Cache.NewLRUCacheWithTTL (cfg_L1Size cfg) (cfg_L2TTL cfg)) as [tc|] eqn:Hc; [cbn|done].
  destruct (Cache.NewLRUCacheWithTTL 1000 (5 * Minute)) as [pc|]; [|done]. cbn.
  rewrite TokenRepo.page_in_range by lia. cbn. rewrite drop_0, take_ge.
  2:{ rewrite length_fmap. lia. }
  intros [= <-]. unfold Cache.NewLRUCacheWithTTL in Hc.
  destruct (lru_New (cfg_L1Size cfg)) as [i|] eqn:Hn; [|done]. cbn in Hc. injection Hc as <-.
  split; cbn; [by apply (lru_New_ok _ _ Hn)| |done|done|by apply load_sync].
  intros tok e. by rewrite (lru_New_Peek _ _ tok Hn).
Qed.

(** *** What a run leaves alone *)

Lemma exec_manager s o : jwtManager (exec s o) = jwtManager s.
Proof.
  destruct o; cbn.
  - unfold CreateToken. by destruct (Jwt.CreateToken _ _ _ _ _ _ _ _) as [[[] ]|].
  - apply ValidateToken_frame.
  - rewrite WithPolicy_state. apply ValidateToken_frame.
  - unfold RevokeToken. by destruct (TokenRepo.Revoke _ _ _).
  - unfold CreateAPIKey. by destruct (rand_Read 32 r).
  - unfold ValidateAPIKey. by destruct (ApiKeyRepo.GetByHash _ _ _) as [[k|e]|].
  - unfold RevokeAPIKey. by destruct (ApiKeyRepo.Revoke _ _ _).
  - unfold CreatePolicy. by destruct (PolicyRepo.Create _ _ _) as [? [|]].
  - unfold UpdatePolicy. by destruct (PolicyRepo.Update _ _ _) as [? [|]].
  - unfold DeletePolicy. by destruct (PolicyRepo.Delete _ _) as [? [|]].
  - by destruct (background s !! i) as [[]|].
Qed.

Lemma exec_all_manager s ops : jwtManager (exec_all s ops) = jwtManager s.
Proof.
  revert s. unfold exec_all. induction ops as [|o ops IH]; intros s; cbn; [done|].
  by rewrite IH, exec_manager.
Qed.

(** The operation revokes the token [id], or makes another one with this identifier. *)
Definition names_token (id : string) (o : op) : bool :=
  match o with
  | op_RevokeToken id' _ => bool_decide (id' = id)
  | op_CreateToken _ _ _ _ _ uuid _ => bool_decide (uuid = id)
  | _ => false
  end.

Lemma exec_revoked s o id :
  names_token id o = false → TokenRepo.revoked (tokenRepo (exec s o)) id = TokenRepo.revoked (tokenRepo s) id.
Proof.
  destruct o; cbn; intros Hn.
  - apply bool_decide_eq_false in Hn. unfold CreateToken.
    destruct (Jwt.CreateToken _ _ _ _ _ _ _ _) as [[[tok id'] exp]|] eqn:Hc; [|done].
    apply created_inv in Hc as (-> & _). cbn. by apply TokenRepo.revoked_Create.
  - by rewrite (proj1 (proj2 (ValidateToken_frame s tokenString now))).
  - rewrite WithPolicy_state. by rewrite (proj1 (proj2 (ValidateToken_frame s tokenString now))).
  - apply bool_decide_eq_false in Hn. unfold RevokeToken.
    pose proof (TokenRepo.revoked_Revoke_other (tokenRepo s) tokenID id now) as H.
    destruct (TokenRepo.Revoke _ _ _). cbn in *. apply H. congruence.
  - unfold CreateAPIKey. by destruct (rand_Read 32 r).
  - unfold ValidateAPIKey. by destruct (ApiKeyRepo.GetByHash _ _ _) as [[k|e]|].
  - unfold RevokeAPIKey. by destruct (ApiKeyRepo.Revoke _ _ _).
  - unfold CreatePolicy. by destruct (PolicyRepo.Create _ _ _) as [? [|]].
  - unfold UpdatePolicy. by destruct (PolicyRepo.Update _ _ _) as [? [|]].
  - unfold DeletePolicy. by destruct (PolicyRepo.Delete _ _) as [? [|]].
  - destruct (background s !! i) as [[]|]; cbn; [apply TokenRepo.revoked_touch|done..].
Qed.

Lemma exec_all_revoked s ops id :
  Forall (λ o, names_token id o = false) ops →
  TokenRepo.revoked (tokenRepo (exec_all s ops)) id = TokenRepo.revoked (tokenRepo s) id.
Proof.
  intros H. revert s. unfold exec_all. induction H as [|o ops Ho _ IH]; intros s; cbn; [done|].
  by rewrite IH, exec_revoked.
Qed.

(** A token stands for one set of claims. *)
Lemma same_claims m tok t t' c c' :
  Jwt.ValidateToken m tok t = Ok c → Jwt.ValidateToken m tok t' = Ok c' → c = c'.
Proof.
  intros (_ & _ & _ & _ & H)%validate_sound (_ & _ & _ & _ & H')%validate_sound.
  rewrite H in H'. by injection H'.
Qed.

(** A token that would be valid now, and is not revoked, is accepted with its claims. *)
Lemma valid_accepted s tok now claims :
  auth_ok s → Jwt.ValidateToken (jwtManager s) tok (now 1%nat) = Ok claims →
  TokenRepo.revoked (tokenRepo s) (TokenID claims) = false →
  (ValidateToken s tok now).2 = Ok claims.
Proof.
  intros H Hv Hr. destruct (ValidateToken_cases s tok now (ok_cache _ H)) as [e c Hp _ _|err c _ _ _ Hno|cl c _ _ Hv' _].
  - destruct (ok_cached _ H _ _ Hp) as [t Ht]. f_equal. by eapply same_claims.
  - specialize (Hno _ Hv). congruence.
  - congruence.
Qed.

(** *** API keys in a run *)

(** The operation makes a key with this identifier or hash; it revokes the key. *)
Definition recreates_key (id hash : string) (o : op) : bool :=
  match o with
  | op_CreateAPIKey _ _ _ _ _ r idBytes _ =>
      match rand_Read 32 r with
      | None => false
      | Some b =>
          bool_decide (ApiKeyRepo.HashAPIKey ("vk_" +:+ Base64.EncodeToString Base64.URLEncoding b) = hash) ||
          bool_decide (Base64.EncodeToString Base64.URLEncoding idBytes = id)
      end
  | _ => false
  end.

Definition revokes_key (id : string) (o : op) : bool :=
  match o with op_RevokeAPIKey id' _ => bool_decide (id' = id) | _ => false end.

(** The repository holds the key [k0], up to the time of its last use; [rev] tells
    whether it has been revoked. *)
Definition holds_key (s : AuthService) (k0 : ApiKeyRepo.APIKey) (rev : bool) : Prop :=
  ApiKeyRepo.byHash (apiKeyRepo s) !! ApiKeyRepo.KeyHash k0 = Some (ApiKeyRepo.ID k0) ∧
  ∃ k, ApiKeyRepo.keys (apiKeyRepo s) !! ApiKeyRepo.ID k0 = Some k ∧
    ApiKeyRepo.ID k = ApiKeyRepo.ID k0 ∧ ApiKeyRepo.Identity k = ApiKeyRepo.Identity k0 ∧
    ApiKeyRepo.Policies k = ApiKeyRepo.Policies k0 ∧ ApiKeyRepo.ExpiresAt k = ApiKeyRepo.ExpiresAt k0 ∧
    bool_decide (ApiKeyRepo.RevokedAt k ≠ None) = rev.

Lemma holds_key_ext s s' k0 rev : apiKeyRepo s' = apiKeyRepo s → holds_key s k0 rev → holds_key s' k0 rev.
Proof. unfold holds_key. by intros ->. Qed.

Lemma holds_key_revoke s k0 id now rev :
  holds_key s k0 rev →
  holds_key (RevokeAPIKey s id now).1 k0 (bool_decide (id = ApiKeyRepo.ID k0) || rev).
Proof.
  intros (Hh & k & Hk & H1 & H2 & H3 & H4 & H5). unfold RevokeAPIKey, ApiKeyRepo.Revoke.
  pose proof (ApiKeyRepo.update_byHash (apiKeyRepo s) id (ApiKeyRepo.revoke_key now)) as Eh.
  pose proof (ApiKeyRepo.apikeys_update_lookup (apiKeyRepo s) id (ApiKeyRepo.revoke_key now) (ApiKeyRepo.ID k0)) as Ek.
  destruct (ApiKeyRepo.update _ _ _) as [r err]. cbn in *. unfold holds_key. cbn. rewrite Eh, Ek, Hk.
  split; [done|]. destruct (decide (ApiKeyRepo.ID k0 = id)) as [E|E];
    [rewrite bool_decide_true by done|rewrite bool_decide_false by done].
  - exists (ApiKeyRepo.revoke_key now k). rewrite (bool_decide_true (id = _)) by done. done.
  - exists k. rewrite (bool_decide_false (id = _)) by congruence. done.
Qed.

Lemma holds_key_touch s k0 id now rev :
  holds_key s k0 rev → holds_key (run_task s (TouchAPIKey id) now) k0 rev.
Proof.
  intros (Hh & k & Hk & H1 & H2 & H3 & H4 & H5). unfold holds_key. cbn.
  unfold ApiKeyRepo.UpdateLastUsed. rewrite ApiKeyRepo.update_byHash, ApiKeyRepo.apikeys_update_lookup, Hk.
  split; [done|]. destruct (bool_decide (ApiKeyRepo.ID k0 = id)); [|by exists k].
  by exists (ApiKeyRepo.touch_key now k).
Qed.

Lemma exec_holds s o k0 rev :
  recreates_key (ApiKeyRepo.ID k0) (ApiKeyRepo.KeyHash k0) o = false →
  (rev = false → revokes_key (ApiKeyRepo.ID k0) o = false) →
  holds_key s k0 rev → holds_key (exec s o) k0 rev.
Proof.
  intros Hc Hr H. destruct o; cbn in *.
  - eapply holds_key_ext; [|done]. unfold CreateToken. by destruct (Jwt.CreateToken _ _ _ _ _ _ _ _) as [[[] ]|].
  - eapply holds_key_ext; [|done]. apply ValidateToken_frame.
  - rewrite WithPolicy_state. eapply holds_key_ext; [|done]. apply ValidateToken_frame.
  - eapply holds_key_ext; [|done]. unfold RevokeToken. by destruct (TokenRepo.Revoke _ _ _).
  - unfold CreateAPIKey. destruct (rand_Read 32 r) as [b|]; [|done].
    apply orb_false_iff in Hc as [H1%bool_decide_eq_false H2%bool_decide_eq_false].
    destruct H as (Hh & k & Hk & H). unfold holds_key.
    cbn [fst set_apiKeyRepo apiKeyRepo ApiKeyRepo.Create ApiKeyRepo.byHash ApiKeyRepo.keys ApiKeyRepo.KeyHash ApiKeyRepo.ID].
    rewrite !lookup_insert_ne by done. eauto.
  - eapply holds_key_ext; [|done]. unfold ValidateAPIKey. by destruct (ApiKeyRepo.GetByHash _ _ _) as [[k|e]|].
  - pose proof (holds_key_revoke s k0 keyID now rev H) as H'. destruct rev.
    + by rewrite orb_true_r in H'.
    + by rewrite (Hr eq_refl) in H'.
  - eapply holds_key_ext; [|done]. unfold CreatePolicy. by destruct (PolicyRepo.Create _ _ _) as [? [|]].
  - eapply holds_key_ext; [|done]. unfold UpdatePolicy. by destruct (PolicyRepo.Update _ _ _) as [? [|]].
  - eapply holds_key_ext; [|done]. unfold DeletePolicy. by destruct (PolicyRepo.Delete _ _) as [? [|]].
  - destruct (background s !! i) as [[]|]; [| |done].
    + by eapply holds_key_ext.
    + by apply holds_key_touch.
Qed.

Lemma exec_all_holds s ops k0 rev :
  Forall (λ o, recreates_key (ApiKeyRepo.ID k0) (ApiKeyRepo.KeyHash k0) o = false ∧
               (rev = false → revokes_key (ApiKeyRepo.ID k0) o = false)) ops →
  holds_key s k0 rev → holds_key (exec_all s ops) k0 rev.
Proof.
  intros H. revert s. unfold exec_all. induction H as [|o ops [Hc Hr] _ IH]; intros s Hs; cbn; [done|].
  by apply IH, exec_holds.
Qed.

(** What validation answers for a key the repository holds. *)
Lemma validate_held s key k0 rev t :
  ApiKeyRepo.KeyHash k0 = ApiKeyRepo.HashAPIKey key → holds_key s k0 rev →
  if rev || ApiKeyRepo.past t (ApiKeyRepo.ExpiresAt k0)
  then ValidateAPIKey s key t = Ret (s, Err ErrInvalidAPIKey)
  else ∃ s' k, ValidateAPIKey s key t = Ret (s', Ok k) ∧ ApiKeyRepo.ID k = ApiKeyRepo.ID k0 ∧
         ApiKeyRepo.Identity k = ApiKeyRepo.Identity k0 ∧ ApiKeyRepo.Policies k = ApiKeyRepo.Policies k0.
Proof.
  intros Hkey (Hh & k & Hk & H1 & H2 & H3 & H4 & H5). unfold ValidateAPIKey, ApiKeyRepo.GetByHash.
  rewrite <- Hkey, Hh, Hk, H5, H4. destruct rev; [done|].
  destruct (ApiKeyRepo.past t (ApiKeyRepo.ExpiresAt k0)); cbn; [done|]. eauto 10.
Qed.

Lemma with_default_has policies : "default" ∈ with_default policies.
Proof.
  unfold with_default. destruct (existsb _ policies) eqn:Hd; [|set_solver].
  apply existsb_exists in Hd as (p & Hp & Hb). apply bool_decide_eq_true in Hb as ->.
  by apply list_elem_of_In.
Qed.

(** The entry a validation that missed the cache leaves in it. *)
Lemma validated_entry s tok now s1 c :
  auth_ok s → Cache.Contains (tokenCache s) tok (now 0%nat) = false →
  ValidateToken s tok now = (s1, Ok c) →
  ∃ e, lru_Peek (Cache.cache (tokenCache s1)) tok = Some e ∧ Cache.value e = c ∧
    (0 < Cache.ttl (tokenCache s) → Cache.expiresAt e = now 3%nat + Cache.ttl (tokenCache s)).
Proof.
  intros Hok Hmiss Hv. pose proof (ValidateToken_cases s tok now (ok_cache _ Hok)) as Hc.
  rewrite Hv in Hc. cbn in Hc. inversion Hc as [e0 c0 Hp He| |cl c0 _ E Hv' Hr']; subst.
  - unfold Cache.Contains in Hmiss. rewrite Hp, He in Hmiss. done.
  - cbn. unfold Cache.Set_. rewrite Cache.add_entry_cache.
    pose proof (Cache.Get_spec (tokenCache s) tok (now 0%nat) (ok_cache _ Hok)) as (_ & Hg & _).
    rewrite lru_Add_same by done. eexists. split; [done|]. split; [done|]. cbn.
    pose proof (Cache.exec_ttl (tokenCache s) (Cache.op_Get tok (now 0%nat))) as Hgt. cbn in Hgt.
    rewrite Hgt. intros Hpos. by rewrite (proj2 (Z.ltb_lt _ _) Hpos).
Qed.

(** Revoking a token touches only its record. *)
Lemma RevokeToken_frame s id t s' :
  RevokeToken s id t = (s', None) →
  tokenCache s' = tokenCache s ∧ jwtManager s' = jwtManager s ∧ TokenRepo.revoked (tokenRepo s') id = true.
Proof.
  unfold RevokeToken. destruct (TokenRepo.Revoke _ _ t) as [r' err] eqn:Hrr.
  intros [= <- ->]. split_and!; [done..|]. by eapply TokenRepo.revoked_Revoke.
Qed.

(** *** A revoked token in a run *)

(** The operation makes another token with this identifier. *)
Definition reissues (id : string) (o : op) : bool :=
  match o with op_CreateToken _ _ _ _ _ uuid _ => bool_decide (uuid = id) | _ => false end.

Lemma exec_stays_revoked s o id :
  reissues id o = false → TokenRepo.revoked (tokenRepo s) id = true →
  TokenRepo.revoked (tokenRepo (exec s o)) id = true.
Proof.
  intros Hr H. destruct (names_token id o) eqn:E; [|by rewrite exec_revoked].
  destruct o; cbn in *; try congruence. unfold RevokeToken.
  pose proof (TokenRepo.revoked_Revoke_mono (tokenRepo s) tokenID id now H) as H'.
  by destruct (TokenRepo.Revoke _ _ _).
Qed.

(** Only validations touch the cache of tokens. *)
Definition validates (o : op) : option (string * (nat → time)) :=
  match o with
  | op_ValidateToken tok now | op_ValidateTokenWithPolicy tok _ _ now => Some (tok, now)
  | _ => None
  end.

Lemma exec_cache s o :
  match validates o with
  | Some (tok, now) => exec s o = (ValidateToken s tok now).1
  | None => tokenCache (exec s o) = tokenCache s
  end.
Proof.
  destruct o; cbn; try done.
  - unfold CreateToken. by destruct (Jwt.CreateToken _ _ _ _ _ _ _ _) as [[[] ]|].
  - apply WithPolicy_state.
  - unfold RevokeToken. by destruct (TokenRepo.Revoke _ _ _).
  - unfold CreateAPIKey. by destruct (rand_Read 32 r).
  - unfold ValidateAPIKey. by destruct (ApiKeyRepo.GetByHash _ _ _) as [[k|e]|].
  - unfold RevokeAPIKey. by destruct (ApiKeyRepo.Revoke _ _ _).
  - unfold CreatePolicy. by destruct (PolicyRepo.Create _ _ _) as [? [|]].
  - unfold UpdatePolicy. by destruct (PolicyRepo.Update _ _ _) as [? [|]].
  - unfold DeletePolicy. by destruct (PolicyRepo.Delete _ _) as [? [|]].
  - by destruct (background s !! i) as [[]|].
Qed.

(** The token [tok] of the claims in [e] is revoked, and if the cache has an entry for it, it
    is [e]. *)
Record held (tok : string) (e : Cache.cacheEntry Claims) (s0 s : AuthService) : Prop := {
  held_ok : auth_ok s;
  held_manager : jwtManager s = jwtManager s0;
  held_ttl : Cache.ttl (tokenCache s) = Cache.ttl (tokenCache s0);
  held_valid : ∃ t, Jwt.ValidateToken (jwtManager s0) tok t = Ok (Cache.value e);
  held_revoked : TokenRepo.revoked (tokenRepo s) (TokenID (Cache.value e)) = true;
  held_entry : ∀ e', lru_Peek (Cache.cache (tokenCache s)) tok = Some e' → e' = e
}.

(** A revoked token is not accepted again, so its entry is not written again. *)
Lemma held_peek tok e s0 s tok' now e' :
  held tok e s0 s → lru_Peek (Cache.cache (tokenCache (ValidateToken s tok' now).1)) tok = Some e' → e' = e.
Proof.
  intros H. pose proof (ok_cache _ (held_ok _ _ _ _ H)) as Hok.
  pose proof (Cache.Get_spec (tokenCache s) tok' (now 0%nat) Hok) as (_ & Hok' & Hsub).
  destruct (ValidateToken_cases s tok' now Hok) as [e1 c1 _ _ ->|err c1 _ -> _ _|cl c1 _ -> Hv Hr].
  - intros He. by apply (held_entry _ _ _ _ H), Hsub.
  - intros He. by apply (held_entry _ _ _ _ H), Hsub.
  - cbn. unfold Cache.Set_. rewrite Cache.add_entry_cache. intros [[<- ->]|[_ He]]%lru_Add_inv; [| |done].
    + destruct (held_valid _ _ _ _ H) as [t Ht]. rewrite (held_manager _ _ _ _ H) in Hv.
      rewrite (same_claims _ _ _ _ _ _ Hv Ht), (held_revoked _ _ _ _ H) in Hr. done.
    + by apply (held_entry _ _ _ _ H), Hsub.
Qed.

Lemma held_exec tok e s0 s o :
  reissues (TokenID (Cache.value e)) o = false → held tok e s0 s → held tok e s0 (exec s o).
Proof.
  intros Hr H. pose proof (exec_cache s o) as Hc. split.
  - by apply ok_exec, (held_ok _ _ _ _ H).
  - rewrite exec_manager. apply H.
  - rewrite <- (held_ttl _ _ _ _ H). destruct (validates o) as [[tok' now]|]; rewrite Hc; [|done].
    apply ValidateToken_frame.
  - apply H.
  - by apply exec_stays_revoked, (held_revoked _ _ _ _ H).
  - intros e'. destruct (validates o) as [[tok' now]|]; rewrite Hc; [by apply (held_peek tok e s0)|apply H].
Qed.

Lemma held_exec_all tok e s0 s ops :
  Forall (λ o, reissues (TokenID (Cache.value e)) o = false) ops → held tok e s0 s → held tok e s0 (exec_all s ops).
Proof.
  intros H. revert s. unfold exec_all. induction H as [|o ops Ho _ IH]; intros s Hs; cbn; [done|].
  by apply IH, held_exec.
Qed.

(** Validations of the token itself, before the entry is over, leave the entry there; only
    those of other tokens can push it out. *)
Definition uses_only (tok : string) (over : time → bool) (o : op) : bool :=
  match validates o with
  | Some (tok', now) => bool_decide (tok' = tok) && negb (over (now 0%nat))
  | None => true
  end.

Lemma entry_kept tok e s o :
  auth_ok s → uses_only tok (Cache.expired (tokenCache s) e) o = true →
  lru_Peek (Cache.cache (tokenCache s)) tok = Some e →
  lru_Peek (Cache.cache (tokenCache (exec s o))) tok = Some e.
Proof.
  intros H Hu Hp. pose proof (exec_cache s o) as Hc. unfold uses_only in Hu.
  destruct (validates o) as [[tok' now]|]; rewrite Hc; [|done].
  apply andb_true_iff in Hu as [->%bool_decide_eq_true He%negb_true_iff].
  assert (Cache.Contains (tokenCache s) tok (now 0%nat) = true) as Hin by (unfold Cache.Contains; by rewrite Hp, He).
  destruct (ValidateToken_cases s tok now (ok_cache _ H)) as [e1 c1 _ _ ->|err c1 Hco|cl c1 Hco]; [|congruence..].
  cbn. unfold Cache.Get. pose proof (lru_Get_value _ tok (ok_cache _ H)) as Hv. rewrite Hp in Hv.
  pose proof (lru_Get_Peek _ tok tok (ok_cache _ H)) as Hg. rewrite Hp in Hg.
  destruct (lru_Get _ tok) as [i o']. cbn in Hv, Hg. subst o'. by rewrite He.
Qed.

Lemma entry_kept_all tok e s0 s ops :
  Forall (λ o, reissues (TokenID (Cache.value e)) o = false) ops →
  forallb (uses_only tok (Cache.expired (tokenCache s0) e)) ops = true →
  held tok e s0 s → lru_Peek (Cache.cache (tokenCache s)) tok = Some e →
  lru_Peek (Cache.cache (tokenCache (exec_all s ops))) tok = Some e.
Proof.
  intros H. revert s. unfold exec_all. induction H as [|o ops Ho _ IH]; intros s Hu Hs Hp; cbn; [done|].
  cbn in Hu. apply andb_true_iff in Hu as [Hu Hus]. apply IH; [done|by apply held_exec|].
  apply entry_kept; [apply Hs| |done]. unfold uses_only, Cache.expired in *. by rewrite (held_ttl _ _ _ _ Hs).
Qed.

(** What validation answers for a token that is revoked: its claims as long as the entry is
    there and not over. *)
Lemma held_answer tok e s0 s now :
  held tok e s0 s →
  if bool_decide (tok ∈ Cache.Keys (tokenCache s)) && negb (Cache.expired (tokenCache s0) e (now 0%nat))
  then (ValidateToken s tok now).2 = Ok (Cache.value e)
  else ∃ err, (ValidateToken s tok now).2 = Err err ∧ (err = ErrTokenExpired ∨ err = ErrInvalidToken).
Proof.
  intros H. pose proof (ok_cache _ (held_ok _ _ _ _ H)) as Hok.
  assert (Cache.expired (tokenCache s0) e (now 0%nat) = Cache.expired (tokenCache s) e (now 0%nat)) as ->
    by (unfold Cache.expired; by rewrite (held_ttl _ _ _ _ H)).
  assert (bool_decide (tok ∈ Cache.Keys (tokenCache s)) && negb (Cache.expired (tokenCache s) e (now 0%nat)) =
          Cache.Contains (tokenCache s) tok (now 0%nat)) as ->.
  { unfold Cache.Contains, Cache.Keys. destruct (lru_Peek _ tok) as [e'|] eqn:Hp.
    - rewrite bool_decide_true by (apply lru_Keys_Peek; [done|by rewrite Hp]).
      by rewrite (held_entry _ _ _ _ H e' Hp).
    - rewrite bool_decide_false; [done|]. rewrite lru_Keys_Peek by done. rewrite Hp. by intros []. }
  destruct (ValidateToken_cases s tok now Hok) as [e1 c1 Hp Hx _|err c1 Hco _ Herr _|cl c1 Hco _ Hv Hr].
  - unfold Cache.Contains. rewrite Hp, Hx. cbn. by rewrite (held_entry _ _ _ _ H e1 Hp).
  - rewrite Hco. eauto.
  - destruct (held_valid _ _ _ _ H) as [t Ht]. rewrite (held_manager _ _ _ _ H) in Hv.
    rewrite (same_claims _ _ _ _ _ _ Hv Ht), (held_revoked _ _ _ _ H) in Hr. done.
Qed.

(** ** Properties *)

(** C10. The service's invariant: started on well-formed repositories (with at most 1000
    policies, which is what start-up loads), in whatever order the stored policies are
    visited, and after any sequence of requests and background updates, the evaluator
    holds exactly the stored policies, the built-in policies are still stored, cached
    tokens were valid when cached, and no look-up of an API key panics. *)
Theorem auth_invariant cfg tr ar pr order r s ops :
  ApiKeyRepo.wf ar → PolicyRepo.wf pr → order ≡ₚ map_to_list (PolicyRepo.policies pr) →
  (length order ≤ 1000)%nat → NewAuthService cfg tr ar pr order r = Ret (Ok s) →
  let s' := exec_all s ops in
  auth_ok s' ∧ ∀ key now, ∃ res, ValidateAPIKey s' key now = Ret res.
Proof.
  intros Ha Hp Ho Hl Hn s'. assert (auth_ok s') as Hok by by apply ok_exec_all, (new_ok _ _ _ _ _ _ _ Ha Hp Ho Hl Hn).
  split; [done|]. intros key now. unfold ValidateAPIKey.
  destruct (ApiKeyRepo.GetByHash_total (apiKeyRepo s') (ApiKeyRepo.HashAPIKey key) now (ok_apikeys _ Hok)) as [res ->].
  cbn. eauto.
Qed.

(** C18. Issued tokens are accepted: a token issued for an identity, policies, metadata and
    an identifier that are valid UTF-8, as the configured issuer and audience are (JSON
    replaces other bytes), with dates after 1970 whose seconds a [float64] holds exactly,
    stays valid, with exactly the identity, metadata and identifier it
    was issued for and the policies extended by "default", from the second it was issued up
    to the second it expires, whatever requests the service serves in between, as long as
    none of them revokes it or issues another token under the same identifier. *)
Theorem issued_token_accepted s identity policies ttl metadata now uuid r s1 tok id exp ops now' :
  auth_ok s → manager_ok (jwtManager s) → clock_ok (now 0%nat) → clock_ok exp →
  texts_ok identity uuid (with_default policies) metadata = true →
  CreateToken s identity policies ttl metadata now uuid r = (s1, Ok (tok, id, exp)) →
  Forall (λ o, names_token id o = false) ops →
  now 0%nat - now 0%nat mod Second ≤ now' 1%nat < exp - exp mod Second →
  ∃ c, (ValidateToken (exec_all s1 ops) tok now').2 = Ok c ∧ Identity c = identity ∧
       Policies c = with_default policies ∧ "default" ∈ Policies c ∧ Metadata c = metadata ∧ TokenID c = id.
Proof.
  intros Hok Hm Hn He Ht Hc Hops Hnow.
  pose proof (ok_exec s (op_CreateToken identity policies ttl metadata now uuid r) Hok) as Hok1.
  unfold CreateToken in Hc. cbn [exec] in Hok1. unfold CreateToken in Hok1.
  destruct (Jwt.CreateToken _ _ _ _ _ _ _ _) as [[[tok' id'] exp']|] eqn:Hj; [|done].
  injection Hc as <- -> -> ->. cbn in Hok1. set (s1 := set_tokenRepo _ s) in *.
  pose proof (validate_created _ _ _ _ _ _ _ _ _ _ _ (now' 1%nat) Hm Hn He Ht Hj) as Hv.
  apply created_inv in Hj as (-> & _ & _).
  rewrite (proj2 (Z.leb_gt _ (now' 1%nat))), (proj2 (Z.ltb_ge (now' 1%nat) _)) in Hv by lia.
  eexists. split.
  - apply valid_accepted; [by apply ok_exec_all|rewrite exec_all_manager; exact Hv|].
    rewrite exec_all_revoked by done. unfold TokenRepo.revoked, s1. cbn. by rewrite lookup_insert_eq.
  - cbn. split_and!; try done. apply with_default_has.
Qed.

(** C28. Revocation waits for the cache: when a validation that missed the cache has accepted
    a token, and the token is then revoked, its validation after any further requests (none
    of which issues a token with the same identifier) still answers its claims, even after
    the token's own expiry, exactly as long as the cache holds the entry and the time to
    live has not passed since the first validation (there is no such end for a cache without
    a time to live); otherwise it is refused. Using the token does not renew the entry, and
    as long as only this token is validated, before that end, the entry stays; the
    validation of other tokens may push it out earlier. *)
Theorem revocation_waits_for_cache s tok now s1 c t s2 ops now' :
  auth_ok s → Cache.Contains (tokenCache s) tok (now 0%nat) = false →
  ValidateToken s tok now = (s1, Ok c) → RevokeToken s1 (TokenID c) t = (s2, None) →
  Forall (λ o, reissues (TokenID c) o = false) ops →
  let ttl := Cache.ttl (tokenCache s) in
  let over t := (0 <? ttl) && (now 3%nat + ttl <? t) in
  let s3 := exec_all s2 ops in
  (if bool_decide (tok ∈ Cache.Keys (tokenCache s3)) && negb (over (now' 0%nat))
   then (ValidateToken s3 tok now').2 = Ok c
   else ∃ err, (ValidateToken s3 tok now').2 = Err err ∧ (err = ErrTokenExpired ∨ err = ErrInvalidToken)) ∧
  (forallb (uses_only tok over) ops = true → tok ∈ Cache.Keys (tokenCache s3)).
Proof.
  intros Hok Hmiss Hv Hr Hops ttl over s3. pose proof (ok_ValidateToken s tok now Hok) as Hok1.
  destruct (validated_entry s tok now s1 c Hok Hmiss Hv) as (e & Hp & <- & Hexp). fold ttl in Hexp.
  pose proof (ValidateToken_frame s tok now) as (_ & _ & _ & _ & _ & Et).
  rewrite Hv in Hok1, Et. cbn in Hok1, Et.
  pose proof (ok_exec s1 (op_RevokeToken (TokenID (Cache.value e)) t) Hok1) as Hok2. cbn [exec] in Hok2.
  rewrite Hr in Hok2. cbn in Hok2. apply RevokeToken_frame in Hr as (Ec & Em2 & Hrev).
  assert (∀ u, Cache.expired (tokenCache s1) e u = over u) as Hx.
  { intros u. unfold Cache.expired, over. rewrite Et. fold ttl. destruct (Z.ltb_spec 0 ttl); [|done]. by rewrite Hexp. }
  assert (held tok e s1 s2) as H2.
  { split; [done|done|by rewrite Ec|by apply (ok_cached _ Hok1)|done|]. rewrite Ec. congruence. }
  pose proof (held_exec_all tok e s1 s2 ops Hops H2) as H3. split.
  - rewrite <- Hx. exact (held_answer tok e s1 s3 now' H3).
  - intros Hu. apply lru_Keys_Peek; [apply (held_ok _ _ _ _ H3)|]. exists e.
    apply (entry_kept_all tok e s1 s2 ops); [done| |done|by rewrite Ec].
    rewrite <- Hu. clear -Hx. induction ops as [|o ops IH]; [done|]. cbn. rewrite IH. f_equal.
    unfold uses_only. destruct (validates o) as [[]|]; [|done]. by rewrite Hx.
Qed.

(** C20. Authorisation is sound: when a token is accepted for an action on a resource, its
    signature verifies under the service's key, and a policy the token carries is
    stored with a rule that matches the resource, does not deny, and either grants
    everything (the capability sudo, whose conditions are not looked at) or grants the
    action without conditions; a rule with conditions grants nothing else here, because
    no context is passed on. *)
Theorem authorized_by_stored_policy s tok resource action now s' c :
  auth_ok s → ValidateTokenWithPolicy s tok resource action now = (s', Ok c) →
  (ValidateToken s tok now).2 = Ok c ∧ verifies (publicKey (jwtManager s)) tok = true ∧
  ∃ name stored rule, name ∈ Policies c ∧ PolicyRepo.policies (policyRepo s) !! name = Some stored ∧
    rule ∈ PolicyRepo.Rules stored ∧ Policy.pathMatches (Policy.Path rule) resource = true ∧
    ¬ Policy.denies rule ∧
    (Policy.CapabilitySudo ∈ Policy.Capabilities rule ∨
     Policy.ActionToCapability action ∈ Policy.Capabilities rule ∧ Policy.Conditions rule = ∅).
Proof.
  intros Hok. unfold ValidateTokenWithPolicy.
  pose proof (ValidateToken_frame s tok now) as (_ & _ & _ & _ & Ee & _).
  pose proof (ValidateToken_cases s tok now (ok_cache _ Hok)) as Hc.
  destruct (ValidateToken s tok now) as [s1 [cl|e]]; [|done]. cbn in Ee, Hc.
  destruct (Policy.Check_ _ _ _ _) eqn:Hp; cbn; [|done]. intros [= <- <-]. split; [done|]. split.
  - inversion Hc as [e0 c0 Hpk He| |cl0 c0 _ E Hv' Hr']; subst.
    + destruct (ok_cached _ Hok _ _ Hpk) as [t Ht]. by apply validate_sound in Ht as (_ & ? & _).
    + by apply validate_sound in Hv' as (_ & ? & _).
  - unfold Policy.Check_ in Hp. rewrite Ee in Hp. apply Policy.allowed_rule in Hp as (n & p & rule & Hn & Hpol & Hin & Hm & Hd & Hg).
    rewrite (ok_sync _ Hok), lookup_fmap in Hpol. apply fmap_Some in Hpol as (stored & Hs & ->).
    exists n, stored, rule. split_and!; try done. destruct Hg as [Hg|[Hg Hcond]]; [by left|right]. split; [done|].
    apply map_eq. intros k. rewrite lookup_empty. destruct (Policy.Conditions rule !! k) as [v|] eqn:Hk; [|done].
    by apply (lookup_weaken _ _ _ _ Hk) in Hcond; rewrite lookup_empty in Hcond.
Qed.

(** C27. The life of an API key: from its creation on, whatever requests are served in
    between, the key is accepted with its identifier, identity and policies until its
    time is over (for ever, when it was created without one), and refused from then on;
    and once it is revoked, every later validation refuses it, at once. The requests in
    between must not revoke it, nor create a key with the same identifier or hash. *)
Theorem api_key_lifecycle s name identity policies ttl metadata r idBytes now s1 key id ops :
  CreateAPIKey s name identity policies ttl metadata r idBytes now = (s1, Ok (key, id)) →
  Forall (λ o, recreates_key id (ApiKeyRepo.HashAPIKey key) o = false ∧ revokes_key id o = false) ops →
  let s2 := exec_all s1 ops in
  (∀ t, if (0 <? ttl) && (now 0%nat + ttl <? t)
        then ValidateAPIKey s2 key t = Ret (s2, Err ErrInvalidAPIKey)
        else ∃ s3 k, ValidateAPIKey s2 key t = Ret (s3, Ok k) ∧ ApiKeyRepo.ID k = id ∧
               ApiKeyRepo.Identity k = identity ∧ ApiKeyRepo.Policies k = policies) ∧
  (∀ t ops' t', Forall (λ o, recreates_key id (ApiKeyRepo.HashAPIKey key) o = false) ops' →
     let s3 := exec_all (RevokeAPIKey s2 id t).1 ops' in
     ValidateAPIKey s3 key t' = Ret (s3, Err ErrInvalidAPIKey)).
Proof.
  unfold CreateAPIKey. destruct (rand_Read 32 r) as [b|]; [|done]. cbv zeta.
  generalize ("vk_" +:+ Base64.EncodeToString Base64.URLEncoding b). intros key0.
  generalize (Base64.EncodeToString Base64.URLEncoding idBytes). intros id0 [= <- <- <-] Hops.
  match goal with |- context [ApiKeyRepo.Create _ ?k] => set (k0 := k) end.
  set (s2 := exec_all _ ops).
  assert (holds_key s2 k0 false) as H2.
  { apply exec_all_holds; [eapply Forall_impl; [exact Hops|]; naive_solver|]. unfold holds_key.
    cbn [set_apiKeyRepo apiKeyRepo ApiKeyRepo.Create ApiKeyRepo.byHash ApiKeyRepo.keys].
    rewrite !lookup_insert_eq. split; [done|]. by exists k0. }
  split.
  - intros t. pose proof (validate_held s2 key0 k0 false t eq_refl H2) as Hv. cbn [orb k0 ApiKeyRepo.ExpiresAt] in Hv.
    destruct (0 <? ttl); exact Hv.
  - intros t ops' t' Hops'. set (s3 := exec_all _ ops').
    assert (holds_key s3 k0 true) as H3.
    { apply exec_all_holds; [eapply Forall_impl; [exact Hops'|]; cbn; naive_solver|].
      pose proof (holds_key_revoke s2 k0 id0 t false H2) as Hr. by rewrite bool_decide_true in Hr. }
    exact (validate_held s3 key0 k0 true t' eq_refl H3).
Qed.
End service.

(** ** Examples *)

#[local] Existing Instance ListLru.ListLru.
#[local] Existing Instance ListLru.ListLru_laws.
#[local] Existing Instance CodecJWT.CodecJWT.
#[local] Existing Instance CodecJWT.CodecJWT_laws.

Definition demo_config : Config :=
  {| cfg_Issuer := "vault-auth"; cfg_Audience := "vault-platform"; cfg_DefaultTTL := Hour;
     cfg_MaxTTL := 24 * Hour; cfg_L1Size := 10; cfg_L2TTL := 5 * Minute |}.

Definition demo_repo : PolicyRepo.MemoryPolicyRepository := PolicyRepo.NewMemoryPolicyRepository demo_time.
Definition demo_order : list (string * PolicyRepo.StoredPolicy) := map_to_list (PolicyRepo.policies demo_repo).

Definition demo_cache (V : Type) (n ttl : Z) : Cache.LRUCache (K := string) (V := V) (L := ListLru.ListLru) :=
  {| Cache.cache := {| ListLru.items := []; ListLru.cap := n |} : @lru string (Cache.cacheEntry V) ListLru.ListLru;
     Cache.ttl := ttl; Cache.hits := 0; Cache.misses := 0; Cache.evictions := 0 |}.

Definition demo_auth : AuthService :=
  {| jwtManager := {| privateKey := "0000" : @PrivateKey CodecJWT.CodecJWT;
                      publicKey := "0000" : @PublicKey CodecJWT.CodecJWT;
                      issuer := "vault-auth"; audience := "vault-platform"; defaultTTL := Hour;
                      maxTTL := 24 * Hour |};
     tokenRepo := TokenRepo.NewMemoryTokenRepository;
     apiKeyRepo := ApiKeyRepo.NewMemoryAPIKeyRepository; policyRepo := demo_repo;
     tokenCache := demo_cache _ 10 (5 * Minute); policyCache := demo_cache _ 1000 (5 * Minute);
     policyEvaluator := load_policies Policy.NewEvaluator demo_order.*2; background := [] |}.

(** A call whose answer is known. *)
Lemma answers {A B} (p : A * B) (b : B) : p.2 = b → p = (p.1, b).
Proof. destruct p. cbn. by intros ->. Qed.

(** The clock runs a nanosecond per reading. *)
Definition demo_now (t : time) (i : nat) : time := t + Z.of_nat i.

Lemma demo_new : NewAuthService demo_config TokenRepo.NewMemoryTokenRepository
  ApiKeyRepo.NewMemoryAPIKeyRepository demo_repo demo_order demo_entropy = Ret (Ok demo_auth).
Proof. reflexivity. Qed.

Lemma demo_order_short : (length demo_order ≤ 1000)%nat.
Proof. apply Nat.leb_le. vm_compute. reflexivity. Qed.

Lemma demo_auth_ok : auth_ok demo_auth.
Proof.
  apply (new_ok _ _ _ _ _ _ _ ApiKeyRepo.apikeys_wf_new (PolicyRepo.stored_wf_new _) (reflexivity _)
    demo_order_short demo_new).
Qed.

Lemma auth_invariant_witness :
  let s := exec_all demo_auth [op_CreatePolicy "app" "" [PolicyRepo.simple_rule "secret/**" "read"] 0;
                               op_DeletePolicy "default"; op_UpdatePolicy "admin" "none" [] 1] in
  Policy.policies (policyEvaluator s) = to_policy <$> PolicyRepo.policies (policyRepo s) ∧
  size (PolicyRepo.policies (policyRepo s)) = 3%nat.
Proof.
  intros s. split; [|vm_compute; reflexivity].
  apply (ok_sync s), (auth_invariant demo_config TokenRepo.NewMemoryTokenRepository
    ApiKeyRepo.NewMemoryAPIKeyRepository demo_repo demo_order demo_entropy demo_auth _
    ApiKeyRepo.apikeys_wf_new (PolicyRepo.stored_wf_new _) (reflexivity _) demo_order_short demo_new).
Defined.

(** A token for alice, and the service that has issued it. *)
Definition demo_issued := CreateToken demo_auth "alice" ["admin"] Hour ∅ (demo_now demo_time) "t1" demo_entropy.
Definition demo_token : string :=
  Eval vm_compute in match demo_issued.2 with Ok (tok, _, _) => tok | Err _ => "" end.

Lemma issued_token_accepted_witness :
  ∃ c, (ValidateToken (exec_all demo_issued.1
          [op_ValidateToken demo_token (demo_now demo_time); op_RevokeToken "t2" demo_time])
          demo_token (demo_now (demo_time + 59 * Minute))).2 = Ok c ∧ Identity c = "alice" ∧
       Policies c = ["admin"; "default"] ∧ "default" ∈ Policies c ∧ Metadata c = ∅ ∧ TokenID c = "t1".
Proof.
  apply (issued_token_accepted demo_auth "alice" ["admin"] Hour ∅ (demo_now demo_time) "t1" demo_entropy
           demo_issued.1 demo_token "t1" (demo_time + Hour)
           [op_ValidateToken demo_token (demo_now demo_time); op_RevokeToken "t2" demo_time]
           (demo_now (demo_time + 59 * Minute)) demo_auth_ok).
  - split_and!; reflexivity.
  - vm_compute. split; [discriminate|reflexivity].
  - vm_compute. split; [discriminate|reflexivity].
  - reflexivity.
  - apply answers. vm_compute. reflexivity.
  - repeat constructor.
  - vm_compute. split; [discriminate|reflexivity].
Defined.

Definition demo_validated := ValidateToken demo_issued.1 demo_token (demo_now demo_time).
Definition demo_alice : Claims :=
  wire (new_claims (jwtManager demo_auth) "alice" ["admin"; "default"] ∅ "t1" demo_time (demo_time + Hour)).

Lemma demo_issued_ok : auth_ok demo_issued.1.
Proof. apply (ok_exec demo_auth (op_CreateToken "alice" ["admin"] Hour ∅ (demo_now demo_time) "t1" demo_entropy) demo_auth_ok). Qed.

(** Revoked one second after a validation, the token is accepted four minutes later. *)
(** The revoked token is used every minute: accepted until its entry ends, refused then. *)
Definition demo_uses : list op :=
  [op_ValidateToken demo_token (demo_now (demo_time + Minute));
   op_ValidateToken demo_token (demo_now (demo_time + 2 * Minute));
   op_ValidateToken demo_token (demo_now (demo_time + 3 * Minute))].

Lemma revocation_waits_for_cache_witness :
  let s3 := exec_all (RevokeToken demo_validated.1 "t1" (demo_time + Second)).1 demo_uses in
  (ValidateToken s3 demo_token (demo_now (demo_time + 4 * Minute))).2 = Ok demo_alice ∧
  ∃ err, (ValidateToken s3 demo_token (demo_now (demo_time + 6 * Minute))).2 = Err err.
Proof.
  pose proof (λ t, revocation_waits_for_cache demo_issued.1 demo_token (demo_now demo_time) demo_validated.1
    demo_alice (demo_time + Second) (RevokeToken demo_validated.1 "t1" (demo_time + Second)).1 demo_uses
    (demo_now t) demo_issued_ok ltac:(vm_compute; reflexivity) ltac:(apply answers; vm_compute; reflexivity)
    ltac:(apply answers; vm_compute; reflexivity) ltac:(repeat constructor)) as H.
  split.
  - destruct (H (demo_time + 4 * Minute)) as [H1 H2]. rewrite bool_decide_true in H1.
    + exact H1.
    + apply H2. vm_compute. reflexivity.
  - destruct (H (demo_time + 6 * Minute)) as [H1 H2]. rewrite bool_decide_true in H1.
    + destruct H1 as (err & He & _). exists err. exact He.
    + apply H2. vm_compute. reflexivity.
Defined.

Lemma authorized_by_stored_policy_witness :
  verifies (publicKey (jwtManager demo_issued.1)) demo_token = true ∧
  ∃ name stored rule, name ∈ Policies demo_alice ∧
    PolicyRepo.policies (policyRepo demo_issued.1) !! name = Some stored ∧ rule ∈ PolicyRepo.Rules stored ∧
    Policy.pathMatches (Policy.Path rule) "secret/x" = true.
Proof.
  destruct (authorized_by_stored_policy demo_issued.1 demo_token "secret/x" "read" (demo_now demo_time)
    (ValidateTokenWithPolicy demo_issued.1 demo_token "secret/x" "read" (demo_now demo_time)).1
    demo_alice demo_issued_ok) as (_ & Hv & name & stored & rule & H1 & H2 & H3 & H4 & _).
  - apply answers. vm_compute. reflexivity.
  - split; [exact Hv|]. exists name, stored, rule. split_and!; assumption.
Defined.

Definition demo_keyed := CreateAPIKey demo_auth "ci" "bot" ["app"] 100 ∅ demo_entropy (to_bytes "id") (demo_now 0).
Definition demo_key : string := Eval vm_compute in match demo_keyed.2 with Ok (k, _) => k | Err _ => "" end.

Lemma api_key_lifecycle_witness :
  (∃ s k, ValidateAPIKey demo_keyed.1 demo_key 100 = Ret (s, Ok k) ∧ ApiKeyRepo.ID k = "aWQ=" ∧
     ApiKeyRepo.Identity k = "bot" ∧ ApiKeyRepo.Policies k = ["app"]) ∧
  ValidateAPIKey demo_keyed.1 demo_key 101 = Ret (demo_keyed.1, Err ErrInvalidAPIKey) ∧
  let s := (RevokeAPIKey demo_keyed.1 "aWQ=" 5).1 in
  ValidateAPIKey s demo_key 6 = Ret (s, Err ErrInvalidAPIKey).
Proof.
  pose proof (answers demo_keyed (Ok (demo_key, "aWQ=")) ltac:(vm_compute; reflexivity)) as E.
  unfold demo_keyed at 1 in E.
  destruct (api_key_lifecycle demo_auth "ci" "bot" ["app"] 100 ∅ demo_entropy (to_bytes "id") (demo_now 0)
    demo_keyed.1 demo_key "aWQ=" [] E ltac:(constructor)) as [H1 H2].
  split; [exact (H1 100)|]. split; [exact (H1 101)|]. exact (H2 5 [] 6 ltac:(constructor)).
Defined.
End Auth.
