(* ===== verification/AuthHandler.v ===== *)
(** * services/auth/internal/handler: the gRPC face of the auth service

    One definition per method of [AuthHandler]. A message is a record of the fields the
    handler touches. A duration in seconds is multiplied out in an [int64]. The rules of
    a message and of the policy engine have the same fields, and converting them copies
    each of them. *)

From S2P Require Import Prelude GoStd Lru Cache Jwt Policy TokenRepo ApiKeyRepo PolicyRepo Auth.
Local Open Scope Z_scope.

Module AuthHandler.
Import Jwt Auth.

Record CreateTokenRequest := {
  ct_Identity : string;
  ct_Policies : list string;
  ct_TtlSeconds : Z;
  ct_Metadata : gmap string string
}.
Record CreateTokenResponse := {
  cr_Token : string;
  cr_TokenId : string;
  cr_ExpiresAt : Z;
  cr_Policies : list string
}.
Record ValidateTokenRequest := { vt_Token : string; vt_Resource : string; vt_Action : string }.
Record ValidateTokenResponse := {
  vr_Valid : bool;
  vr_Identity : string;
  vr_TokenId : string;
  vr_Policies : list string;
  vr_Metadata : gmap string string;
  vr_ExpiresAt : Z;
  vr_ErrorMessage : string
}.
Record RefreshTokenRequest := { rt_Token : string; rt_TtlSeconds : Z }.
Record RefreshTokenResponse := { rr_Token : string; rr_TokenId : string; rr_ExpiresAt : Z }.
Record CreateAPIKeyRequest := {
  ca_Name : string;
  ca_Identity : string;
  ca_Policies : list string;
  ca_TtlSeconds : Z;
  ca_Metadata : gmap string string
}.
Record CreateAPIKeyResponse := { ca_ApiKey : string; ca_KeyId : string }.
Record ValidateAPIKeyResponse := {
  va_Valid : bool;
  va_Identity : string;
  va_KeyId : string;
  va_Policies : list string;
  va_ErrorMessage : string
}.
Record PolicyRule := { pr_Path : string; pr_Capabilities : list string; pr_Conditions : gmap string string }.
Record ProtoPolicy := {
  pp_Name : string;
  pp_Description : string;
  pp_Rules : list PolicyRule;
  pp_CreatedAt : Z;
  pp_UpdatedAt : Z
}.
Record PolicyResponse := { po_Name : string; po_At : Z }.
Record EvaluatePolicyRequest := {
  ep_Policies : list string;
  ep_Resource : string;
  ep_Action : string;
  ep_Context : gmap string string
}.

(** [time.Duration(seconds) * time.Second] *)
Definition duration (seconds : Z) : Z := int64 (seconds * Second).

(** The loops that convert rules, in the two directions. *)
Definition to_rules (rs : list PolicyRule) : list Policy.Rule :=
  (λ r, {| Policy.Path := pr_Path r; Policy.Capabilities := pr_Capabilities r;
           Policy.Conditions := pr_Conditions r |}) <$> rs.
Definition of_rules (rs : list Policy.Rule) : list PolicyRule :=
  (λ r, {| pr_Path := Policy.Path r; pr_Capabilities := Policy.Capabilities r;
           pr_Conditions := Policy.Conditions r |}) <$> rs.

Definition to_proto (p : PolicyRepo.StoredPolicy) : ProtoPolicy :=
  {| pp_Name := PolicyRepo.Name p; pp_Description := PolicyRepo.Description p;
     pp_Rules := of_rules (PolicyRepo.Rules p); pp_CreatedAt := Unix (PolicyRepo.CreatedAt p);
     pp_UpdatedAt := Unix (PolicyRepo.UpdatedAt p) |}.

Definition invalid (msg : string) : ValidateTokenResponse :=
  {| vr_Valid := false; vr_Identity := ""; vr_TokenId := ""; vr_Policies := []; vr_Metadata := ∅;
     vr_ExpiresAt := 0; vr_ErrorMessage := msg |}.

Section handler.
Context {J : JWT} {LT : LRU string (Cache.cacheEntry Claims)} {LP : LRU string (Cache.cacheEntry Policy.Policy)}.

Definition CreateToken (s : AuthService) (req : CreateTokenRequest) (now : nat → time) (uuid : string)
    (r : entropy) : AuthService * result CreateTokenResponse :=
  if bool_decide (ct_Identity req = "") then (s, Err (statusError InvalidArgument "identity is required"))
  else
    let ttl := duration (ct_TtlSeconds req) in
    let (s', res) := Auth.CreateToken s (ct_Identity req) (ct_Policies req) ttl (ct_Metadata req) now uuid r in
    (s', match res with
         | Err _ => Err (statusError Internal "failed to create token")
         | Ok (token, tokenID, expiresAt) =>
             Ok {| cr_Token := token; cr_TokenId := tokenID; cr_ExpiresAt := Unix expiresAt;
                   cr_Policies := ct_Policies req |}
         end).

(** The claims are a [*jwt.Claims], which has none of the methods the type assertion
    asks for: the assertion panics. *)
Definition ValidateToken (s : AuthService) (req : ValidateTokenRequest) (now : nat → time)
    : outcome (AuthService * result ValidateTokenResponse) :=
  if bool_decide (vt_Token req = "") then Ret (s, Err (statusError InvalidArgument "token is required"))
  else
    let (s', res) :=
      if negb (bool_decide (vt_Resource req = "")) && negb (bool_decide (vt_Action req = ""))
      then ValidateTokenWithPolicy s (vt_Token req) (vt_Resource req) (vt_Action req) now
      else Auth.ValidateToken s (vt_Token req) now in
    match res with
    | Err err =>
        Ret (s', if bool_decide (err = ErrInvalidToken) || bool_decide (err = ErrTokenExpired)
                 then Ok (invalid (Error err))
                 else if bool_decide (err = ErrPermissionDenied) then Ok (invalid "permission denied")
                 else Err (statusError Internal "validation failed"))
    | Ok claims => Panic "interface conversion: *jwt.Claims: missing method GetExpiresAt"
    end.

Definition RevokeToken (s : AuthService) (tokenId : string) (now : time) : AuthService * result bool :=
  if bool_decide (tokenId = "") then (s, Err (statusError InvalidArgument "token_id is required"))
  else
    let (s', err) := Auth.RevokeToken s tokenId now in
    (s', match err with
         | Some err => if bool_decide (err = TokenRepo.ErrTokenNotFound)
                       then Err (statusError NotFound "token not found")
                       else Err (statusError Internal "failed to revoke token")
         | None => Ok true
         end).

(** [now] and [now'] are the clock readings of the validation and of the creation. *)
Definition RefreshToken (s : AuthService) (req : RefreshTokenRequest) (now now' : nat → time)
    (uuid : string) (r : entropy) : AuthService * result RefreshTokenResponse :=
  if bool_decide (rt_Token req = "") then (s, Err (statusError InvalidArgument "token is required"))
  else
    let (s1, res) := Auth.ValidateToken s (rt_Token req) now in
    match res with
    | Err _ => (s1, Err (statusError InvalidArgument "invalid token"))
    | Ok claims =>
        let ttl := duration (rt_TtlSeconds req) in
        let ttl := if ttl =? 0 then Hour else ttl in
        let (s2, res) := Auth.CreateToken s1 (Identity claims) (Policies claims) ttl (Metadata claims)
                           now' uuid r in
        (s2, match res with
             | Err _ => Err (statusError Internal "failed to refresh token")
             | Ok (newToken, tokenID, expiresAt) =>
                 Ok {| rr_Token := newToken; rr_TokenId := tokenID; rr_ExpiresAt := Unix expiresAt |}
             end)
    end.

(** The listings of tokens and API keys are not implemented: both answer with none. *)
Definition ListTokens : list TokenRepo.Token := [].
Definition ListAPIKeys : list ApiKeyRepo.APIKey := [].

Definition CreateAPIKey (s : AuthService) (req : CreateAPIKeyRequest) (r : entropy) (idBytes : bytes)
    (now : nat → time) : AuthService * result CreateAPIKeyResponse :=
  if bool_decide (ca_Name req = "") then (s, Err (statusError InvalidArgument "name is required"))
  else if bool_decide (ca_Identity req = "") then (s, Err (statusError InvalidArgument "identity is required"))
  else
    let ttl := duration (ca_TtlSeconds req) in
    let (s', res) := Auth.CreateAPIKey s (ca_Name req) (ca_Identity req) (ca_Policies req) ttl
                       (ca_Metadata req) r idBytes now in
    (s', match res with
         | Err _ => Err (statusError Internal "failed to create API key")
         | Ok (apiKey, keyID) => Ok {| ca_ApiKey := apiKey; ca_KeyId := keyID |}
         end).

Definition ValidateAPIKey (s : AuthService) (apiKey : string) (now : time)
    : outcome (AuthService * result ValidateAPIKeyResponse) :=
  if bool_decide (apiKey = "") then Ret (s, Err (statusError InvalidArgument "api_key is required"))
  else
    let! (s', res) := Auth.ValidateAPIKey s apiKey now in
    Ret (s', match res with
             | Err _ => Ok {| va_Valid := false; va_Identity := ""; va_KeyId := ""; va_Policies := [];
                              va_ErrorMessage := "invalid API key" |}
             | Ok key => Ok {| va_Valid := true; va_Identity := ApiKeyRepo.Identity key;
                               va_KeyId := ApiKeyRepo.ID key; va_Policies := ApiKeyRepo.Policies key;
                               va_ErrorMessage := "" |}
             end).

Definition RevokeAPIKey (s : AuthService) (keyId : string) (now : time) : AuthService * result bool :=
  if bool_decide (keyId = "") then (s, Err (statusError InvalidArgument "key_id is required"))
  else
    let (s', err) := Auth.RevokeAPIKey s keyId now in
    (s', match err with
         | Some err => if bool_decide (err = ApiKeyRepo.ErrAPIKeyNotFound)
                       then Err (statusError NotFound "API key not found")
                       else Err (statusError Internal "failed to revoke API key")
         | None => Ok true
         end).

(** [now] is the service's reading of the clock, [now'] the handler's own. *)
Definition CreatePolicy (s : AuthService) (name description : string) (rules : list PolicyRule)
    (now now' : time) : AuthService * result PolicyResponse :=
  if bool_decide (name = "") then (s, Err (statusError InvalidArgument "name is required"))
  else
    let (s', err) := Auth.CreatePolicy s name description (to_rules rules) now in
    (s', match err with
         | Some err => if bool_decide (err = PolicyRepo.ErrPolicyExists)
                       then Err (statusError AlreadyExists "policy already exists")
                       else Err (statusError Internal "failed to create policy")
         | None => Ok {| po_Name := name; po_At := Unix now' |}
         end).

Definition GetPolicy (s : AuthService) (name : string) : result ProtoPolicy :=
  if bool_decide (name = "") then Err (statusError InvalidArgument "name is required")
  else match Auth.GetPolicy s name with
       | Err err => if bool_decide (err = PolicyRepo.ErrPolicyNotFound)
                    then Err (statusError NotFound "policy not found")
                    else Err (statusError Internal "failed to get policy")
       | Ok p => Ok (to_proto p)
       end.

Definition UpdatePolicy (s : AuthService) (name description : string) (rules : list PolicyRule)
    (now now' : time) : AuthService * result PolicyResponse :=
  if bool_decide (name = "") then (s, Err (statusError InvalidArgument "name is required"))
  else
    let (s', err) := Auth.UpdatePolicy s name description (to_rules rules) now in
    (s', match err with
         | Some err => if bool_decide (err = PolicyRepo.ErrPolicyNotFound)
                       then Err (statusError NotFound "policy not found")
                       else Err (statusError Internal "failed to update policy")
         | None => Ok {| po_Name := name; po_At := Unix now' |}
         end).

Definition DeletePolicy (s : AuthService) (name : string) : AuthService * result bool :=
  if bool_decide (name = "") then (s, Err (statusError InvalidArgument "name is required"))
  else
    let (s', err) := Auth.DeletePolicy s name in
    (s', match err with
         | Some err => if bool_decide (err = PolicyRepo.ErrPolicyNotFound)
                       then Err (statusError NotFound "policy not found")
                       else Err (statusError Internal "failed to delete policy")
         | None => Ok true
         end).

Definition ListPolicies (order : list (string * PolicyRepo.StoredPolicy)) : outcome (list ProtoPolicy) :=
  let! (ps, _) := Auth.ListPolicies order 1000 0 in Ret (to_proto <$> ps).

Definition EvaluatePolicy (s : AuthService) (req : EvaluatePolicyRequest) : result Policy.EvaluationResult :=
  if (length (ep_Policies req) =? 0)%nat then Err (statusError InvalidArgument "policies is required")
  else if bool_decide (ep_Resource req = "") then Err (statusError InvalidArgument "resource is required")
  else if bool_decide (ep_Action req = "") then Err (statusError InvalidArgument "action is required")
  else Ok (Auth.EvaluatePolicy s (ep_Policies req) (ep_Resource req) (ep_Action req) (ep_Context req)).

(** ** Properties *)
Context {JL : JWTLaws J} {LTL : LRULaws string (Cache.cacheEntry Claims)}.

Lemma of_to_rules rs : of_rules (to_rules rs) = rs.
Proof. unfold of_rules, to_rules. rewrite <- list_fmap_compose. induction rs as [|[] rs IH]; cbn; congruence. Qed.

Lemma withpolicy_errors s tok res act now err :
  lru_ok (Cache.cache (tokenCache s)) → (ValidateTokenWithPolicy s tok res act now).2 = Err err →
  err = ErrTokenExpired ∨ err = ErrInvalidToken ∨ err = ErrPermissionDenied.
Proof.
  intros Hok. unfold ValidateTokenWithPolicy. pose proof (ValidateToken_cases s tok now Hok) as Hc.
  destruct (Auth.ValidateToken s tok now) as [s' [c|e]]; cbn in *.
  - destruct (negb _); cbn; [|done]. intros [= <-]. auto.
  - intros [= <-]. inversion Hc; subst. naive_solver.
Qed.

(** No valid token is ever confirmed: the RPC answers "not valid" with the reason for
    a token the service refuses, and panics for every token the service accepts (for
    the requested resource and action, when both are given); it never answers that a
    token is valid, and never with an internal error. *)
Theorem validate_rpc_never_confirms s req now :
  lru_ok (Cache.cache (tokenCache s)) → vt_Token req ≠ "" →
  let res := if negb (bool_decide (vt_Resource req = "")) && negb (bool_decide (vt_Action req = ""))
             then (ValidateTokenWithPolicy s (vt_Token req) (vt_Resource req) (vt_Action req) now).2
             else (Auth.ValidateToken s (vt_Token req) now).2 in
  match ValidateToken s req now with
  | Panic _ => is_Ok res = true
  | Ret (_, Err _) => False
  | Ret (_, Ok resp) => vr_Valid resp = false ∧ ∃ err, res = Err err ∧ vr_ErrorMessage resp = Error err
  end.
Proof.
  intros Hok Hne. unfold ValidateToken. rewrite bool_decide_false by done. cbn zeta.
  destruct (_ && _).
  - pose proof (withpolicy_errors s (vt_Token req) (vt_Resource req) (vt_Action req) now) as He.
    destruct (ValidateTokenWithPolicy _ _ _ _ _) as [s' [c|err]]; cbn in *; [done|].
    destruct (He err Hok eq_refl) as [->|[->| ->]]; (split; [reflexivity|by eexists]).
  - pose proof (ValidateToken_cases s (vt_Token req) now Hok) as Hc.
    destruct (Auth.ValidateToken _ _ _) as [s' [c|err]]; cbn in *; [done|].
    inversion Hc as [|? ? ? ? [-> | ->]|]; subst; (split; [reflexivity|by eexists]).
Qed.

(** Stored policies come back: a policy that the RPC created is answered by [GetPolicy]
    with its name, description, rules and time of creation; a second creation is refused
    as existing. After an update the new description and rules are answered, but the
    time of creation is lost: it becomes 1 January of the year 1. *)
Theorem policy_roundtrip s name description rules now1 now1' s1 resp description' rules' now2 now2' :
  CreatePolicy s name description rules now1 now1' = (s1, Ok resp) →
  GetPolicy s1 name = Ok {| pp_Name := name; pp_Description := description; pp_Rules := rules;
                            pp_CreatedAt := Unix now1; pp_UpdatedAt := Unix now1 |} ∧
  CreatePolicy s1 name description' rules' now2 now2' = (s1, Err (statusError AlreadyExists "policy already exists")) ∧
  ∃ s2 resp2, UpdatePolicy s1 name description' rules' now2 now2' = (s2, Ok resp2) ∧
    GetPolicy s2 name = Ok {| pp_Name := name; pp_Description := description'; pp_Rules := rules';
                              pp_CreatedAt := -62135596800; pp_UpdatedAt := Unix now2 |}.
Proof.
  unfold CreatePolicy, GetPolicy, UpdatePolicy. destruct (bool_decide (name = "")); [done|].
  unfold Auth.CreatePolicy, PolicyRepo.Create at 1. cbn [PolicyRepo.Name new_stored].
  destruct (PolicyRepo.policies (policyRepo s) !! name) as [p|] eqn:Hp; [done|]. cbn.
  intros [= <- _]. unfold Auth.GetPolicy, PolicyRepo.Get, PolicyRepo.Create, Auth.UpdatePolicy, PolicyRepo.Update.
  cbn. rewrite lookup_insert_eq. unfold to_proto at 1. cbn. rewrite of_to_rules. split; [done|]. split; [done|].
  eexists _, _. split; [done|]. cbn. rewrite lookup_insert_eq. unfold to_proto. cbn. by rewrite of_to_rules.
Qed.
End handler.

(** ** Examples *)

#[local] Existing Instance ListLru.ListLru.
#[local] Existing Instance ListLru.ListLru_laws.
#[local] Existing Instance CodecJWT.CodecJWT.
#[local] Existing Instance CodecJWT.CodecJWT_laws.

Definition demo_request (tok : string) : ValidateTokenRequest :=
  {| vt_Token := tok; vt_Resource := "secret/x"; vt_Action := "read" |}.

Lemma validate_rpc_never_confirms_witness :
  is_Ok (ValidateTokenWithPolicy demo_issued.1 demo_token "secret/x" "read" (demo_now demo_time)).2 = true.
Proof.
  pose proof (validate_rpc_never_confirms demo_issued.1 (demo_request demo_token) (demo_now demo_time)
    (ok_cache _ demo_issued_ok) ltac:(discriminate)) as H.
  destruct (ValidateToken demo_issued.1 (demo_request demo_token) (demo_now demo_time)) as [[s [r|e]]|] eqn:E.
  - exfalso. destruct H as [_ (err & H & _)]. vm_compute in H. discriminate.
  - done.
  - exact H.
Defined.

Lemma policy_roundtrip_witness :
  let rules := [{| pr_Path := "secret/**"; pr_Capabilities := ["read"; "list"]; pr_Conditions := ∅ |}] in
  let s := (CreatePolicy demo_auth "app" "the app" rules demo_time demo_time).1 in
  GetPolicy s "app" = Ok {| pp_Name := "app"; pp_Description := "the app"; pp_Rules := rules;
                            pp_CreatedAt := 1704067200; pp_UpdatedAt := 1704067200 |}.
Proof.
  intros rules s.
  exact (proj1 (policy_roundtrip demo_auth "app" "the app" rules demo_time demo_time s
    {| po_Name := "app"; po_At := 1704067200 |} "" [] 0 0 (answers _ _ ltac:(vm_compute; reflexivity)))).
Defined.
End AuthHandler.
