(* ===== verification/AuditStorage.v ===== *)
(** * services/audit/internal/storage: where audit entries are kept

    The Go interface [Storage] is the class [Storage], with an instance for each of its
    two implementations. [FileStorage] appends JSON lines to a file through a
    [bufio.Writer] and keeps the last entries in memory; [MemoryStorage] only keeps the
    last entries. Every operation holds the storage's lock. The values a request
    carries in [Data] have the Go type [interface{}]: an opaque type [Any]. *)

From S2P Require Import Prelude GoStd.
Local Open Scope Z_scope.

Module AuditStorage.

Section entries.
Context {Any : Type}.

Record AuthInfo := {
  ClientToken : string;
  Accessor : string;
  DisplayName : string;
  Policies : list string;
  TokenPolicies : list string;
  IdentityPolicies : list string;
  EntityID : string;
  a_RemoteAddr : string
}.

Record RequestInfo := {
  r_ID : string;
  Operation : string;
  Path : string;
  r_Data : gmap string Any;
  r_RemoteAddr : string;
  WrapTTL : Z;
  Headers : gmap string string
}.

Record ResponseInfo := {
  MountPoint : string;
  MountType : string;
  MountAccessor : string;
  p_Data : gmap string Any;
  Warnings : list string
}.

Record AuditEntry := {
  ID : string;
  Timestamp : time;
  Type_ : string;
  Auth : option AuthInfo;
  Request : option RequestInfo;
  Response : option ResponseInfo;
  Error_ : string;
  Metadata : gmap string string
}.

Record QueryOptions := {
  StartTime : time;
  EndTime : time;
  q_Type : string;
  q_Path : string;
  q_Operation : string;
  q_ClientToken : string;
  Limit : Z;
  Offset : Z
}.

(** ** Queries *)

(** The tests the two implementations share: [opts.X != "" && entry.X != opts.X]
    refuses, an entry without a request passes. *)
Definition differs (filter actual : string) : bool :=
  negb (bool_decide (filter = "")) && negb (bool_decide (actual = filter)).

Definition differs_in {A} (filter : string) (info : option A) (field : A → string) : bool :=
  match info with Some i => differs filter (field i) | None => false end.

(** [MemoryStorage.matchesQuery] *)
Definition memory_matchesQuery (entry : AuditEntry) (opts : QueryOptions) : bool :=
  if negb (IsZero (StartTime opts)) && (Timestamp entry <? StartTime opts) then false
  else if negb (IsZero (EndTime opts)) && (EndTime opts <? Timestamp entry) then false
  else if differs (q_Type opts) (Type_ entry) then false
  else if differs_in (q_Path opts) (Request entry) Path then false
  else if differs_in (q_Operation opts) (Request entry) Operation then false
  else true.

(** [FileStorage.matchesQuery] *)
Definition file_matchesQuery (entry : AuditEntry) (opts : QueryOptions) : bool :=
  if negb (IsZero (StartTime opts)) && (Timestamp entry <? StartTime opts) then false
  else if negb (IsZero (EndTime opts)) && (EndTime opts <? Timestamp entry) then false
  else if differs (q_Type opts) (Type_ entry) then false
  else if differs_in (q_Path opts) (Request entry) Path then false
  else if differs_in (q_Operation opts) (Request entry) Operation then false
  else if differs_in (q_ClientToken opts) (Auth entry) ClientToken then false
  else true.

(** The loop of [Query] over the entries in the order it visits them. *)
Fixpoint query_loop (matches : AuditEntry → bool) (limit offset : Z) (entries : list AuditEntry)
    (skipped : Z) (results : list AuditEntry) : list AuditEntry :=
  match entries with
  | [] => results
  | entry :: entries' =>
      if negb (matches entry) then query_loop matches limit offset entries' skipped results
      else if skipped <? offset then query_loop matches limit offset entries' (skipped + 1) results
      else
        let results := results ++ [entry] in
        if (0 <? limit) && (limit <=? zlen results) then results
        else query_loop matches limit offset entries' skipped results
  end.

Fixpoint count_loop (matches : AuditEntry → bool) (entries : list AuditEntry) (count : Z) : Z :=
  match entries with
  | [] => count
  | entry :: entries' => count_loop matches entries' (if matches entry then count + 1 else count)
  end.

(** ** The interface *)

Class Storage (S : Type) := {
  Write : S → AuditEntry → S * option error;
  WriteBatch : S → list AuditEntry → S * option error;
  Query : S → QueryOptions → result (list AuditEntry);
  Count : S → QueryOptions → result Z;
  Close : S → S * option error
}.

(** What the service relies on: the entries a storage can be queried for, which is the
    latest part of what was written to it; a batch that is written without an error is
    behind everything written before; queries do not depend on anything else. *)
Class StorageLaws (S : Type) `{Storage S} := {
  index : S → list AuditEntry;
  capacity : S → Z;
  visible : S → AuditEntry → QueryOptions → bool;
  index_bound s s' es : WriteBatch s es = (s', None) →
    index s' = drop (Z.to_nat (zlen (index s ++ es) - capacity s)) (index s ++ es) ∧
    capacity s' = capacity s;
  query_sound s opts es : Query s opts = Ok es →
    ∀ e, e ∈ es → e ∈ index s ∧ visible s e opts = true;
  count_exact s opts n : Count s opts = Ok n →
    n = zlen (List.filter (λ e, visible s e opts) (index s))
}.

(** ** MemoryStorage *)

Record MemoryStorage := { m_entries : list AuditEntry; m_maxSize : Z }.

Definition NewMemoryStorage (maxSize : Z) : MemoryStorage := {| m_entries := []; m_maxSize := maxSize |}.

Definition set_m_entries (l : list AuditEntry) (s : MemoryStorage) : MemoryStorage :=
  {| m_entries := l; m_maxSize := m_maxSize s |}.

(** [append], then drop the oldest entry when there are too many. *)
Definition memory_Write (s : MemoryStorage) (entry : AuditEntry) : MemoryStorage * option error :=
  let entries := m_entries s ++ [entry] in
  (set_m_entries (if m_maxSize s <? zlen entries then drop 1 entries else entries) s, None).

Definition memory_WriteBatch (s : MemoryStorage) (batch : list AuditEntry) : MemoryStorage * option error :=
  let entries := m_entries s ++ batch in
  (set_m_entries (if m_maxSize s <? zlen entries
                  then drop (Z.to_nat (zlen entries - m_maxSize s)) entries else entries) s, None).

(** From the newest entry to the oldest. *)
Definition memory_Query (s : MemoryStorage) (opts : QueryOptions) : result (list AuditEntry) :=
  Ok (query_loop (λ e, memory_matchesQuery e opts) (Limit opts) (Offset opts) (rev (m_entries s)) 0 []).

Definition memory_Count (s : MemoryStorage) (opts : QueryOptions) : result Z :=
  Ok (count_loop (λ e, memory_matchesQuery e opts) (m_entries s) 0).

Definition memory_Close (s : MemoryStorage) : MemoryStorage * option error := (s, None).

#[export] Instance MemoryStorage_Storage : Storage MemoryStorage := {
  Write := memory_Write;
  WriteBatch := memory_WriteBatch;
  Query := memory_Query;
  Count := memory_Count;
  Close := memory_Close
}.

(** ** FileStorage *)

(** [bufio.Writer] over a file that only this process appends to: the bytes that are in
    the file and the bytes the writer still holds. [file_close] is [os.File.Close]. *)
Class FileWriter := {
  writer : Type;
  on_file : writer → bytes;
  buffered : writer → bytes;
  bufio_Write : writer → bytes → writer * option error;
  bufio_Flush : writer → writer * option error;
  file_close : writer → writer * option error
}.

(** bufio: a write without an error accepts all the data; a flush without an error
    forwards all of it; a file that is appended to only grows. *)
Class FileWriterLaws (W : FileWriter) : Prop := {
  write_accepts w b w' : bufio_Write w b = (w', None) →
    on_file w' ++ buffered w' = on_file w ++ buffered w ++ b;
  flush_forwards w w' : bufio_Flush w = (w', None) →
    on_file w' = on_file w ++ buffered w ∧ buffered w' = [];
  write_appends w b : on_file w `prefix_of` on_file (bufio_Write w b).1;
  flush_appends w : on_file w `prefix_of` on_file (bufio_Flush w).1
}.

(** [encoding/json.Marshal] of an entry; JSON text has no newlines in it. *)
Class Json := { json_Marshal : AuditEntry → result bytes }.
Definition newline : ascii := "010"%char.
Class JsonLaws (M : Json) : Prop := {
  json_one_line e b : json_Marshal e = Ok b → newline ∉ b
}.

Section file.
Context {W : FileWriter} {M : Json}.

Record FileStorage := {
  f_writer : writer;
  filePath : string;
  f_entries : list AuditEntry;
  f_maxSize : Z
}.

(** [opened] is the outcome of making the directory and opening the file. *)
Definition NewFileStorage (filePath : string) (opened : result writer) : result FileStorage :=
  let? w := opened in
  Ok {| f_writer := w; filePath := filePath; f_entries := []; f_maxSize := 10000 |}.

Definition set_f_writer (w : writer) (s : FileStorage) : FileStorage :=
  {| f_writer := w; filePath := filePath s; f_entries := f_entries s; f_maxSize := f_maxSize s |}.
Definition set_f_entries (l : list AuditEntry) (s : FileStorage) : FileStorage :=
  {| f_writer := f_writer s; filePath := filePath s; f_entries := l; f_maxSize := f_maxSize s |}.

(** One JSON line into the writer; the index is not touched. *)
Definition write_line (s : FileStorage) (entry : AuditEntry) : FileStorage * option error :=
  match json_Marshal entry with
  | Err err => (s, Some err)
  | Ok data =>
      let (w1, err1) := bufio_Write (f_writer s) data in
      match err1 with
      | Some err => (set_f_writer w1 s, Some err)
      | None =>
          let (w2, err2) := bufio_Write w1 [newline] in
          (set_f_writer w2 s, err2)
      end
  end.

Definition file_Write (s : FileStorage) (entry : AuditEntry) : FileStorage * option error :=
  let (s, err) := write_line s entry in
  match err with
  | Some err => (s, Some err)
  | None =>
      let (w, err) := bufio_Flush (f_writer s) in
      let s := set_f_writer w s in
      match err with
      | Some err => (s, Some err)
      | None =>
          let entries := f_entries s ++ [entry] in
          (set_f_entries (if f_maxSize s <? zlen entries then drop 1 entries else entries) s, None)
      end
  end.

(** The loop of [WriteBatch]: it stops at the first error, keeping what it has done. *)
Fixpoint batch_loop (s : FileStorage) (batch : list AuditEntry) : FileStorage * option error :=
  match batch with
  | [] => (s, None)
  | entry :: batch' =>
      let (s, err) := write_line s entry in
      match err with
      | Some err => (s, Some err)
      | None => batch_loop (set_f_entries (f_entries s ++ [entry]) s) batch'
      end
  end.

Definition file_WriteBatch (s : FileStorage) (batch : list AuditEntry) : FileStorage * option error :=
  let (s, err) := batch_loop s batch in
  match err with
  | Some err => (s, Some err)
  | None =>
      let (w, err) := bufio_Flush (f_writer s) in
      let s := set_f_writer w s in
      match err with
      | Some err => (s, Some err)
      | None =>
          let entries := f_entries s in
          (set_f_entries (if f_maxSize s <? zlen entries
                          then drop (Z.to_nat (zlen entries - f_maxSize s)) entries else entries) s, None)
      end
  end.

(** From the oldest entry to the newest. *)
Definition file_Query (s : FileStorage) (opts : QueryOptions) : result (list AuditEntry) :=
  Ok (query_loop (λ e, file_matchesQuery e opts) (Limit opts) (Offset opts) (f_entries s) 0 []).

Definition file_Count (s : FileStorage) (opts : QueryOptions) : result Z :=
  Ok (count_loop (λ e, file_matchesQuery e opts) (f_entries s) 0).

Definition file_Close (s : FileStorage) : FileStorage * option error :=
  let (w, err) := bufio_Flush (f_writer s) in
  match err with
  | Some err => (set_f_writer w s, Some err)
  | None => let (w, err) := file_close w in (set_f_writer w s, err)
  end.

#[export] Instance FileStorage_Storage : Storage FileStorage := {
  Write := file_Write;
  WriteBatch := file_WriteBatch;
  Query := file_Query;
  Count := file_Count;
  Close := file_Close
}.
End file.

(** ** A storage of either kind: the value of a Go variable of the interface type *)
Section either.
Context {S1 S2 : Type} {ST1 : Storage S1} {ST2 : Storage S2}.

Definition lift1 {A} (r : S1 * A) : (S1 + S2) * A := (inl r.1, r.2).
Definition lift2 {A} (r : S2 * A) : (S1 + S2) * A := (inr r.1, r.2).

#[export] Instance Either_Storage : Storage (S1 + S2) := {
  Write s e := match s with inl s => lift1 (Write s e) | inr s => lift2 (Write s e) end;
  WriteBatch s es := match s with inl s => lift1 (WriteBatch s es) | inr s => lift2 (WriteBatch s es) end;
  Query s o := match s with inl s => Query s o | inr s => Query s o end;
  Count s o := match s with inl s => Count s o | inr s => Count s o end;
  Close s := match s with inl s => lift1 (Close s) | inr s => lift2 (Close s) end
}.

Context {SL1 : StorageLaws S1} {SL2 : StorageLaws S2}.

#[export] Instance Either_laws : StorageLaws (S1 + S2).
Proof.
  refine {|
    index s := match s with inl s => index s | inr s => index s end;
    capacity s := match s with inl s => capacity s | inr s => capacity s end;
    visible s := match s with inl s => visible s | inr s => visible s end |}.
  - intros [s|s] s' es; cbn; unfold lift1, lift2; destruct (WriteBatch s es) as [st err] eqn:H; cbn;
      intros [= <- ->]; by apply index_bound.
  - intros [s|s] opts es; cbn; apply query_sound.
  - intros [s|s] opts n; cbn; apply count_exact.
Defined.
End either.

(** ** Lemmas on the loops *)

(** A page of a list: everything from the offset on when there is no limit. *)
Definition page_of (limit offset : Z) (l : list AuditEntry) : list AuditEntry :=
  let l := drop (Z.to_nat offset) l in if 0 <? limit then take (Z.to_nat limit) l else l.

Lemma query_loop_spec matches limit offset entries skipped results :
  (0 <? limit) && (limit <=? zlen results) = false → (results ≠ [] → offset ≤ skipped) →
  query_loop matches limit offset entries skipped results =
    results ++ page_of (if 0 <? limit then limit - zlen results else limit) (offset - skipped)
                 (List.filter matches entries).
Proof.
  revert skipped results. unfold page_of.
  induction entries as [|e entries IH]; intros skipped results Hlim Hskip; cbn.
  { rewrite drop_nil, take_nil. case_match; by rewrite app_nil_r. }
  destruct (matches e); cbn; [|by apply IH].
  destruct (Z.ltb_spec skipped offset) as [Hs|Hs].
  - assert (results = []) as -> by (destruct results; [done|]; specialize (Hskip ltac:(done)); lia).
    rewrite IH by done. replace (Z.to_nat (offset - skipped)) with (S (Z.to_nat (offset - (skipped + 1)))) by lia.
    done.
  - replace (Z.to_nat (offset - skipped)) with 0%nat by lia. cbn [drop].
    rewrite zlen_app. change (zlen [e]) with 1.
    destruct (Z.ltb_spec 0 limit) as [Hl|Hl]; cbn [andb] in *.
    + apply Z.leb_gt in Hlim. rewrite (proj2 (Z.ltb_lt 0 (limit - zlen results))) by lia.
      destruct (Z.leb_spec limit (zlen results + 1)).
      * by replace (Z.to_nat (limit - zlen results)) with 1%nat by lia.
      * rewrite IH; [|rewrite zlen_app; change (zlen [e]) with 1; lia|lia].
        rewrite zlen_app. change (zlen [e]) with 1.
        rewrite (proj2 (Z.ltb_lt 0 (limit - (zlen results + 1)))) by lia.
        replace (Z.to_nat (offset - skipped)) with 0%nat by lia. cbn [drop].
        replace (Z.to_nat (limit - zlen results)) with (S (Z.to_nat (limit - (zlen results + 1)))) by lia.
        cbn. by rewrite <- app_assoc.
    + rewrite IH by done. rewrite (proj2 (Z.ltb_ge 0 limit)) by lia.
      replace (Z.to_nat (offset - skipped)) with 0%nat by lia. cbn [drop]. by rewrite <- app_assoc.
Qed.

Lemma count_loop_spec matches entries n :
  count_loop matches entries n = n + zlen (List.filter matches entries).
Proof.
  revert n. induction entries as [|e entries IH]; intros n; cbn; [unfold zlen; cbn; lia|].
  rewrite IH. destruct (matches e); [|done]. unfold zlen. cbn [length]. lia.
Qed.

Lemma page_of_sub limit offset l e : e ∈ page_of limit offset l → e ∈ l.
Proof.
  unfold page_of. destruct (0 <? limit); [intros H%elem_of_take|intros H]; [destruct H as (i & H & _)|apply list_elem_of_lookup in H as [i H]];
    rewrite lookup_drop in H; by eapply list_elem_of_lookup_2.
Qed.

(** The answer of a query is a page of the matching entries, in the order visited. *)
Lemma query_loop_page matches limit offset entries :
  query_loop matches limit offset entries 0 [] = page_of limit offset (List.filter matches entries).
Proof.
  rewrite query_loop_spec; [|by destruct (Z.ltb_spec 0 limit); cbn; [apply Z.leb_gt|]|done].
  change (zlen []) with 0. rewrite !Z.sub_0_r. by destruct (0 <? limit).
Qed.

Lemma filter_in (f : AuditEntry → bool) l e : e ∈ List.filter f l ↔ e ∈ l ∧ f e = true.
Proof. by rewrite !list_elem_of_In, filter_In. Qed.

(** The instances of the laws share their parts on queries. *)
Lemma page_sound matches limit offset entries e :
  e ∈ query_loop matches limit offset entries 0 [] → e ∈ entries ∧ matches e = true.
Proof. rewrite query_loop_page. by intros H%page_of_sub%filter_in. Qed.

Lemma memory_index_bound s s' es :
  memory_WriteBatch s es = (s', None) →
  m_entries s' = drop (Z.to_nat (zlen (m_entries s ++ es) - m_maxSize s)) (m_entries s ++ es) ∧
  m_maxSize s' = m_maxSize s.
Proof.
  intros [= <-]. cbn. split; [|done].
  destruct (Z.ltb_spec (m_maxSize s) (zlen (m_entries s ++ es))); [done|].
  by replace (Z.to_nat (zlen (m_entries s ++ es) - m_maxSize s)) with 0%nat by lia.
Qed.

Lemma memory_query_sound s opts es :
  memory_Query s opts = Ok es → ∀ e, e ∈ es → e ∈ m_entries s ∧ memory_matchesQuery e opts = true.
Proof.
  intros [= <-] e [H1 H2]%page_sound. split; [|done].
  by rewrite list_elem_of_In, in_rev, <- list_elem_of_In.
Qed.

Lemma memory_count_exact s opts n :
  memory_Count s opts = Ok n → n = zlen (List.filter (λ e, memory_matchesQuery e opts) (m_entries s)).
Proof. intros [= <-]. by rewrite count_loop_spec. Qed.

#[export] Instance MemoryStorage_laws : StorageLaws MemoryStorage := {
  index := m_entries;
  capacity := m_maxSize;
  visible _ := memory_matchesQuery;
  index_bound := memory_index_bound;
  query_sound := memory_query_sound;
  count_exact := memory_count_exact
}.

Section file_laws.
Context {W : FileWriter} {M : Json} {WL : FileWriterLaws W}.

Definition line_of (text : bytes) : bytes := text ++ [newline].

Lemma write_line_ok s e s' :
  write_line s e = (s', None) →
  ∃ text, json_Marshal e = Ok text ∧
    on_file (f_writer s') ++ buffered (f_writer s') =
      on_file (f_writer s) ++ buffered (f_writer s) ++ line_of text ∧
    f_entries s' = f_entries s ∧ f_maxSize s' = f_maxSize s.
Proof.
  unfold write_line. destruct (json_Marshal e) as [text|]; [|done].
  destruct (bufio_Write (f_writer s) text) as [w1 [err|]] eqn:H1; [done|].
  destruct (bufio_Write w1 [newline]) as [w2 err] eqn:H2. intros [= <- ->]. exists text. cbn.
  apply write_accepts in H1, H2. split_and!; [done| |done|done].
  rewrite H2. unfold line_of. rewrite app_assoc, H1. by rewrite <- !app_assoc.
Qed.

Lemma batch_loop_ok batch : ∀ s s', batch_loop s batch = (s', None) →
  ∃ texts, Forall2 (λ e text, json_Marshal e = Ok text) batch texts ∧
    on_file (f_writer s') ++ buffered (f_writer s') =
      on_file (f_writer s) ++ buffered (f_writer s) ++ concat (line_of <$> texts) ∧
    f_entries s' = f_entries s ++ batch ∧ f_maxSize s' = f_maxSize s.
Proof.
  induction batch as [|e batch IH]; intros s s'; cbn.
  { intros [= <-]. exists []. cbn. by rewrite !app_nil_r. }
  destruct (write_line s e) as [s1 [err|]] eqn:Hw; [done|].
  apply write_line_ok in Hw as (text & Hm & Hf & He & Hx). intros (texts & HF & Hf' & He' & Hx')%IH.
  exists (text :: texts). cbn in *. split_and!; [by constructor| | |congruence].
  - rewrite Hf'. rewrite app_assoc, Hf. by rewrite <- !app_assoc.
  - rewrite He', He. by rewrite <- app_assoc.
Qed.

Lemma WriteBatch_ok s batch s' :
  file_WriteBatch s batch = (s', None) →
  ∃ texts, Forall2 (λ e text, json_Marshal e = Ok text) batch texts ∧
    on_file (f_writer s') = on_file (f_writer s) ++ buffered (f_writer s) ++ concat (line_of <$> texts) ∧
    buffered (f_writer s') = [] ∧ f_maxSize s' = f_maxSize s ∧
    f_entries s' = drop (Z.to_nat (zlen (f_entries s ++ batch) - f_maxSize s)) (f_entries s ++ batch).
Proof.
  unfold file_WriteBatch. destruct (batch_loop s batch) as [s1 [err|]] eqn:Hb; [done|].
  apply batch_loop_ok in Hb as (texts & HF & Hf & He & Hx).
  destruct (bufio_Flush (f_writer s1)) as [w [err|]] eqn:Hfl; [done|]. intros [= <-].
  apply flush_forwards in Hfl as [H1 H2]. exists texts. cbn. split_and!; [done|congruence|done|done|].
  rewrite He, Hx. destruct (Z.ltb_spec (f_maxSize s) (zlen (f_entries s ++ batch))); [done|].
  by replace (Z.to_nat (zlen (f_entries s ++ batch) - f_maxSize s)) with 0%nat by lia.
Qed.

Lemma file_index_bound s s' es :
  file_WriteBatch s es = (s', None) →
  f_entries s' = drop (Z.to_nat (zlen (f_entries s ++ es) - f_maxSize s)) (f_entries s ++ es) ∧
  f_maxSize s' = f_maxSize s.
Proof. by intros (texts & _ & _ & _ & H1 & H2)%WriteBatch_ok. Qed.

Lemma file_query_sound s opts es :
  file_Query s opts = Ok es → ∀ e, e ∈ es → e ∈ f_entries s ∧ file_matchesQuery e opts = true.
Proof. by intros [= <-] e H%page_sound. Qed.

Lemma file_count_exact s opts n :
  file_Count s opts = Ok n → n = zlen (List.filter (λ e, file_matchesQuery e opts) (f_entries s)).
Proof. intros [= <-]. by rewrite count_loop_spec. Qed.

#[export] Instance FileStorage_laws : StorageLaws FileStorage := {
  index := f_entries;
  capacity := f_maxSize;
  visible _ := file_matchesQuery;
  index_bound := file_index_bound;
  query_sound := file_query_sound;
  count_exact := file_count_exact
}.

Lemma write_line_appends s e : on_file (f_writer s) `prefix_of` on_file (f_writer (write_line s e).1).
Proof.
  unfold write_line. destruct (json_Marshal e) as [text|]; [|done].
  pose proof (write_appends (f_writer s) text) as H1.
  destruct (bufio_Write (f_writer s) text) as [w1 [err|]]; [done|]. cbn in H1.
  pose proof (write_appends w1 [newline]) as H2. destruct (bufio_Write w1 [newline]) as [w2 err].
  cbn in *. by etrans.
Qed.

Lemma batch_loop_appends batch : ∀ s, on_file (f_writer s) `prefix_of` on_file (f_writer (batch_loop s batch).1).
Proof.
  induction batch as [|e batch IH]; intros s; cbn; [done|].
  pose proof (write_line_appends s e) as H. destruct (write_line s e) as [s1 [err|]]; [done|]. cbn in H.
  etrans; [exact H|]. apply (IH (set_f_entries (f_entries s1 ++ [e]) s1)).
Qed.
End file_laws.

(** ** Properties *)

(** Queries are pages: a query answers with the matching entries the storage holds,
    from the newest for [MemoryStorage] and from the oldest for [FileStorage], leaving
    out the first [Offset] of them and giving at most [Limit] (all of them when the
    limit is not positive); the count is the number of matching entries. *)
Theorem query_pages {W : FileWriter} (m : MemoryStorage) (f : FileStorage) opts :
  memory_Query m opts =
    Ok (page_of (Limit opts) (Offset opts) (List.filter (λ e, memory_matchesQuery e opts) (rev (m_entries m)))) ∧
  file_Query f opts =
    Ok (page_of (Limit opts) (Offset opts) (List.filter (λ e, file_matchesQuery e opts) (f_entries f))) ∧
  memory_Count m opts = Ok (zlen (List.filter (λ e, memory_matchesQuery e opts) (m_entries m))) ∧
  file_Count f opts = Ok (zlen (List.filter (λ e, file_matchesQuery e opts) (f_entries f))).
Proof.
  unfold memory_Query, file_Query, memory_Count, file_Count.
  by rewrite !query_loop_page, !count_loop_spec.
Qed.

(** The audit file: writing a batch never changes what is already in the file,
    whatever fails; and when it reports success, the file has grown by what was still
    buffered and then by exactly one line per entry, the JSON text of the entries in
    their order, with nothing left in the writer's buffer, and the index holds the last
    entries of everything that was written. *)
Theorem log_file_lines {W : FileWriter} {M : Json} {WL : FileWriterLaws W} {ML : JsonLaws M}
    (s : FileStorage) batch s' err :
  file_WriteBatch s batch = (s', err) →
  on_file (f_writer s) `prefix_of` on_file (f_writer s') ∧
  (err = None → ∃ texts,
     Forall2 (λ e text, json_Marshal e = Ok text ∧ newline ∉ text) batch texts ∧
     on_file (f_writer s') = on_file (f_writer s) ++ buffered (f_writer s) ++ concat (line_of <$> texts) ∧
     buffered (f_writer s') = [] ∧
     f_entries s' = drop (Z.to_nat (zlen (f_entries s ++ batch) - f_maxSize s)) (f_entries s ++ batch)).
Proof.
  intros H. split.
  - unfold file_WriteBatch in H. pose proof (batch_loop_appends batch s) as H1.
    destruct (batch_loop s batch) as [s1 [e|]]; [by injection H as <- <-|]. cbn in H1.
    pose proof (flush_appends (f_writer s1)) as H2.
    destruct (bufio_Flush (f_writer s1)) as [w [e|]]; injection H as <- <-; cbn in *; by etrans.
  - intros ->. apply WriteBatch_ok in H as (texts & HF & H1 & H2 & _ & H3). exists texts.
    split_and!; [|done..]. eapply Forall2_impl; [exact HF|]. cbn. intros e t Ht. split; [done|].
    by eapply json_one_line.
Qed.

(** The filter by client token has no effect on a [MemoryStorage]. *)
Theorem memory_ignores_client_token e opts tok :
  memory_matchesQuery e opts =
  memory_matchesQuery e {| StartTime := StartTime opts; EndTime := EndTime opts; q_Type := q_Type opts;
    q_Path := q_Path opts; q_Operation := q_Operation opts; q_ClientToken := tok; Limit := Limit opts;
    Offset := Offset opts |}.
Proof. done. Qed.
End entries.

(** ** A concrete file, with limited space *)
Module SmallDisk.

Record disk := { content : bytes; pending : bytes; space : nat }.

Definition flush (d : disk) : disk * option error :=
  let d' := {| content := content d ++ take (space d) (pending d);
               pending := drop (space d) (pending d); space := space d - length (pending d) |} in
  (d', if (length (pending d) <=? space d)%nat then None else Some (errorString "no space left on device")).

#[export] Instance SmallDisk : FileWriter := {
  writer := disk;
  on_file := content;
  buffered := pending;
  bufio_Write d b := ({| content := content d; pending := pending d ++ b; space := space d |}, None);
  bufio_Flush := flush;
  file_close d := (d, None)
}.

#[export] Instance SmallDisk_laws : FileWriterLaws SmallDisk.
Proof.
  split; cbn.
  - by intros w b w' [= <-].
  - intros w w'. unfold flush. destruct (Nat.leb_spec (length (pending w)) (space w)); [|done].
    intros [= <-]. cbn. by rewrite take_ge, drop_ge.
  - done.
  - intros w. by eexists.
Qed.

(** The entry's identifier stands for its JSON text. *)
#[export] Instance IdJson {Any} : Json (Any := Any) := {
  json_Marshal e :=
    if bool_decide (newline ∈ to_bytes (ID e)) then Err (errorString "json") else Ok (to_bytes (ID e))
}.

#[export] Instance IdJson_laws {Any} : JsonLaws (Any := Any) IdJson.
Proof. split. cbn. intros e b. by case_bool_decide; intros [= <-]. Qed.
End SmallDisk.

#[local] Existing Instance SmallDisk.SmallDisk.
#[local] Existing Instance SmallDisk.SmallDisk_laws.
#[local] Existing Instance SmallDisk.IdJson.
#[local] Existing Instance SmallDisk.IdJson_laws.

Definition demo_entry (id : string) (t : time) : AuditEntry (Any := Z) :=
  {| ID := id; Timestamp := t; Type_ := "request"; Auth := None; Request := None; Response := None;
     Error_ := ""; Metadata := ∅ |}.
Definition demo_file (n : nat) : FileStorage (Any := Z) :=
  {| f_writer := {| SmallDisk.content := []; SmallDisk.pending := []; SmallDisk.space := n |} : @writer SmallDisk.SmallDisk;
     filePath := "audit.log"; f_entries := []; f_maxSize := 10000 |}.

Lemma log_file_lines_witness :
  let s := (file_WriteBatch (demo_file 100) [demo_entry "a" 1; demo_entry "b" 2]).1 in
  ∃ texts, Forall2 (λ e text, json_Marshal e = Ok text ∧ newline ∉ text) [demo_entry "a" 1; demo_entry "b" 2] texts ∧
    on_file (f_writer s) = concat (line_of <$> texts) ∧ buffered (f_writer s) = [] ∧
    f_entries s = [demo_entry "a" 1; demo_entry "b" 2].
Proof.
  intros s. apply (log_file_lines (M := SmallDisk.IdJson) (demo_file 100) [demo_entry "a" 1; demo_entry "b" 2] s None);
    vm_compute; reflexivity.
Defined.

Lemma query_pages_witness :
  memory_Query {| m_entries := [demo_entry "a" 1; demo_entry "b" 2; demo_entry "c" 3]; m_maxSize := 3 |}
    {| StartTime := zeroTime; EndTime := zeroTime; q_Type := "request"; q_Path := ""; q_Operation := "";
       q_ClientToken := ""; Limit := 1; Offset := 1 |} = Ok [demo_entry "b" 2].
Proof.
  exact (proj1 (query_pages {| m_entries := [demo_entry "a" 1; demo_entry "b" 2; demo_entry "c" 3]; m_maxSize := 3 |}
    (demo_file 0) _)).
Defined.
End AuditStorage.
