(* ===== verification/AuditJson.v ===== *)
(** * services/audit: the text of an entry

    [json.Marshal] of an [AuditEntry], field by field with the tags of
    services/audit/internal/storage/storage.go: what is empty and tagged [omitempty] is left
    out, maps are written in the order of their keys, the values of [Data] are what JSON
    has. [EntryJson] makes the text the one [AuditStorage] writes, and the theorem says what
    can be read from the file. *)

From S2P Require Import Prelude GoStd Json JsonText Http GoTime AuditStorage.
Local Open Scope Z_scope.

Module AuditJson.
Import Json JsonText AuditStorage.

Abbreviation Entry := (AuditEntry (Any := json)).

(** ** Fields with [omitempty] *)

Definition omit_string (k s : string) : list (string * json) :=
  if bool_decide (s = "") then [] else [(k, JStr s)].

Definition omit_strings (k : string) (l : list string) : list (string * json) :=
  match l with [] => [] | _ => [(k, JArr (JStr <$> l))] end.

Definition omit_int (k : string) (n : Z) : list (string * json) :=
  if n =? 0 then [] else [(k, JNum (Strconv.Itoa n))].

Definition omit_map {A} (k : string) (f : A → json) (m : gmap string A) : list (string * json) :=
  match sorted_entries m with [] => [] | l => [(k, JObj (prod_map id f <$> l))] end.

Definition omit_pointer {A} (k : string) (f : A → json) (o : option A) : list (string * json) :=
  match o with None => [] | Some x => [(k, f x)] end.

(** ** The structs *)

Definition auth_json (a : AuthInfo) : json :=
  JObj (omit_string "client_token" (ClientToken a) ++ omit_string "accessor" (Accessor a) ++
        omit_string "display_name" (DisplayName a) ++ omit_strings "policies" (Policies a) ++
        omit_strings "token_policies" (TokenPolicies a) ++
        omit_strings "identity_policies" (IdentityPolicies a) ++
        omit_string "entity_id" (EntityID a) ++ omit_string "remote_addr" (a_RemoteAddr a)).

Definition request_json (r : RequestInfo (Any := json)) : json :=
  JObj ([("id", JStr (r_ID r)); ("operation", JStr (Operation r)); ("path", JStr (Path r))] ++
        omit_map "data" id (r_Data r) ++ omit_string "remote_addr" (r_RemoteAddr r) ++
        omit_int "wrap_ttl" (WrapTTL r) ++ omit_map "headers" JStr (Headers r)).

Definition response_json (p : ResponseInfo (Any := json)) : json :=
  JObj (omit_string "mount_point" (MountPoint p) ++ omit_string "mount_type" (MountType p) ++
        omit_string "mount_accessor" (MountAccessor p) ++ omit_map "data" id (p_Data p) ++
        omit_strings "warnings" (Warnings p)).

Definition entry_json (e : Entry) : json :=
  JObj ([("id", JStr (ID e)); ("timestamp", JStr (GoTime.RFC3339Nano (Timestamp e)));
         ("type", JStr (Type_ e))] ++
        omit_pointer "auth" auth_json (Auth e) ++ omit_pointer "request" request_json (Request e) ++
        omit_pointer "response" response_json (Response e) ++ omit_string "error" (Error_ e) ++
        omit_map "metadata" JStr (Metadata e)).

(** ** Marshal *)

(** Numbers that are no JSON literals are refused by the encoder. *)
Definition errNumber : error := errorString "json: invalid number literal".

Definition Marshal (e : Entry) : result bytes :=
  if negb (GoTime.year_in_range (Timestamp e)) then Err GoTime.errYear
  else if negb (numbers_ok (entry_json e)) then Err errNumber
  else Ok (to_bytes (encode (entry_json e))).

#[export] Instance EntryJson : AuditStorage.Json (Any := json) := {| json_Marshal := Marshal |}.

Lemma Marshal_ok e b : Marshal e = Ok b → b = to_bytes (encode (entry_json e)) ∧ numbers_ok (entry_json e) = true.
Proof.
  unfold Marshal. destruct (negb (GoTime.year_in_range _)); [done|].
  destruct (numbers_ok (entry_json e)); [|done]. cbn [negb]. by intros [= <-].
Qed.

#[export] Instance EntryJson_laws : JsonLaws EntryJson.
Proof.
  split. intros e b. cbn [json_Marshal EntryJson]. intros [-> Hn]%Marshal_ok.
  exact (no_control_newline _ (encode_no_control _ Hn)).
Qed.

(** ** Reading the file *)

Definition nl : string := of_bytes [newline].

(** The values on the lines of a file. *)
Definition values_in (file : bytes) : list json := omap decode (Strings.Split newline (of_bytes file)).

(** A file of whole lines. *)
Definition whole_lines (file : bytes) : Prop := file = [] ∨ ∃ ls, file = ls ++ [newline].

Lemma Split_app c s t : Strings.Split c (s +:+ String c t) = Strings.Split c s ++ Strings.Split c t.
Proof.
  induction s as [|a s IH].
  - rewrite sapp_nil. cbn [Strings.Split]. by rewrite bool_decide_true.
  - rewrite sapp_cons. cbn [Strings.Split]. rewrite IH. pose proof (Strings.Split_not_nil c s) as Hn.
    destruct (Strings.Split c s) as [|h l]; [done|]. by case_bool_decide.
Qed.

Lemma no_newline_byte s : newline ∉ to_bytes s → Strings.ContainsByte newline s = false.
Proof.
  induction s as [|a s IH]; [done|]. cbn [list_ascii_of_string Strings.ContainsByte]. rewrite not_elem_of_cons.
  intros [Ha Hs]. by rewrite bool_decide_false, IH by done.
Qed.

Lemma values_in_line file v :
  whole_lines file → numbers_ok v = true → (depth v ≤ maxNestingDepth)%nat →
  values_in (file ++ line_of (to_bytes (encode v))) = values_in file ++ [clean v] ∧
  whole_lines (file ++ line_of (to_bytes (encode v))).
Proof.
  intros Hf Hn Hd. unfold line_of. split; [|right; eexists; by rewrite app_assoc].
  assert (decode (encode v) = Some (clean v)) as Hdec.
  { rewrite <- (sapp_nil_r (encode v)). by apply decode_of_encode. }
  assert (Strings.Split newline (encode v +:+ nl) = [encode v; ""]) as Hs.
  { unfold nl. change (of_bytes [newline]) with (String newline ""). rewrite Split_app.
    rewrite Strings.Split_single by apply no_newline_byte, no_control_newline, encode_no_control, Hn. done. }
  unfold values_in. rewrite !of_bytes_app, of_to_bytes. fold nl. destruct Hf as [->|[ls ->]].
  - cbn [string_of_list_ascii]. rewrite sapp_nil, Hs. cbn. by rewrite Hdec.
  - rewrite of_bytes_app. change (of_bytes [newline]) with (String newline ""). rewrite !sapp_assoc, !sapp_cons, !sapp_nil.
    rewrite !Split_app, Hs. rewrite !omap_app. cbn. rewrite Hdec, app_nil_r. done.
Qed.

Lemma values_in_lines es : ∀ file,
  whole_lines file → Forall (λ e, numbers_ok (entry_json e) = true ∧ (depth (entry_json e) ≤ maxNestingDepth)%nat) es →
  let file' := file ++ concat ((λ e, line_of (to_bytes (encode (entry_json e)))) <$> es) in
  values_in file' = values_in file ++ ((λ e, clean (entry_json e)) <$> es) ∧ whole_lines file'.
Proof.
  induction es as [|e es IH]; intros file Hf Hes; cbn zeta.
  { cbn. by rewrite !app_nil_r. }
  apply Forall_cons in Hes as [[Hn Hd] Hes]. destruct (values_in_line file _ Hf Hn Hd) as [Hv Hw].
  rewrite !fmap_cons. cbn [concat]. rewrite (app_assoc file).
  destruct (IH _ Hw Hes) as [Hv' Hw']. split; [|exact Hw'].
  cbn zeta in Hv'. rewrite Hv', Hv. by rewrite <- app_assoc.
Qed.

(** C12. The audit file can be read: when a batch is written without an error to a file of
    whole lines (what was still buffered included), the file has whole lines again, and
    decoding its lines as JSON gives the values that were there before and then one
    object for every entry of the batch, in order, with every field of the entry that is
    not empty (bytes that are not valid UTF-8 replaced, the nesting of the entries within
    what the decoder takes, 10000); nothing in an entry, newlines in its strings included, can make one line
    look like two. *)
Theorem audit_file_readable {W : FileWriter} {WL : FileWriterLaws W} (s : FileStorage (Any := json)) batch s' :
  whole_lines (on_file (f_writer s) ++ buffered (f_writer s)) →
  Forall (λ e, (depth (entry_json e) ≤ maxNestingDepth)%nat) batch →
  file_WriteBatch s batch = (s', None) →
  whole_lines (on_file (f_writer s')) ∧ buffered (f_writer s') = [] ∧
  values_in (on_file (f_writer s')) =
    values_in (on_file (f_writer s) ++ buffered (f_writer s)) ++ ((λ e, clean (entry_json e)) <$> batch).
Proof.
  intros Hw Hd (texts & HF & Hfile & Hb & _)%WriteBatch_ok.
  assert (Forall (λ e, numbers_ok (entry_json e) = true ∧ (depth (entry_json e) ≤ maxNestingDepth)%nat) batch ∧
          line_of <$> texts = (λ e, line_of (to_bytes (encode (entry_json e)))) <$> batch) as [Hok Ht].
  { clear Hfile Hw Hb. revert Hd. induction HF as [|e t batch texts Hm _ IH]; intros Hd; [done|].
    apply Forall_cons in Hd as [He Hd]. destruct (IH Hd) as [Hok Ht]. apply Marshal_ok in Hm as [-> Hn].
    split; [by constructor|]. by rewrite !fmap_cons, Ht. }
  rewrite Ht in Hfile.
  destruct (values_in_lines batch _ Hw Hok) as [Hv Hl]. rewrite <- app_assoc, <- Hfile in Hv, Hl. done.
Qed.

(** ** Witness *)

#[local] Existing Instance SmallDisk.SmallDisk.
#[local] Existing Instance SmallDisk.SmallDisk_laws.

Definition json_entry (id : string) (text : json) : Entry :=
  {| ID := id; Timestamp := 0; Type_ := "request"; Auth := None;
     Request := Some {| r_ID := id; Operation := "read"; Path := "secret/a"; r_Data := {[ "n" := text ]};
                        r_RemoteAddr := ""; WrapTTL := 0; Headers := ∅ |};
     Response := None; Error_ := ""; Metadata := ∅ |}.

Definition json_file (n : nat) : FileStorage (Any := json) :=
  {| f_writer := {| SmallDisk.content := []; SmallDisk.pending := []; SmallDisk.space := n |} : @writer SmallDisk.SmallDisk;
     filePath := "audit.log"; f_entries := []; f_maxSize := 10000 |}.

Definition json_batch : list Entry := [json_entry "a" (JStr Http.newline); json_entry "b" (JNum "1.5")].

Lemma audit_file_readable_witness :
  values_in (on_file (f_writer (file_WriteBatch (json_file 1000) json_batch).1)) =
    (λ e, clean (entry_json e)) <$> json_batch.
Proof.
  destruct (audit_file_readable (json_file 1000) json_batch (file_WriteBatch (json_file 1000) json_batch).1)
    as (_ & _ & H).
  - by left.
  - repeat (apply Forall_cons_2; [apply Nat.leb_le; vm_compute; reflexivity|]). apply Forall_nil_2.
  - vm_compute. reflexivity.
  - exact H.
Defined.
End AuditJson.
