(* ===== verification/AuditSvc.v ===== *)
(** * services/audit/internal/service: the buffered audit log

    [AuditService] is the Go struct: the storage, behind the interface [Storage], the
    buffer, the flush channel (of capacity 1, so a flag) and whether the close channel
    has been closed. Requests and the flush worker run concurrently: [append_entry],
    [signal], [take_buffer] and [store_batch] are the parts of [writeEntry] and [flush]
    between two accesses to shared state, and [step] interleaves them in any order. *)

From S2P Require Import Prelude GoStd AuditStorage.
Local Open Scope Z_scope.

Module AuditSvc.
Import AuditStorage.

Section service.
Context {Any S : Type} {ST : Storage (Any := Any) S}.

Record LogRequestInput := {
  lq_RequestID : string;
  lq_ClientToken : string;
  lq_Accessor : string;
  lq_DisplayName : string;
  lq_Policies : list string;
  lq_EntityID : string;
  lq_RemoteAddr : string;
  lq_Operation : string;
  lq_Path : string;
  lq_Data : gmap string Any;
  lq_Metadata : gmap string string
}.

Record LogResponseInput := {
  lr_RequestID : string;
  lr_ClientToken : string;
  lr_Accessor : string;
  lr_DisplayName : string;
  lr_Policies : list string;
  lr_Operation : string;
  lr_Path : string;
  lr_MountPoint : string;
  lr_MountType : string;
  lr_MountAccessor : string;
  lr_Warnings : list string;
  lr_Metadata : gmap string string
}.

Record LogErrorInput := {
  le_RequestID : string;
  le_ClientToken : string;
  le_Accessor : string;
  le_RemoteAddr : string;
  le_Operation : string;
  le_Path : string;
  le_Error : string;
  le_Metadata : gmap string string
}.

Record AuditService := {
  storage : S;
  bufferSize : Z;
  buffer : list (AuditEntry (Any := Any));
  flushChan : bool;
  closeChan : bool
}.

Definition set_storage (st : S) (s : AuditService) : AuditService :=
  {| storage := st; bufferSize := bufferSize s; buffer := buffer s; flushChan := flushChan s; closeChan := closeChan s |}.
Definition set_buffer (b : list AuditEntry) (s : AuditService) : AuditService :=
  {| storage := storage s; bufferSize := bufferSize s; buffer := b; flushChan := flushChan s; closeChan := closeChan s |}.
Definition set_flushChan (c : bool) (s : AuditService) : AuditService :=
  {| storage := storage s; bufferSize := bufferSize s; buffer := buffer s; flushChan := c; closeChan := closeChan s |}.
Definition set_closeChan (c : bool) (s : AuditService) : AuditService :=
  {| storage := storage s; bufferSize := bufferSize s; buffer := buffer s; flushChan := flushChan s; closeChan := c |}.

(** ** Writing *)

(** The part of [writeEntry] under the lock: whether the buffer is to be flushed. *)
Definition append_entry (s : AuditService) (entry : AuditEntry) : AuditService * bool :=
  let s := set_buffer (buffer s ++ [entry]) s in
  (s, bufferSize s <=? zlen (buffer s)).

(** The non-blocking send on the flush channel. *)
Definition signal (s : AuditService) : AuditService := set_flushChan true s.

Definition writeEntry (s : AuditService) (entry : AuditEntry) : AuditService :=
  let (s, shouldFlush) := append_entry s entry in
  if shouldFlush then signal s else s.

(** The part of [flush] under the lock: the entries to write, if any. *)
Definition take_buffer (s : AuditService) : AuditService * option (list AuditEntry) :=
  if (length (buffer s) =? 0)%nat then (s, None)
  else (set_buffer [] s, Some (buffer s)).

(** The rest of [flush]: an error of the storage is logged, and the entries are gone. *)
Definition store_batch (s : AuditService) (entries : list AuditEntry) : AuditService * option error :=
  let (st, err) := WriteBatch (storage s) entries in (set_storage st s, err).

Definition flush (s : AuditService) : AuditService :=
  match take_buffer s with
  | (s, None) => s
  | (s, Some entries) => (store_batch s entries).1
  end.

(** [generateID], from the 16 bytes of the buffer after [rand.Read], whose error is
    ignored. *)
Definition generateID (b : bytes) : string := Hex.EncodeToString b.

Definition request_entry (req : LogRequestInput) (id : string) (now : time) : AuditEntry (Any := Any) :=
  {| ID := id; Timestamp := now; Type_ := "request";
     Auth := Some {| ClientToken := lq_ClientToken req; Accessor := lq_Accessor req;
                     DisplayName := lq_DisplayName req; Policies := lq_Policies req;
                     TokenPolicies := []; IdentityPolicies := []; EntityID := lq_EntityID req;
                     a_RemoteAddr := lq_RemoteAddr req |};
     Request := Some {| r_ID := lq_RequestID req; Operation := lq_Operation req; Path := lq_Path req;
                        r_Data := lq_Data req; r_RemoteAddr := lq_RemoteAddr req; WrapTTL := 0; Headers := ∅ |};
     Response := None; Error_ := ""; Metadata := lq_Metadata req |}.

Definition response_entry (resp : LogResponseInput) (id : string) (now : time) : AuditEntry (Any := Any) :=
  {| ID := id; Timestamp := now; Type_ := "response";
     Auth := Some {| ClientToken := lr_ClientToken resp; Accessor := lr_Accessor resp;
                     DisplayName := lr_DisplayName resp; Policies := lr_Policies resp;
                     TokenPolicies := []; IdentityPolicies := []; EntityID := ""; a_RemoteAddr := "" |};
     Request := Some {| r_ID := lr_RequestID resp; Operation := lr_Operation resp; Path := lr_Path resp;
                        r_Data := ∅; r_RemoteAddr := ""; WrapTTL := 0; Headers := ∅ |};
     Response := Some {| MountPoint := lr_MountPoint resp; MountType := lr_MountType resp;
                         MountAccessor := lr_MountAccessor resp; p_Data := ∅; Warnings := lr_Warnings resp |};
     Error_ := ""; Metadata := lr_Metadata resp |}.

Definition error_entry (e : LogErrorInput) (id : string) (now : time) : AuditEntry (Any := Any) :=
  {| ID := id; Timestamp := now; Type_ := "error";
     Auth := Some {| ClientToken := le_ClientToken e; Accessor := le_Accessor e; DisplayName := "";
                     Policies := []; TokenPolicies := []; IdentityPolicies := []; EntityID := "";
                     a_RemoteAddr := le_RemoteAddr e |};
     Request := Some {| r_ID := le_RequestID e; Operation := le_Operation e; Path := le_Path e;
                        r_Data := ∅; r_RemoteAddr := ""; WrapTTL := 0; Headers := ∅ |};
     Response := None; Error_ := le_Error e; Metadata := le_Metadata e |}.

(** [writeEntry] never fails, so neither do these. *)
Definition LogRequest (s : AuditService) (req : LogRequestInput) (b : bytes) (now : time) : AuditService :=
  writeEntry s (request_entry req (generateID b) now).
Definition LogResponse (s : AuditService) (resp : LogResponseInput) (b : bytes) (now : time) : AuditService :=
  writeEntry s (response_entry resp (generateID b) now).
Definition LogError (s : AuditService) (e : LogErrorInput) (b : bytes) (now : time) : AuditService :=
  writeEntry s (error_entry e (generateID b) now).

(** The page and the total number; the storage's two errors are passed on. *)
Definition Query_ (s : AuditService) (opts : QueryOptions) : result (list AuditEntry * Z) :=
  let? entries := Query (storage s) opts in
  let? total := Count (storage s) opts in
  Ok (entries, total).

(** ** The running service *)

(** The flush worker: in its [select], woken up (for the last time when the close channel
    made it wake up), writing a batch, or gone. *)
Inductive worker :=
  | Waiting
  | Woken (final : bool)
  | Writing (entries : list (AuditEntry (Any := Any))) (final : bool)
  | Stopped.

(** [signals] counts the calls of [writeEntry] that are about to send on the flush
    channel. [logged] lists the entries in the order in which they entered the buffer,
    [batches] what was handed to the storage and whether it reported success, and
    [late] the entries that came after the last flush took the buffer. *)
Record sys := {
  svc : AuditService;
  signals : nat;
  wk : worker;
  logged : list (AuditEntry (Any := Any));
  batches : list (list (AuditEntry (Any := Any)) * bool);
  late : list (AuditEntry (Any := Any))
}.

Definition initial (s : AuditService) : sys :=
  {| svc := s; signals := 0; wk := Waiting; logged := []; batches := []; late := [] |}.

Definition last_flush_done (w : worker) : bool :=
  match w with Stopped | Writing _ true => true | _ => false end.

(** The worker after it is done with a flush. *)
Definition back (final : bool) : worker := if final then Stopped else Waiting.

Inductive step : sys → sys → Prop :=
  | step_append y entry s' should :
      append_entry (svc y) entry = (s', should) →
      step y {| svc := s'; signals := if should then Datatypes.S (signals y) else signals y; wk := wk y;
                logged := logged y ++ [entry]; batches := batches y;
                late := if last_flush_done (wk y) then late y ++ [entry] else late y |}
  | step_signal y n :
      signals y = Datatypes.S n →
      step y {| svc := signal (svc y); signals := n; wk := wk y; logged := logged y;
                batches := batches y; late := late y |}
  | step_tick y :
      wk y = Waiting →
      step y {| svc := svc y; signals := signals y; wk := Woken false; logged := logged y;
                batches := batches y; late := late y |}
  | step_flushChan y :
      wk y = Waiting → flushChan (svc y) = true →
      step y {| svc := set_flushChan false (svc y); signals := signals y; wk := Woken false;
                logged := logged y; batches := batches y; late := late y |}
  | step_Close y :
      step y {| svc := set_closeChan true (svc y); signals := signals y; wk := wk y; logged := logged y;
                batches := batches y; late := late y |}
  | step_closeChan y :
      wk y = Waiting → closeChan (svc y) = true →
      step y {| svc := svc y; signals := signals y; wk := Woken true; logged := logged y;
                batches := batches y; late := late y |}
  | step_take y final s' taken :
      wk y = Woken final → take_buffer (svc y) = (s', taken) →
      step y {| svc := s'; signals := signals y;
                wk := match taken with Some es => Writing es final | None => back final end;
                logged := logged y; batches := batches y; late := late y |}
  | step_store y es final s' err :
      wk y = Writing es final → store_batch (svc y) es = (s', err) →
      step y {| svc := s'; signals := signals y; wk := back final; logged := logged y;
                batches := batches y ++ [(es, bool_decide (err = None))]; late := late y |}.

Inductive reachable (s0 : AuditService) : sys → Prop :=
  | reach_initial : reachable s0 (initial s0)
  | reach_step y y' : reachable s0 y → step y y' → reachable s0 y'.

(** ** Lemmas *)

Definition in_flight (w : worker) : list AuditEntry :=
  match w with Writing es _ => es | _ => [] end.

(** Every logged entry is, in order, with the storage, with the worker or buffered; and
    after the last flush only late entries are buffered. *)
Record conserved (y : sys) : Prop := {
  all_there : logged y = concat (batches y).*1 ++ in_flight (wk y) ++ buffer (svc y);
  only_late : last_flush_done (wk y) = true → buffer (svc y) = late y;
  none_late : last_flush_done (wk y) = false → late y = []
}.

Lemma back_in_flight final : in_flight (back final) = [].
Proof. by destruct final. Qed.

Lemma conserved_step y y' : conserved y → step y y' → conserved y'.
Proof.
  intros [H1 H2 H3] Hs. destruct Hs as [y e s' b Ha|y n _|y Hw|y Hw _|y|y Hw _|y f s' taken Hw Ht|y es f s' err Hw Hst].
  - injection Ha as <- _. split; cbn.
    + rewrite H1. by rewrite <- !app_assoc.
    + intros Hl. by rewrite Hl, (H2 Hl).
    + intros Hl. rewrite Hl. auto.
  - by split.
  - rewrite Hw in *. by split.
  - rewrite Hw in *. by split.
  - by split.
  - rewrite Hw in *. by split.
  - rewrite Hw in *. unfold take_buffer in Ht. destruct (Nat.eqb_spec (length (buffer (svc y))) 0) as [E|E];
      injection Ht as <- <-; cbn in *.
    + apply nil_length_inv in E. split; cbn; [by rewrite back_in_flight, H1, E| |by auto].
      intros _. rewrite E. symmetry. auto.
    + split; cbn; [by rewrite app_nil_r|intros _; symmetry; auto|auto].
  - rewrite Hw in *. unfold store_batch in Hst. destruct (WriteBatch _ _). injection Hst as <- <-. cbn in *.
    split; cbn.
    + rewrite back_in_flight, fmap_app, concat_app, H1. cbn. by rewrite app_nil_r, <- app_assoc.
    + destruct f; [by auto|done].
    + destruct f; [done|by auto].
Qed.

Lemma conserved_reachable s0 y : buffer s0 = [] → reachable s0 y → conserved y.
Proof. intros H0. induction 1; [by split; cbn; rewrite ?H0|by eapply conserved_step]. Qed.

(** The last [cap] elements of a list. *)
Definition keep {A} (cap : Z) (l : list A) : list A := drop (Z.to_nat (zlen l - cap)) l.

Lemma keep_app {A} cap (l es : list A) : 0 ≤ cap → keep cap (keep cap l ++ es) = keep cap (l ++ es).
Proof.
  intros Hc. unfold keep. set (k := Z.to_nat (zlen l - cap)).
  assert (k ≤ length l)%nat by (unfold k, zlen; lia).
  rewrite <- (drop_app_le l es k) by done. rewrite drop_drop. f_equal.
  unfold zlen in *. rewrite length_drop, length_app. unfold k, zlen. lia.
Qed.

Context {SL : StorageLaws S}.

Definition all_ok (y : sys) : Prop := Forall (λ b, b.2 = true) (batches y).

Lemma stored_reachable s0 y :
  index (storage s0) = [] → 0 ≤ capacity (storage s0) → reachable s0 y → all_ok y →
  index (storage (svc y)) = keep (capacity (storage s0)) (concat (batches y).*1) ∧
  capacity (storage (svc y)) = capacity (storage s0).
Proof.
  intros H0 Hc. unfold all_ok.
  induction 1 as [|y y' _ IH Hs]; [by intros _; cbn; rewrite H0; unfold keep; rewrite drop_nil|].
  destruct Hs as [y e s' b Ha| | | | | |y f s' taken Hw Ht|y es f s' err Hw Hst]; cbn; try done.
  - injection Ha as <- _. done.
  - unfold take_buffer in Ht. destruct (_ =? _)%nat; injection Ht as <- <-; done.
  - rewrite Forall_app, Forall_singleton. cbn. rewrite bool_decide_eq_true. intros [Hok ->].
    destruct (IH Hok) as [Hi Hcap]. unfold store_batch in Hst.
    destruct (WriteBatch (storage (svc y)) es) as [st err] eqn:Hwb. injection Hst as <- ->. cbn.
    apply index_bound in Hwb as [Hib Hcb]. rewrite Hcb, Hcap. split; [|done].
    rewrite Hib, Hcap, Hi, fmap_app, concat_app. cbn. rewrite app_nil_r. by apply keep_app.
Qed.

(** The worker is going to look at the buffer. *)
Definition will_flush (y : sys) : Prop :=
  flushChan (svc y) = true ∨ (0 < signals y)%nat ∨ ∃ final, wk y = Woken final.

Lemma will_flush_reachable s0 y :
  buffer s0 = [] → 0 < bufferSize s0 → reachable s0 y →
  bufferSize (svc y) = bufferSize s0 ∧
  (last_flush_done (wk y) = false → bufferSize s0 ≤ zlen (buffer (svc y)) → will_flush y).
Proof.
  intros H0 Hsz. induction 1 as [|y y' _ [IHs IH] Hs].
  { split; [done|]. cbn. rewrite H0. unfold zlen. cbn. lia. }
  destruct Hs as [y e s' b Ha|y n Hn|y Hw|y Hw Hc|y|y Hw Hc|y f s' taken Hw Ht|y es f s' err Hw Hst];
    unfold will_flush in *; cbn.
  - injection Ha as <- <-. cbn. split; [done|]. intros _ Hl. right. left. rewrite IHs, (proj2 (Z.leb_le _ _)) by done. lia.
  - auto.
  - eauto.
  - eauto.
  - auto.
  - eauto.
  - unfold take_buffer in Ht. destruct (Nat.eqb_spec (length (buffer (svc y))) 0) as [E|E]; injection Ht as <- <-;
      cbn; (split; [done|]); intros _ Hl; unfold zlen in Hl; cbn in Hl; lia.
  - unfold store_batch in Hst. destruct (WriteBatch _ _). injection Hst as <- _. cbn. split; [done|].
    destruct f; [done|]. intros _ Hl. rewrite Hw in IH. destruct (IH eq_refl Hl) as [?|[?|[f ?]]]; [auto..|done].
Qed.

(** ** Properties *)

(** C11. The audit log is complete and in order: in every interleaving of requests, ticks,
    signals, closing and the flush worker, the entries that were logged are, in order
    and each exactly once, the ones handed to the storage, then the ones the worker is
    writing, then the buffered ones; once the worker has stopped, only entries that came
    after its last flush have not been handed over; and as long as the storage reports
    no error, what can be queried is the latest part of what was handed over, up to the
    storage's capacity. *)
Theorem audit_log_complete s0 y :
  buffer s0 = [] → index (storage s0) = [] → 0 ≤ capacity (storage s0) → reachable s0 y →
  logged y = concat (batches y).*1 ++ in_flight (wk y) ++ buffer (svc y) ∧
  (wk y = Stopped → logged y = concat (batches y).*1 ++ late y) ∧
  (all_ok y → index (storage (svc y)) = keep (capacity (storage s0)) (concat (batches y).*1)).
Proof.
  intros Hb Hi Hc Hr. destruct (conserved_reachable s0 y Hb Hr) as [H1 H2 _]. split; [done|]. split.
  - intros Hw. rewrite Hw in H1, H2. rewrite H1. cbn. by rewrite (H2 eq_refl).
  - intros Hok. by destruct (stored_reachable s0 y Hi Hc Hr Hok).
Qed.

(** C34. No wake-up is missed: with a positive buffer size, whenever the buffer holds as many
    entries as it is meant to and the worker has not done its last flush, the flush channel
    holds a signal, or a request is about to send one, or the worker is already on its way
    to the buffer. *)
Theorem no_missed_wakeup s0 y :
  buffer s0 = [] → 0 < bufferSize s0 → reachable s0 y → last_flush_done (wk y) = false →
  bufferSize (svc y) ≤ zlen (buffer (svc y)) →
  flushChan (svc y) = true ∨ (0 < signals y)%nat ∨ ∃ final, wk y = Woken final.
Proof.
  intros Hb Hsz Hr Hl Hz. destruct (will_flush_reachable s0 y Hb Hsz Hr) as [Hs H].
  apply H; [done|]. by rewrite <- Hs.
Qed.
End service.

(** ** Start-up *)
Section start.
Context {Any : Type} {W : FileWriter} {M : Json (Any := Any)}.

(** [storageType], [filePath], [bufferSize] and [flushInterval] are the configuration's,
    [opened] the outcome of making the directory and opening the file. [make] panics for a
    negative capacity (one the memory cannot hold is left aside), and [time.NewTicker] in
    the flush worker, which runs in a goroutine of its own, for an interval that is not
    positive; both end the process. *)
Definition NewAuditService (storageType filePath : string) (opened : result writer)
    (bufferSize flushInterval : Z)
    : outcome (result (AuditService (Any := Any) (S := FileStorage (Any := Any) + MemoryStorage (Any := Any)))) :=
  match (if bool_decide (storageType = "file")
         then let? f := NewFileStorage filePath opened in Ok (inl f)
         else Ok (inr (NewMemoryStorage 10000))) with
  | Err err => Ret (Err err)
  | Ok store =>
      if bufferSize <? 0 then Panic "makeslice: cap out of range"
      else if flushInterval <=? 0 then Panic "non-positive interval for NewTicker"
      else Ret (Ok {| storage := store; bufferSize := bufferSize; buffer := []; flushChan := false;
                      closeChan := false |})
  end.

Context {WL : FileWriterLaws W}.

(** The started service: whichever storage the configuration selects, a new service
    starts with nothing buffered and nothing stored, with room for the last 10000 entries in
    the queries; it fails to start only when the file cannot be opened, and the process ends
    only with a negative buffer size or an interval that is not positive. *)
Theorem started_service storageType filePath opened bufferSize flushInterval :
  match NewAuditService storageType filePath opened bufferSize flushInterval with
  | Ret (Ok s) => buffer s = [] ∧ index (storage s) = [] ∧ capacity (storage s) = 10000
  | Ret (Err e) => storageType = "file" ∧ opened = Err e
  | Panic _ => bufferSize < 0 ∨ flushInterval ≤ 0
  end.
Proof.
  unfold NewAuditService. destruct (Z.ltb_spec bufferSize 0), (Z.leb_spec flushInterval 0);
    (case_bool_decide; [destruct opened|]); cbn; auto.
Qed.
End start.

(** ** Examples, on the storage in memory *)

Definition demo_service : AuditService (Any := Z) (S := MemoryStorage (Any := Z)) :=
  {| storage := NewMemoryStorage 10000; bufferSize := 2; buffer := []; flushChan := false; closeChan := false |}.

(** Two entries, and the signal the second one sends. *)
Definition demo_full : sys (Any := Z) (S := MemoryStorage (Any := Z)) :=
  {| svc := {| storage := NewMemoryStorage 10000; bufferSize := 2;
               buffer := [demo_entry "a" 1; demo_entry "b" 2]; flushChan := true; closeChan := false |};
     signals := 0; wk := Waiting; logged := [demo_entry "a" 1; demo_entry "b" 2]; batches := []; late := [] |}.

Definition demo_flushed : sys (Any := Z) (S := MemoryStorage (Any := Z)) :=
  {| svc := {| storage := {| m_entries := [demo_entry "a" 1; demo_entry "b" 2]; m_maxSize := 10000 |};
               bufferSize := 2; buffer := []; flushChan := false; closeChan := false |};
     signals := 0; wk := Waiting; logged := [demo_entry "a" 1; demo_entry "b" 2];
     batches := [([demo_entry "a" 1; demo_entry "b" 2], true)]; late := [] |}.

Lemma demo_full_reachable : reachable demo_service demo_full.
Proof.
  pose proof (reach_initial demo_service) as H.
  eapply reach_step in H; [|apply (step_append _ (demo_entry "a" 1)); reflexivity].
  eapply reach_step in H; [|apply (step_append _ (demo_entry "b" 2)); reflexivity].
  eapply reach_step in H; [|apply (step_signal _ 0); reflexivity]. exact H.
Qed.

Lemma demo_flushed_reachable : reachable demo_service demo_flushed.
Proof.
  pose proof demo_full_reachable as H.
  eapply reach_step in H; [|apply step_flushChan; reflexivity].
  eapply reach_step in H; [|eapply step_take; reflexivity].
  eapply reach_step in H; [|eapply step_store; reflexivity]. exact H.
Qed.

Lemma audit_log_complete_witness :
  index (storage (svc demo_flushed)) = [demo_entry "a" 1; demo_entry "b" 2].
Proof.
  destruct (audit_log_complete demo_service demo_flushed) as (_ & _ & H);
    [reflexivity|reflexivity|vm_compute; discriminate|apply demo_flushed_reachable|].
  apply H. repeat constructor.
Defined.

Lemma no_missed_wakeup_witness :
  flushChan (svc demo_full) = true ∨ (0 < signals demo_full)%nat ∨ ∃ final, wk demo_full = Woken final.
Proof.
  apply (no_missed_wakeup demo_service demo_full);
    [reflexivity|reflexivity|apply demo_full_reachable|reflexivity|vm_compute; discriminate].
Defined.
End AuditSvc.
