(* ===== verification/AuditHandler.v ===== *)
(** * services/audit/internal/handler: the audit service's methods

    One definition per method of [AuditHandler], with the message types the file
    declares itself. *)

From S2P Require Import Prelude GoStd AuditStorage AuditSvc.
Local Open Scope Z_scope.

Module AuditHandler.
Import AuditStorage AuditSvc.

Section handler.
Context {Any S : Type} {ST : Storage (Any := Any) S}.

(** The request messages of the three logging methods have the fields of the service's
    inputs. *)
Record QueryRequest := {
  qr_StartTime : Z;
  qr_EndTime : Z;
  qr_Type : string;
  qr_Path : string;
  qr_Operation : string;
  qr_ClientToken : string;
  qr_Limit : Z;
  qr_Offset : Z
}.

Record RAuthInfo := {
  ra_ClientToken : string;
  ra_Accessor : string;
  ra_DisplayName : string;
  ra_Policies : list string;
  ra_EntityId : string;
  ra_RemoteAddr : string
}.
Record RRequestInfo := { rq_Id : string; rq_Operation : string; rq_Path : string; rq_RemoteAddr : string }.
Record RResponseInfo := {
  rp_MountPoint : string;
  rp_MountType : string;
  rp_MountAccessor : string;
  rp_Warnings : list string
}.
Record RAuditEntry := {
  re_Id : string;
  re_Timestamp : Z;
  re_Type : string;
  re_Auth : option RAuthInfo;
  re_Request : option RRequestInfo;
  re_Response : option RResponseInfo;
  re_Error : string;
  re_Metadata : gmap string string
}.

Definition missing : error := statusError InvalidArgument "request_id is required".

Definition LogRequest (s : AuditService) (req : LogRequestInput) (b : bytes) (now : time)
    : AuditService (Any := Any) (S := S) * result bool :=
  if bool_decide (lq_RequestID req = "") then (s, Err missing)
  else (AuditSvc.LogRequest s req b now, Ok true).

Definition LogResponse (s : AuditService) (req : LogResponseInput) (b : bytes) (now : time)
    : AuditService (Any := Any) (S := S) * result bool :=
  if bool_decide (lr_RequestID req = "") then (s, Err missing)
  else (AuditSvc.LogResponse s req b now, Ok true).

Definition LogError (s : AuditService) (req : LogErrorInput) (b : bytes) (now : time)
    : AuditService (Any := Any) (S := S) * result bool :=
  if bool_decide (le_RequestID req = "") then (s, Err missing)
  else (AuditSvc.LogError s req b now, Ok true).

Definition convertToResponse (entry : AuditEntry (Any := Any)) : RAuditEntry :=
  {| re_Id := ID entry; re_Timestamp := Unix (Timestamp entry); re_Type := Type_ entry;
     re_Auth := (λ a, {| ra_ClientToken := ClientToken a; ra_Accessor := Accessor a;
                         ra_DisplayName := DisplayName a; ra_Policies := Policies a;
                         ra_EntityId := EntityID a; ra_RemoteAddr := a_RemoteAddr a |}) <$> Auth entry;
     re_Request := (λ r, {| rq_Id := r_ID r; rq_Operation := Operation r; rq_Path := Path r;
                            rq_RemoteAddr := r_RemoteAddr r |}) <$> Request entry;
     re_Response := (λ r, {| rp_MountPoint := MountPoint r; rp_MountType := MountType r;
                             rp_MountAccessor := MountAccessor r; rp_Warnings := Warnings r |}) <$> Response entry;
     re_Error := Error_ entry; re_Metadata := Metadata entry |}.

(** [time.Unix(sec, 0)], and the zero time for a field that is not set. *)
Definition query_time (sec : Z) : time :=
  if 0 <? sec then (sec + 62135596800) * Second else zeroTime.

Definition Query (s : AuditService) (req : QueryRequest) : result (list RAuditEntry * Z) :=
  let input := {| StartTime := query_time (qr_StartTime req); EndTime := query_time (qr_EndTime req);
                  q_Type := qr_Type req; q_Path := qr_Path req; q_Operation := qr_Operation req;
                  q_ClientToken := qr_ClientToken req; Limit := qr_Limit req; Offset := qr_Offset req |} in
  match Query_ s input with
  | Err _ => Err (statusError Internal "failed to query audit entries")
  | Ok (entries, total) => Ok (convertToResponse <$> entries, total)
  end.
End handler.

(** A query without filters for the first entry. *)
Definition newest : QueryRequest :=
  {| qr_StartTime := 0; qr_EndTime := 0; qr_Type := ""; qr_Path := ""; qr_Operation := "";
     qr_ClientToken := ""; qr_Limit := 1; qr_Offset := 0 |}.

Lemma flush_memory {Any} (s : AuditService (Any := Any) (S := MemoryStorage (Any := Any))) :
  buffer s ≠ [] → storage (flush s) = (memory_WriteBatch (storage s) (buffer s)).1.
Proof. intros H. unfold flush, take_buffer. by destruct (buffer s). Qed.

(** An entry that is written and flushed is the last one of the storage. *)
Lemma flushed_last {Any} (s : AuditService (Any := Any) (S := MemoryStorage (Any := Any))) entry :
  0 < m_maxSize (storage s) → ∃ l, m_entries (storage (flush (writeEntry s entry))) = l ++ [entry].
Proof.
  intros Hm.
  assert (buffer (writeEntry s entry) = buffer s ++ [entry] ∧ storage (writeEntry s entry) = storage s) as [Hb Hst].
  { unfold writeEntry, append_entry. by destruct (_ <=? _). }
  rewrite flush_memory by (rewrite Hb; by destruct (buffer s)). rewrite Hb, Hst.
  unfold memory_WriteBatch. cbn [fst m_entries set_m_entries]. rewrite app_assoc.
  set (k := m_entries (storage s) ++ buffer s). destruct (Z.ltb_spec (m_maxSize (storage s)) (zlen (k ++ [entry]))).
  - exists (drop (Z.to_nat (zlen (k ++ [entry]) - m_maxSize (storage s))) k).
    apply drop_app_le. rewrite zlen_app. change (zlen [entry]) with 1. unfold zlen. lia.
  - by exists k.
Qed.

(** ** Properties *)

(** What is logged can be found: after a request is logged and the buffer flushed, the
    newest entry of the storage in memory is that request, with its identifier, the
    second it was logged in and the fields of the request; a request without an
    identifier is refused and leaves no trace. *)
Theorem logged_request_is_newest {Any} (s : AuditService (Any := Any) (S := MemoryStorage (Any := Any))) req b now s' res :
  0 < m_maxSize (storage s) → LogRequest s req b now = (s', res) →
  if bool_decide (lq_RequestID req = "") then s' = s ∧ res = Err missing
  else res = Ok true ∧ ∃ total e, Query (flush s') newest = Ok ([e], total) ∧ 0 < total ∧
    re_Id e = generateID b ∧ re_Timestamp e = Unix now ∧ re_Type e = "request" ∧
    re_Metadata e = lq_Metadata req ∧
    re_Request e = Some {| rq_Id := lq_RequestID req; rq_Operation := lq_Operation req;
                           rq_Path := lq_Path req; rq_RemoteAddr := lq_RemoteAddr req |}.
Proof.
  intros Hm. unfold LogRequest. case_bool_decide; intros [= <- <-]; [done|]. split; [done|].
  unfold AuditSvc.LogRequest. set (entry := request_entry _ _ _).
  destruct (flushed_last s entry Hm) as [l Hl].
  unfold Query, Query_. cbn [AuditStorage.Query AuditStorage.Count MemoryStorage_Storage].
  unfold memory_Query, memory_Count. rewrite query_loop_page, count_loop_spec, Hl, rev_app_distr. cbn.
  eexists _, (convertToResponse entry). split; [done|]. split; [|done].
  rewrite List.filter_app, zlen_app.
  match goal with |- context [zlen (List.filter ?f l)] => pose proof (zlen_nonneg (List.filter f l)) end.
  change (zlen (List.filter _ [entry])) with 1. lia.
Qed.

Definition demo_log : LogRequestInput (Any := Z) :=
  {| lq_RequestID := "r1"; lq_ClientToken := "t"; lq_Accessor := ""; lq_DisplayName := "alice";
     lq_Policies := ["default"]; lq_EntityID := ""; lq_RemoteAddr := "10.0.0.1"; lq_Operation := "read";
     lq_Path := "secret/x"; lq_Data := ∅; lq_Metadata := ∅ |}.

Lemma logged_request_is_newest_witness :
  ∃ total e, Query (flush (LogRequest demo_service demo_log (to_bytes "id") 0).1) newest = Ok ([e], total) ∧
    0 < total ∧ re_Id e = "6964" ∧ re_Timestamp e = -62135596800 ∧ re_Type e = "request" ∧
    re_Metadata e = ∅ ∧
    re_Request e = Some {| rq_Id := "r1"; rq_Operation := "read"; rq_Path := "secret/x"; rq_RemoteAddr := "10.0.0.1" |}.
Proof.
  apply (logged_request_is_newest demo_service demo_log (to_bytes "id") 0
    (LogRequest demo_service demo_log (to_bytes "id") 0).1 (Ok true)); reflexivity.
Defined.
End AuditHandler.
