(* ===== verification/Gateway.v ===== *)
(** * services/gateway/internal/handler/gateway_handler.go

    The HTTP handlers of the gateway. [Backends] is what they call: the client methods of
    the generated stubs, as functions of the state of the services. A call goes through the
    connection pool ([Proxy]) and the circuit breaker of its target ([CircuitBreaker]); what
    the network, the dials and the clocks do is in [Env]. A request body is JSON ([Json]), a
    response is written through [Http.ResponseWriter]. Logging is left out. *)

From S2P Require Import Prelude GoStd Json Http GatewayAuth Config Proxy CircuitBreaker.
From S2P Require Import LockHandler CryptoHandler TokenizeHandler.
Local Open Scope Z_scope.

Module Gateway.
Import Json.

(** ** The services behind the gateway *)
Class Backends (St : Type) := {
  rpc_Encrypt : St → CryptoHandler.EncryptRequest → St * result CryptoHandler.EncryptResponse;
  rpc_Decrypt : St → CryptoHandler.DecryptRequest → St * result CryptoHandler.DecryptResponse;
  rpc_FPEEncrypt : St → TokenizeHandler.FPERequest → St * result TokenizeHandler.FPEResponse;
  rpc_FPEDecrypt : St → TokenizeHandler.FPERequest → St * result TokenizeHandler.FPEResponse;
  rpc_GetSealStatus : St → St * result LockHandler.SealStatus;
  rpc_Initialize : St → LockHandler.InitializeRequest → St * result LockHandler.InitializeResponse;
  rpc_Unseal : St → LockHandler.UnsealRequest → St * result LockHandler.SealStatus;
  rpc_Seal : St → St * result LockHandler.SealStatus;
  rpc_CreateKey : St → LockHandler.CreateKeyRequest → St * result LockHandler.CreateKeyResponse;
  rpc_ListKeys : St → St * result (list string)
}.

(** What becomes of one message: it arrives and is answered, it does not arrive, or its
    answer does not. *)
Inductive network := Delivered | NotSent (err : error) | AnswerLost (err : error).

Record Env := {
  ev_dial : nat → bool;
  ev_net : network;
  ev_before : nat → time;
  ev_after : nat → time
}.

Abbreviation Request := GatewayAuth.Request.

Section handlers.
Context {St : Type} {B : Backends St}.

(** The state the handlers share; the configuration is fixed. *)
Record Gateway := {
  proxy : Proxy.GRPCProxy;
  cbManager : CircuitBreaker.CircuitBreakerManager;
  services : St
}.

Definition GatewayHandler := Gateway → Http.ResponseWriter → Request → Gateway * outcome Http.ResponseWriter.

Context (config : Config.ServicesConfig).

(** ** Responses *)

Definition json_type (w : Http.ResponseWriter) : Http.ResponseWriter :=
  Http.Header_Set "Content-Type" "application/json" w.

(** [json.NewEncoder(w).Encode(v)] ends with a newline. *)
Definition Encode (v : json) (w : Http.ResponseWriter) : Http.ResponseWriter :=
  Http.Write (encode v +:+ Http.newline) w.

Definition writeJSON (status : Z) (v : json) (w : Http.ResponseWriter) : Http.ResponseWriter :=
  Encode v (Http.WriteHeader status (json_type w)).

(** [ErrorResponse{Error: message}]: the empty [code] and [details] are omitted. *)
Definition writeError (status : Z) (message : string) (w : Http.ResponseWriter) : Http.ResponseWriter :=
  Encode (JObj [("error", JStr message)]) (Http.WriteHeader status (json_type w)).

(** Reading the body and [json.Unmarshal] into a struct. *)
Definition readJSON {T} (fields : list (string * decoder)) (zero : T) (r : Request) : option T :=
  match Http.Body r with
  | Err _ => None
  | Ok body => Unmarshal fields body zero
  end.

Definition jint (n : Z) : json := JNum (Strconv.Itoa n).

(** A slice of strings; what arrives empty is nil, and nil is written [null]. *)
Definition jstrings (l : list string) : json :=
  match l with [] => JNull | _ => JArr (JStr <$> l) end.

(** ** Calls *)

(** [getConnection]; for a name that is none of the five it returns neither a connection
    nor an error. *)
Definition address_of (service : string) : option string :=
  if bool_decide (service = "auth") then Some (Config.AuthAddress config)
  else if bool_decide (service = "crypto") then Some (Config.CryptoAddress config)
  else if bool_decide (service = "tokenize") then Some (Config.TokenizeAddress config)
  else if bool_decide (service = "lock") then Some (Config.LockAddress config)
  else if bool_decide (service = "audit") then Some (Config.AuditAddress config)
  else None.

Definition set_proxy (p : Proxy.GRPCProxy) (g : Gateway) : Gateway :=
  {| proxy := p; cbManager := cbManager g; services := services g |}.

Definition getConnection (g : Gateway) (service : string) (dial : nat → bool)
    : Gateway * outcome (result (option (Proxy.conn * string))) :=
  match address_of service with
  | None => (g, Ret (Ok None))
  | Some address =>
      let (p, res) := Proxy.GetConnection (proxy g) service address dial in
      (set_proxy p g,
       let! res := res in
       Ret match res with Ok c => Ok (Some (c, address)) | Err e => Err e end)
  end.

(** The client connection is closing. *)
Definition errClosing : error := statusError Canceled "grpc: the client connection is closing".

(** The RPC itself, below the interceptor. *)
Definition transmit {A} (g : Gateway) (c : Proxy.conn) (net : network) (rpc : St → St * result A)
    : St * result A :=
  match Proxy.opened (proxy g) !! c with
  | None => (services g, Err errClosing)
  | Some _ =>
      match net with
      | Delivered => rpc (services g)
      | NotSent err => (services g, Err err)
      | AnswerLost err => ((rpc (services g)).1, Err err)
      end
  end.

Definition admits (m : CircuitBreaker.CircuitBreakerManager) (target : string) (clk : nat → time) : bool :=
  match (CircuitBreaker.beforeRequest (CircuitBreaker.GetBreaker m target).2 clk).2 with
  | None => true
  | Some _ => false
  end.

Definition err_of {A} (r : result A) : option error := match r with Ok _ => None | Err e => Some e end.

(** A client method on a connection: the circuit breaker of the target lets the message out
    or refuses it, and counts the outcome. *)
Definition invoke {A} (g : Gateway) (c : Proxy.conn) (target : string) (env : Env)
    (rpc : St → St * result A) : Gateway * outcome (result A) :=
  let (st, res) := transmit g c (ev_net env) rpc in
  let (m, out) := CircuitBreaker.UnaryClientInterceptor (cbManager g) target (ev_before env)
                    (Ret (err_of res)) (ev_after env) in
  ({| proxy := proxy g; cbManager := m;
      services := if admits (cbManager g) target (ev_before env) then st else services g |},
   let! out := out in
   Ret match out with Some err => Err err | None => res end).

(** What a handler sees of a call. *)
Inductive called (A : Type) := NoConnection (err : error) | Failed (err : error) | Answer (resp : A).
Arguments NoConnection {A} err.
Arguments Failed {A} err.
Arguments Answer {A} resp.

(** [getConnection] and the client method; a nil connection would be dereferenced. *)
Definition call {A} (g : Gateway) (service : string) (env : Env) (rpc : St → St * result A)
    : Gateway * outcome (called A) :=
  match getConnection g service (ev_dial env) with
  | (g, Panic msg) => (g, Panic msg)
  | (g, Ret (Err err)) => (g, Ret (NoConnection err))
  | (g, Ret (Ok None)) => (g, Panic "invalid memory address or nil pointer dereference")
  | (g, Ret (Ok (Some (c, target)))) =>
      let (g, res) := invoke g c target env rpc in
      (g, let! res := res in Ret match res with Ok resp => Answer resp | Err err => Failed err end)
  end.

(** The end every forwarding handler has: 503 without a connection, 500 when the call
    fails, and otherwise 200 with the answer. *)
Definition finish {A} (w : Http.ResponseWriter) (service failed : string) (render : A → json)
    (res : Gateway * outcome (called A)) : Gateway * outcome Http.ResponseWriter :=
  let (g, out) := res in
  (g, let! out := out in
      Ret match out with
          | NoConnection _ => writeError Http.StatusServiceUnavailable (service +:+ " service unavailable") w
          | Failed _ => writeError Http.StatusInternalServerError failed w
          | Answer resp => writeJSON Http.StatusOK (render resp) w
          end).

Definition bad_request (g : Gateway) (w : Http.ResponseWriter) (message : string)
    : Gateway * outcome Http.ResponseWriter :=
  (g, Ret (writeError Http.StatusBadRequest message w)).

(** ** Crypto endpoints *)

Record EncryptRequest := { e_KeyName : string; e_Plaintext : string; e_Context : string }.
Definition no_EncryptRequest : EncryptRequest := {| e_KeyName := ""; e_Plaintext := ""; e_Context := "" |}.
Definition EncryptRequest_fields : list (string * decoder) := [
  ("key_name", into_string (λ s r, {| e_KeyName := s; e_Plaintext := e_Plaintext r; e_Context := e_Context r |}));
  ("plaintext", into_string (λ s r, {| e_KeyName := e_KeyName r; e_Plaintext := s; e_Context := e_Context r |}));
  ("context", into_string (λ s r, {| e_KeyName := e_KeyName r; e_Plaintext := e_Plaintext r; e_Context := s |}))].

Definition Encrypt (env : Env) : GatewayHandler := λ g w r,
  match readJSON EncryptRequest_fields no_EncryptRequest r with
  | None => bad_request g w "invalid request body"
  | Some req =>
      finish w "crypto" "encryption failed"
        (λ resp, JObj [("ciphertext", JStr (CryptoHandler.ep_Ciphertext resp));
                       ("key_version", jint (CryptoHandler.ep_KeyVersion resp))])
        (call g "crypto" env (λ st, rpc_Encrypt st
           {| CryptoHandler.eq_KeyName := e_KeyName req;
              CryptoHandler.eq_Plaintext := to_bytes (e_Plaintext req);
              CryptoHandler.eq_Context := to_bytes (e_Context req) |}))
  end.

Record DecryptRequest := { d_KeyName : string; d_Ciphertext : string; d_Context : string }.
Definition no_DecryptRequest : DecryptRequest := {| d_KeyName := ""; d_Ciphertext := ""; d_Context := "" |}.
Definition DecryptRequest_fields : list (string * decoder) := [
  ("key_name", into_string (λ s r, {| d_KeyName := s; d_Ciphertext := d_Ciphertext r; d_Context := d_Context r |}));
  ("ciphertext", into_string (λ s r, {| d_KeyName := d_KeyName r; d_Ciphertext := s; d_Context := d_Context r |}));
  ("context", into_string (λ s r, {| d_KeyName := d_KeyName r; d_Ciphertext := d_Ciphertext r; d_Context := s |}))].

Definition Decrypt (env : Env) : GatewayHandler := λ g w r,
  match readJSON DecryptRequest_fields no_DecryptRequest r with
  | None => bad_request g w "invalid request body"
  | Some req =>
      finish w "crypto" "decryption failed"
        (λ resp, JObj [("plaintext", JStr (of_bytes (CryptoHandler.dp_Plaintext resp)));
                       ("key_version", jint (CryptoHandler.dp_KeyVersion resp))])
        (call g "crypto" env (λ st, rpc_Decrypt st
           {| CryptoHandler.dq_KeyName := d_KeyName req;
              CryptoHandler.dq_Ciphertext := d_Ciphertext req;
              CryptoHandler.dq_Context := to_bytes (d_Context req) |}))
  end.

(** ** Tokenize endpoints *)

Record TokenizeRequest := { t_KeyName : string; t_Value : string; t_Transformation : string }.
Definition no_TokenizeRequest : TokenizeRequest := {| t_KeyName := ""; t_Value := ""; t_Transformation := "" |}.

(** [TokenizeRequest] and [DetokenizeRequest] differ in the name of the second field. *)
Definition TokenizeRequest_fields (value : string) : list (string * decoder) := [
  ("key_name", into_string (λ s r, {| t_KeyName := s; t_Value := t_Value r; t_Transformation := t_Transformation r |}));
  (value, into_string (λ s r, {| t_KeyName := t_KeyName r; t_Value := s; t_Transformation := t_Transformation r |}));
  ("transformation", into_string (λ s r, {| t_KeyName := t_KeyName r; t_Value := t_Value r; t_Transformation := s |}))].

(** The messages leave alphabet and tweak out. *)
Definition fpe_request (req : TokenizeRequest) : TokenizeHandler.FPERequest :=
  {| TokenizeHandler.fq_KeyName := t_KeyName req; TokenizeHandler.fq_Text := t_Value req;
     TokenizeHandler.fq_Transformation := t_Transformation req; TokenizeHandler.fq_Alphabet := "";
     TokenizeHandler.fq_Tweak := None |}.

Definition Tokenize (env : Env) : GatewayHandler := λ g w r,
  match readJSON (TokenizeRequest_fields "value") no_TokenizeRequest r with
  | None => bad_request g w "invalid request body"
  | Some req =>
      finish w "tokenize" "tokenization failed"
        (λ resp, JObj [("token", JStr (TokenizeHandler.fp_Text resp));
                       ("key_version", jint (TokenizeHandler.fp_KeyVersion resp))])
        (call g "tokenize" env (λ st, rpc_FPEEncrypt st (fpe_request req)))
  end.

Definition Detokenize (env : Env) : GatewayHandler := λ g w r,
  match readJSON (TokenizeRequest_fields "token") no_TokenizeRequest r with
  | None => bad_request g w "invalid request body"
  | Some req =>
      finish w "tokenize" "detokenization failed"
        (λ resp, JObj [("key_version", jint (TokenizeHandler.fp_KeyVersion resp));
                       ("value", JStr (TokenizeHandler.fp_Text resp))])
        (call g "tokenize" env (λ st, rpc_FPEDecrypt st (fpe_request req)))
  end.

(** ** Secret and auth endpoints, which answer without forwarding *)

Definition GetSecret : GatewayHandler := λ g w r,
  let path := Http.Query_Get (Http.RawQuery r) "path" in
  if bool_decide (path = "") then bad_request g w "path is required"
  else (g, Ret (writeJSON Http.StatusOK
         (JObj [("data", JObj [("data", JObj [("key", JStr "value")]);
                               ("metadata", JObj [("version", jint 1)])])]) w)).

(** A map of any values takes every object whose numbers a [float64] holds. *)
Record SecretRequest := { s_Path : string; s_Data : option (list (string * json)) }.
Definition no_SecretRequest : SecretRequest := {| s_Path := ""; s_Data := None |}.

Fixpoint floats_ok (v : json) : bool :=
  match v with
  | JNum lit => bool_decide (is_Some (Strconv2.ParseFloat lit))
  | JArr l => forallb floats_ok l
  | JObj l => forallb (λ m, floats_ok m.2) l
  | _ => true
  end.

Definition into_data : decoder := λ v r,
  match v with
  | JNull => Some {| s_Path := s_Path r; s_Data := None |}
  | JObj ms =>
      if forallb (λ m, floats_ok m.2) ms
      then Some {| s_Path := s_Path r; s_Data := Some (default [] (s_Data r) ++ ms) |} else None
  | _ => None
  end.

Definition SecretRequest_fields : list (string * decoder) := [
  ("path", into_string (λ s r, {| s_Path := s; s_Data := s_Data r |}));
  ("data", into_data)].

Definition PutSecret : GatewayHandler := λ g w r,
  match readJSON SecretRequest_fields no_SecretRequest r with
  | None => bad_request g w "invalid request body"
  | Some _ => (g, Ret (writeJSON Http.StatusOK (JObj [("data", JObj [("version", jint 1)])]) w))
  end.

Record LoginRequest := { l_Username : string; l_Password : string; l_Method : string }.
Definition no_LoginRequest : LoginRequest := {| l_Username := ""; l_Password := ""; l_Method := "" |}.
Definition LoginRequest_fields : list (string * decoder) := [
  ("username", into_string (λ s r, {| l_Username := s; l_Password := l_Password r; l_Method := l_Method r |}));
  ("password", into_string (λ s r, {| l_Username := l_Username r; l_Password := s; l_Method := l_Method r |}));
  ("method", into_string (λ s r, {| l_Username := l_Username r; l_Password := l_Password r; l_Method := s |}))].

Definition Login : GatewayHandler := λ g w r,
  match readJSON LoginRequest_fields no_LoginRequest r with
  | None => bad_request g w "invalid request body"
  | Some _ =>
      (g, Ret (writeJSON Http.StatusOK
        (JObj [("auth", JObj [("accessor", JStr "xxx"); ("client_token", JStr "hvs.xxx");
                              ("lease_duration", jint 3600); ("policies", JArr [JStr "default"]);
                              ("renewable", JBool true); ("token_policies", JArr [JStr "default"])])]) w))
  end.

Definition Lookup : GatewayHandler := λ g w r,
  match GatewayAuth.GetIdentity r with
  | None => (g, Ret (writeError Http.StatusUnauthorized "not authenticated" w))
  | Some ident =>
      (g, Ret (writeJSON Http.StatusOK
        (JObj [("data", JObj [("id", JStr (GatewayAuth.ic_Subject ident));
                              ("policies", jstrings (GatewayAuth.ic_Policies ident));
                              ("type", JStr (GatewayAuth.ic_Type ident))])]) w))
  end.

(** ** Seal operations *)

Definition GetSealStatus (env : Env) : GatewayHandler := λ g w r,
  finish w "lock" "failed to get seal status"
    (λ resp, JObj [("cluster_id", JStr (LockHandler.st_ClusterId resp));
                   ("cluster_name", JStr (LockHandler.st_ClusterName resp));
                   ("initialized", JBool (LockHandler.st_Initialized resp));
                   ("progress", jint (LockHandler.st_Progress resp));
                   ("sealed", JBool (LockHandler.st_Sealed resp));
                   ("shares", jint (LockHandler.st_Shares resp));
                   ("threshold", jint (LockHandler.st_Threshold resp));
                   ("version", JStr (LockHandler.st_Version resp))])
    (call g "lock" env rpc_GetSealStatus).

Record InitializeRequest := { i_SecretShares : Z; i_SecretThreshold : Z }.
Definition no_InitializeRequest : InitializeRequest := {| i_SecretShares := 0; i_SecretThreshold := 0 |}.
Definition InitializeRequest_fields : list (string * decoder) := [
  ("secret_shares", into_int (λ n r, {| i_SecretShares := n; i_SecretThreshold := i_SecretThreshold r |}));
  ("secret_threshold", into_int (λ n r, {| i_SecretShares := i_SecretShares r; i_SecretThreshold := n |}))].

Definition Initialize (env : Env) : GatewayHandler := λ g w r,
  match readJSON InitializeRequest_fields no_InitializeRequest r with
  | None => bad_request g w "invalid request body"
  | Some req =>
      let shares := if i_SecretShares req =? 0 then 5 else i_SecretShares req in
      let threshold := if i_SecretThreshold req =? 0 then 3 else i_SecretThreshold req in
      finish w "lock" "initialization failed"
        (λ resp, JObj [("keys", jstrings (LockHandler.Keys_ resp));
                       ("root_tokens", jstrings (LockHandler.RootTokens resp))])
        (call g "lock" env (λ st, rpc_Initialize st
           {| LockHandler.SecretShares := int32 shares; LockHandler.SecretThreshold := int32 threshold |}))
  end.

Record UnsealRequest := { u_Key : string; u_Reset : bool }.
Definition no_UnsealRequest : UnsealRequest := {| u_Key := ""; u_Reset := false |}.
Definition UnsealRequest_fields : list (string * decoder) := [
  ("key", into_string (λ s r, {| u_Key := s; u_Reset := u_Reset r |}));
  ("reset", into_bool (λ b r, {| u_Key := u_Key r; u_Reset := b |}))].

Definition Unseal (env : Env) : GatewayHandler := λ g w r,
  match readJSON UnsealRequest_fields no_UnsealRequest r with
  | None => bad_request g w "invalid request body"
  | Some req =>
      finish w "lock" "unseal failed"
        (λ resp, JObj [("initialized", JBool (LockHandler.st_Initialized resp));
                       ("progress", jint (LockHandler.st_Progress resp));
                       ("sealed", JBool (LockHandler.st_Sealed resp));
                       ("shares", jint (LockHandler.st_Shares resp));
                       ("threshold", jint (LockHandler.st_Threshold resp))])
        (call g "lock" env (λ st, rpc_Unseal st
           {| LockHandler.UKey := u_Key req; LockHandler.Reset_ := u_Reset req |}))
  end.

Definition Seal (env : Env) : GatewayHandler := λ g w r,
  finish w "lock" "seal failed" (λ resp, JObj [("sealed", JBool (LockHandler.st_Sealed resp))])
    (call g "lock" env rpc_Seal).

(** ** Key management *)

Record CreateKeyRequest := { c_Name : string; c_Type : string; c_Exportable : bool }.
Definition no_CreateKeyRequest : CreateKeyRequest := {| c_Name := ""; c_Type := ""; c_Exportable := false |}.
Definition CreateKeyRequest_fields : list (string * decoder) := [
  ("name", into_string (λ s r, {| c_Name := s; c_Type := c_Type r; c_Exportable := c_Exportable r |}));
  ("type", into_string (λ s r, {| c_Name := c_Name r; c_Type := s; c_Exportable := c_Exportable r |}));
  ("exportable", into_bool (λ b r, {| c_Name := c_Name r; c_Type := c_Type r; c_Exportable := b |}))].

(** The switch over the type; what it does not know stays AES-256-GCM. *)
Definition key_type_of (t : string) : LockHandler.ProtoKeyType :=
  if bool_decide (t = "aes256-gcm") || bool_decide (t = "aes-256-gcm") || bool_decide (t = "")
  then LockHandler.KEY_TYPE_AES256_GCM
  else if bool_decide (t = "chacha20-poly1305") then LockHandler.KEY_TYPE_CHACHA20_POLY1305
  else if bool_decide (t = "ed25519") then LockHandler.KEY_TYPE_ED25519
  else if bool_decide (t = "ecdsa-p256") then LockHandler.KEY_TYPE_ECDSA_P256
  else if bool_decide (t = "rsa-2048") then LockHandler.KEY_TYPE_RSA_2048
  else if bool_decide (t = "rsa-4096") then LockHandler.KEY_TYPE_RSA_4096
  else LockHandler.KEY_TYPE_AES256_GCM.

(** [resp.Type.String()] *)
Definition KeyType_String (t : LockHandler.ProtoKeyType) : string :=
  match t with
  | LockHandler.KEY_TYPE_UNSPECIFIED => "KEY_TYPE_UNSPECIFIED"
  | LockHandler.KEY_TYPE_AES256_GCM => "KEY_TYPE_AES256_GCM"
  | LockHandler.KEY_TYPE_CHACHA20_POLY1305 => "KEY_TYPE_CHACHA20_POLY1305"
  | LockHandler.KEY_TYPE_RSA_2048 => "KEY_TYPE_RSA_2048"
  | LockHandler.KEY_TYPE_RSA_4096 => "KEY_TYPE_RSA_4096"
  | LockHandler.KEY_TYPE_ECDSA_P256 => "KEY_TYPE_ECDSA_P256"
  | LockHandler.KEY_TYPE_ECDSA_P384 => "KEY_TYPE_ECDSA_P384"
  | LockHandler.KEY_TYPE_ED25519 => "KEY_TYPE_ED25519"
  | LockHandler.KEY_TYPE_FPE_FF1 => "KEY_TYPE_FPE_FF1"
  end.

(** The text of the error is part of the answer here. *)
Definition CreateKey (env : Env) : GatewayHandler := λ g w r,
  match readJSON CreateKeyRequest_fields no_CreateKeyRequest r with
  | None => bad_request g w "invalid request body"
  | Some req =>
      if bool_decide (c_Name req = "") then bad_request g w "name is required"
      else
        let (g, out) := call g "lock" env (λ st, rpc_CreateKey st
          {| LockHandler.ck_Name := c_Name req; LockHandler.ck_Type := key_type_of (c_Type req);
             LockHandler.ck_Exportable := c_Exportable req |}) in
        (g, let! out := out in
            Ret match out with
                | NoConnection _ => writeError Http.StatusServiceUnavailable "lock service unavailable" w
                | Failed err =>
                    writeError Http.StatusInternalServerError ("create key failed: " +:+ Error err) w
                | Answer resp =>
                    writeJSON Http.StatusOK
                      (JObj [("created_at", jint (LockHandler.ckr_CreatedAt resp));
                             ("latest_version", jint (LockHandler.ckr_LatestVersion resp));
                             ("name", JStr (LockHandler.ckr_Name resp));
                             ("type", JStr (KeyType_String (LockHandler.ckr_Type resp)))]) w
                end)
  end.

Definition ListKeys (env : Env) : GatewayHandler := λ g w r,
  finish w "lock" "list keys failed" (λ keys, JObj [("keys", jstrings keys)])
    (call g "lock" env rpc_ListKeys).

(** ** The endpoints *)
Inductive endpoint :=
  | ELogin | ELookup | EEncrypt | EDecrypt | ETokenize | EDetokenize | EGetSecret | EPutSecret
  | EGetSealStatus | EInitialize | EUnseal | ESeal | ECreateKey | EListKeys.

Definition serve (env : Env) (e : endpoint) : GatewayHandler :=
  match e with
  | ELogin => Login
  | ELookup => Lookup
  | EEncrypt => Encrypt env
  | EDecrypt => Decrypt env
  | ETokenize => Tokenize env
  | EDetokenize => Detokenize env
  | EGetSecret => GetSecret
  | EPutSecret => PutSecret
  | EGetSealStatus => GetSealStatus env
  | EInitialize => Initialize env
  | EUnseal => Unseal env
  | ESeal => Seal env
  | ECreateKey => CreateKey env
  | EListKeys => ListKeys env
  end.

(** ** Lemmas *)

(** The address every service name is asked for with. *)
Definition fixed_address (service : string) : string := default "" (address_of service).

(** The pools are those of the configured addresses. *)
Definition inv (g : Gateway) : Prop :=
  Proxy.wf (proxy g) ∧ Proxy.live fixed_address (proxy g).

Lemma inv_start m st : inv {| proxy := Proxy.NewGRPCProxy; cbManager := m; services := st |}.
Proof. apply (Proxy.live_reachable fixed_address). done. Qed.

(** What the breaker makes of a call it lets out, and of one it does not. *)
Lemma interceptor_cases m target clk e clk' :
  (CircuitBreaker.UnaryClientInterceptor m target clk (Ret e) clk').2 =
    Ret (if admits m target clk
         then match e with
              | Some err => Some (if errors_Is err CircuitBreaker.ErrCircuitOpen
                                  then statusError Unavailable "service temporarily unavailable" else err)
              | None => None
              end
         else Some (statusError Unavailable "service temporarily unavailable")).
Proof.
  unfold CircuitBreaker.UnaryClientInterceptor, admits.
  destruct (CircuitBreaker.GetBreaker m target) as [m' cb]. unfold CircuitBreaker.Execute. cbn [snd].
  assert (∀ err, (CircuitBreaker.beforeRequest cb clk).2 = Some err → err = CircuitBreaker.ErrCircuitOpen) as Hb.
  { intros err. unfold CircuitBreaker.beforeRequest. repeat case_match; cbn; congruence. }
  destruct (CircuitBreaker.beforeRequest cb clk) as [cb' [err|]]; cbn [snd] in *.
  - rewrite (Hb err eq_refl). done.
  - destruct e as [err|]; [|done]. by destruct (errors_Is err _).
Qed.

(** The three ways a call to a configured service goes: no connection because a dial
    failed, refused by the circuit breaker, or sent. The services change only in the last
    case, by the RPC. *)
Lemma call_cases {A} g service addr env (rpc : St → St * result A) :
  inv g → address_of service = Some addr →
  ∃ g' out, call g service env rpc = (g', Ret out) ∧ inv g' ∧
    ((∃ j err, (j < Proxy.PoolSize)%nat ∧ ev_dial env j = false ∧ out = NoConnection err ∧ services g' = services g ∧
        cbManager g' = cbManager g) ∨
     (admits (cbManager g) addr (ev_before env) = false ∧ services g' = services g ∧
        out = Failed (statusError Unavailable "service temporarily unavailable")) ∨
     (admits (cbManager g) addr (ev_before env) = true ∧
        match ev_net env with
        | Delivered =>
            services g' = (rpc (services g)).1 ∧
            cbManager g' = (CircuitBreaker.UnaryClientInterceptor (cbManager g) addr (ev_before env)
                              (Ret (err_of (rpc (services g)).2)) (ev_after env)).1 ∧
            match (rpc (services g)).2 with
            | Ok resp => out = Answer resp
            | Err err => out = Failed (if errors_Is err CircuitBreaker.ErrCircuitOpen
                                       then statusError Unavailable "service temporarily unavailable" else err)
            end
        | NotSent _ => services g' = services g ∧ ∃ err, out = Failed err
        | AnswerLost _ => services g' = (rpc (services g)).1 ∧ ∃ err, out = Failed err
        end)).
Proof.
  intros [W Hl] Ha. unfold call, getConnection. rewrite Ha.
  assert (fixed_address service = addr) as Hf by (unfold fixed_address; by rewrite Ha).
  pose proof (Proxy.wf_connect (proxy g) service addr (ev_dial env) W) as W'.
  pose proof (Proxy.live_connect fixed_address (proxy g) service (ev_dial env) W Hl) as Hl'. rewrite Hf in Hl'.
  pose proof (Proxy.connect_answers fixed_address (proxy g) service (ev_dial env) W Hl) as Hans. rewrite Hf in Hans.
  rewrite <- Proxy.GetConnection_connect in W', Hl', Hans.
  destruct (Proxy.GetConnection (proxy g) service addr (ev_dial env)) as [p res]. cbn [fst snd] in *.
  destruct Hans as [(c & -> & Ho)|(j & Hj & Hd & ->)]; cbn [obind].
  2: { eexists _, _. split; [reflexivity|]. split; [by split|]. left. by exists j, (statusError Unavailable ("failed to connect to " +:+ service)). }
  unfold invoke, transmit. cbn [proxy set_proxy services cbManager]. rewrite Ho.
  pose proof (interceptor_cases (cbManager g) addr (ev_before env)) as Hint.
  destruct (ev_net env) as [|e|e]; [destruct (rpc (services g)) as [st r] eqn:Er| |];
    match goal with |- context [CircuitBreaker.UnaryClientInterceptor _ _ _ (Ret ?e) ?k] => specialize (Hint e k) end;
    destruct (CircuitBreaker.UnaryClientInterceptor _ _ _ _ _) as [m out] eqn:Em; cbn [snd] in Hint; subst out;
    cbn [obind]; (eexists _, _; split; [reflexivity|]; split; [by split|]); right; cbn [services];
    destruct (admits _ _ _); [right|left|right|left|right|left]; try done.
  - split; [done|]. split; [done|]. cbn [snd]. split; [done|]. by destruct r.
  - split; [done|]. split; [done|]. by eexists.
  - split; [done|]. split; [done|]. by eexists.
Qed.

(** *** Answers are JSON objects *)

(** A writer nothing was sent through yet. *)
Definition unsent (w : Http.ResponseWriter) : Prop := Http.sent w = None ∧ Http.written w = "".

Lemma writeJSON_response status v w :
  unsent w → Http.response (writeJSON status v w) = (status, encode v +:+ Http.newline).
Proof.
  intros [Hs Hw]. unfold Http.response, writeJSON, Encode, Http.Write, Http.WriteHeader, json_type.
  cbn. rewrite Hs. cbn. by rewrite Hw.
Qed.

Lemma writeError_response status msg w :
  unsent w → Http.response (writeError status msg w) =
    (status, encode (JObj [("error", JStr msg)]) +:+ Http.newline).
Proof. by apply (writeJSON_response status (JObj [("error", JStr msg)])). Qed.

(** What a client reads from a body. *)
Lemma body_decodes v :
  numbers_ok v = true → (depth v ≤ 4)%nat → decode (encode v +:+ Http.newline) = Some (clean v).
Proof.
  intros Hn Hd. apply decode_of_encode; [done| |done]. etrans; [exact Hd|].
  apply Nat.leb_le. vm_compute. reflexivity.
Qed.

Lemma jint_ok n : numbers_ok (jint n) = true.
Proof. apply lexes_Itoa. Qed.

Lemma jstrings_ok l : numbers_ok (jstrings l) = true ∧ (depth (jstrings l) ≤ 1)%nat.
Proof.
  unfold jstrings. destruct l as [|s l]; [split; [done|cbn; lia]|].
  generalize (s :: l) as k. intros k. cbn [numbers_ok depth]. split.
  - induction k as [|x k IH]; [done|]. cbn. apply IH.
  - enough (max_list (depth <$> (JStr <$> k)) = 0%nat) as -> by done.
    induction k as [|x k IH]; [done|]. cbn. apply IH.
Qed.

(** A handler's answer: a status of the list and a JSON object. *)
Definition statuses : list Z := [200; 400; 401; 500; 503].

Definition answers_object (out : outcome Http.ResponseWriter) : Prop :=
  ∃ w ms, out = Ret w ∧ Http.status_of w ∈ statuses ∧ decode (Http.written w) = Some (JObj ms).

Lemma answers_writeJSON status ms w :
  unsent w → status ∈ statuses → numbers_ok (JObj ms) = true → (depth (JObj ms) ≤ 4)%nat →
  answers_object (Ret (writeJSON status (JObj ms) w)).
Proof.
  intros Hw Hs Hn Hd. pose proof (writeJSON_response status (JObj ms) w Hw) as E.
  eexists _, _. split; [done|]. split; [unfold Http.status_of; by rewrite E|].
  change (Http.written ?x) with (Http.response x).2. rewrite E. cbn [snd].
  rewrite body_decodes by done. reflexivity.
Qed.

Lemma answers_writeError status msg w :
  unsent w → status ∈ statuses → answers_object (Ret (writeError status msg w)).
Proof.
  intros Hw Hs. apply (answers_writeJSON status [("error", JStr msg)]); [done..|cbn; lia].
Qed.

(** The end of a forwarding handler. *)
Lemma answers_finish {A} g service addr env (rpc : St → St * result A) w failed (render : A → json) :
  inv g → address_of service = Some addr → unsent w →
  (∀ a, ∃ ms, render a = JObj ms ∧ numbers_ok (JObj ms) = true ∧ (depth (JObj ms) ≤ 4)%nat) →
  let (g', out) := finish w service failed render (call g service env rpc) in
  inv g' ∧ answers_object out.
Proof.
  intros Hi Ha Hw Hr. destruct (call_cases g service addr env rpc Hi Ha) as (g' & out & -> & Hi' & _).
  unfold finish. cbn [obind]. split; [done|]. destruct out as [e|e|resp].
  - apply answers_writeError; [done|set_solver].
  - apply answers_writeError; [done|set_solver].
  - destruct (Hr resp) as (ms & -> & Hn & Hd). apply answers_writeJSON; [done|set_solver|done..].
Qed.

(** What the rendered answers need: their numbers are printed integers. *)
Ltac rendered :=
  intros ?; eexists; split; [reflexivity|];
  repeat match goal with |- context [jstrings ?l] =>
    let H1 := fresh in let H2 := fresh in
    destruct (jstrings_ok l) as [H1 H2]; revert H1 H2; generalize (jstrings l); intros ? H1 H2 end;
  cbn -[Strconv.Itoa lexes]; rewrite ?lexes_Itoa; cbn; repeat split; try lia; auto;
  repeat (apply andb_true_iff; split); auto.

Lemma bad_request_answers g w msg : inv g → unsent w →
  let (g', out) := bad_request g w msg in inv g' ∧ answers_object out.
Proof. intros Hi Hw. split; [done|]. apply answers_writeError; [done|set_solver]. Qed.

(** The handlers are total and speak JSON: whatever the body, the query and the
    headers are, whatever the services, the network, the dials and the circuit breakers
    do, every endpoint answers without a panic, with one of the statuses 200, 400, 401, 500
    and 503 and a body that decodes to a JSON object; the connection pools stay in order. *)
Lemma serve_answers env e g w r :
  inv g → unsent w →
  let (g', out) := serve env e g w r in inv g' ∧ answers_object out.
Proof.
  intros Hi Hw. destruct e; cbn [serve]; unfold Login, Lookup, Encrypt, Decrypt, Tokenize, Detokenize, GetSecret,
    PutSecret, GetSealStatus, Initialize, Unseal, Seal, CreateKey, ListKeys;
    try (destruct (readJSON _ _ r) as [req|]; [|by apply bad_request_answers]).
  - split; [done|]. apply answers_writeJSON; [done|set_solver|reflexivity|cbn; lia].
  - destruct (GatewayAuth.GetIdentity r) as [ident|];
      (split; [done|]); [|apply answers_writeError; [done|set_solver]].
    destruct (jstrings_ok (GatewayAuth.ic_Policies ident)) as [H1 H2].
    apply answers_writeJSON; [done|set_solver| |]; cbn; rewrite ?H1; cbn; lia || done.
  - eapply answers_finish; [done..|]. rendered.
  - eapply answers_finish; [done..|]. rendered.
  - eapply answers_finish; [done..|]. rendered.
  - eapply answers_finish; [done..|]. rendered.
  - case_bool_decide; [by apply bad_request_answers|].
    split; [done|]. apply answers_writeJSON; [done|set_solver|reflexivity|cbn; lia].
  - split; [done|]. apply answers_writeJSON; [done|set_solver|reflexivity|cbn; lia].
  - eapply answers_finish; [done..|]. rendered.
  - eapply answers_finish; [done..|]. rendered.
  - eapply answers_finish; [done..|]. rendered.
  - eapply answers_finish; [done..|]. rendered.
  - case_bool_decide; [by apply bad_request_answers|].
    match goal with |- context [call g "lock" env ?rpc] =>
      destruct (call_cases g "lock" _ env rpc Hi eq_refl) as (g' & out & -> & Hi' & _) end. cbn [obind].
    split; [done|]. destruct out as [err|err|resp];
      [apply answers_writeError; [done|set_solver]..|].
    apply answers_writeJSON; [done|set_solver| |]; cbn -[Strconv.Itoa lexes]; rewrite ?lexes_Itoa; cbn; lia || done.
  - eapply answers_finish; [done..|]. rendered.
Qed.
End handlers.
Arguments NoConnection {A} err.
Arguments Failed {A} err.
Arguments Answer {A} resp.
End Gateway.
