(* ===== verification/System.v ===== *)
(** * The gateway and the services behind it

    [World] puts the models of the lock, the crypto and the tokenize service together as the
    backends of the gateway ([Gateway.Backends]): the crypto and the tokenize service reach
    the lock service as they do in their own models, a panic of the lock service ends its
    process, and every call takes fresh randomness and clock readings. The theorems here are
    about HTTP requests and what they do to the vault. *)

From S2P Require Import Prelude GoStd Json Http GatewayAuth Config Proxy CircuitBreaker.
From S2P Require Import Aead Aes Keyring Lock LockHandler KeyService Lru CryptoSvc CryptoHandler.
From S2P Require Import Fpe Tokenize TokenizeHandler Gateway.
Local Open Scope Z_scope.

Module System.
Import Gateway Json KeyService.

Section system.
Context {A : AEAD} {F : FF1} {LC : LRU string CryptoSvc.KeyInfo} {LT : LRU string Tokenize.KeyInfo}.

(** [vault] is [None] once the process of the lock service has ended. *)
Record World := {
  vault : option Lock.LockService;
  crypto : CryptoSvc.CryptoService;
  tokenize : Tokenize.TokenizeService;
  rand : nat → nat → entropy;
  clock : nat → nat → time;
  calls : nat
}.

Definition set_vault (v : option Lock.LockService) (w : World) : World :=
  {| vault := v; crypto := crypto w; tokenize := tokenize w; rand := rand w; clock := clock w;
     calls := S (calls w) |}.
Definition set_crypto (c : CryptoSvc.CryptoService) (w : World) : World :=
  {| vault := vault w; crypto := c; tokenize := tokenize w; rand := rand w; clock := clock w;
     calls := S (calls w) |}.
Definition set_tokenize (t : Tokenize.TokenizeService) (w : World) : World :=
  {| vault := vault w; crypto := crypto w; tokenize := t; rand := rand w; clock := clock w;
     calls := S (calls w) |}.

(** What a client of a process that is not there gets. *)
Definition errDown : error := statusError Unavailable "connection refused".

(** A call to the lock service. *)
Definition lock_call {R} (w : World) (f : Lock.LockService → outcome (Lock.LockService * result R))
    : World * result R :=
  match vault w with
  | None => (w, Err errDown)
  | Some v =>
      match f v with
      | Ret (v', res) => (set_vault (Some v') w, res)
      | Panic _ => (set_vault None w, Err errDown)
      end
  end.

Definition rand_of (w : World) (i : nat) : entropy := rand w (calls w) i.

#[global] Instance WorldBackends : Backends World := {|
  rpc_Encrypt := λ w req,
    let (c, res) := CryptoHandler.Encrypt (crypto w) (vault w) req (rand_of w 0) in (set_crypto c w, res);
  rpc_Decrypt := λ w req,
    let (c, res) := CryptoHandler.Decrypt (crypto w) (vault w) req in (set_crypto c w, res);
  rpc_FPEEncrypt := λ w req,
    let (t, res) := TokenizeHandler.FPEEncrypt (tokenize w) (vault w) req in (set_tokenize t w, res);
  rpc_FPEDecrypt := λ w req,
    let (t, res) := TokenizeHandler.FPEDecrypt (tokenize w) (vault w) req in (set_tokenize t w, res);
  rpc_GetSealStatus := λ w, lock_call w (λ v, Ret (v, Ok (LockHandler.GetSealStatus v)));
  rpc_Initialize := λ w req,
    lock_call w (λ v, LockHandler.Initialize v req (rand_of w 0) (rand_of w 1) (rand_of w 2));
  rpc_Unseal := λ w req, lock_call w (λ v, LockHandler.Unseal v req);
  rpc_Seal := λ w, lock_call w (λ v, Ret (LockHandler.Seal v));
  rpc_CreateKey := λ w req,
    lock_call w (λ v, Ret (LockHandler.CreateKey v req (rand_of w 0) (clock w (calls w))));
  rpc_ListKeys := λ w, lock_call w (λ v, Ret (v, LockHandler.ListKeys v))
|}.

Context (config : Config.ServicesConfig).

(** A message that gets through: dials succeed, the breaker lets it out, it is delivered. *)
Definition goes_through (g : Gateway (St := World)) (target : string) (env : Env) : Prop :=
  ev_net env = Delivered ∧ (∀ j, ev_dial env j = true) ∧ admits (cbManager g) target (ev_before env) = true.

Lemma call_through {R} g service addr env (rpc : World → World * result R) :
  inv config g → address_of config service = Some addr → goes_through g addr env →
  ∃ g', call config g service env rpc =
      (g', Ret match (rpc (services g)).2 with
               | Ok resp => Answer resp
               | Err err => Failed (if errors_Is err CircuitBreaker.ErrCircuitOpen
                                    then statusError Unavailable "service temporarily unavailable" else err)
               end) ∧ inv config g' ∧ services g' = (rpc (services g)).1 ∧
    cbManager g' = (CircuitBreaker.UnaryClientInterceptor (cbManager g) addr (ev_before env)
                      (Ret (err_of (rpc (services g)).2)) (ev_after env)).1.
Proof.
  intros Hi Ha (Hnet & Hdial & Had).
  destruct (call_cases config g service addr env rpc Hi Ha)
    as (g' & out & -> & Hi' & [(j & err & _ & Hj & _)|[(Hno & _)|(_ & H)]]); [congruence..|].
  rewrite Hnet in H. destruct H as (Hs & Hm & H). exists g'. split_and!; [|done..].
  destruct (rpc (services g)) as [st [resp|err]]; cbn in *; by rewrite H.
Qed.

(** An answer comes from a call that was delivered and succeeded. *)
Lemma call_answered {R} g service addr env (rpc : World → World * result R) g' resp :
  inv config g → address_of config service = Some addr →
  call config g service env rpc = (g', Ret (Answer resp)) →
  inv config g' ∧ rpc (services g) = (services g', Ok resp).
Proof.
  intros Hi Ha E. destruct (call_cases config g service addr env rpc Hi Ha)
    as (g1 & out & E1 & Hi' & H). rewrite E in E1. injection E1 as <- <-. split; [done|].
  destruct H as [(j & err & _ & _ & H & _)|[(_ & _ & H)|(_ & H)]]; [done..|].
  destruct (ev_net env); [|by destruct H as [_ [? ?]]..].
  destruct H as (Hs & _ & H). destruct (rpc (services g)) as [st [r|err]]; cbn in *; [|done]. congruence.
Qed.

(** *** JSON bodies *)

(** The bodies a client sends. *)
Definition encrypt_body (keyName plaintext context : string) : string :=
  encode (JObj [("key_name", JStr keyName); ("plaintext", JStr plaintext); ("context", JStr context)]).
Definition decrypt_body (keyName ciphertext context : string) : string :=
  encode (JObj [("key_name", JStr keyName); ("ciphertext", JStr ciphertext); ("context", JStr context)]).

Lemma decode_body v : numbers_ok v = true → (depth v ≤ 4)%nat → decode (encode v) = Some (clean v).
Proof.
  intros Hn Hd. rewrite <- (sapp_nil_r (encode v)). apply decode_of_encode; [done| |done].
  etrans; [exact Hd|]. apply Nat.leb_le. vm_compute. reflexivity.
Qed.

Lemma to_valid_ok s : Utf8.ValidString s = true → Unicode.to_valid s = s.
Proof. intros H. by apply Unicode.to_valid_id, Unicode.ValidString_Valid. Qed.

Lemma read_encrypt r k p c :
  Http.Body r = Ok (encrypt_body k p c) → Utf8.ValidString k = true → Utf8.ValidString p = true →
  Utf8.ValidString c = true →
  readJSON EncryptRequest_fields no_EncryptRequest r =
    Some {| e_KeyName := k; e_Plaintext := p; e_Context := c |}.
Proof.
  intros Hb Hk Hp Hc. unfold readJSON, Unmarshal. rewrite Hb. unfold encrypt_body.
  rewrite decode_body by (done || (cbn; lia)). cbn -[Unicode.to_valid].
  by rewrite !to_valid_ok.
Qed.

Lemma read_decrypt r k ct c :
  Http.Body r = Ok (decrypt_body k ct c) → Utf8.ValidString k = true → Utf8.ValidString ct = true →
  Utf8.ValidString c = true →
  readJSON DecryptRequest_fields no_DecryptRequest r =
    Some {| d_KeyName := k; d_Ciphertext := ct; d_Context := c |}.
Proof.
  intros Hb Hk Hp Hc. unfold readJSON, Unmarshal. rewrite Hb. unfold decrypt_body.
  rewrite decode_body by (done || (cbn; lia)). cbn -[Unicode.to_valid].
  by rewrite !to_valid_ok.
Qed.

(** *** Ciphertexts are ASCII *)

Lemma ciphertext_valid c pt aad r ct : Aes.Encrypt c pt aad r = Ok ct → Utf8.ValidString ct = true.
Proof.
  unfold Aes.Encrypt. destruct (rand_Read _ r) as [n|]; [|done]. unfold Aes.EncryptWithNonce.
  destruct (negb _); [done|]. intros [= <-]. apply ascii_valid. unfold Aes.format_ciphertext.
  rewrite ascii_app, ascii_cons, ascii_app, !ascii_cons, ascii_Itoa, ascii_base64. done.
Qed.

Lemma encrypt_answer_valid s rpc req r s' resp :
  CryptoHandler.Encrypt s rpc req r = (s', Ok resp) → Utf8.ValidString (CryptoHandler.ep_Ciphertext resp) = true.
Proof.
  unfold CryptoHandler.Encrypt. case_bool_decide; [done|]. destruct (_ =? _)%nat; [done|].
  unfold CryptoSvc.Encrypt. destruct (CryptoSvc.getKey _ _ _ _) as [s1 [info|e]]; cbn; [|by case_bool_decide].
  destruct (CryptoSvc.encrypt_with _ _ _ _) as [ct|e] eqn:E; cbn; [|by case_bool_decide].
  intros [= _ <-]. cbn. unfold CryptoSvc.encrypt_with in E.
  destruct (CryptoSvc.newCipher info) as [ci|]; [|done]. cbn in E. by eapply ciphertext_valid.
Qed.

Context {AL : AEADLaws A} {LL : LRULaws string CryptoSvc.KeyInfo}.

(** C2. The round trip over HTTP: a client posts a key name, a plaintext and a context, all
    of valid UTF-8, to the encrypt endpoint of a gateway whose crypto service just started
    and gets status 200. The body of the answer decodes to a ciphertext and a key version;
    posting that ciphertext with the same key name and context to the decrypt endpoint,
    with the crypto service as the first request left it and a vault that evolved in
    between but still serves the version, is answered 200 with a body that decodes to
    exactly the plaintext and the version, whenever the message gets through. JSON, the
    connection pool, the circuit breaker, both handlers and the vault are in between. *)
Theorem http_roundtrip g env k p c r g1 w1 v address conn :
  inv config g → vault (services g) = Some v → ks_ok v →
  CryptoSvc.NewCryptoService address conn = Ok (crypto (services g)) →
  forallb Utf8.ValidString [k; p; c] = true → Http.Body r = Ok (encrypt_body k p c) →
  Encrypt config env g Http.new_writer r = (g1, Ret w1) → Http.status_of w1 = Http.StatusOK →
  ∃ ct n, decode (Http.written w1) = Some (JObj [("ciphertext", JStr ct); ("key_version", jint n)]) ∧
    0 < n < 2 ^ 31 ∧
    ∀ g2 env2 r2 v2,
      inv config g2 → crypto (services g2) = crypto (services g1) → vault (services g2) = Some v2 →
      rtc ks_step v v2 → is_Ok (ks_get v2 k n) = true → goes_through g2 (Config.CryptoAddress config) env2 →
      Http.Body r2 = Ok (decrypt_body k ct c) →
      ∃ g3 w3, Decrypt config env2 g2 Http.new_writer r2 = (g3, Ret w3) ∧
        Http.status_of w3 = Http.StatusOK ∧
        decode (Http.written w3) = Some (JObj [("plaintext", JStr p); ("key_version", jint n)]).
Proof.
  intros Hi Hv Hok Hnew Hval Hb E Hst.
  cbn in Hval. rewrite !andb_true_iff in Hval. destruct Hval as (Hk & Hp & Hc & _).
  unfold Encrypt in E. rewrite (read_encrypt r k p c) in E by done.
  match type of E with context [call config g "crypto" env ?rpc] => set (f := rpc) in E end.
  destruct (call config g "crypto" env f) as [g' out] eqn:Ecall. unfold finish in E.
  destruct out as [[err|err|resp]|]; cbn [obind] in E; [injection E as <- <-..|done];
    [by vm_compute in Hst..|].
  destruct (call_answered g "crypto" _ env f g' resp Hi eq_refl Ecall) as [Hi1 Erpc].
  unfold f in Erpc. cbn in Erpc. rewrite Hv in Erpc.
  destruct (CryptoHandler.Encrypt _ _ _ _) as [c1 res] eqn:Eenc. injection Erpc as Ew ->.
  assert (crypto (services g') = c1) as Hc1 by by rewrite <- Ew.
  pose proof (encrypt_answer_valid _ _ _ _ _ _ Eenc) as Hct.
  exists (CryptoHandler.ep_Ciphertext resp), (CryptoHandler.ep_KeyVersion resp). split.
  { change (Http.written ?x) with (Http.response x).2. rewrite writeJSON_response by done. cbn [snd].
    rewrite body_decodes; [| |cbn; lia].
    - cbn -[Unicode.to_valid]. by rewrite !to_valid_ok.
    - cbn -[Strconv.Itoa lexes]. by rewrite lexes_Itoa. }
  split; [exact (CryptoHandler.answered_version _ _ _ _ _ _ _ _ Hok Hnew Eenc)|].
  intros g2 env2 r2 v2 Hi2 Hsame Hv2 Hrtc Hserve Hgo Hb2. unfold Decrypt.
  rewrite (read_decrypt r2 k (CryptoHandler.ep_Ciphertext resp) c) by done.
  match goal with |- context [call config g2 "crypto" env2 ?rpc] => set (f2 := rpc) end.
  destruct (call_through g2 "crypto" _ env2 f2 Hi2 eq_refl Hgo) as (g3 & -> & _).
  assert ((f2 (services g2)).2 = Ok {| CryptoHandler.dp_Plaintext := to_bytes p;
            CryptoHandler.dp_KeyVersion := CryptoHandler.ep_KeyVersion resp |}) as ->.
  { unfold f2. cbn. rewrite Hsame, Hv2, Hc1.
    pose proof (CryptoHandler.handler_roundtrip v address conn (crypto (services g)) v2
                  {| CryptoHandler.eq_KeyName := k; CryptoHandler.eq_Plaintext := to_bytes p;
                     CryptoHandler.eq_Context := to_bytes c |} _ _ _
                  Hok Hnew Eenc Hrtc Hserve) as R. cbn in R.
    destruct (CryptoHandler.Decrypt c1 (Some v2) _) as [c2 res2]. cbn in R |- *. done. }
  unfold finish. cbn [obind]. eexists _, _. split; [reflexivity|]. split; [reflexivity|].
  change (Http.written ?x) with (Http.response x).2. rewrite writeJSON_response by done. cbn [snd].
  rewrite body_decodes; [| |cbn; lia].
  - cbn -[Unicode.to_valid of_bytes]. by rewrite of_to_bytes, !to_valid_ok.
  - cbn -[Strconv.Itoa lexes]. by rewrite lexes_Itoa.
Qed.

(** ** The circuit breaker and requests that are wrong *)

(** A body without the fields is read as the empty request. *)
Definition empty_body : string := "{}".

(** Requests of this kind to the decrypt endpoint, one after the other. *)
Definition post_all (r : Request) (envs : list Env) (g : Gateway (St := World)) : Gateway (St := World) :=
  fold_left (λ g env, (Decrypt config env g Http.new_writer r).1) envs g.

Definition breaker_of (g : Gateway (St := World)) (target : string) : CircuitBreaker.CircuitBreaker :=
  (CircuitBreaker.GetBreaker (cbManager g) target).2.

(** The breaker of a target after an intercepted call. *)
Lemma breaker_next m target clk e clk' :
  (CircuitBreaker.GetBreaker (CircuitBreaker.UnaryClientInterceptor m target clk (Ret e) clk').1 target).2 =
  (CircuitBreaker.Execute (CircuitBreaker.GetBreaker m target).2 clk (Ret e) clk').1.
Proof.
  unfold CircuitBreaker.UnaryClientInterceptor. destruct (CircuitBreaker.GetBreaker m target) as [m' cb].
  cbn [snd]. destruct (CircuitBreaker.Execute cb clk (Ret e) clk') as [cb' res]. cbn [fst].
  unfold CircuitBreaker.GetBreaker. cbn. by rewrite lookup_insert_eq.
Qed.

Definition missing_key_name : error := statusError InvalidArgument "key_name is required".

(** One such request reaches the service, which refuses it, and counts as a failure of the
    service. *)
Lemma malformed_step g env r :
  inv config g → Http.Body r = Ok empty_body → goes_through g (Config.CryptoAddress config) env →
  let g1 := (Decrypt config env g Http.new_writer r).1 in
  inv config g1 ∧ crypto (services g1) = crypto (services g) ∧ vault (services g1) = vault (services g) ∧
  breaker_of g1 (Config.CryptoAddress config) =
    (CircuitBreaker.Execute (breaker_of g (Config.CryptoAddress config)) (ev_before env)
       (Ret (Some missing_key_name)) (ev_after env)).1.
Proof.
  intros Hi Hb Hgo. unfold Decrypt.
  assert (readJSON DecryptRequest_fields no_DecryptRequest r = Some no_DecryptRequest) as ->.
  { unfold readJSON. rewrite Hb. vm_compute. reflexivity. }
  match goal with |- context [call config g "crypto" env ?rpc] => set (f := rpc) end.
  destruct (call_through g "crypto" _ env f Hi eq_refl Hgo) as (g1 & -> & Hi1 & Hs & Hm).
  cbn [finish fst]. split; [done|]. rewrite Hs. split; [done|]. split; [done|].
  unfold breaker_of. rewrite Hm. apply breaker_next.
Qed.

(** The clocks of one moment. *)
Definition at_moment (t : time) : Env :=
  {| ev_dial := λ _, true; ev_net := Delivered; ev_before := λ _, t; ev_after := λ _, t |}.

(** A breaker after calls that all failed. *)
Definition fail_all (envs : list Env) (cb : CircuitBreaker.CircuitBreaker) : CircuitBreaker.CircuitBreaker :=
  fold_left (λ cb env, (CircuitBreaker.Execute cb (ev_before env) (Ret (Some missing_key_name)) (ev_after env)).1)
    envs cb.

(** Five failures trip a new breaker with the default limit and ratio, not fewer. *)
Lemma four_failures interval timeout envs clk :
  (length envs < 5)%nat →
  (CircuitBreaker.beforeRequest (fail_all envs (CircuitBreaker.NewCircuitBreaker 5 interval timeout Config.half)) clk).2 = None.
Proof. intros H. do 5 (destruct envs as [|? envs]; [by vm_compute|]). cbn in H. lia. Qed.

Lemma five_failures interval timeout e1 e2 e3 e4 e5 :
  let cb := fail_all [e1; e2; e3; e4; e5] (CircuitBreaker.NewCircuitBreaker 5 interval timeout Config.half) in
  CircuitBreaker.state cb = CircuitBreaker.StateOpen ∧ CircuitBreaker.expiry cb = ev_after e5 1%nat + timeout.
Proof. split; vm_compute; reflexivity. Qed.

(** A message that is sent and answered once a connection is there. *)
Definition arrives (env : Env) : Prop := ev_net env = Delivered ∧ ∀ j, ev_dial env j = true.

Lemma post_all_breaker interval timeout r envs : ∀ done g,
  (length done + length envs ≤ 5)%nat → inv config g → Http.Body r = Ok empty_body → Forall arrives envs →
  breaker_of g (Config.CryptoAddress config) =
    fail_all done (CircuitBreaker.NewCircuitBreaker 5 interval timeout Config.half) →
  let g' := post_all r envs g in
  inv config g' ∧ crypto (services g') = crypto (services g) ∧ vault (services g') = vault (services g) ∧
  breaker_of g' (Config.CryptoAddress config) =
    fail_all (done ++ envs) (CircuitBreaker.NewCircuitBreaker 5 interval timeout Config.half).
Proof.
  induction envs as [|e envs IH]; intros done g Hn Hi Hb Ha Hc; [by rewrite app_nil_r|].
  apply Forall_cons in Ha as [[Hnet Hdial] Ha]. cbn in Hn.
  destruct (malformed_step g e r) as (Hi1 & Hs & Hv & Hc1); [done..| |].
  { split_and!; [done..|]. unfold admits. fold (breaker_of g (Config.CryptoAddress config)).
    by rewrite Hc, four_failures by lia. }
  destruct (IH (done ++ [e]) (Decrypt config e g Http.new_writer r).1) as (H1 & H2 & H3 & H4); [|done..| |].
  - rewrite length_app. cbn. lia.
  - rewrite Hc1, Hc. unfold fail_all. by rewrite fold_left_app.
  - cbn. rewrite <- app_assoc in H4. split_and!; [done|by rewrite <- Hs|by rewrite <- Hv|done].
Qed.

(** C26. Anyone can take the crypto service away from everyone: with the default breaker
    settings, the first five calls to the crypto service being requests to the decrypt
    endpoint that lack their fields, at any moments, which arrive and are answered
    [InvalidArgument], its circuit breaker opens with the fifth; until its timeout has
    passed since then, a well-formed encryption request of any client, whose connections
    can be dialled, is answered 500 without reaching the service, whose state is what it
    was. *)
Theorem malformed_requests_deny_service g r interval timeout e1 e2 e3 e4 e5 :
  inv config g → Http.Body r = Ok empty_body → Forall arrives [e1; e2; e3; e4; e5] →
  breaker_of g (Config.CryptoAddress config) = CircuitBreaker.NewCircuitBreaker 5 interval timeout Config.half →
  let g5 := post_all r [e1; e2; e3; e4; e5] g in
  crypto (services g5) = crypto (services g) ∧ vault (services g5) = vault (services g) ∧
  ∀ env r' req,
    readJSON EncryptRequest_fields no_EncryptRequest r' = Some req →
    (∀ j, ev_dial env j = true) → ev_before env 0%nat ≤ ev_after e5 1%nat + timeout →
    ∃ g6 w, Encrypt config env g5 Http.new_writer r' = (g6, Ret w) ∧
      Http.status_of w = Http.StatusInternalServerError ∧ services g6 = services g5.
Proof.
  intros Hi Hb Hall Hcb g5.
  destruct (post_all_breaker interval timeout r [e1; e2; e3; e4; e5] [] g) as (Hi5 & Hc & Hv & Hb5); [done..|].
  fold g5 in Hi5, Hc, Hv, Hb5. split; [done|]. split; [done|]. intros env r' req Hr Hdial Ht.
  pose proof (five_failures interval timeout e1 e2 e3 e4 e5) as [Hopen Hexp].
  change ([] ++ [e1; e2; e3; e4; e5]) with [e1; e2; e3; e4; e5] in Hb5. rewrite <- Hb5 in Hopen, Hexp.
  assert (admits (cbManager g5) (Config.CryptoAddress config) (ev_before env) = false) as Ha.
  { unfold admits. fold (breaker_of g5 (Config.CryptoAddress config)).
    unfold CircuitBreaker.beforeRequest. rewrite Hopen, Hexp.
    by rewrite (proj2 (Z.ltb_ge _ _) Ht). }
  unfold Encrypt. rewrite Hr.
  match goal with |- context [call config _ "crypto" env ?rpc] =>
    destruct (call_cases config _ "crypto" _ env rpc Hi5 eq_refl) as (g6 & out & -> & _ & H) end.
  destruct H as [(j & err & _ & Hj & _)|[(_ & Hs & ->)|(Had & _)]]; [congruence| |congruence].
  eexists g6, _. split; [reflexivity|]. by split.
Qed.

(** ** Initialization from outside *)

(** The body of an initialization with the given number of shares. *)
Definition init_body (shares : Z) : string := encode (JObj [("secret_shares", jint shares)]).

Lemma read_init r n :
  Http.Body r = Ok (init_body n) → in_int64 n →
  readJSON InitializeRequest_fields no_InitializeRequest r =
    Some {| i_SecretShares := n; i_SecretThreshold := 0 |}.
Proof.
  intros Hb Hn. unfold readJSON, Unmarshal. rewrite Hb. unfold init_body.
  rewrite decode_body; [| |cbn; lia].
  - unfold jint. pose proof (Strconv.Atoi_Itoa n Hn) as E. revert E. generalize (Strconv.Itoa n) as lit.
    intros lit E. transitivity ((Strconv.Atoi lit ≫= λ m, Some {| i_SecretShares := m; i_SecretThreshold := 0 |}) ≫= Some);
      [reflexivity|by rewrite E].
  - cbn -[Strconv.Itoa lexes]. by rewrite lexes_Itoa.
Qed.

(** *** A lock service that is not there *)

Lemma status_writeError status msg w : unsent w → Http.status_of (writeError status msg w) = status.
Proof. intros Hw. exact (f_equal fst (writeError_response status msg w Hw)). Qed.

(** Requests to any endpoints, one after the other. *)
Definition serve_all (qs : list (Env * endpoint * Request)) (g : Gateway (St := World)) : Gateway (St := World) :=
  fold_left (λ g q, (serve config q.1.1 q.1.2 g Http.new_writer q.2).1) qs g.

(** No call brings the process back. *)
Definition stays_down {R} (rpc : World → World * result R) : Prop :=
  ∀ w, vault w = None → vault (rpc w).1 = None.

Lemma lock_call_down {R} (w : World) (f : Lock.LockService → outcome (Lock.LockService * result R)) :
  vault w = None → lock_call w f = (w, Err errDown).
Proof. intros H. unfold lock_call. by rewrite H. Qed.

Lemma call_down {R} g service addr env (rpc : World → World * result R) :
  inv config g → address_of config service = Some addr → stays_down rpc → vault (services g) = None →
  ∃ g' out, call config g service env rpc = (g', Ret out) ∧ inv config g' ∧ vault (services g') = None ∧
    ((∃ err, (rpc (services g)).2 = Err err) → ∀ resp, out ≠ Answer resp).
Proof.
  intros Hi Ha Hrpc Hv. destruct (call_cases config g service addr env rpc Hi Ha) as (g' & out & -> & Hi' & H).
  exists g', out. split; [done|]. split; [done|].
  destruct H as [(j & err & _ & _ & -> & -> & _)|[(_ & -> & ->)|(_ & H)]]; [done..|].
  destruct (ev_net env); destruct H as [-> H].
  - split; [by apply Hrpc|]. destruct H as [_ H]. intros [e He]. rewrite He in H. by rewrite H.
  - split; [done|]. by destruct H as [e ->].
  - split; [by apply Hrpc|]. by destruct H as [e ->].
Qed.

Lemma finish_down {R} g w service addr failed (render : R → json) env (rpc : World → World * result R) :
  inv config g → address_of config service = Some addr → stays_down rpc → vault (services g) = None →
  let res := finish w service failed render (call config g service env rpc) in
  inv config res.1 ∧ vault (services res.1) = None ∧
  ((∃ err, (rpc (services g)).2 = Err err) → unsent w →
   ∃ w', res.2 = Ret w' ∧ Http.status_of w' ∈ [Http.StatusInternalServerError; Http.StatusServiceUnavailable]).
Proof.
  intros Hi Ha Hrpc Hv. destruct (call_down g service addr env rpc Hi Ha Hrpc Hv) as (g' & out & -> & Hi' & Hv' & Hno).
  unfold finish. cbn [fst snd obind]. split; [done|]. split; [done|]. intros He Hw. specialize (Hno He).
  destruct out as [err|err|resp]; [| |by destruct (Hno resp)]; eexists; (split; [reflexivity|]);
    rewrite status_writeError by done; set_solver.
Qed.

(** What the endpoints do while the lock service is down. *)
Definition refusals : list Z :=
  [Http.StatusBadRequest; Http.StatusInternalServerError; Http.StatusServiceUnavailable].

Definition keeps_down (locks : bool) (res : Gateway (St := World) * outcome Http.ResponseWriter) : Prop :=
  inv config res.1 ∧ vault (services res.1) = None ∧
  (locks = true → ∃ w, res.2 = Ret w ∧ Http.status_of w ∈ refusals).

Lemma keeps_bad_request locks g msg :
  inv config g → vault (services g) = None → keeps_down locks (bad_request g Http.new_writer msg).
Proof.
  intros Hi Hv. split; [done|]. split; [done|]. intros _. eexists. split; [reflexivity|].
  rewrite status_writeError by done. left.
Qed.

Lemma keeps_unchanged (g : Gateway (St := World)) out :
  inv config g → vault (services g) = None → keeps_down false (g, out).
Proof. by split. Qed.

Lemma keeps_finish {R} g service addr failed (render : R → json) env (rpc : World → World * result R) :
  inv config g → address_of config service = Some addr → stays_down rpc → vault (services g) = None →
  keeps_down false (finish Http.new_writer service failed render (call config g service env rpc)).
Proof.
  intros Hi Ha Hrpc Hv. destruct (finish_down g Http.new_writer service addr failed render env rpc Hi Ha Hrpc Hv)
    as (H1 & H2 & _). by split.
Qed.

Lemma keeps_lock {R} g failed (render : R → json) env
    (f : World → Lock.LockService → outcome (Lock.LockService * result R)) :
  inv config g → vault (services g) = None →
  keeps_down true (finish Http.new_writer "lock" failed render (call config g "lock" env (λ w, lock_call w (f w)))).
Proof.
  intros Hi Hv.
  destruct (finish_down g Http.new_writer "lock" _ failed render env (λ w, lock_call w (f w)) Hi eq_refl)
    as (H1 & H2 & H3); [|done|].
  - intros w H. by rewrite lock_call_down.
  - split; [done|]. split; [done|]. intros _.
    destruct H3 as (w & E & Hs); [rewrite lock_call_down by done; by eexists|done|].
    exists w. split; [done|]. by right.
Qed.

Lemma keeps_create g env r :
  inv config g → vault (services g) = None → keeps_down true (CreateKey config env g Http.new_writer r).
Proof.
  intros Hi Hv. unfold CreateKey. destruct (readJSON _ _ r) as [req|]; [|by apply keeps_bad_request].
  case_bool_decide; [by apply keeps_bad_request|].
  match goal with |- context [call config g "lock" env ?rpc] =>
    destruct (call_down g "lock" _ env rpc Hi eq_refl) as (g' & out & -> & Hi' & Hv' & Hno) end.
  - intros w Hw. cbn. by rewrite lock_call_down.
  - done.
  - split; [done|]. split; [done|]. intros _. cbn in Hno. rewrite lock_call_down in Hno by done.
    specialize (Hno (ex_intro _ _ eq_refl)).
    destruct out as [e|e|resp]; [| |by destruct (Hno resp)]; eexists; (split; [reflexivity|]);
      rewrite status_writeError by done; set_solver.
Qed.

Definition is_lock (e : endpoint) : bool :=
  match e with
  | EGetSealStatus | EInitialize | EUnseal | ESeal | ECreateKey | EListKeys => true
  | _ => false
  end.

Lemma serve_down env e g r :
  inv config g → vault (services g) = None →
  keeps_down (is_lock e) (serve config env e g Http.new_writer r).
Proof.
  intros Hi Hv.
  destruct e; cbn [serve is_lock]; try (by apply keeps_create);
    unfold Login, Lookup, Encrypt, Decrypt, Tokenize, Detokenize, GetSecret,
    PutSecret, GetSealStatus, Initialize, Unseal, Seal, ListKeys;
    try (destruct (readJSON _ _ r) as [req|]; [|by apply keeps_bad_request]);
    try (by apply keeps_unchanged).
  - by destruct (GatewayAuth.GetIdentity r); apply keeps_unchanged.
  - eapply keeps_finish; [done|reflexivity| |done]. intros w H. cbn. by destruct (CryptoHandler.Encrypt _ _ _ _).
  - eapply keeps_finish; [done|reflexivity| |done]. intros w H. cbn. by destruct (CryptoHandler.Decrypt _ _ _).
  - eapply keeps_finish; [done|reflexivity| |done]. intros w H. cbn. by destruct (TokenizeHandler.FPEEncrypt _ _ _).
  - eapply keeps_finish; [done|reflexivity| |done]. intros w H. cbn. by destruct (TokenizeHandler.FPEDecrypt _ _ _).
  - case_bool_decide; [by apply keeps_bad_request|by apply keeps_unchanged].
  - by apply (keeps_lock _ _ _ _ (λ _ v, Ret (v, Ok (LockHandler.GetSealStatus v)))).
  - by apply (keeps_lock _ _ _ _ (λ w v, LockHandler.Initialize v _ (rand_of w 0) (rand_of w 1) (rand_of w 2))).
  - by apply (keeps_lock _ _ _ _ (λ _ v, LockHandler.Unseal v _)).
  - by apply (keeps_lock _ _ _ _ (λ _ v, Ret (LockHandler.Seal v))).
  - by apply (keeps_lock _ _ _ _ (λ _ v, Ret (v, LockHandler.ListKeys v))).
Qed.

(** C39. One request stops the vault: as long as it is not initialized, an initialization
    that gets through with a number of shares whose [int32] is negative makes the lock
    service, whose random source works, panic in [make], which ends its process, and the
    client gets 500. Unless somebody starts the process again, whatever
    requests to the gateway follow, every later request to an endpoint of the lock service
    (seal status, initialization, unsealing, sealing, creation and listing of keys) is
    answered 400, 500 or 503. *)
Theorem negative_shares_stop_vault g env r n v f :
  inv config g → vault (services g) = Some v → Lock.initialized v = false → rand_of (services g) 0 = Some f →
  Http.Body r = Ok (init_body n) → in_int64 n → int32 n < 0 → goes_through g (Config.LockAddress config) env →
  ∃ g' w, Initialize config env g Http.new_writer r = (g', Ret w) ∧
    Http.status_of w = Http.StatusInternalServerError ∧
    ∀ qs, let g2 := serve_all qs g' in
      vault (services g2) = None ∧
      ∀ env2 e r2, e ∈ [EGetSealStatus; EInitialize; EUnseal; ESeal; ECreateKey; EListKeys] →
        ∃ w2, (serve config env2 e g2 Http.new_writer r2).2 = Ret w2 ∧
          Http.status_of w2 ∈ [Http.StatusBadRequest; Http.StatusInternalServerError; Http.StatusServiceUnavailable].
Proof.
  intros Hi Hv Hini Hrand Hb Hn Hneg Hgo. unfold Initialize. rewrite (read_init r n) by done.
  assert (n ≠ 0) as Hn0 by (intros ->; by vm_compute in Hneg).
  cbn [i_SecretShares i_SecretThreshold]. rewrite (proj2 (Z.eqb_neq n 0) Hn0).
  match goal with |- context [call config g "lock" env ?rpc] => set (f1 := rpc) end.
  destruct (call_through g "lock" _ env f1 Hi eq_refl Hgo) as (g' & -> & Hi' & Hs & _).
  assert (f1 (services g) = (set_vault None (services g), Err errDown)) as Ef.
  { unfold f1. cbn -[wraps rand_Read]. unfold lock_call. rewrite Hv. unfold LockHandler.Initialize, Lock.Initialize.
    rewrite Hini, Hrand. cbn -[wraps]. unfold Lock.shamirSplit. rewrite (proj2 (Z.ltb_lt _ 0) Hneg). done. }
  rewrite Ef in *. cbn [fst snd] in *. eexists g', _. split; [reflexivity|]. split; [done|].
  assert (vault (services g') = None) as Hnone by by rewrite Hs.
  intros qs. cbn zeta. set (g2 := serve_all qs g'). assert (inv config g2 ∧ vault (services g2) = None) as [Hi2 Hv2].
  { unfold g2. clear g2 Hs. revert g' Hi' Hnone. induction qs as [|q qs IH]; intros g' Hi' Hnone; [done|].
    destruct (serve_down q.1.1 q.1.2 g' q.2 Hi' Hnone) as (H1 & H2 & _). by apply IH. }
  split; [done|]. intros env2 e r2 He. apply (serve_down env2 e g2 r2 Hi2 Hv2).
  repeat (apply elem_of_cons in He as [->|He]; [done|]). by apply elem_of_nil in He.
Qed.
End system.

(** ** Witnesses *)

#[local] Existing Instance ListLru.ListLru.
#[local] Existing Instance ListLru.ListLru_laws.
#[local] Existing Instance Fpe.ShiftFF1.

Definition demo_services : Config.ServicesConfig := Config.Services (Config.gateway_Load ∅).

Definition demo_world (v : Lock.LockService) : World :=
  {| vault := Some v; crypto := CryptoSvc.demo_crypto; tokenize := Tokenize.demo_tokenize;
     rand := λ _ _, CryptoSvc.demo_nonce; clock := λ _ _, 9; calls := 0 |}.

Definition demo_breakers : CircuitBreaker.CircuitBreakerManager :=
  CircuitBreaker.NewCircuitBreakerManager
    {| CircuitBreaker.cfgMaxRequests := 5; CircuitBreaker.cfgInterval := 10 * Second;
       CircuitBreaker.cfgTimeout := 60 * Second; CircuitBreaker.cfgFailureRatio := Config.half |}.

Definition demo_gateway (v : Lock.LockService) : Gateway (St := World) :=
  {| proxy := Proxy.NewGRPCProxy; cbManager := demo_breakers; services := demo_world v |}.

Definition demo_post (body : string) : Request :=
  {| Http.Method := "POST"; Http.Path := "/"; Http.RawQuery := ""; Http.Headers := []; Http.Body := Ok body;
     Http.RemoteAddr := "10.0.0.1:5000"; Http.Ctx := None |}.

Definition demo_encrypted := Encrypt demo_services (at_moment 1) (demo_gateway Lock.demo_vault) Http.new_writer
  (demo_post (encrypt_body "k" "hi" "")).
Definition written_by (out : outcome Http.ResponseWriter) : Http.ResponseWriter :=
  match out with Ret w => w | Panic _ => Http.new_writer end.

Definition demo_ciphertext : string :=
  match decode (Http.written (written_by demo_encrypted.2)) with
  | Some (JObj ((_, JStr ct) :: _)) => ct
  | _ => ""
  end.

Definition demo_decrypted := Decrypt demo_services (at_moment 2) demo_encrypted.1 Http.new_writer
  (demo_post (decrypt_body "k" demo_ciphertext "")).

(** The two requests of the round trip, run. *)
Example http_roundtrip_run :
  Http.response (written_by demo_decrypted.2) =
    (200, encode (JObj [("plaintext", JStr "hi"); ("key_version", JNum "1")]) +:+ Http.newline).
Proof. vm_compute. reflexivity. Qed.

Lemma answered {X Y} (x : X * Y) y : x.2 = y → x = (x.1, y).
Proof. intros <-. by destruct x. Qed.

Lemma http_roundtrip_witness :
  ∃ ct, decode (Http.written (written_by demo_encrypted.2)) =
      Some (JObj [("ciphertext", JStr ct); ("key_version", jint 1)]) ∧
    ∃ g3 w3, Decrypt demo_services (at_moment 2) demo_encrypted.1 Http.new_writer
               (demo_post (decrypt_body "k" ct "")) = (g3, Ret w3) ∧
      Http.status_of w3 = 200 ∧
      decode (Http.written w3) = Some (JObj [("plaintext", JStr "hi"); ("key_version", jint 1)]).
Proof.
  destruct (http_roundtrip demo_services (demo_gateway Lock.demo_vault) (at_moment 1) "k" "hi" ""
              (demo_post (encrypt_body "k" "hi" "")) demo_encrypted.1 (written_by demo_encrypted.2)
              Lock.demo_vault "lock:9094" (Ok tt)) as (ct & n & H & Hn & Hdec);
    [apply inv_start|reflexivity|apply CryptoSvc.demo_vault_ok|reflexivity|reflexivity
    |reflexivity|apply answered; vm_compute; reflexivity|vm_compute; reflexivity|].
  assert (n = 1) as ->.
  { apply Strconv.Itoa_inj; [lia|lia|].
    assert (JNum (Strconv.Itoa n) = JNum "1") as [= ->]; [|reflexivity].
    assert (match decode (Http.written (written_by demo_encrypted.2)) with
            | Some (JObj [_; (_, v)]) => v | _ => JNull end = JNum "1") as E by (vm_compute; reflexivity).
    rewrite H in E. exact E. }
  exists ct. split; [exact H|].
  apply (Hdec demo_encrypted.1 (at_moment 2) (demo_post (decrypt_body "k" ct "")) Lock.demo_vault).
  - pose proof (serve_answers demo_services (at_moment 1) EEncrypt (demo_gateway Lock.demo_vault) Http.new_writer
      (demo_post (encrypt_body "k" "hi" "")) (inv_start _ _ _) (conj eq_refl eq_refl)) as Hi.
    change (serve demo_services (at_moment 1) EEncrypt (demo_gateway Lock.demo_vault) Http.new_writer
      (demo_post (encrypt_body "k" "hi" ""))) with demo_encrypted in Hi.
    destruct demo_encrypted. exact (proj1 Hi).
  - reflexivity.
  - vm_compute. reflexivity.
  - apply rtc_refl.
  - vm_compute. reflexivity.
  - split_and!; [reflexivity..|vm_compute; reflexivity].
  - reflexivity.
Defined.

Lemma malformed_requests_deny_service_witness :
  let g5 := post_all demo_services (demo_post empty_body) (at_moment <$> [1; 2; 3; 4; 5])
              (demo_gateway Lock.demo_vault) in
  ∃ g6 w, Encrypt demo_services (at_moment 6) g5 Http.new_writer (demo_post (encrypt_body "k" "hi" "")) = (g6, Ret w) ∧
    Http.status_of w = 500.
Proof.
  destruct (malformed_requests_deny_service demo_services (demo_gateway Lock.demo_vault) (demo_post empty_body)
              (10 * Second) (60 * Second) (at_moment 1) (at_moment 2) (at_moment 3) (at_moment 4) (at_moment 5))
    as (_ & _ & H); [apply inv_start|reflexivity|repeat constructor|reflexivity|].
  destruct (H (at_moment 6) (demo_post (encrypt_body "k" "hi" ""))
              {| e_KeyName := "k"; e_Plaintext := "hi"; e_Context := "" |}) as (g6 & w & E & Hs & _);
    [vm_compute; reflexivity|done|vm_compute; discriminate|].
  exists g6, w. split; [exact E|exact Hs].
Defined.

Lemma negative_shares_stop_vault_witness :
  ∃ g' w, Initialize demo_services (at_moment 1) (demo_gateway (Lock.NewLockService 3 ∅)) Http.new_writer
            (demo_post (init_body (-1))) = (g', Ret w) ∧ Http.status_of w = 500 ∧
    vault (services g') = None ∧
    ∃ w2, (Initialize demo_services (at_moment 2) g' Http.new_writer (demo_post (init_body 5))).2 = Ret w2 ∧
      Http.status_of w2 ∈ [400; 500; 503].
Proof.
  destruct (negative_shares_stop_vault demo_services (demo_gateway (Lock.NewLockService 3 ∅)) (at_moment 1)
              (demo_post (init_body (-1))) (-1) (Lock.NewLockService 3 ∅) (λ _, one))
    as (g' & w & E & Hs & H);
    [apply inv_start|reflexivity|reflexivity|reflexivity|reflexivity|by split|reflexivity
    |split_and!; reflexivity|].
  exists g', w. split; [exact E|]. split; [exact Hs|]. destruct (H []) as [Hv Hall]. split; [exact Hv|].
  apply (Hall (at_moment 2) EInitialize (demo_post (init_body 5))). apply list_elem_of_further, list_elem_of_here.
Defined.
End System.
