(* ===== verification/Router.v ===== *)
(** * services/gateway: health handlers, router and middleware chain

    [handler/health_handler.go], [router/router.go] and the part of [cmd/server/main.go] that
    puts the gateway together. One definition per handler and per middleware; [Handler] is
    the chain the HTTP server runs for a request: CORS, recovery, rate limit, logging, the
    routes. What the environment contributes to one request is in [Moment]. *)

From S2P Require Import Prelude GoStd Json Http GoTime GatewayAuth RateLimit Config Proxy CircuitBreaker Gateway.
From S2P Require Import Aead Lock Lru Fpe System.
Local Open Scope Z_scope.

Module Router.
Import Json Gateway.

(** ** Health endpoints *)

Record HealthHandler := { hh_services : list (string * string); startTime : time }.

Definition NewHealthHandler (cfg : Config.ServicesConfig) (now : time) : HealthHandler :=
  {| hh_services := [("auth", Config.AuthAddress cfg); ("crypto", Config.CryptoAddress cfg);
                     ("tokenize", Config.TokenizeAddress cfg); ("lock", Config.LockAddress cfg);
                     ("audit", Config.AuditAddress cfg)];
     startTime := now |}.

(** The environment of one request: the handlers' [Env]; the two readings of the rate
    limiter's clock; for the health endpoints the readings for uptime and timestamp, the
    order in which the checks finish, the dials, the states of the connections and the
    latencies. *)
Record Moment := {
  mo_env : Env;
  mo_limit : time * time;
  mo_uptime : time;
  mo_timestamp : time;
  mo_order : list (string * string) → list (string * string);
  mo_dial : string → nat → bool;
  mo_state : Proxy.conn → Proxy.ConnState;
  mo_latency : string → Z
}.

(** [HealthResponse]; [services] is omitted when empty. *)
Definition HealthResponse (status uptime timestamp : string) (services : list json) : json :=
  JObj ([("status", JStr status); ("uptime", JStr uptime); ("timestamp", JStr timestamp)] ++
        match services with [] => [] | _ => [("services", JArr services)] end).

(** [ServiceStatus]; [latency] and [error] are omitted when empty. *)
Definition non_empty (k v : string) : list (string * json) :=
  if bool_decide (v = "") then [] else [(k, JStr v)].

Definition ServiceStatus (h : Proxy.ServiceHealth) : json :=
  JObj ([("name", JStr (Proxy.sh_Name h));
         ("status", JStr (if Proxy.sh_Healthy h then "healthy" else "unhealthy"))] ++
        non_empty "latency" (GoTime.Duration_String (Proxy.sh_Latency h)) ++
        non_empty "error" (Proxy.sh_Error h)).

Definition uptime (h : HealthHandler) (m : Moment) : string :=
  GoTime.Duration_String (mo_uptime m - startTime h).

Definition timestamp (m : Moment) : string := GoTime.RFC3339 (mo_timestamp m).

Section router.
Context {St : Type} {B : Backends St} {L : Limiters}.

Definition Liveness (h : HealthHandler) (m : Moment) : GatewayHandler (St := St) := λ g w r,
  (g, Ret (Encode (HealthResponse "ok" (uptime h m) (timestamp m) []) (json_type w))).

Definition Readiness (h : HealthHandler) (m : Moment) : GatewayHandler (St := St) := λ g w r,
  let (p, res) := Proxy.HealthCheck (proxy g) (mo_order m (hh_services h)) (mo_dial m) (mo_state m) (mo_latency m) in
  (set_proxy p g,
   let! healthResults := res in
   let allHealthy := forallb Proxy.sh_Healthy healthResults in
   let overallStatus := if allHealthy then "ok" else "degraded" in
   let httpStatus := if allHealthy then Http.StatusOK else Http.StatusServiceUnavailable in
   Ret (Encode (HealthResponse overallStatus (uptime h m) (timestamp m) (ServiceStatus <$> healthResults))
          (Http.WriteHeader httpStatus (json_type w)))).

Definition Status (h : HealthHandler) (m : Moment) : GatewayHandler (St := St) := λ g w r,
  (g, Ret (Encode (JObj [("service", JStr "gateway"); ("timestamp", JStr (timestamp m));
                         ("uptime", JStr (uptime h m)); ("version", JStr "1.0.0")]) (json_type w))).

(** ** Routes *)

Context (config : Config.ServicesConfig).

Definition methodHandler (method : string) (handler : GatewayHandler (St := St)) : GatewayHandler (St := St) := λ g w r,
  if bool_decide (Http.Method r ≠ method)
  then (g, Ret (Http.Error "Method Not Allowed" Http.StatusMethodNotAllowed w))
  else handler g w r.

Definition secretHandler : GatewayHandler (St := St) := λ g w r,
  if bool_decide (Http.Method r = "GET") then GetSecret g w r
  else if bool_decide (Http.Method r = "POST") then PutSecret g w r
  else (g, Ret (Http.Error "Method Not Allowed" Http.StatusMethodNotAllowed w)).

Definition keysHandler (env : Env) : GatewayHandler (St := St) := λ g w r,
  if bool_decide (Http.Method r = "GET") then ListKeys config env g w r
  else if bool_decide (Http.Method r = "POST") then CreateKey config env g w r
  else (g, Ret (Http.Error "Method Not Allowed" Http.StatusMethodNotAllowed w)).

Definition setupRoutes (h : HealthHandler) (m : Moment) : list (string * GatewayHandler (St := St)) :=
  let env := mo_env m in
  [("/health/live", Liveness h m);
   ("/health/ready", Readiness h m);
   ("/status", Status h m);
   ("/v1/auth/login", methodHandler "POST" Login);
   ("/v1/auth/token/lookup-self", methodHandler "GET" Lookup);
   ("/v1/crypto/encrypt", methodHandler "POST" (Encrypt config env));
   ("/v1/crypto/decrypt", methodHandler "POST" (Decrypt config env));
   ("/v1/tokenize/encode", methodHandler "POST" (Tokenize config env));
   ("/v1/tokenize/decode", methodHandler "POST" (Detokenize config env));
   ("/v1/secret/data", secretHandler);
   ("/v1/sys/seal-status", methodHandler "GET" (GetSealStatus config env));
   ("/v1/sys/init", methodHandler "POST" (Initialize config env));
   ("/v1/sys/unseal", methodHandler "POST" (Unseal config env));
   ("/v1/sys/seal", methodHandler "POST" (Seal config env));
   ("/v1/transit/keys", keysHandler env)].

(** [cleanPath] of net/http: no empty, [.] and [..] elements; a final slash stays. *)
Definition clean_elements (l : list string) : list string :=
  rev (foldl (λ acc s, if bool_decide (s = "") || bool_decide (s = ".") then acc
                       else if bool_decide (s = "..") then tail acc else s :: acc) [] l).

Definition cleanPath (p : string) : string :=
  let np := "/" +:+ Strings.Join "/"%char (clean_elements (Strings.Split "/"%char p)) in
  if Strings.HasSuffix p "/" && negb (bool_decide (np = "/")) then np +:+ "/" else np.

(** The answer to a path that is not clean; the page it carries for a browser is left out. *)
Definition redirect (r : Request) (w : Http.ResponseWriter) : Http.ResponseWriter :=
  let query := if bool_decide (Http.RawQuery r = "") then "" else "?" +:+ Http.RawQuery r in
  Http.WriteHeader 301 (Http.Header_Set "Location" (cleanPath (Http.Path r) +:+ query) w).

(** [ServeMux]: the patterns are whole paths. The request target [*] is answered 400 with no
    body; a path that is not clean is redirected, unless the method is CONNECT. *)
Definition mux (h : HealthHandler) (m : Moment) : GatewayHandler (St := St) := λ g w r,
  if bool_decide (Http.Path r = "*")
  then (g, Ret (Http.WriteHeader Http.StatusBadRequest (Http.Header_Set "Connection" "close" w)))
  else if bool_decide (Http.Method r ≠ "CONNECT") && bool_decide (cleanPath (Http.Path r) ≠ Http.Path r)
  then (g, Ret (redirect r w))
  else match List.find (λ route, bool_decide (route.1 = Http.Path r)) (setupRoutes h m) with
       | Some (_, handler) => handler g w r
       | None => (g, Ret (Http.Error "404 page not found" Http.StatusNotFound w))
       end.

(** ** Middleware *)

Definition loggingMiddleware (next : GatewayHandler (St := St)) : GatewayHandler (St := St) := next.

(** A panic of the handler is answered here; what it did to the state stays done. *)
Definition recoveryMiddleware {S} (next : S → Http.ResponseWriter → Request → S * outcome Http.ResponseWriter)
    (s : S) (w : Http.ResponseWriter) (r : Request) : S * Http.ResponseWriter :=
  let (s, out) := next s w r in
  (s, match out with
      | Ret w => w
      | Panic _ => Http.Error "Internal Server Error" Http.StatusInternalServerError w
      end).

Definition corsMiddleware {S} (next : S → Http.ResponseWriter → Request → S * Http.ResponseWriter)
    (s : S) (w : Http.ResponseWriter) (r : Request) : S * Http.ResponseWriter :=
  let w := Http.Header_Set "Access-Control-Allow-Origin" "*" w in
  let w := Http.Header_Set "Access-Control-Allow-Methods" "GET, POST, PUT, DELETE, OPTIONS" w in
  let w := Http.Header_Set "Access-Control-Allow-Headers" "Content-Type, Authorization, X-API-Key" w in
  if bool_decide (Http.Method r = "OPTIONS") then (s, Http.WriteHeader Http.StatusOK w)
  else next s w r.

(** The state of the server: the gateway and, when there is one, the rate limiter. *)
Record Server := { gateway : Gateway (St := St); limiter : option RateLimit.RateLimiter }.

(** The rate limiter in front of the routes; [HTTPMiddleware] of [RateLimit] with a handler
    that may panic. *)
Definition limitMiddleware (m : Moment) (next : GatewayHandler (St := St))
    (s : Server) (w : Http.ResponseWriter) (r : Request) : Server * outcome Http.ResponseWriter :=
  match limiter s with
  | None => let (g, out) := next (gateway s) w r in ({| gateway := g; limiter := None |}, out)
  | Some rl =>
      let '(rl, (g, out)) :=
        RateLimit.HTTPMiddleware (mo_limit m).1 (mo_limit m).2
          (λ g w r, next g w r) (λ w, Ret w) rl (gateway s) w r in
      ({| gateway := g; limiter := Some rl |}, out)
  end.

Definition Handler (h : HealthHandler) (m : Moment) (s : Server) (w : Http.ResponseWriter) (r : Request)
    : Server * Http.ResponseWriter :=
  corsMiddleware (recoveryMiddleware (limitMiddleware m (loggingMiddleware (mux h m)))) s w r.

(** ** Start

    What [main] builds before it serves; a limiter whose cleanup loop cannot start ends the
    process. *)
Definition start (cfg : Config.GatewayConfig) (st : St) : outcome Server :=
  let cb := Config.CircuitBreak cfg in
  let gw := {| proxy := Proxy.NewGRPCProxy;
               cbManager := CircuitBreaker.NewCircuitBreakerManager
                 {| CircuitBreaker.cfgMaxRequests := Config.MaxRequests cb;
                    CircuitBreaker.cfgInterval := Config.Interval cb;
                    CircuitBreaker.cfgTimeout := Config.Timeout cb;
                    CircuitBreaker.cfgFailureRatio := Config.FailureRatio cb |};
               services := st |} in
  let rlc := Config.RateLimit cfg in
  if Config.Enabled rlc then
    let (rl, goroutine) := RateLimit.NewRateLimiter (Config.RequestsPerSec rlc) (Config.BurstSize rlc)
                             (Config.CleanupInterval rlc) in
    let! _ := goroutine in Ret {| gateway := gw; limiter := Some rl |}
  else Ret {| gateway := gw; limiter := None |}.

(** A run of the server: requests one after another. *)
Definition request_step (h : HealthHandler) (s s' : Server) : Prop :=
  ∃ m r, (∀ l, mo_order m l ≡ₚ l) ∧ (Handler h m s Http.new_writer r).1 = s'.

(** ** Answers *)

(** An answer of the middleware or of the mux, which no handler was asked for. *)
Definition refused (r : Request) (w : Http.ResponseWriter) : Prop :=
  Http.response w ∈ [(400, ""); (301, ""); (404, "404 page not found" +:+ Http.newline);
                     (405, "Method Not Allowed" +:+ Http.newline);
                     (429, "Too Many Requests" +:+ Http.newline)] ∨
  (Http.Method r = "OPTIONS" ∧ Http.response w = (200, "")).

Lemma error_response msg code w :
  unsent w → Http.response (Http.Error msg code w) = (code, msg +:+ Http.newline).
Proof.
  intros [Hs Hw]. unfold Http.response, Http.Error, Http.Write, Http.WriteHeader. cbn. rewrite Hs. cbn.
  by rewrite Hw.
Qed.

(** What the handlers behind the routes keep to: the pools stay in order, and the answer is
    a JSON object, or a refusal that changes nothing. *)
Definition proper (handler : GatewayHandler (St := St)) : Prop :=
  ∀ g w r, inv config g → unsent w →
    let (g', out) := handler g w r in
    inv config g' ∧ (answers_object out ∨ ∃ w', out = Ret w' ∧ refused r w' ∧ g' = g).

Lemma proper_serve env e handler : (∀ g w r, handler g w r = serve config env e g w r) → proper handler.
Proof.
  intros E g w r Hi Hw. rewrite E. pose proof (serve_answers config env e g w r Hi Hw) as H.
  destruct (serve config env e g w r) as [g' out]. destruct H. by eauto.
Qed.

Lemma proper_405 : proper (λ g w r, (g, Ret (Http.Error "Method Not Allowed" Http.StatusMethodNotAllowed w))).
Proof.
  intros g w r Hi Hw. split; [done|]. right. eexists. split; [done|]. split; [|done].
  left. rewrite error_response by done. set_solver.
Qed.

Lemma proper_methodHandler method handler : proper handler → proper (methodHandler method handler).
Proof.
  intros H g w r Hi Hw. unfold methodHandler. case_bool_decide; [by apply proper_405|by apply H].
Qed.

Lemma proper_switch h1 h2 : proper h1 → proper h2 →
  proper (λ g w r, if bool_decide (Http.Method r = "GET") then h1 g w r
                   else if bool_decide (Http.Method r = "POST") then h2 g w r
                   else (g, Ret (Http.Error "Method Not Allowed" Http.StatusMethodNotAllowed w))).
Proof.
  intros H1 H2 g w r Hi Hw. case_bool_decide; [by apply H1|]. case_bool_decide; [by apply H2|].
  by apply proper_405.
Qed.

(** *** Health endpoints *)

Lemma HealthCheck_answers ok state latency : ∀ svcs p,
  (∀ name addr, (name, addr) ∈ svcs → addr = fixed_address config name) →
  Proxy.wf p → Proxy.live (fixed_address config) p →
  let (p', out) := Proxy.HealthCheck p svcs ok state latency in
  Proxy.wf p' ∧ Proxy.live (fixed_address config) p' ∧
  ∃ hs, out = Ret hs ∧ Proxy.sh_Name <$> hs = svcs.*1.
Proof.
  induction svcs as [|[name addr] svcs IH]; intros p Hf W Hl.
  { cbn. split_and!; [done..|]. by exists []. }
  cbn [Proxy.HealthCheck]. unfold Proxy.check_one.
  rewrite (Hf name addr) by set_solver. rewrite Proxy.GetConnection_connect.
  pose proof (Proxy.wf_connect p name (fixed_address config name) (ok name) W) as W'.
  pose proof (Proxy.live_connect _ p name (ok name) W Hl) as Hl'.
  pose proof (Proxy.connect_answers _ p name (ok name) W Hl) as Hans.
  destruct (Proxy.connect p name _ (ok name)) as [p1 res]. cbn [fst snd] in *.
  specialize (IH p1 ltac:(set_solver) W' Hl'). destruct (Proxy.HealthCheck p1 svcs ok state latency) as [p2 out].
  destruct IH as (W2 & Hl2 & hs & -> & Hn). split_and!; [done..|].
  destruct Hans as [(c & -> & _)|(j & _ & _ & ->)]; cbn [obind]; (eexists; split; [reflexivity|]); cbn; by rewrite Hn.
Qed.

Lemma ServiceStatus_small h : numbers_ok (ServiceStatus h) = true ∧ (depth (ServiceStatus h) ≤ 1)%nat.
Proof.
  unfold ServiceStatus, non_empty. do 2 case_bool_decide; cbn; (split; [done|lia]).
Qed.

Lemma HealthResponse_small status up ts (hs : list Proxy.ServiceHealth) :
  ∃ ms, HealthResponse status up ts (ServiceStatus <$> hs) = JObj ms ∧
    numbers_ok (JObj ms) = true ∧ (depth (JObj ms) ≤ 4)%nat.
Proof.
  eexists. split; [reflexivity|].
  assert (numbers_ok (JArr (ServiceStatus <$> hs)) = true ∧ (depth (JArr (ServiceStatus <$> hs)) ≤ 2)%nat) as [Hn Hd].
  { cbn [numbers_ok depth]. induction hs as [|h hs [IH1 IH2]]; [cbn; split; [done|lia]|].
    destruct (ServiceStatus_small h). cbn -[ServiceStatus]. rewrite H. cbn -[ServiceStatus] in IH2. split; [done|lia]. }
  destruct (ServiceStatus <$> hs) as [|x l]; [cbn; split; [done|lia]|].
  revert Hn Hd. generalize (JArr (x :: l)) as v. intros v Hn Hd. cbn. rewrite Hn. split; [done|lia].
Qed.

(** [Encode] without a status before it sends 200. *)
Lemma Encode_writeJSON v w : unsent w → Encode v (json_type w) = writeJSON Http.StatusOK v w.
Proof.
  intros [Hs _]. unfold writeJSON, Encode, Http.Write, Http.WriteHeader, json_type. cbn. by rewrite Hs.
Qed.

Lemma proper_Liveness h m : proper (Liveness h m).
Proof.
  intros g w r Hi Hw. unfold Liveness. rewrite Encode_writeJSON by done. split; [done|]. left.
  destruct (HealthResponse_small "ok" (uptime h m) (timestamp m) []) as (ms & E & Hn & Hd). cbn [fmap list_fmap] in E.
  rewrite E. apply answers_writeJSON; [done|set_solver|done..].
Qed.

Lemma proper_Status h m : proper (Status h m).
Proof.
  intros g w r Hi Hw. unfold Status. rewrite Encode_writeJSON by done. split; [done|]. left.
  apply answers_writeJSON; [done|set_solver|done|cbn; lia].
Qed.

Lemma proper_Readiness m now :
  (∀ l, mo_order m l ≡ₚ l) → proper (Readiness (NewHealthHandler config now) m).
Proof.
  intros Hperm g w r [W Hl] Hw. unfold Readiness.
  set (svcs := hh_services (NewHealthHandler config now)).
  pose proof (HealthCheck_answers (mo_dial m) (mo_state m) (mo_latency m) (mo_order m svcs) (proxy g)) as H.
  destruct (Proxy.HealthCheck _ _ _ _ _) as [p out].
  destruct H as (W' & Hl' & hs & -> & _); [|done..|].
  { intros name addr Hin. rewrite Hperm in Hin. unfold svcs in Hin. cbn [hh_services NewHealthHandler] in Hin.
    repeat (apply elem_of_cons in Hin as [[= -> ->]|Hin]; [reflexivity|]). by apply elem_of_nil in Hin. }
  cbn [obind]. split; [by split|]. left.
  destruct (HealthResponse_small (if forallb Proxy.sh_Healthy hs then "ok" else "degraded")
              (uptime (NewHealthHandler config now) m) (timestamp m) hs) as (ms & E & Hn & Hd).
  rewrite E. apply (answers_writeJSON (if forallb Proxy.sh_Healthy hs then 200 else 503)); [done| |done..].
  destruct (forallb _ _); set_solver.
Qed.

Lemma proper_routes m now :
  (∀ l, mo_order m l ≡ₚ l) →
  Forall (λ route, proper route.2) (setupRoutes (NewHealthHandler config now) m).
Proof.
  intros Hperm. unfold setupRoutes, secretHandler, keysHandler.
  repeat apply Forall_cons_2; cbn [snd];
    [apply proper_Liveness|by apply proper_Readiness|apply proper_Status|..|apply Forall_nil_2];
    try apply proper_methodHandler.
  - by apply (proper_serve (mo_env m) ELogin).
  - by apply (proper_serve (mo_env m) ELookup).
  - by apply (proper_serve (mo_env m) EEncrypt).
  - by apply (proper_serve (mo_env m) EDecrypt).
  - by apply (proper_serve (mo_env m) ETokenize).
  - by apply (proper_serve (mo_env m) EDetokenize).
  - apply proper_switch; [by apply (proper_serve (mo_env m) EGetSecret)|by apply (proper_serve (mo_env m) EPutSecret)].
  - by apply (proper_serve (mo_env m) EGetSealStatus).
  - by apply (proper_serve (mo_env m) EInitialize).
  - by apply (proper_serve (mo_env m) EUnseal).
  - by apply (proper_serve (mo_env m) ESeal).
  - apply proper_switch; [by apply (proper_serve (mo_env m) EListKeys)|by apply (proper_serve (mo_env m) ECreateKey)].
Qed.

Lemma proper_mux m now : (∀ l, mo_order m l ≡ₚ l) → proper (mux (NewHealthHandler config now) m).
Proof.
  intros Hperm g w r Hi Hw. unfold mux. destruct (bool_decide (Http.Path r = "*")).
  { split; [done|]. right. eexists. split; [done|]. split; [|done]. left.
    destruct Hw as [Hs Hw]. unfold Http.response, Http.WriteHeader. cbn. rewrite Hs. cbn. rewrite Hw. set_solver. }
  destruct (_ && _).
  { split; [done|]. right. eexists. split; [done|]. split; [|done]. left.
    destruct Hw as [Hs Hw]. unfold redirect, Http.response, Http.WriteHeader. cbn. rewrite Hs. cbn. rewrite Hw. set_solver. }
  pose proof (proper_routes m now Hperm) as HF.
  destruct (List.find _ _) as [[path handler]|] eqn:E.
  - apply List.find_some in E as [Hin _]. rewrite Forall_forall in HF. apply list_elem_of_In in Hin.
    by apply (HF _ Hin).
  - split; [done|]. right. eexists. split; [done|]. split; [|done]. left.
    rewrite error_response by done. set_solver.
Qed.

(** One request through the whole chain. *)
Lemma request_answered m now s r :
  inv config (gateway s) → (∀ l, mo_order m l ≡ₚ l) →
  let (s', w) := Handler (NewHealthHandler config now) m s Http.new_writer r in
  inv config (gateway s') ∧ (answers_object (Ret w) ∨ (refused r w ∧ gateway s' = gateway s)).
Proof.
  intros Hi Hperm. unfold Handler, corsMiddleware. case_bool_decide as HO.
  { split; [done|]. right. split; [|done]. right. by split. }
  set (w0 := Http.Header_Set _ _ _). assert (unsent w0) as Hw by done.
  pose proof (proper_mux m now Hperm (gateway s) w0 r Hi Hw) as H.
  unfold recoveryMiddleware, limitMiddleware, loggingMiddleware, RateLimit.HTTPMiddleware.
  destruct (mux _ m (gateway s) w0 r) as [g' out] eqn:E.
  assert (∀ lim, let (s', w) := (let (s0, out0) := ({| gateway := g'; limiter := lim |}, out) in
      (s0, match out0 with Ret w => w | Panic _ => Http.Error "Internal Server Error" Http.StatusInternalServerError w0 end)) in
    inv config (gateway s') ∧ (answers_object (Ret w) ∨ (refused r w ∧ gateway s' = gateway s))) as Hdone.
  { intros lim. destruct H as [Hi' [(w & ms & -> & H)|(w & -> & Hr & ->)]]; (split; [done|]).
    - left. exists w, ms. by split.
    - right. by split. }
  destruct (limiter s) as [rl|]; [|apply Hdone].
  destruct (RateLimit.Allow rl _ _ _) as [rl' [|]]; cbn [negb]; [apply Hdone|].
  split; [done|]. right. split; [|done]. left. rewrite error_response by done. set_solver.
Qed.

(** ** Credentials *)

(** The request without what would identify its sender. *)
Definition anonymous (r : Request) : Request :=
  {| Http.Method := Http.Method r; Http.Path := Http.Path r; Http.RawQuery := Http.RawQuery r;
     Http.Headers := []; Http.Body := Http.Body r; Http.RemoteAddr := ""; Http.Ctx := Http.Ctx r |}.

Lemma mux_anonymous h m g w r : mux h m g w r = mux h m g w (anonymous r).
Proof.
  assert (Forall (λ route, ∀ g w r, route.2 g w r = route.2 g w (anonymous r)) (setupRoutes h m)) as HF
    by (repeat apply Forall_cons_2; try apply Forall_nil_2; done).
  unfold mux. change (Http.Path (anonymous r)) with (Http.Path r).
  change (Http.Method (anonymous r)) with (Http.Method r). change (redirect (anonymous r)) with (redirect r).
  destruct (bool_decide (Http.Path r = "*")); [done|].
  destruct (_ && _); [done|]. destruct (List.find _ _) as [[path handler]|] eqn:E; [|done].
  apply List.find_some in E as [Hin%list_elem_of_In _]. rewrite Forall_forall in HF. by apply (HF _ Hin).
Qed.

Definition unlimited (s : Server) : Server := {| gateway := gateway s; limiter := None |}.

(** C25. The gateway authenticates nobody: a request that the rate limiter lets pass does to
    the gateway and the services, and gets as its answer, exactly what the same request
    does without any header and from no address; initialization, sealing, decryption and
    detokenization are open to everyone. For the same reason nobody can look up a token:
    the answer is always 401, or 429 from the limiter. *)
Theorem credentials_ignored h m s r :
  Http.Ctx r = None →
  let (s', w) := Handler h m s Http.new_writer r in
  let (s0, w0) := Handler h m (unlimited s) Http.new_writer (anonymous r) in
  ((gateway s' = gateway s ∧ Http.status_of w = Http.StatusTooManyRequests) ∨
   (gateway s' = gateway s0 ∧ w = w0)) ∧
  (Http.Method r = "GET" → Http.Path r = "/v1/auth/token/lookup-self" →
   Http.status_of w ∈ [Http.StatusUnauthorized; Http.StatusTooManyRequests]).
Proof.
  intros Hctx. unfold Handler, corsMiddleware.
  change (Http.Method (anonymous r)) with (Http.Method r).
  case_bool_decide as HO; [split; [by right|by rewrite HO]|].
  set (w0 := Http.Header_Set _ _ _). unfold recoveryMiddleware, limitMiddleware, loggingMiddleware, RateLimit.HTTPMiddleware.
  cbn [unlimited limiter gateway].
  assert (Http.Method r = "GET" → Http.Path r = "/v1/auth/token/lookup-self" →
    mux h m (gateway s) w0 r =
      (gateway s, Ret (writeError Http.StatusUnauthorized "not authenticated" w0))) as Hlook.
  { intros Hm Hp. unfold mux. rewrite Hm, Hp, (bool_decide_false (_ = "*")) by done.
    change (List.find _ _) with (Some ("/v1/auth/token/lookup-self", methodHandler "GET" Lookup)).
    rewrite (bool_decide_false (cleanPath _ ≠ _)) by (intros H; by apply H). rewrite andb_false_r.
    unfold methodHandler. rewrite Hm, bool_decide_false by (intros H; by apply H).
    unfold Lookup, GatewayAuth.GetIdentity. by rewrite Hctx. }
  rewrite <- mux_anonymous. destruct (limiter s) as [rl|].
  - destruct (RateLimit.Allow rl _ _ _) as [rl' [|]]; cbn [negb].
    + destruct (mux h m (gateway s) w0 r) as [g' out]. split; [by right|].
      intros Hm Hp. specialize (Hlook Hm Hp) as [= -> ->]. rewrite list_elem_of_In. by left.
    + destruct (mux h m (gateway s) w0 r) as [g' out]. split; [by left|].
      intros _ _. rewrite list_elem_of_In. right. by left.
  - destruct (mux h m (gateway s) w0 r) as [g' out]. split; [by right|].
    intros Hm Hp. specialize (Hlook Hm Hp) as [= -> ->]. rewrite list_elem_of_In. by left.
Qed.
End router.

Section run.
Context {St : Type} {B : Backends St} {L : Limiters}.

Lemma server_start_inv cfg (st : St) s : start cfg st = Ret s → inv (Config.Services cfg) (gateway s).
Proof.
  unfold start. destruct (Config.Enabled _).
  - destruct (RateLimit.NewRateLimiter _ _ _) as [rl [[]|]]; cbn [obind]; [|done]. intros [= <-]. apply inv_start.
  - intros [= <-]. apply inv_start.
Qed.

Lemma run_inv cfg now (s s' : Server (St := St)) :
  inv (Config.Services cfg) (gateway s) →
  rtc (request_step (Config.Services cfg) (NewHealthHandler (Config.Services cfg) now)) s s' →
  inv (Config.Services cfg) (gateway s').
Proof.
  intros Hi H. induction H as [|s1 s2 s3 (m & r & Hperm & <-) _ IH]; [done|]. apply IH.
  pose proof (request_answered (Config.Services cfg) m now s1 r Hi Hperm) as H.
  destruct (Handler _ _ m s1 Http.new_writer r) as [s' w]. apply H.
Qed.

(** C3. Every request is answered, and the recovery middleware never has to: at any point of
    a run of the server that [main] starts, whatever the method, the path, the headers and
    the body are, and whatever the services, the network, the dials and the clocks do, the
    chain answers with a status among 200, 400, 401, 500 and 503 and a body that decodes to a
    JSON object, or refuses the request without any effect on the gateway and the services: a
    redirect (301), 404, 405, 429, 400 with no body for the target [*], or 200 with no body
    for OPTIONS. *)
Theorem every_request_answered cfg (st : St) s0 s now m r :
  start cfg st = Ret s0 →
  let h := NewHealthHandler (Config.Services cfg) now in
  rtc (request_step (Config.Services cfg) h) s0 s → (∀ l, mo_order m l ≡ₚ l) →
  let (s', w) := Handler (Config.Services cfg) h m s Http.new_writer r in
  answers_object (Ret w) ∨ (refused r w ∧ gateway s' = gateway s).
Proof.
  intros Hstart h Hrun Hperm.
  pose proof (run_inv cfg now s0 s (server_start_inv _ _ _ Hstart) Hrun) as Hi.
  pose proof (request_answered (Config.Services cfg) m now s r Hi Hperm) as H.
  fold h in H. destruct (Handler _ h m s Http.new_writer r) as [s' w]. apply H.
Qed.
End run.

(** ** Witnesses *)

#[local] Existing Instance ListLru.ListLru.
#[local] Existing Instance ListLru.ListLru_laws.
#[local] Existing Instance Fpe.ShiftFF1.
#[local] Existing Instance RateLimit.BucketLimiters.

Definition demo_config : Config.GatewayConfig := Config.gateway_Load ∅.

Definition demo_moment : Moment :=
  {| mo_env := System.at_moment 1; mo_limit := (1, 1); mo_uptime := 90 * Second; mo_timestamp := 0;
     mo_order := λ l, l; mo_dial := λ _ _, true; mo_state := λ _, Proxy.IDLE; mo_latency := λ _, 0 |}.

Definition demo_request (method path body : string) : Request :=
  {| Http.Method := method; Http.Path := path; Http.RawQuery := ""; Http.Headers := [("Authorization", "Bearer t")];
     Http.Body := Ok body; Http.RemoteAddr := "10.0.0.1:5000"; Http.Ctx := None |}.

Definition demo_health : HealthHandler := NewHealthHandler (Config.Services demo_config) 0.

Definition demo_start : outcome (Server (St := System.World)) := start demo_config (System.demo_world Lock.demo_vault).

Definition demo_server : Server (St := System.World) :=
  match demo_start with
  | Ret s => s
  | Panic _ => {| gateway := System.demo_gateway Lock.demo_vault; limiter := None |}
  end.

Definition demo_answer (method path body : string) : Z * string :=
  Http.response (Handler (Config.Services demo_config) demo_health demo_moment demo_server Http.new_writer
                   (demo_request method path body)).2.

Example router_runs :
  demo_answer "POST" "/v1/sys/seal-status" "" = (405, "Method Not Allowed" +:+ Http.newline) ∧
  demo_answer "GET" "/v1//sys/../sys/seal-status" "" = (301, "") ∧
  (demo_answer "GET" "/health/ready" "").1 = 200 ∧
  demo_answer "POST" "/v1/sys/seal" "" = (200, encode (JObj [("sealed", JBool true)]) +:+ Http.newline).
Proof. vm_compute. done. Qed.

(** A cleanup interval that is not positive ends the gateway at its start. *)
Example zero_cleanup_interval :
  start (Config.gateway_Load {[ "GATEWAY_RATE_LIMIT_CLEANUP" := "0s" ]}) (System.demo_world Lock.demo_vault) =
    Panic "non-positive interval for NewTicker".
Proof.
  unfold start. set (cfg := Config.gateway_Load _).
  assert (Config.Enabled (Config.RateLimit cfg) = true) as -> by (vm_compute; reflexivity).
  unfold RateLimit.NewRateLimiter, RateLimit.NewTicker.
  assert ((Config.CleanupInterval (Config.RateLimit cfg) <=? 0) = true) as -> by (vm_compute; reflexivity).
  reflexivity.
Qed.

Lemma every_request_answered_witness :
  let (s', w) := Handler (Config.Services demo_config) demo_health demo_moment demo_server Http.new_writer
                   (demo_request "POST" "/v1/sys/init" "{") in
  answers_object (Ret w) ∨
  (refused (demo_request "POST" "/v1/sys/init" "{") w ∧ gateway s' = gateway demo_server).
Proof.
  apply (every_request_answered demo_config (System.demo_world Lock.demo_vault) demo_server demo_server 0
           demo_moment (demo_request "POST" "/v1/sys/init" "{")).
  - reflexivity.
  - apply rtc_refl.
  - intros l. reflexivity.
Defined.

Lemma credentials_ignored_witness :
  Http.status_of (Handler (Config.Services demo_config) demo_health demo_moment demo_server Http.new_writer
                    (demo_request "GET" "/v1/auth/token/lookup-self" "")).2 ∈
    [Http.StatusUnauthorized; Http.StatusTooManyRequests].
Proof.
  pose proof (credentials_ignored (Config.Services demo_config) demo_health demo_moment demo_server
                (demo_request "GET" "/v1/auth/token/lookup-self" "") eq_refl) as H.
  revert H. destruct (Handler _ _ _ demo_server _ _) as [s' w]. destruct (Handler _ _ _ (unlimited _) _ _) as [s0 w0].
  intros [_ H]. exact (H eq_refl eq_refl).
Defined.
End Router.
